(* ===== verification/_CoqProject ===== *)
-Q . S2P
Prelude.v
Coordination.v
Paths.v
Text.v
AclMap.v
Sessions.v
Watches.v
DataTree.v
Store.v
StoreTree.v
StoreOps.v
StoreMulti.v
StoreRequest.v
StoreTheorems.v
Processor.v
ProcessorSteps.v
ProcessorTheorems.v
ProcessorProgress.v
ProcessorRuns.v
Wire.v
WireRequests.v
Pipeline.v
PipelineTheorems.v
WireResponses.v
Framing.v
FramingTheorems.v
Connections.v
ConnectionsTheorems.v
Client.v
ClientTheorems.v
ClientRuns.v
ClientServer.v
Forward.v
ForwardTheorems.v
Replay.v
ReplayTheorems.v
Crc.v
LogSegment.v
LogSegmentTheorems.v
LogSegmentStore.v
LogChain.v
LogCut.v
LogLoad.v
LogTheorems.v
LogStore.v
LogStoreTheorems.v
LogPack.v
SnapshotFormat.v
Snapshot.v
SnapshotLoad.v
SnapshotTheorems.v
SnapshotRoundtrip.v
SnapshotManager.v
SnapshotManagerTheorems.v
StateMachine.v
Converter.v
ConverterTheorems.v
ConverterRuns.v
Cluster.v
ClusterTheorems.v
