(* ===== verification/Prelude.v ===== *)
(** * RaftKeeper: a verification development

    RaftKeeper (src/src) is a coordination service that speaks the ZooKeeper
    protocol and replicates its requests with Raft. A client library sends a
    request in the ZooKeeper wire format; a connection of a server cuts it out of
    the bytes of a socket and hands it to the dispatcher. Reads wait in the
    request processor for the writes of their session; writes are collected in
    batches, on a follower forwarded to the leader, and written to the Raft log.
    What Raft commits is applied, in the order of the log, to a store in memory,
    whose answers and watch notifications go back over the connections. The log
    is kept in segment files; the store is written to snapshots from time to
    time, loaded from the latest one at start, and brought up to date from the
    log. A program converts the files of a ZooKeeper server.

    ** Files

    Foundations.
    - This file: machine integers with their wrap-around ([i32], [i64], [u32],
      [u64]), outcomes ([outcome]: a value, an exception of the code, undefined
      behaviour, or a wait that never ends), the state monad [SM] in which a
      fault keeps the state reached, and [IterOrder].
    - [Coordination]: constants, requests and responses
      (ZooKeeper/ZooKeeperConstants, IKeeper.h, ZooKeeperCommon.h,
      Service/KeeperCommon.h). [Paths]: getParentPath, getBaseName
      (Service/KeeperUtils.cpp). [Text]: the separators and numbers in file names
      (base/common/find_symbols.h).
    - [Wire], [WireRequests], [WireResponses]: ZooKeeper/ZooKeeperIO, the
      writeImpl and readImpl methods of ZooKeeperCommon.cpp, and the format of a
      request in the log (Service/KeeperUtils.cpp). [Crc]: Service/Crc32.cpp.

    The store.
    - [AclMap]: Service/ACLMap. [Sessions]: Service/SessionExpiryQueue and
      Service/SessionManager. [Watches]: Service/WatchManager.
    - [DataTree]: KeeperNode and KeeperNodeMap of Service/KeeperStore.h, and the
      functions of KeeperStore.cpp that dump the tree and rebuild it.
    - [Store]: KeeperStore and the StoreRequest classes of KeeperStore.cpp.
      [StoreTree], [StoreOps], [StoreMulti], [StoreRequest] and [StoreTheorems]
      prove what it promises, from the operations on a tree up to whole runs.

    From the client to the store.
    - [Client]: the client library, ZooKeeper/ZooKeeperImpl and the chroot of
      IKeeper.cpp. [ClientTheorems], [ClientRuns]; [ClientServer] joins its
      transactions to the server.
    - [Framing]: the messages of Service/ConnectionHandler on a socket.
      [Connections]: the handshake and the callbacks of ConnectionHandler and
      KeeperDispatcher. [FramingTheorems], [ConnectionsTheorems].
    - [Processor]: Service/RequestProcessor and RequestsQueue.h, its loop as steps
      between those of other threads. [ProcessorSteps], [ProcessorTheorems],
      [ProcessorProgress], [ProcessorRuns].
    - [Pipeline]: the request threads of Service/KeeperDispatcher,
      Service/RequestAccumulator and the log as they see it, joined to the
      processor. [PipelineTheorems].
    - [Forward]: Service/ForwardRequest, ForwardResponse, ForwardConnection,
      ForwardConnectionHandler and RequestForwarder. [ForwardTheorems].

    The log.
    - [LogSegment]: one segment file (Service/NuRaftLogSegment, LogEntry);
      [LogSegmentStore]: the segments of the log. [LogSegmentTheorems],
      [LogChain], [LogCut], [LogLoad] and [LogTheorems] prove that they implement
      a list of entries, restarts and crashes included.
    - [LogStore]: Service/NuRaftFileLogStore. [LogStoreTheorems], [LogPack].

    Snapshots and the state machine.
    - [SnapshotFormat]: Service/SnapshotCommon and parseObject of
      NuRaftLogSnapshot.cpp. [Snapshot]: the writers and the loader of
      KeeperSnapshotStore. [SnapshotLoad], [SnapshotTheorems] and
      [SnapshotRoundtrip] prove that a snapshot restores the store.
    - [SnapshotManager]: SnapObject and KeeperSnapshotManager with the snapshot
      directory. [SnapshotManagerTheorems].
    - [Replay]: replayLogs of Service/NuRaftStateMachine.cpp as two threads that
      take steps in any order. [ReplayTheorems].
    - [StateMachine]: the other operations of NuRaftStateMachine, and
      Service/LastCommittedIndexManager.

    Around them.
    - [Converter]: Service/ZooKeeperDataReader.cpp and
      programs/converter/RaftKeeperConverter.cpp. [ConverterTheorems],
      [ConverterRuns].
    - [Cluster]: Service/NuRaftStateManager, the changes of the configuration in
      KeeperServer.cpp and KeeperDispatcher.cpp, and the numbers of
      Common/IO/VarInt.h. [ClusterTheorems].

    ** What the theorems show

    - The store: its tree, index of ephemeral nodes, sessions and watches stay
      consistent under every request; transactions are atomic; the end of a
      session removes what it owned; every request gets one answer; refused and
      read-only requests change no node; Create, Remove and Set on each branch.
    - Sessions: the expiry queue never runs into undefined behaviour, and a
      session expires in a window of one interval after its timeout.
    - Watches: the two indexes agree, and a watch fires exactly once.
    - The two-level node map refines one finite map.
    - Codecs: requests, transactions' responses and log entries are read back as
      they were written, and what is read is well-formed.
    - Order: over all interleavings of the threads, committed writes are applied
      in the order of the log, and the requests of a session in the order in
      which they came from its connection; all that was committed is applied.
    - Connections: messages and responses survive any cutting of the bytes by the
      socket; a response reaches a connection that lives. A forwarded request
      arrives as it was sent, and its answer settles it.
    - The client: a callback is called exactly once, an operation that may have
      reached the server is not reported as not done, finalize can always finish,
      and an answer of the server reaches the callback of its request.
    - The log: the segment files, and the store with its cache above them,
      implement a list of entries over appends, overwrites, compaction and
      restarts; flushed entries survive a crash; loading ends for any content.
    - Snapshots: what either writer writes restores the store it was taken from,
      with the objects and the buckets taken in any order, and a batch damaged
      within four consecutive bytes is rejected. A snapshot is found again and
      loaded after a restart; removal keeps the newest; a snapshot sent to
      another server restores the store there.
    - Replay: over all interleavings, what was replayed is a prefix of the log
      that ends at the committed index, and the log store gives the entries it
      reads.
    - Conversion: a snapshot of a ZooKeeper server becomes a consistent store with
      the same nodes; its logs are replayed in order, none that matters left out;
      every file is read to an end.
    - The cluster: the changes computed from new settings lead to the new
      configuration, a change counts as made only when Raft showed it, and a
      saved configuration is loaded again.
    - Runs that show where the code departs from its own intent, among them a
      deadlock in SetWatches, children without a node, an access list lost in a
      rollback, a snapshot that cannot be loaded, a replay that never returns, a
      log that is not durable, a transaction taken for a read, converted nodes
      without their permissions.

    ** Parameters

    - Of the environment: the iteration order of the hash containers
      ([IterOrder]: some permutation of the elements), the wall clock ([now]), the
      pieces in which a socket takes and gives bytes, the results of writes to a
      file and what a crash leaves of it, the callbacks of a client that throw,
      and whether a session is local or the leader alive when a thread asks.
    - Of other code: the hash function of the node map ([hash]), Poco's SHA1 and
      Base64 ([sha1_base64]), NuRaft's formats ([le_serialize], [le_deserialize],
      [le_config], [de_config], [le_state], [de_state]), its result codes, and
      what it shows of the cluster ([RaftView]).
    - The compile-time switch COMPATIBLE_MODE_ZOOKEEPER ([compat]).

    ** Fuel

    - [multi_readImpl] and [deserializeTxnImpl] have the number of bytes left, the
      latter one more: a nested request reads some.
    - [parse_loop] has one more than the length of the file: a turn ends the loop
      or reads the eight bytes of a batch header. [load_loop] has the length of
      the segment: an entry has a header. [nodes_loop] and [log_loop] have one
      more than the bytes left: a turn reads some.
    - [serializeNodeV2] has one more than the size of the tree: the walk descends
      at most once per node.
    - [run_turn] is [2 * parallel + 5] steps, as many as a turn of the loop has.
    The round trips and the termination theorems show that this is enough.

    ** Not modelled

    - NuRaft and Poco, which are not part of the sources: elections, replication
      and the reactor's dependencies; the log of Raft is what [Pipeline] lets
      happen to it.
    - The socket reactor of src/src/Network, which only waits for events: an event
      is a step.
    - Settings, the four-letter commands and the metrics: tables of numbers and
      their text.
    - The blocking wrappers of the client (ZooKeeper.cpp, ZooKeeperNodeCache.cpp),
      which call its methods and wait, and its choice of a server.
    - Memory buffers, which are byte lists here, and general utilities.
    - Threads at a finer grain than a step, which is what a thread does under a
      mutex or between two accesses to shared state. Of the snapshot loader the
      order of objects and buckets is arbitrary, but one object is parsed and one
      bucket filled as a whole.
    - Failures of the file system, except for writes of the log. *)

From Stdlib Require Export ZArith Lia Ascii String.
From stdpp Require Export base gmap strings list option sorting.

#[global] Open Scope string_scope.
#[global] Open Scope list_scope.
#[global] Open Scope Z_scope.

(** ** Machine integers *)

(** The value of [x] stored in a signed [w]-bit integer, two's complement. *)
Definition wrap_s (w x : Z) : Z := (x + 2 ^ (w - 1)) mod 2 ^ w - 2 ^ (w - 1).

(** The value of [x] stored in an unsigned [w]-bit integer. *)
Definition wrap_u (w x : Z) : Z := x mod 2 ^ w.

Definition i32 : Z -> Z := wrap_s 32.
Definition i64 : Z -> Z := wrap_s 64.
Definition u8 : Z -> Z := wrap_u 8.
Definition u32 : Z -> Z := wrap_u 32.
Definition u64 : Z -> Z := wrap_u 64.

(** Membership of the value ranges. *)
Definition in_i32 (x : Z) : Prop := - 2 ^ 31 <= x < 2 ^ 31.
Definition in_i64 (x : Z) : Prop := - 2 ^ 63 <= x < 2 ^ 63.
Definition in_u8 (x : Z) : Prop := 0 <= x < 2 ^ 8.
Definition in_u32 (x : Z) : Prop := 0 <= x < 2 ^ 32.
Definition in_u64 (x : Z) : Prop := 0 <= x < 2 ^ 64.

Ltac unfold_ints :=
  unfold in_i32, in_i64, in_u8, in_u64, i32, i64, u8, u32, u64, wrap_s, wrap_u in *;
  change (2 ^ (32 - 1)) with 2147483648 in *;
  change (2 ^ (64 - 1)) with 9223372036854775808 in *;
  change (2 ^ 31) with 2147483648 in *;
  change (2 ^ 32) with 4294967296 in *;
  change (2 ^ 63) with 9223372036854775808 in *;
  change (2 ^ 64) with 18446744073709551616 in *;
  change (2 ^ 8) with 256 in *.

(** Goals about fixed-width integers: unfold the widths, then [lia] with
    division and modulus. *)
Ltac int_lia := unfold_ints; Z.div_mod_to_equations; lia.

Lemma i32_id x : in_i32 x -> i32 x = x.
Proof. intros; int_lia. Qed.

Lemma i64_id x : in_i64 x -> i64 x = x.
Proof. intros; int_lia. Qed.

Lemma u8_id x : in_u8 x -> u8 x = x.
Proof. intros; int_lia. Qed.

Lemma u64_id x : in_u64 x -> u64 x = x.
Proof. intros; int_lia. Qed.

Lemma i32_range x : in_i32 (i32 x).
Proof. int_lia. Qed.

Lemma i64_range x : in_i64 (i64 x).
Proof. int_lia. Qed.

(** Decrementing undoes incrementing, also across the wrap-around. *)
Lemma i32_succ_pred x : in_i32 x -> i32 (i32 (x + 1) - 1) = x.
Proof. intros; int_lia. Qed.

Lemma i32_pred_succ x : in_i32 x -> i32 (i32 (x - 1) + 1) = x.
Proof. intros; int_lia. Qed.

(** ** Outcomes

    A C++ call returns, throws, or never returns normally. The exception codes
    are the ones of [RK::ErrorCodes] the modelled code uses;
    [Coordination::Exception] carries the numeric [Coordination::Error], and
    [STD_LENGTH_ERROR] is the [std::length_error] of a container asked for more
    than it can ever hold, [POCO_FILE_NOT_FOUND] the exception of Poco for a
    file that is not there, [STD_OVERFLOW_ERROR] that of a NuRaft buffer read
    past its end. *)
Inductive exn :=
| LOGICAL_ERROR
| BAD_ARGUMENTS
| CANNOT_READ_ALL_DATA
| CORRUPTED_LOG
| CORRUPTED_SNAPSHOT
| CHECKSUM_DOESNT_MATCH
| UNKNOWN_FORMAT_VERSION
| SNAPSHOT_OBJECT_INCOMPLETE
| SNAPSHOT_OBJECT_NOT_EXISTS
| SNAPSHOT_NOT_EXISTS
| INVALID_SNAPSHOT_FILE_NAME
| STD_LENGTH_ERROR
| STALE_LOG
| GAP_BETWEEN_SNAPSHOT_AND_LOG
| CANNOT_READ_FROM_FILE_DESCRIPTOR
| CANNOT_WRITE_TO_FILE_DESCRIPTOR
| FILE_DOESNT_EXIST
| INVALID_LOG_SEGMENT_FILE_NAME
| POCO_FILE_NOT_FOUND
| STD_OVERFLOW_ERROR
| STD_BAD_ALLOC
| UNEXPECTED_PACKET_FROM_CLIENT
| UNEXPECTED_FORWARD_PACKET
| TIMEOUT_EXCEEDED
| SYSTEM_ERROR
| NOT_IMPLEMENTED
| INVALID_CONFIG_PARAMETER
| CORRUPTED_DATA
| POCO_NOT_FOUND
| RAFT_ERROR
| ATTEMPT_TO_READ_AFTER_EOF
| KEEPER_EXCEPTION (code : Z).

(** A fault is an exception (which the caller may catch) or the end of the
    process: undefined behaviour (null or end-iterator dereference), an
    explicit [std::terminate]/[abort], or a thread that waits for ever for a
    mutex it holds itself. *)
Inductive fault :=
| Throw (e : exn)
| UndefinedBehaviour
| Terminate
| Deadlock.

Inductive outcome (A : Type) :=
| Ok (a : A)
| Fault (f : fault).
Arguments Ok {A} a.
Arguments Fault {A} f.

#[global] Instance exn_eq_dec : EqDecision exn.
Proof. solve_decision. Defined.
#[global] Instance fault_eq_dec : EqDecision fault.
Proof. solve_decision. Defined.
#[global] Instance outcome_eq_dec {A} `{!EqDecision A} : EqDecision (outcome A).
Proof. solve_decision. Defined.

#[global] Instance outcome_ret : MRet outcome := fun A a => Ok a.
#[global] Instance outcome_bind : MBind outcome := fun A B f m =>
  match m with Ok a => f a | Fault e => Fault e end.
#[global] Instance outcome_fmap : FMap outcome := fun A B f m =>
  match m with Ok a => Ok (f a) | Fault e => Fault e end.

(** ** State with faults

    [SM S A] runs on a state and keeps the state it had reached when a fault
    is raised, because a C++ exception does not roll anything back. *)
Definition SM (S A : Type) : Type := S -> outcome A * S.

Section sm.
Context {S : Type}.

Definition sm_ret {A} (a : A) : SM S A := fun s => (Ok a, s).

Definition sm_bind {A B} (m : SM S A) (k : A -> SM S B) : SM S B := fun s =>
  match m s with
  | (Ok a, s') => k a s'
  | (Fault f, s') => (Fault f, s')
  end.

Definition sm_fault {A} (f : fault) : SM S A := fun s => (Fault f, s).

Definition sm_get {A} (f : S -> A) : SM S A := fun s => (Ok (f s), s).

Definition sm_modify (f : S -> S) : SM S unit := fun s => (Ok tt, f s).

(** Runs a component's operation that faults without a state worth keeping. *)
Definition sm_lift {A} (m : outcome A) : SM S A := fun s => (m, s).

(** Left identity, right identity and associativity, pointwise in the state. *)
Lemma sm_bind_ret_l {A B} (a : A) (k : A -> SM S B) s :
  sm_bind (sm_ret a) k s = k a s.
Proof. reflexivity. Qed.

Lemma sm_bind_ret_r {A} (m : SM S A) s : sm_bind m sm_ret s = m s.
Proof. unfold sm_bind. by destruct (m s) as [[]]. Qed.

Lemma sm_bind_assoc {A B C} (m : SM S A) (f : A -> SM S B) (g : B -> SM S C) s :
  sm_bind (sm_bind m f) g s = sm_bind m (fun a => sm_bind (f a) g) s.
Proof. unfold sm_bind. by destruct (m s) as [[]]. Qed.

(** The two ways a bind ends. *)
Lemma sm_bind_ok {A B} (m : SM S A) (k : A -> SM S B) s b s' :
  sm_bind m k s = (Ok b, s') <->
  exists a s1, m s = (Ok a, s1) /\ k a s1 = (Ok b, s').
Proof. unfold sm_bind. destruct (m s) as [[] ?]; naive_solver. Qed.
End sm.

Declare Scope sm_scope.
Delimit Scope sm_scope with sm.
Notation "x <- m ;; k" := (sm_bind m (fun x => k))
  (at level 100, m at next level, right associativity) : sm_scope.
Notation "m ;;; k" := (sm_bind m (fun _ => k))
  (at level 100, right associativity) : sm_scope.
Arguments sm_ret {S A} a s /.
Arguments sm_bind {S A B} m k s /.
Arguments sm_fault {S A} f s /.
Arguments sm_get {S A} f s /.
Arguments sm_modify {S} f s /.
Arguments sm_lift {S A} m s /.

(** ** Automation *)

Create HintDb rk discriminated.
#[export] Hint Resolve i32_range i64_range : rk.

(** Splits the first [match] or [if] of the goal or of a hypothesis. *)
Ltac split_goal :=
  match goal with
  | |- context [decide ?P] => destruct (decide P)
  | |- context [match ?x with _ => _ end] => destruct x eqn:?
  end.
Ltac split_hyp :=
  match goal with
  | H : context [decide ?P] |- _ => destruct (decide P)
  | H : context [match ?x with _ => _ end] |- _ => destruct x eqn:?
  end.

(** ** Iteration order

    [std::unordered_set] iterates in an unspecified order: whatever the code
    does with one is modelled for any enumeration of its elements. *)
Class IterOrder := {
  iter_Z : gset Z -> list Z;
  iter_str : gset string -> list string;
  iter_Z_perm X : iter_Z X ≡ₚ elements X;
  iter_str_perm X : iter_str X ≡ₚ elements X
}.

(** The order the executable witnesses use. *)
#[export] Program Instance elements_order : IterOrder := {|
  iter_Z := elements;
  iter_str := elements
|}.
Next Obligation. done. Qed.
Next Obligation. done. Qed.

Section iter.
Context `{IterOrder}.

Lemma elem_of_iter_Z X x : x ∈ iter_Z X <-> x ∈ X.
Proof. rewrite iter_Z_perm. apply elem_of_elements. Qed.

Lemma elem_of_iter_str X x : x ∈ iter_str X <-> x ∈ X.
Proof. rewrite iter_str_perm. apply elem_of_elements. Qed.

Lemma NoDup_iter_Z X : NoDup (iter_Z X).
Proof. rewrite iter_Z_perm. apply NoDup_elements. Qed.

Lemma NoDup_iter_str X : NoDup (iter_str X).
Proof. rewrite iter_str_perm. apply NoDup_elements. Qed.
End iter.

(** ** Maps of sets

    [m[k].insert(x)] and the like on a map whose values are sets; reading an
    absent key gives the empty set. *)
Section map_of_sets.
Context {K V : Type} `{Countable K} `{Countable V}.
Implicit Types m : gmap K (gset V).

Definition mset_get (k : K) m : gset V := default ∅ (m !! k).

(** [m[k].insert(x)]: operator[] creates the entry. *)
Definition mset_add (k : K) (x : V) m : gmap K (gset V) :=
  <[k := {[x]} ∪ mset_get k m]> m.

(** [m[k].erase(x)]: operator[] creates the entry, which may stay empty. *)
Definition mset_del (k : K) (x : V) m : gmap K (gset V) :=
  <[k := mset_get k m ∖ {[x]}]> m.

Lemma mset_get_add k x m k' :
  mset_get k' (mset_add k x m) =
  if decide (k = k') then {[x]} ∪ mset_get k m else mset_get k' m.
Proof.
  unfold mset_add, mset_get. rewrite lookup_insert. by case_decide.
Qed.

Lemma mset_get_del k x m k' :
  mset_get k' (mset_del k x m) =
  if decide (k = k') then mset_get k m ∖ {[x]} else mset_get k' m.
Proof.
  unfold mset_del, mset_get. rewrite lookup_insert. by case_decide.
Qed.

Lemma mset_get_insert k X m k' :
  mset_get k' (<[k := X]> m) = if decide (k = k') then X else mset_get k' m.
Proof.
  unfold mset_get. rewrite lookup_insert. by case_decide.
Qed.

Lemma mset_get_delete k m k' :
  mset_get k' (delete k m) = if decide (k = k') then ∅ else mset_get k' m.
Proof.
  unfold mset_get. rewrite lookup_delete. by case_decide.
Qed.

Lemma elem_of_mset_add k x m k' y :
  y ∈ mset_get k' (mset_add k x m) <-> (k = k' /\ y = x) \/ y ∈ mset_get k' m.
Proof. rewrite mset_get_add. case_decide; set_solver. Qed.

Lemma elem_of_mset_del k x m k' y :
  y ∈ mset_get k' (mset_del k x m) <-> y ∈ mset_get k' m /\ ~ (k = k' /\ y = x).
Proof. rewrite mset_get_del. case_decide; set_solver. Qed.
End map_of_sets.

(** ** Filters that keep all, and none *)

Lemma filter_all {A} (P : A -> Prop) `{!forall x, Decision (P x)} (l : list A) : (forall x, x ∈ l -> P x) -> filter P l = l.
Proof.
  induction l as [|x l IH]; intros Hl; [done|]. rewrite filter_cons_True by (apply Hl; by left).
  f_equal. apply IH. intros y Hy. apply Hl. by right.
Qed.

Lemma filter_none {A} (P : A -> Prop) `{!forall x, Decision (P x)} (l : list A) : (forall x, x ∈ l -> ~ P x) -> filter P l = [].
Proof.
  induction l as [|x l IH]; intros Hl; [done|]. rewrite filter_cons_False by (apply Hl; by left).
  apply IH. intros y Hy. apply Hl. by right.
Qed.
