(* ===== verification/Coordination.v ===== *)
(** * The ZooKeeper vocabulary

    The constants, requests and responses of [src/src/ZooKeeper]
    ([ZooKeeperConstants.h/.cpp], [IKeeper.h], [ZooKeeperCommon.h/.cpp]) and the
    envelopes of [src/src/Service/KeeperCommon.h]. *)

From S2P Require Import Prelude.

(** ** Error codes (IKeeper.h)

    [Error] is an [enum class : int32_t] that [read] fills by a cast, so it can
    hold a number that is none of its enumerators ([ZOTHER]). *)
Inductive Error :=
| ZOK
| ZSYSTEMERROR
| ZRUNTIMEINCONSISTENCY
| ZDATAINCONSISTENCY
| ZCONNECTIONLOSS
| ZMARSHALLINGERROR
| ZUNIMPLEMENTED
| ZOPERATIONTIMEOUT
| ZBADARGUMENTS
| ZINVALIDSTATE
| ZAPIERROR
| ZNONODE
| ZNOAUTH
| ZBADVERSION
| ZNOCHILDRENFOREPHEMERALS
| ZNODEEXISTS
| ZNOTEMPTY
| ZSESSIONEXPIRED
| ZINVALIDCALLBACK
| ZINVALIDACL
| ZAUTHFAILED
| ZCLOSING
| ZNOTHING
| ZSESSIONMOVED
| ZOTHER (code : Z).

Definition Error_code (e : Error) : Z :=
  match e with
  | ZOK => 0
  | ZSYSTEMERROR => -1
  | ZRUNTIMEINCONSISTENCY => -2
  | ZDATAINCONSISTENCY => -3
  | ZCONNECTIONLOSS => -4
  | ZMARSHALLINGERROR => -5
  | ZUNIMPLEMENTED => -6
  | ZOPERATIONTIMEOUT => -7
  | ZBADARGUMENTS => -8
  | ZINVALIDSTATE => -9
  | ZAPIERROR => -100
  | ZNONODE => -101
  | ZNOAUTH => -102
  | ZBADVERSION => -103
  | ZNOCHILDRENFOREPHEMERALS => -108
  | ZNODEEXISTS => -110
  | ZNOTEMPTY => -111
  | ZSESSIONEXPIRED => -112
  | ZINVALIDCALLBACK => -113
  | ZINVALIDACL => -114
  | ZAUTHFAILED => -115
  | ZCLOSING => -116
  | ZNOTHING => -117
  | ZSESSIONMOVED => -118
  | ZOTHER code => code
  end.

Definition Error_enumerators : list Error :=
  [ZOK; ZSYSTEMERROR; ZRUNTIMEINCONSISTENCY; ZDATAINCONSISTENCY; ZCONNECTIONLOSS; ZMARSHALLINGERROR;
   ZUNIMPLEMENTED; ZOPERATIONTIMEOUT; ZBADARGUMENTS; ZINVALIDSTATE; ZAPIERROR; ZNONODE; ZNOAUTH;
   ZBADVERSION; ZNOCHILDRENFOREPHEMERALS; ZNODEEXISTS; ZNOTEMPTY; ZSESSIONEXPIRED; ZINVALIDCALLBACK;
   ZINVALIDACL; ZAUTHFAILED; ZCLOSING; ZNOTHING; ZSESSIONMOVED].

(** [Coordination::Error(code)]. *)
Definition Error_of_code (code : Z) : Error :=
  match list_find (fun e => Error_code e = code) Error_enumerators with
  | Some (_, e) => e
  | None => ZOTHER code
  end.

#[export] Instance Error_eq_dec : EqDecision Error.
Proof. solve_decision. Defined.

(** ** Operation numbers (ZooKeeperConstants.h) *)
Inductive OpNum :=
| OpUnspecified
| OpClose
| OpError
| OpCreate
| OpRemove
| OpExists
| OpGet
| OpSet
| OpGetACL
| OpSetACL
| OpSimpleList
| OpSync
| OpHeartbeat
| OpList
| OpCheck
| OpMulti
| OpMultiRead
| OpAuth
| OpSetWatches
| OpNewSession
| OpOldNewSession
| OpFilteredList
| OpCheckNotExists
| OpCreateIfNotExists
| OpUpdateSession.

#[export] Instance OpNum_eq_dec : EqDecision OpNum.
Proof. solve_decision. Defined.

Definition OpNum_code (op : OpNum) : Z :=
  match op with
  | OpUnspecified => -199
  | OpClose => -11
  | OpError => -1
  | OpCreate => 1
  | OpRemove => 2
  | OpExists => 3
  | OpGet => 4
  | OpSet => 5
  | OpGetACL => 6
  | OpSetACL => 7
  | OpSimpleList => 8
  | OpSync => 9
  | OpHeartbeat => 11
  | OpList => 12
  | OpCheck => 13
  | OpMulti => 14
  | OpMultiRead => 22
  | OpAuth => 100
  | OpSetWatches => 101
  | OpNewSession => -10
  | OpOldNewSession => 997
  | OpFilteredList => 500
  | OpCheckNotExists => 501
  | OpCreateIfNotExists => 502
  | OpUpdateSession => 998
  end.

(** [VALID_OPERATIONS]: every enumerator but [Unspecified]. *)
Definition VALID_OPERATIONS : list OpNum :=
  [OpClose; OpError; OpCreate; OpRemove; OpExists; OpGet; OpSet; OpSimpleList; OpSync;
   OpHeartbeat; OpList; OpCheck; OpMulti; OpMultiRead; OpAuth; OpNewSession;
   OpOldNewSession; OpSetWatches; OpSetACL; OpGetACL; OpFilteredList; OpCheckNotExists;
   OpCreateIfNotExists; OpUpdateSession].

(** [getOpNum]: a raw number outside the list throws ZUNIMPLEMENTED. *)
Definition getOpNum (raw_op_num : Z) : outcome OpNum :=
  match list_find (fun op => OpNum_code op = raw_op_num) VALID_OPERATIONS with
  | Some (_, op) => Ok op
  | None => Fault (Throw (KEEPER_EXCEPTION (Error_code ZUNIMPLEMENTED)))
  end.

Definition WATCH_XID : Z := -1.
Definition AUTH_XID : Z := -4.

(** ** Access control (IKeeper.h) *)
Record ACL := mkACL {
  ACL_permissions : Z;
  ACL_scheme : string;
  ACL_id : string
}.

Definition ACL_Read : Z := 1.
Definition ACL_Write : Z := 2.
Definition ACL_Create : Z := 4.
Definition ACL_Delete : Z := 8.
Definition ACL_Admin : Z := 16.
Definition ACL_All : Z := 31.

Record AuthID := mkAuthID {
  AuthID_scheme : string;
  AuthID_id : string
}.

#[export] Instance ACL_eq_dec : EqDecision ACL.
Proof. solve_decision. Defined.
#[export] Instance AuthID_eq_dec : EqDecision AuthID.
Proof. solve_decision. Defined.

#[export] Program Instance ACL_countable : Countable ACL :=
  inj_countable' (fun a => (ACL_permissions a, ACL_scheme a, ACL_id a))
                 (fun p => mkACL p.1.1 p.1.2 p.2) _.
Next Obligation. by intros []. Qed.

(** ** Node statistics (IKeeper.h) *)
Record Stat := mkStat {
  czxid : Z;
  mzxid : Z;
  ctime : Z;
  mtime : Z;
  version : Z;
  cversion : Z;
  aversion : Z;
  ephemeralOwner : Z;
  dataLength : Z;
  numChildren : Z;
  pzxid : Z
}.

(** The value-initialised [Stat{}]. *)
Definition Stat0 : Stat := mkStat 0 0 0 0 0 0 0 0 0 0 0.

(** ** Requests (ZooKeeperCommon.h) *)

(** The fields every [ZooKeeperRequest] has and the server reads. *)
Record RequestHeader := mkRequestHeader {
  xid : Z;
  has_watch : bool
}.

Inductive OperationType :=
| OperationType_Unspecified
| OperationType_Read
| OperationType_Write.

#[export] Instance OperationType_eq_dec : EqDecision OperationType.
Proof. solve_decision. Defined.

(** [ListRequestType] is an [enum class : UInt8] filled by a cast, so any
    byte can occur in it. *)
Definition ListRequestType_ALL : Z := 0.
Definition ListRequestType_PERSISTENT_ONLY : Z := 1.
Definition ListRequestType_EPHEMERAL_ONLY : Z := 2.

Inductive RequestBody :=
| HeartbeatRequest
| SetWatchesRequest (relative_zxid : Z) (data_watches exist_watches list_watches : list string)
| SyncRequest (path : string)
| AuthRequest (type : Z) (scheme data : string)
| CloseRequest
| CreateRequest (path data : string) (is_ephemeral is_sequential : bool)
    (acls : list ACL) (not_exists : bool)
| RemoveRequest (path : string) (version : Z)
| ExistsRequest (path : string)
| GetRequest (path : string)
| SetRequest (path data : string) (version : Z)
| ListRequest (path : string)
| SimpleListRequest (path : string)
| FilteredListRequest (path : string) (list_request_type : Z)
| CheckRequest (path : string) (version : Z) (not_exists : bool)
| SetACLRequest (path : string) (acls : list ACL) (version : Z)
| GetACLRequest (path : string)
| MultiRequest (operation_type : OperationType) (requests : list (RequestHeader * RequestBody))
| NewSessionRequest (internal_id session_timeout_ms server_id : Z)
| UpdateSessionRequest (session_id session_timeout_ms server_id : Z).

Definition ZooKeeperRequest : Type := RequestHeader * RequestBody.

(** [getOpNum()] of the request classes. *)
Definition request_getOpNum (r : RequestBody) : OpNum :=
  match r with
  | HeartbeatRequest => OpHeartbeat
  | SetWatchesRequest _ _ _ _ => OpSetWatches
  | SyncRequest _ => OpSync
  | AuthRequest _ _ _ => OpAuth
  | CloseRequest => OpClose
  | CreateRequest _ _ _ _ _ not_exists => if not_exists then OpCreateIfNotExists else OpCreate
  | RemoveRequest _ _ => OpRemove
  | ExistsRequest _ => OpExists
  | GetRequest _ => OpGet
  | SetRequest _ _ _ => OpSet
  | ListRequest _ => OpList
  | SimpleListRequest _ => OpSimpleList
  | FilteredListRequest _ _ => OpFilteredList
  | CheckRequest _ _ not_exists => if not_exists then OpCheckNotExists else OpCheck
  | SetACLRequest _ _ _ => OpSetACL
  | GetACLRequest _ => OpGetACL
  | MultiRequest OperationType_Read _ => OpMultiRead
  | MultiRequest _ _ => OpMulti
  | NewSessionRequest _ _ _ => OpNewSession
  | UpdateSessionRequest _ _ _ => OpUpdateSession
  end.

(** [getPath()] of the request classes. *)
Definition request_getPath (r : RequestBody) : string :=
  match r with
  | SyncRequest path
  | CreateRequest path _ _ _ _ _
  | RemoveRequest path _
  | ExistsRequest path
  | GetRequest path
  | SetRequest path _ _
  | ListRequest path
  | SimpleListRequest path
  | FilteredListRequest path _
  | CheckRequest path _ _
  | SetACLRequest path _ _
  | GetACLRequest path => path
  | _ => ""
  end.

(** [isReadRequest()] of the request classes. *)
Definition request_isReadRequest (r : RequestBody) : bool :=
  match r with
  | HeartbeatRequest | SetWatchesRequest _ _ _ _ => true
  | ExistsRequest _ | GetRequest _ => true
  | ListRequest _ | SimpleListRequest _ | FilteredListRequest _ _ => true
  | GetACLRequest _ => true
  | MultiRequest _ _ => bool_decide (request_getOpNum r = OpMultiRead)
  | _ => false
  end.

(** ** Responses (ZooKeeperCommon.h) *)

(** The fields every [ZooKeeperResponse] has. *)
Record ResponseHeader := mkResponseHeader {
  error : Error;
  resp_xid : Z;
  resp_zxid : Z;
  request_created_time_ms : Z
}.

Inductive ResponseBody :=
| HeartbeatResponse
| SetWatchesResponse
| SyncResponse (path : string)
| WatchResponse (type state : Z) (path : string)
| AuthResponse
| CloseResponse
| CreateResponse (path_created : string)
| RemoveResponse
| ExistsResponse (stat : Stat)
| GetResponse (data : string) (stat : Stat)
| SetResponse (stat : Stat)
| ListResponse (names : list string) (stat : Stat)
| SimpleListResponse (names : list string)
| CheckResponse
| CheckNotExistsResponse
| ErrorResponse
| SetACLResponse (stat : Stat)
| GetACLResponse (acl : list ACL) (stat : Stat)
| MultiWriteResponse (responses : list (ResponseHeader * ResponseBody))
| MultiReadResponse (responses : list (ResponseHeader * ResponseBody))
| NewSessionResponse (internal_id session_id server_id : Z) (success : bool)
| UpdateSessionResponse (session_id server_id : Z) (success : bool).

Definition ZooKeeperResponse : Type := ResponseHeader * ResponseBody.

Definition ResponseHeader0 : ResponseHeader := mkResponseHeader ZOK 0 0 0.

Definition set_error (e : Error) (r : ZooKeeperResponse) : ZooKeeperResponse :=
  (mkResponseHeader e (resp_xid r.1) (resp_zxid r.1) (request_created_time_ms r.1), r.2).
Definition set_xid (x : Z) (r : ZooKeeperResponse) : ZooKeeperResponse :=
  (mkResponseHeader (error r.1) x (resp_zxid r.1) (request_created_time_ms r.1), r.2).
Definition set_zxid (z : Z) (r : ZooKeeperResponse) : ZooKeeperResponse :=
  (mkResponseHeader (error r.1) (resp_xid r.1) z (request_created_time_ms r.1), r.2).
Definition set_created (t : Z) (r : ZooKeeperResponse) : ZooKeeperResponse :=
  (mkResponseHeader (error r.1) (resp_xid r.1) (resp_zxid r.1) t, r.2).
Definition set_body (b : ResponseBody) (r : ZooKeeperResponse) : ZooKeeperResponse := (r.1, b).

(** [makeResponse()] of the request classes: a value-initialised response of
    the matching class; the session requests copy their identifiers. *)
Fixpoint makeResponse (h : RequestHeader) (r : RequestBody) : ZooKeeperResponse :=
  let sub (rs : list (RequestHeader * RequestBody)) :=
    (fix go (rs : list (RequestHeader * RequestBody)) : list ZooKeeperResponse :=
       match rs with
       | [] => []
       | (h', r') :: rs' => makeResponse h' r' :: go rs'
       end) rs in
  match r with
  | HeartbeatRequest => (ResponseHeader0, HeartbeatResponse)
  | SetWatchesRequest _ _ _ _ => (ResponseHeader0, SetWatchesResponse)
  | SyncRequest _ => (ResponseHeader0, SyncResponse "")
  | AuthRequest _ _ _ => (ResponseHeader0, AuthResponse)
  | CloseRequest => (ResponseHeader0, CloseResponse)
  | CreateRequest _ _ _ _ _ _ => (ResponseHeader0, CreateResponse "")
  | RemoveRequest _ _ => (ResponseHeader0, RemoveResponse)
  | ExistsRequest _ => (ResponseHeader0, ExistsResponse Stat0)
  | GetRequest _ => (ResponseHeader0, GetResponse "" Stat0)
  | SetRequest _ _ _ => (ResponseHeader0, SetResponse Stat0)
  | ListRequest _ | FilteredListRequest _ _ => (ResponseHeader0, ListResponse [] Stat0)
  | SimpleListRequest _ => (ResponseHeader0, SimpleListResponse [])
  | CheckRequest _ _ not_exists =>
      (ResponseHeader0, if not_exists then CheckNotExistsResponse else CheckResponse)
  | SetACLRequest _ _ _ => (ResponseHeader0, SetACLResponse Stat0)
  | GetACLRequest _ => (ResponseHeader0, GetACLResponse [] Stat0)
  | MultiRequest OperationType_Read rs => (ResponseHeader0, MultiReadResponse (sub rs))
  | MultiRequest _ rs => (ResponseHeader0, MultiWriteResponse (sub rs))
  | NewSessionRequest internal_id _ server_id =>
      set_xid (xid h) (ResponseHeader0, NewSessionResponse internal_id 0 server_id false)
  | UpdateSessionRequest session_id _ server_id =>
      set_xid (xid h) (ResponseHeader0, UpdateSessionResponse session_id server_id false)
  end.

(** ** Watch events and states (IKeeper.h) *)
Inductive Event :=
| EVENT_CREATED
| EVENT_DELETED
| EVENT_CHANGED
| EVENT_CHILD.

#[export] Instance Event_eq_dec : EqDecision Event.
Proof. solve_decision. Defined.

Definition Event_code (e : Event) : Z :=
  match e with
  | EVENT_CREATED => 1
  | EVENT_DELETED => 2
  | EVENT_CHANGED => 3
  | EVENT_CHILD => 4
  end.

Definition State_CONNECTED : Z := 3.

(** ** Envelopes (KeeperCommon.h) *)
Record RequestForSession := mkRequestForSession {
  session_id : Z;
  request : ZooKeeperRequest;
  create_time : Z;
  process_time : Z;
  server_id : Z;
  client_id : Z
}.

Definition isForwardRequest (r : RequestForSession) : bool :=
  (-1 <? server_id r) && (-1 <? client_id r).

Definition ResponseForSession : Type := Z * ZooKeeperResponse.

Definition isSessionRequest (opnum : OpNum) : bool :=
  bool_decide (opnum = OpNewSession \/ opnum = OpOldNewSession \/ opnum = OpUpdateSession).

Definition isNewSessionRequest (opnum : OpNum) : bool :=
  bool_decide (opnum = OpNewSession \/ opnum = OpOldNewSession).

(** ** Facts *)

(** An operation number survives the wire: [getOpNum] inverts the enumerator's
    value for every number a peer may send. *)
Lemma getOpNum_code op : op <> OpUnspecified -> getOpNum (OpNum_code op) = Ok op.
Proof. by destruct op. Qed.

Lemma getOpNum_sound raw op : getOpNum raw = Ok op -> OpNum_code op = raw.
Proof.
  unfold getOpNum. destruct (list_find _ _) as [[i op']|] eqn:E; [|done].
  intros [= ->]. by apply list_find_Some in E as (_ & ? & _).
Qed.
