(* ===== verification/Paths.v ===== *)
(** * Node paths

    [getParentPath] and [getBaseName] of [src/src/Service/KeeperUtils.cpp], and
    the canonical form of a path they agree with: the root ["/"], or a sequence
    of non-empty components without a slash, each preceded by a slash. *)

From S2P Require Import Prelude.

Local Infix "+++" := String.append (at level 60, right associativity).
#[local] Arguments String.append : simpl nomatch.

Definition slash : ascii := "/"%char.

(** [std::string::rfind(char)]; [None] is [npos]. *)
Fixpoint rfind (c : ascii) (s : string) : option nat :=
  match s with
  | EmptyString => None
  | String a s' =>
      match rfind c s' with
      | Some n => Some (S n)
      | None => if decide (a = c) then Some 0%nat else None
      end
  end.

(** [std::string::substr(0, n)] and the suffix from position [n]. *)
Fixpoint str_take (n : nat) (s : string) : string :=
  match n, s with
  | O, _ | _, EmptyString => EmptyString
  | S n', String a s' => String a (str_take n' s')
  end.
Fixpoint str_drop (n : nat) (s : string) : string :=
  match n, s with
  | O, _ => s
  | _, EmptyString => EmptyString
  | S n', String _ s' => str_drop n' s'
  end.

(** [std::count(s.begin(), s.end(), c)] *)
Fixpoint str_count (c : ascii) (s : string) : nat :=
  match s with
  | EmptyString => 0
  | String a s' => (if decide (a = c) then 1 else 0) + str_count c s'
  end.

(** [npos + 1] wraps to 0: without a slash the base name is the whole path. *)
Definition getBaseName (path : string) : string :=
  match rfind slash path with
  | Some basename_start => str_drop (S basename_start) path
  | None => path
  end.

(** [rslash_pos > 0] holds for [npos], and [substr(0, npos)] is the whole
    path: a path without a slash is its own parent. *)
Definition getParentPath (path : string) : string :=
  match rfind slash path with
  | Some O => "/"
  | Some rslash_pos => str_take rslash_pos path
  | None => path
  end.

(** ** Canonical paths *)

Definition no_slash (s : string) : Prop := rfind slash s = None.
#[export] Instance no_slash_dec s : Decision (no_slash s) := decide (rfind slash s = None).

Definition valid_name (s : string) : Prop := s <> "" /\ no_slash s.

(** The components of a path, each with its slash. *)
Fixpoint path_raw (l : list string) : string :=
  match l with
  | [] => ""
  | c :: l' => "/" +++ c +++ path_raw l'
  end.

Definition path_of (l : list string) : string :=
  match l with [] => "/" | _ => path_raw l end.

(** The path of the child named [c] of the node with components [l]. *)
Definition child_of (l : list string) (c : string) : string := path_raw l +++ "/" +++ c.

Definition valid_path (p : string) : Prop := exists l, Forall valid_name l /\ p = path_of l.

(** [path + "/" + child], without a second slash under the root. *)
Definition join_path (p c : string) : string :=
  if decide (p = "/") then "/" +++ c else p +++ "/" +++ c.

(** ** String lemmas *)

Lemma app_nil_r_str s : s +++ "" = s.
Proof. induction s; simpl; congruence. Qed.

Lemma app_assoc_str s t u : (s +++ t) +++ u = s +++ t +++ u.
Proof. induction s; simpl; congruence. Qed.

Lemma app_inj_l_str s t u : s +++ t = s +++ u -> t = u.
Proof. induction s; simpl; [done|]. intros [= ?]; auto. Qed.

Lemma length_app_str s t : String.length (s +++ t) = (String.length s + String.length t)%nat.
Proof. induction s; simpl; congruence. Qed.

Lemma str_take_app s t : str_take (String.length s) (s +++ t) = s.
Proof. induction s; simpl; [by destruct t | congruence]. Qed.

Lemma str_drop_app s t : str_drop (String.length s) (s +++ t) = t.
Proof. by induction s. Qed.

Lemma str_take_drop n s : str_take n s +++ str_drop n s = s.
Proof. revert s; induction n; intros []; simpl; congruence. Qed.

Lemma rfind_app c s t :
  rfind c (s +++ t) =
  match rfind c t with
  | Some n => Some (String.length s + n)%nat
  | None => rfind c s
  end.
Proof.
  induction s as [|a s IH]; simpl; [by destruct (rfind c t)|].
  rewrite IH. by destruct (rfind c t).
Qed.

Lemma rfind_split c s n :
  rfind c s = Some n ->
  exists t, s = str_take n s +++ String c t /\ rfind c t = None /\ str_drop (S n) s = t /\
    String.length (str_take n s) = n.
Proof.
  revert n; induction s as [|a s IH]; intros n; simpl; [done|].
  destruct (rfind c s) as [m|] eqn:E.
  - intros [= <-]. destruct (IH m eq_refl) as (t & Hs & Ht & Hd & Hl).
    exists t. cbn [str_take str_drop String.append]. split_and!; [by f_equal|done|done|].
    simpl; by rewrite Hl.
  - case_decide as Hac; [|done]. intros [= <-]. exists s. simpl. by rewrite Hac.
Qed.

Lemma no_slash_app s t : no_slash (s +++ t) <-> no_slash s /\ no_slash t.
Proof. unfold no_slash. rewrite rfind_app. destruct (rfind slash t); naive_solver. Qed.

Lemma not_no_slash_cons s : ~ no_slash ("/" +++ s).
Proof. unfold no_slash; simpl. by destruct (rfind slash s). Qed.

Lemma rfind_child p c : no_slash c -> rfind slash (p +++ "/" +++ c) = Some (String.length p).
Proof.
  intros Hc. rewrite rfind_app. simpl. rewrite Hc. f_equal. lia.
Qed.

(** ** The shape of canonical paths *)

Lemma path_raw_app l k : path_raw (l ++ k) = path_raw l +++ path_raw k.
Proof.
  induction l as [|c l IH]; [done|]. cbn [path_raw app].
  by rewrite IH, !app_assoc_str.
Qed.

Lemma path_of_snoc l c : path_of (l ++ [c]) = child_of l c.
Proof.
  unfold child_of. transitivity (path_raw (l ++ [c])); [by destruct l|].
  rewrite path_raw_app. simpl. by rewrite app_nil_r_str.
Qed.

Lemma length_path_raw l : l <> [] -> (0 < String.length (path_raw l))%nat.
Proof. destruct l; simpl; [done|lia]. Qed.

(** The parent of a child path is the node's path, also for an empty name
    (the path of a sequential node before its number is appended). *)
Lemma getParentPath_child l c : no_slash c -> getParentPath (child_of l c) = path_of l.
Proof.
  intros Hc. unfold getParentPath, child_of. rewrite rfind_child by done.
  destruct l as [|x l]; [done|].
  destruct (String.length (path_raw (x :: l))) as [|n] eqn:E.
  - pose proof (length_path_raw (x :: l) ltac:(done)). lia.
  - rewrite <- E. apply str_take_app.
Qed.

Lemma getBaseName_child l c : no_slash c -> getBaseName (child_of l c) = c.
Proof.
  intros Hc. unfold getBaseName, child_of. rewrite rfind_child by done.
  change (String.length (path_raw l)) with (0 + String.length (path_raw l))%nat.
  replace (S (0 + String.length (path_raw l))) with (String.length (path_raw l +++ "/")).
  - by rewrite <- app_assoc_str, str_drop_app.
  - rewrite length_app_str; simpl; lia.
Qed.

Lemma getParentPath_root : getParentPath "/" = "/".
Proof. done. Qed.

Lemma getBaseName_root : getBaseName "/" = "".
Proof. done. Qed.

Lemma child_of_ne_root l c : no_slash c -> c <> "" -> child_of l c <> "/".
Proof.
  intros Hs Hc E. apply (f_equal getBaseName) in E.
  rewrite getBaseName_child in E by done. done.
Qed.

Lemma path_of_inj l k :
  Forall valid_name l -> Forall valid_name k -> path_of l = path_of k -> l = k.
Proof.
  revert k; induction l as [|c l IH] using rev_ind; intros k Hl Hk E.
  - destruct k as [|d k _] using rev_ind; [done|].
    rewrite path_of_snoc in E. apply Forall_app in Hk as [_ Hd].
    apply Forall_singleton in Hd as [? ?]. symmetry in E.
    by apply child_of_ne_root in E.
  - apply Forall_app in Hl as [Hl Hc]. apply Forall_singleton in Hc as [Hc0 Hc].
    destruct k as [|d k _] using rev_ind.
    + rewrite path_of_snoc in E. by apply child_of_ne_root in E.
    + apply Forall_app in Hk as [Hk Hd]. apply Forall_singleton in Hd as [Hd0 Hd].
      rewrite !path_of_snoc in E.
      assert (c = d) as ->.
      { apply (f_equal getBaseName) in E. by rewrite !getBaseName_child in E. }
      f_equal. apply IH; [done..|].
      apply (f_equal getParentPath) in E. by rewrite !getParentPath_child in E.
Qed.

Lemma join_path_of l c :
  Forall valid_name l -> join_path (path_of l) c = child_of l c.
Proof.
  intros Hl. unfold join_path. destruct l as [|x l]; [done|].
  case_decide as E; [|done]. apply Forall_cons in Hl as [[Hx _] _].
  simpl in E. injection E as E. by destruct x.
Qed.

Lemma valid_path_join p c : valid_path p -> valid_name c -> valid_path (join_path p c).
Proof.
  intros (l & Hl & ->) Hc. exists (l ++ [c]). rewrite path_of_snoc, join_path_of by done.
  split; [|done]. apply Forall_app; split; [done|by apply Forall_singleton].
Qed.

(** A canonical path other than the root splits into a canonical parent and a
    name, and joining them gives it back. *)
Lemma valid_path_inv p :
  valid_path p -> p <> "/" ->
  valid_path (getParentPath p) /\ valid_name (getBaseName p) /\
  join_path (getParentPath p) (getBaseName p) = p.
Proof.
  intros (l & Hl & ->) Hp. destruct l as [|c l _] using rev_ind; [done|].
  apply Forall_app in Hl as [Hl [[Hc0 Hcs] _]%Forall_cons].
  rewrite path_of_snoc, getParentPath_child, getBaseName_child by done.
  split_and!; [by exists l|done|]. by apply join_path_of.
Qed.

Lemma getParentPath_join p c :
  valid_path p -> valid_name c -> getParentPath (join_path p c) = p.
Proof.
  intros (l & Hl & ->) [? ?]. rewrite join_path_of by done. by apply getParentPath_child.
Qed.

Lemma getBaseName_join p c :
  valid_path p -> valid_name c -> getBaseName (join_path p c) = c.
Proof.
  intros (l & Hl & ->) [? ?]. rewrite join_path_of by done. by apply getBaseName_child.
Qed.

Lemma join_path_ne_root p c : valid_path p -> valid_name c -> join_path p c <> "/".
Proof.
  intros (l & Hl & ->) [? ?]. rewrite join_path_of by done. by apply child_of_ne_root.
Qed.

Lemma join_path_ne_self p c : valid_path p -> valid_name c -> join_path p c <> p.
Proof.
  intros (l & Hl & ->) [? ?] E. rewrite join_path_of, <- path_of_snoc in E by done.
  apply path_of_inj in E; [|apply Forall_app; split; [done|by apply Forall_singleton]|done].
  apply (f_equal length) in E. rewrite length_app in E. simpl in E. lia.
Qed.

Lemma join_path_inj p q c d :
  valid_path p -> valid_path q -> valid_name c -> valid_name d ->
  join_path p c = join_path q d -> p = q /\ c = d.
Proof.
  intros Hp Hq Hc Hd E. split.
  - rewrite <- (getParentPath_join p c), E by done. by apply getParentPath_join.
  - rewrite <- (getBaseName_join p c), E by done. by apply getBaseName_join.
Qed.

Lemma valid_path_root : valid_path "/".
Proof. by exists []. Qed.

#[export] Hint Resolve valid_path_join valid_path_root : rk.

(** ** Paths a request may name

    A request path need not be canonical. The parent of a path is canonical as
    soon as it exists in a well-formed tree; then the path itself is, unless it
    starts with two slashes. *)

Definition double_slash (p : string) : bool :=
  match p with
  | String a (String b _) => bool_decide (a = slash) && bool_decide (b = slash)
  | _ => false
  end.

Lemma getParentPath_split a t :
  no_slash t -> getParentPath (a +++ "/" +++ t) = if decide (a = "") then "/" else a.
Proof.
  intros Ht. unfold getParentPath. rewrite rfind_child by done.
  destruct a as [|x a]; [done|]. apply (str_take_app (String x a)).
Qed.

Lemma getBaseName_split a t : no_slash t -> getBaseName (a +++ "/" +++ t) = t.
Proof.
  intros Ht. unfold getBaseName. rewrite rfind_child by done.
  replace (S (String.length a)) with (String.length (a +++ "/")) by (rewrite length_app_str; simpl; lia).
  by rewrite <- app_assoc_str, str_drop_app.
Qed.

Lemma valid_path_slash p : valid_path p -> rfind slash p <> None.
Proof.
  intros (l & Hl & ->). destruct l as [|c l _] using rev_ind; [done|].
  apply Forall_app in Hl as [_ [[_ Hc] _]%Forall_cons]. rewrite path_of_snoc. unfold child_of.
  by rewrite rfind_child.
Qed.

(** A sequential node's number is appended before the path is used. *)
Lemma created_path path suffix :
  valid_path (getParentPath path) -> double_slash path = false -> no_slash suffix ->
  getParentPath (path +++ suffix) = getParentPath path /\
  no_slash (getBaseName (path +++ suffix)) /\
  path +++ suffix = join_path (getParentPath path) (getBaseName (path +++ suffix)).
Proof.
  intros Hv Hd Hs. destruct (rfind slash path) as [n|] eqn:E.
  2:{ apply valid_path_slash in Hv. unfold getParentPath in Hv. by rewrite E in Hv. }
  apply rfind_split in E as (t & Ep & Ht & _ & _). set (a := str_take n path) in *.
  change (path = a +++ "/" +++ t) in Ep. clearbody a. subst path.
  assert (no_slash (t +++ suffix)) as Hts by (by apply no_slash_app).
  rewrite !app_assoc_str.
  rewrite !getParentPath_split, getBaseName_split by done. split; [done|]. split; [done|].
  unfold join_path. destruct (decide (a = "")) as [->|Ha]; [done|].
  case_decide as Er; [|done]. subst a. done.
Qed.
