(* ===== verification/Text.v ===== *)
(** * Numbers and separators in file names

    [splitInto] of [src/base/common/find_symbols.h], and what the names of
    snapshot objects and log segments use of [std::from_chars] and of the
    decimal format. *)

From stdpp Require Import pretty.
From S2P Require Import Prelude Paths.

Local Infix "+++" := String.append (at level 60, right associativity).

(** [fmt::format] of a [UInt64] *)
Definition decimal (x : Z) : string := pretty (Z.to_N x).

Definition underscore : ascii := "_"%char.

(** [splitInto<delimiter>(to, what)]: a delimiter at the end starts no token. *)
Fixpoint splitInto (delimiter : ascii) (what : string) : list string :=
  match what with
  | "" => []
  | String a rest =>
      if decide (a = delimiter) then "" :: splitInto delimiter rest
      else match splitInto delimiter rest with
           | [] => [String a ""]
           | token :: tokens => String a token :: tokens
           end
  end.

Definition digit_of (c : ascii) : option Z :=
  let d := Z.of_N (N_of_ascii c) - 48 in
  if decide (0 <= d <= 9) then Some d else None.

(** The value of the digits [s] starts with. *)
Fixpoint digits_value (s : string) (value : Z) : Z :=
  match s with
  | "" => value
  | String c s' =>
      match digit_of c with
      | Some d => digits_value s' (10 * value + d)
      | None => value
      end
  end.

(** [std::from_chars] into a [UInt64] reads the digits at the start, ignores
    what follows, and fails without a digit or when the value does not fit. *)
Definition from_chars_u64 (s : string) : option Z :=
  match s with
  | "" => None
  | String c _ =>
      if decide (is_Some (digit_of c)) then
        let value := digits_value s 0 in
        if decide (value < 2 ^ 64) then Some value else None
      else None
  end.

(** ** Tokens *)

Definition without (c : ascii) (s : string) : Prop := rfind c s = None.

Lemma without_cons c a s : without c (String a s) <-> a <> c /\ without c s.
Proof.
  unfold without. cbn [rfind]. destruct (rfind c s); [by split; [|intros []]|].
  case_decide; naive_solver.
Qed.

Lemma splitInto_token c s t : without c s -> splitInto c (s +++ String c t) = s :: splitInto c t.
Proof.
  induction s as [|a s IH]; intros Hs; simpl; [by destruct (decide (c = c))|].
  apply without_cons in Hs as [Ha Hs]. by rewrite decide_False, IH.
Qed.

Lemma splitInto_last c s : s <> "" -> without c s -> splitInto c s = [s].
Proof.
  induction s as [|a s IH]; intros Hne Hs; [done|]. apply without_cons in Hs as [Ha Hs].
  cbn [splitInto]. rewrite decide_False by done.
  destruct (decide (s = "")) as [->|]; [done|]. by rewrite IH.
Qed.

(** ** Decimal numbers *)

Lemma digit_of_char d : (d < 10)%N -> digit_of (pretty_N_char d) = Some (Z.of_N d).
Proof.
  intros Hd. assert (d = 0 \/ d = 1 \/ d = 2 \/ d = 3 \/ d = 4 \/ d = 5 \/ d = 6 \/ d = 7 \/ d = 8 \/ d = 9)%N
    as Hcases by lia. by destruct_or! Hcases; subst.
Qed.

Lemma digits_value_go x s : digits_value (pretty_N_go x s) 0 = digits_value s (Z.of_N x).
Proof.
  revert s. induction (N.lt_wf_0 x) as [x _ IH]; intros s.
  destruct (decide (x = 0%N)) as [->|Hx]; [by rewrite pretty_N_go_0|].
  rewrite pretty_N_go_step, IH by first [lia|apply N.div_lt; lia].
  cbn [digits_value]. rewrite digit_of_char by (apply N.mod_lt; lia).
  f_equal. pose proof (N.div_mod x 10). lia.
Qed.

(** No digit is the character [c]. *)
Lemma pretty_without c (n : N) : digit_of c = None -> without c (pretty n).
Proof.
  intros Hc.
  assert (forall x s, without c s -> without c (pretty_N_go x s)) as Hgo.
  { intros x. induction (N.lt_wf_0 x) as [x _ IH]; intros s Hs.
    destruct (decide (x = 0%N)) as [->|Hx]; [by rewrite pretty_N_go_0|].
    rewrite pretty_N_go_step by lia. apply IH; [apply N.div_lt; lia|].
    apply without_cons. split; [|done]. intros E.
    pose proof (digit_of_char (x mod 10) ltac:(apply N.mod_lt; lia)) as Hd. congruence. }
  unfold pretty, pretty_N. case_decide; [|by apply Hgo].
  apply without_cons. split; [|done]. by intros <-.
Qed.

Lemma pretty_N_first (n : N) : exists c s, pretty n = String c s /\ is_Some (digit_of c).
Proof.
  unfold pretty, pretty_N. case_decide as Hn; [by eexists _, _|].
  assert (forall x s, (exists c u, s = String c u /\ is_Some (digit_of c)) \/ x <> 0%N ->
    exists c u, pretty_N_go x s = String c u /\ is_Some (digit_of c)) as Hgo; [|by apply Hgo; right].
  intros x. induction (N.lt_wf_0 x) as [x _ IH]; intros s Hs.
  destruct (decide (x = 0%N)) as [->|Hx]; [rewrite pretty_N_go_0; by destruct Hs|].
  rewrite pretty_N_go_step by lia. apply IH; [apply N.div_lt; lia|]. left.
  eexists _, _. split; [done|]. rewrite digit_of_char by (apply N.mod_lt; lia). done.
Qed.

(** The decimal format of a [UInt64] is read back. *)
Lemma from_chars_pretty n : (Z.of_N n < 2 ^ 64) -> from_chars_u64 (pretty n) = Some (Z.of_N n).
Proof.
  intros Hn. destruct (pretty_N_first n) as (c & s & E & Hd).
  assert (digits_value (pretty n) 0 = Z.of_N n) as Ev.
  { unfold pretty, pretty_N. case_decide as H0; [by subst|]. by rewrite digits_value_go. }
  unfold from_chars_u64. rewrite E in *. rewrite decide_True by done. cbv zeta. rewrite Ev.
  by rewrite decide_True.
Qed.

Lemma pretty_ne (n : N) : pretty n <> "".
Proof. by destruct (pretty_N_first n) as (c & s & -> & _). Qed.
