(* ===== verification/AclMap.v ===== *)
(** * The ACL map

    [ACLMap] of [src/src/Service/ACLMap.h/.cpp]: every distinct access control
    list gets a number, nodes store the number, and a usage counter drops a
    list nobody uses any more. Number 0 stands for the default list
    [world:anyone] with all permissions. *)

From S2P Require Import Prelude Coordination.

Definition ACLs : Type := list ACL.

(** [ACL{ACL::All, "world", "anyone"}] *)
Definition default_acl : ACL := mkACL ACL_All "world" "anyone".

(** [unordered_map<ACLs, uint64_t, ACLsHash, ACLsComparator>] is a map keyed by
    the list itself: [ACLsComparator_eq] shows that the comparator is equality. *)
Record ACLMap := mkACLMap {
  acl_to_num : gmap (list ACL) Z;
  num_to_acl : gmap Z (list ACL);
  usage_counter : gmap Z Z;
  max_acl_id : Z
}.

Definition ACLMap_init : ACLMap := mkACLMap ∅ ∅ ∅ 1.

(** [ACLsComparator::operator()]: sizes first, then field by field. *)
Definition ACLsComparator (left right : list ACL) : bool :=
  if decide (length left <> length right) then false
  else forallb (fun p =>
         bool_decide (ACL_permissions p.1 = ACL_permissions p.2) &&
         bool_decide (ACL_scheme p.1 = ACL_scheme p.2) &&
         bool_decide (ACL_id p.1 = ACL_id p.2)) (combine left right).

Definition convertACLs (acls : list ACL) (m : ACLMap) : Z * ACLMap :=
  if decide (acls = [] \/ acls = [default_acl]) then (0, m)
  else match acl_to_num m !! acls with
       | Some n => (n, m)
       | None =>
           let index := max_acl_id m in
           (index, mkACLMap (<[acls := index]> (acl_to_num m)) (<[index := acls]> (num_to_acl m))
                            (usage_counter m) (u64 (index + 1)))
       end.

Definition convertNumber (acls_id : Z) (m : ACLMap) : outcome (list ACL) :=
  if decide (acls_id = 0) then Ok [default_acl]
  else match num_to_acl m !! acls_id with
       | Some acls => Ok acls
       | None => Fault (Throw LOGICAL_ERROR)
       end.

(** Used when a snapshot is loaded. *)
Definition addMapping (acls_id : Z) (acls : list ACL) (m : ACLMap) : ACLMap :=
  mkACLMap (<[acls := acls_id]> (acl_to_num m)) (<[acls_id := acls]> (num_to_acl m))
           (usage_counter m) (Z.max (u64 (acls_id + 1)) (max_acl_id m)).

Definition addUsage (acl_id count : Z) (m : ACLMap) : ACLMap :=
  if decide (acl_id = 0) then m
  else mkACLMap (acl_to_num m) (num_to_acl m)
         (<[acl_id := u64 (default 0 (usage_counter m !! acl_id) + count)]> (usage_counter m))
         (max_acl_id m).

(** [num_to_acl[acl_id]] default-inserts an empty list when the number is
    unknown, and both entries are erased again. *)
Definition removeUsage (acl_id : Z) (m : ACLMap) : ACLMap :=
  match usage_counter m !! acl_id with
  | None => m
  | Some n =>
      let n' := u64 (n - 1) in
      if decide (n' = 0) then
        let acls := default [] (num_to_acl m !! acl_id) in
        mkACLMap (delete acls (acl_to_num m)) (delete acl_id (num_to_acl m))
                 (delete acl_id (usage_counter m)) (max_acl_id m)
      else
        mkACLMap (acl_to_num m) (num_to_acl m)
                 (<[acl_id := n']> (usage_counter m)) (max_acl_id m)
  end.

Definition ACLMap_reset (m : ACLMap) : ACLMap := ACLMap_init.

(** [mapEquals]: equal sizes, and every entry of the left map in the right. *)
Definition mapEquals {K V} `{Countable K} `{EqDecision V} (l r : gmap K V) : bool :=
  bool_decide (size l = size r) &&
  forallb (fun p => bool_decide (r !! p.1 = Some p.2)) (map_to_list l).

(** [ACLMap::operator==] *)
Definition ACLMap_eqb (l r : ACLMap) : bool :=
  mapEquals (acl_to_num l) (acl_to_num r) &&
  mapEquals (num_to_acl l) (num_to_acl r) &&
  mapEquals (usage_counter l) (usage_counter r) &&
  bool_decide (max_acl_id l = max_acl_id r).

(** ** The comparators decide equality *)

Lemma ACLsComparator_eq left right : ACLsComparator left right = true <-> left = right.
Proof.
  unfold ACLsComparator. case_decide as Hlen; [split; [done|intros ->; by destruct Hlen]|].
  revert right Hlen. induction left as [|a left IH]; intros [|b right]; simpl; intros Hlen; try done.
  rewrite !andb_true_iff, !bool_decide_eq_true, IH by lia.
  destruct a, b; simpl. naive_solver.
Qed.

Lemma mapEquals_eq {K V} `{Countable K} `{EqDecision V} (l r : gmap K V) :
  mapEquals l r = true <-> l = r.
Proof.
  unfold mapEquals. rewrite andb_true_iff, bool_decide_eq_true, forallb_forall.
  split; [|intros ->; split; [done|]].
  - intros [Hsz Hall]. apply map_subseteq_size_eq; [|lia].
    apply map_subseteq_spec. intros k v Hk.
    apply elem_of_map_to_list, list_elem_of_In in Hk.
    apply Hall in Hk. by apply bool_decide_eq_true in Hk.
  - intros [k v] Hk%list_elem_of_In%elem_of_map_to_list. by apply bool_decide_eq_true.
Qed.

Lemma ACLMap_eqb_eq l r : ACLMap_eqb l r = true <-> l = r.
Proof.
  unfold ACLMap_eqb. rewrite !andb_true_iff, !mapEquals_eq, bool_decide_eq_true.
  destruct l, r; simpl. naive_solver.
Qed.

(** ** The invariant

    The two maps are inverse to each other, the numbers in use are non-zero and
    below the next free number, and every used number is known. *)
Record acl_wf (m : ACLMap) : Prop := {
  wf_inverse : forall acls n, acl_to_num m !! acls = Some n <-> num_to_acl m !! n = Some acls;
  wf_range : forall n acls, num_to_acl m !! n = Some acls -> 1 <= n < max_acl_id m;
  wf_next : 1 <= max_acl_id m < 2 ^ 64;
  wf_nonempty : forall n acls, num_to_acl m !! n = Some acls -> acls <> [];
  wf_usage : forall n c, usage_counter m !! n = Some c ->
             1 <= c < 2 ^ 64 /\ is_Some (num_to_acl m !! n)
}.

Lemma acl_wf_init : acl_wf ACLMap_init.
Proof. split; simpl; intros; by simplify_map_eq || lia. Qed.

(** [convertACLs] keeps the invariant as long as the 64-bit number space is
    not exhausted. *)
Lemma acl_wf_convertACLs acls m :
  acl_wf m -> max_acl_id m + 1 < 2 ^ 64 -> acl_wf (convertACLs acls m).2.
Proof.
  intros [Hinv Hr Hn Hne Hu] Hmax. unfold convertACLs.
  case_decide as Hd; [by split|]. destruct (acl_to_num m !! acls) eqn:E; [by split|].
  assert (num_to_acl m !! max_acl_id m = None) as Efresh.
  { destruct (num_to_acl m !! max_acl_id m) eqn:E'; [|done]. apply Hr in E'. lia. }
  rewrite u64_id by (unfold in_u64; lia). split; simpl.
  - intros a n. rewrite !lookup_insert. repeat case_decide; simplify_eq; [done|..].
    + split; [intros [= ?]; congruence|]. intros ?%Hinv. congruence.
    + rewrite Hinv. split; [intros ?%Hr; lia|congruence].
    + apply Hinv.
  - intros n a. rewrite lookup_insert. case_decide; [lia|]. intros ?%Hr. lia.
  - lia.
  - intros n a. rewrite lookup_insert. case_decide; [naive_solver|]. by intros ?%Hne.
  - intros n c [? Hs]%Hu. split; [done|]. rewrite lookup_insert. by case_decide.
Qed.

Lemma acl_wf_addUsage n m :
  acl_wf m -> n = 0 \/ is_Some (num_to_acl m !! n) ->
  default 0 (usage_counter m !! n) + 1 < 2 ^ 64 -> acl_wf (addUsage n 1 m).
Proof.
  intros [Hinv Hr Hn Hne Hu] Hk Hc. unfold addUsage. case_decide; [by split|].
  split; simpl; try done. intros k c. rewrite lookup_insert. case_decide; [|by apply Hu].
  intros [= <-]. subst. split; [|naive_solver].
  assert (0 <= default 0 (usage_counter m !! k)).
  { destruct (usage_counter m !! k) eqn:E; simpl; [|lia]. apply Hu in E. lia. }
  rewrite u64_id; unfold in_u64; lia.
Qed.

Lemma acl_wf_removeUsage n m : acl_wf m -> acl_wf (removeUsage n m).
Proof.
  intros [Hinv Hr Hn Hne Hu]. unfold removeUsage.
  destruct (usage_counter m !! n) as [c|] eqn:E; [|by split].
  apply Hu in E as HuE. destruct HuE as [Hc [acls Hacls]].
  rewrite u64_id by (unfold in_u64; lia). case_decide as H0.
  - rewrite Hacls. simpl. split; simpl; [|..|done| |].
    + intros a k. rewrite !lookup_delete. repeat case_decide; simplify_eq; try done.
      * rewrite <- Hinv in Hacls. split; [done|]. intros ?%Hinv. congruence.
      * split; [|done]. intros ?%Hinv. congruence.
    + intros k a. rewrite lookup_delete. case_decide; [done|]. apply Hr.
    + intros k a. rewrite lookup_delete. case_decide; [done|]. apply Hne.
    + intros k c'. rewrite !lookup_delete. case_decide; [done|]. apply Hu.
  - split; simpl; try done. intros k c'. rewrite lookup_insert.
    case_decide; [|by apply Hu]. intros [= <-]. subst. split; [lia|naive_solver].
Qed.

(** Loading a mapping that is new in both directions keeps the invariant. *)
Lemma acl_wf_addMapping n acls m :
  acl_wf m -> 1 <= n -> n + 1 < 2 ^ 64 -> acls <> [] ->
  num_to_acl m !! n = None -> acl_to_num m !! acls = None -> acl_wf (addMapping n acls m).
Proof.
  intros [Hinv Hr Hn Hne Hu] Hn1 Hn2 Ha E1 E2. unfold addMapping.
  rewrite u64_id by (unfold in_u64; lia). split; simpl.
  - intros a k. rewrite !lookup_insert. repeat case_decide; simplify_eq; [done|..].
    + rewrite <- Hinv. split; congruence.
    + rewrite Hinv. split; congruence.
    + apply Hinv.
  - intros k a. rewrite lookup_insert. case_decide; [lia|]. intros ?%Hr. lia.
  - lia.
  - intros k a. rewrite lookup_insert. case_decide; [naive_solver|]. apply Hne.
  - intros k c [? Hs]%Hu. split; [done|]. rewrite lookup_insert. by case_decide.
Qed.

(** What [convertACLs] promises: the number it returns stands for the list. *)
Lemma convertACLs_known acls m n m' :
  acl_wf m -> convertACLs acls m = (n, m') ->
  n = 0 \/ num_to_acl m' !! n = Some acls.
Proof.
  intros Hwf. unfold convertACLs. case_decide; [intros [= <- _]; by left|].
  destruct (acl_to_num m !! acls) eqn:E; intros [= <- <-]; right.
  - by apply (wf_inverse m).
  - simpl. by rewrite lookup_insert_eq.
Qed.

(** [convertACLs] only adds entries. *)
Lemma convertACLs_mono acls m k a :
  acl_wf m -> num_to_acl m !! k = Some a -> num_to_acl (convertACLs acls m).2 !! k = Some a.
Proof.
  intros Hwf Hk. unfold convertACLs. case_decide; [done|].
  destruct (acl_to_num m !! acls); [done|]. simpl. rewrite lookup_insert_ne; [done|].
  apply (wf_range m) in Hk; [lia|done].
Qed.

Lemma convertACLs_usage acls m : usage_counter (convertACLs acls m).2 = usage_counter m.
Proof. unfold convertACLs. by repeat (case_decide || case_match). Qed.

Lemma num_to_acl_addUsage n c m : num_to_acl (addUsage n c m) = num_to_acl m.
Proof. unfold addUsage. by case_decide. Qed.

(** ** Theorems *)

(** A list turned into a number and back is the same list, also after
    the list was new to the map; the empty list comes back as the default. *)
Theorem acl_roundtrip acls m n m' :
  acl_wf m -> convertACLs acls m = (n, m') ->
  convertNumber n m' = Ok (if decide (acls = []) then [default_acl] else acls).
Proof.
  intros Hwf Hc. pose proof (convertACLs_known _ _ _ _ Hwf Hc) as Hk.
  unfold convertNumber. unfold convertACLs in Hc. case_decide as H0.
  - simplify_eq. destruct H0 as [-> | ->]; by rewrite decide_True.
  - rewrite (decide_False (P := acls = [])) by naive_solver.
    case_decide as Hz; [|by destruct Hk as [? | ->]].
    subst n. exfalso. destruct Hwf as [Hinv Hr Hn Hne Hu].
    destruct (acl_to_num m !! acls) eqn:E; simplify_eq; [|lia].
    apply Hinv, Hr in E. lia.
Qed.

Lemma acl_roundtrip_witness :
  exists n m', convertACLs [mkACL 1 "digest" "a:b"] ACLMap_init = (n, m') /\
    convertNumber n m' = Ok [mkACL 1 "digest" "a:b"].
Proof.
  exists 1, (convertACLs [mkACL 1 "digest" "a:b"] ACLMap_init).2. split; [done|].
  exact (acl_roundtrip [mkACL 1 "digest" "a:b"] ACLMap_init 1 _ acl_wf_init eq_refl).
Defined.
