(* ===== verification/Sessions.v ===== *)
(** * Sessions and their expiry

    [SessionExpiryQueue] ([src/src/Service/SessionExpiryQueue.h/.cpp]) keeps
    the sessions in buckets of rounded expiry times; [SessionManager]
    ([SessionManager.h/.cpp]) allocates session ids and keeps the timeouts.
    The wall clock an operation reads is its argument [now]. An operation that
    dereferences an end iterator gives [UndefinedBehaviour]: the theorems show
    that the invariant rules it out. *)

From S2P Require Import Prelude.

(** ** SessionExpiryQueue *)

Record SessionExpiryQueue := mkExpiryQueue {
  session_to_expiration_time : gmap Z Z;
  expiry_to_sessions : gmap Z (gset Z);
  expiration_interval : Z
}.

Definition SessionExpiryQueue_init (interval : Z) : SessionExpiryQueue := mkExpiryQueue ∅ ∅ interval.

(** [(time / expiration_interval + 1) * expiration_interval] on [int64_t];
    the division truncates towards zero and traps on a zero interval. *)
Definition roundToNextInterval (interval time : Z) : outcome Z :=
  if decide (interval = 0) then Fault UndefinedBehaviour
  else Ok (i64 (i64 (i64 (Z.quot time interval) + 1) * interval)).

(** Takes a session out of its bucket and drops the bucket when it is empty;
    a missing bucket is dereferenced ([prev_set_it->second.empty()]). *)
Definition leave_bucket (session_id time : Z) (buckets : gmap Z (gset Z)) : outcome (gmap Z (gset Z)) :=
  match buckets !! time with
  | None => Fault UndefinedBehaviour
  | Some sessions =>
      let sessions' := sessions ∖ {[session_id]} in
      Ok (if decide (sessions' = ∅) then delete time buckets else <[time := sessions']> buckets)
  end.

(** Adds a session to the bucket, which is created when missing. *)
Definition enter_bucket (session_id time : Z) (buckets : gmap Z (gset Z)) : gmap Z (gset Z) :=
  mset_add time session_id buckets.

Definition expiry_remove (session_id : Z) (q : SessionExpiryQueue) : outcome (bool * SessionExpiryQueue) :=
  match session_to_expiration_time q !! session_id with
  | None => Ok (false, q)
  | Some time =>
      buckets ← leave_bucket session_id time (expiry_to_sessions q);
      Ok (true, mkExpiryQueue (delete session_id (session_to_expiration_time q)) buckets
                              (expiration_interval q))
  end.

Definition setSessionExpirationTime (session_id new_expiry_time : Z) (q : SessionExpiryQueue)
    : outcome SessionExpiryQueue :=
  let times := <[session_id := new_expiry_time]> (session_to_expiration_time q) in
  match session_to_expiration_time q !! session_id with
  | Some prev_expiry_time =>
      if decide (new_expiry_time = prev_expiry_time) then
        Ok (mkExpiryQueue times (expiry_to_sessions q) (expiration_interval q))
      else
        buckets ← leave_bucket session_id prev_expiry_time
                    (enter_bucket session_id new_expiry_time (expiry_to_sessions q));
        Ok (mkExpiryQueue times buckets (expiration_interval q))
  | None =>
      Ok (mkExpiryQueue times (enter_bucket session_id new_expiry_time (expiry_to_sessions q))
                        (expiration_interval q))
  end.

Definition addNewSessionOrUpdate (now session_id timeout_ms : Z) (q : SessionExpiryQueue)
    : outcome SessionExpiryQueue :=
  new_expiry_time ← roundToNextInterval (expiration_interval q) (i64 (now + timeout_ms));
  setSessionExpirationTime session_id new_expiry_time q.

(** The keys of a [std::map<int64_t, _>], in the order it iterates. *)
Definition sorted_keys {V} (m : gmap Z V) : list Z := merge_sort Z.le (elements (dom m)).

(** The loop of [getExpiredSessions]: buckets in ascending order, stopping at
    the first one that is not due. *)
Fixpoint expired_loop `{IterOrder} (now : Z) (keys : list Z) (buckets : gmap Z (gset Z)) : list Z :=
  match keys with
  | [] => []
  | expire_time :: keys' =>
      if expire_time <=? now
      then iter_Z (mset_get expire_time buckets) ++ expired_loop now keys' buckets
      else []
  end.

Definition getExpiredSessions `{IterOrder} (now : Z) (q : SessionExpiryQueue) : list Z :=
  expired_loop now (sorted_keys (expiry_to_sessions q)) (expiry_to_sessions q).

Definition expiry_clear (q : SessionExpiryQueue) : SessionExpiryQueue :=
  mkExpiryQueue ∅ ∅ (expiration_interval q).

(** ** SessionManager *)

Record SessionManager := mkSessionManager {
  session_and_timeout : gmap Z Z;
  session_expiry_queue : SessionExpiryQueue;
  session_id_counter : Z
}.

Definition SessionManager_init (dead_session_check_period_ms : Z) : SessionManager :=
  mkSessionManager ∅ (SessionExpiryQueue_init dead_session_check_period_ms) 1.

Definition set_expiry_queue (q : SessionExpiryQueue) (m : SessionManager) : SessionManager :=
  mkSessionManager (session_and_timeout m) q (session_id_counter m).

(** [unordered_map::emplace]: an existing entry wins. *)
Definition emplace {V} (k : Z) (v : V) (m : gmap Z V) : gmap Z V :=
  match m !! k with Some _ => m | None => <[k := v]> m end.

Definition getSessionID (now session_timeout_ms : Z) (m : SessionManager) : outcome (Z * SessionManager) :=
  let new_id := session_id_counter m in
  q ← addNewSessionOrUpdate now new_id session_timeout_ms (session_expiry_queue m);
  Ok (new_id, mkSessionManager (emplace new_id session_timeout_ms (session_and_timeout m)) q
                               (i64 (new_id + 1))).

(** The timeout argument is ignored: the one of the session's creation stays. *)
Definition updateSessionTimeout (now session_id session_timeout_ms : Z) (m : SessionManager)
    : outcome (bool * SessionManager) :=
  match session_and_timeout m !! session_id with
  | None => Ok (false, m)
  | Some timeout =>
      q ← addNewSessionOrUpdate now session_id timeout (session_expiry_queue m);
      Ok (true, set_expiry_queue q m)
  end.

Definition updateSessionExpirationTime (now session_id : Z) (m : SessionManager) : outcome SessionManager :=
  match session_and_timeout m !! session_id with
  | None => Ok m
  | Some timeout =>
      q ← addNewSessionOrUpdate now session_id timeout (session_expiry_queue m);
      Ok (set_expiry_queue q m)
  end.

Definition sessions_contains (session_id : Z) (m : SessionManager) : bool :=
  bool_decide (is_Some (session_and_timeout m !! session_id)).

Definition expireSession (session_id : Z) (m : SessionManager) : outcome SessionManager :=
  r ← expiry_remove session_id (session_expiry_queue m);
  Ok (mkSessionManager (delete session_id (session_and_timeout m)) r.2 (session_id_counter m)).

Definition setSessionIDCounter (counter : Z) (m : SessionManager) : SessionManager :=
  mkSessionManager (session_and_timeout m) (session_expiry_queue m) counter.

Definition getSessionCount (m : SessionManager) : Z := Z.of_nat (size (session_and_timeout m)).

(** Used when a snapshot is loaded. *)
Definition addSessionID (now session_id session_timeout_ms : Z) (m : SessionManager)
    : outcome SessionManager :=
  q ← addNewSessionOrUpdate now session_id session_timeout_ms (session_expiry_queue m);
  Ok (mkSessionManager (emplace session_id session_timeout_ms (session_and_timeout m)) q
                       (session_id_counter m)).

Definition getDeadSessions `{IterOrder} (now : Z) (m : SessionManager) : list Z :=
  getExpiredSessions now (session_expiry_queue m).

Definition sessionToExpirationTime (m : SessionManager) : gmap Z Z :=
  session_to_expiration_time (session_expiry_queue m).

Definition handleRemoteSession (session_id expiration_time : Z) (m : SessionManager)
    : outcome SessionManager :=
  q ← setSessionExpirationTime session_id expiration_time (session_expiry_queue m);
  Ok (set_expiry_queue q m).

Definition SessionManager_reset (m : SessionManager) : SessionManager :=
  mkSessionManager ∅ (expiry_clear (session_expiry_queue m)) 1.

(** ** The invariant of the queue

    The two maps say the same: a session is in exactly the bucket of its
    expiry time, and no bucket is empty. *)
Record expiry_wf (q : SessionExpiryQueue) : Prop := {
  wf_bucket : forall s t, session_to_expiration_time q !! s = Some t <->
                          s ∈ mset_get t (expiry_to_sessions q);
  wf_no_empty : forall t, expiry_to_sessions q !! t <> Some ∅;
  wf_interval : 0 < expiration_interval q < 2 ^ 63
}.

Lemma expiry_wf_init interval :
  0 < interval < 2 ^ 63 -> expiry_wf (SessionExpiryQueue_init interval).
Proof. split; simpl; [|done..]. intros s t. unfold mset_get. rewrite !lookup_empty. set_solver. Qed.
#[export] Hint Resolve expiry_wf_init : rk.

Lemma expiry_wf_clear q : expiry_wf q -> expiry_wf (expiry_clear q).
Proof. intros []. by apply expiry_wf_init. Qed.

Lemma mset_get_elem {V} `{Countable V} (t : Z) (x : V) (b : gmap Z (gset V)) :
  x ∈ mset_get t b -> exists X, b !! t = Some X /\ x ∈ X.
Proof. unfold mset_get. destruct (b !! t); [naive_solver|set_solver]. Qed.

Lemma leave_bucket_spec s t b :
  s ∈ mset_get t b -> (forall t', b !! t' <> Some ∅) ->
  exists b', leave_bucket s t b = Ok b' /\
    (forall t' s', s' ∈ mset_get t' b' <-> s' ∈ mset_get t' b /\ ~ (t' = t /\ s' = s)) /\
    (forall t', b' !! t' <> Some ∅).
Proof.
  intros (X & HX & Hs)%mset_get_elem Hne. unfold leave_bucket. rewrite HX.
  eexists; split; [done|]. unfold mset_get. split; intros t'.
  - intros s'. case_decide; rewrite ?lookup_delete, ?lookup_insert;
      case_decide; subst; rewrite ?HX; simpl; set_solver.
  - case_decide; rewrite ?lookup_delete, ?lookup_insert; case_decide; naive_solver.
Qed.

Lemma enter_bucket_ne s t b :
  (forall t', b !! t' <> Some ∅) -> forall t', enter_bucket s t b !! t' <> Some ∅.
Proof.
  intros Hne t'. unfold enter_bucket, mset_add. rewrite lookup_insert.
  case_decide; [|done]. intros [= E]. set_solver.
Qed.

(** Setting an expiry time always succeeds, and means just that. *)
Lemma setSessionExpirationTime_spec s t q :
  expiry_wf q ->
  exists q', setSessionExpirationTime s t q = Ok q' /\ expiry_wf q' /\
    session_to_expiration_time q' = <[s := t]> (session_to_expiration_time q) /\
    expiration_interval q' = expiration_interval q.
Proof.
  intros [Hb Hne Hi]. unfold setSessionExpirationTime.
  destruct (session_to_expiration_time q !! s) as [t0|] eqn:E.
  - case_decide as Ht; [subst t0|].
    { eexists; split; [done|]. split; [|done]. split; simpl; try done.
      by rewrite insert_id. }
    destruct (leave_bucket_spec s t0 (enter_bucket s t (expiry_to_sessions q)))
      as (b' & -> & Hb' & Hne'); [|by apply enter_bucket_ne|].
    { apply elem_of_mset_add. right. by apply Hb. }
    eexists; split; [done|]. split; [|done]. split; simpl; try done.
    intros s' t'. rewrite Hb'. unfold enter_bucket. rewrite elem_of_mset_add.
    rewrite lookup_insert. case_decide; subst; rewrite <- Hb; naive_solver.
  - eexists; split; [done|]. split; [|done]. split; simpl; try done; [|by apply enter_bucket_ne].
    intros s' t'. unfold enter_bucket. rewrite elem_of_mset_add, lookup_insert.
    case_decide; subst; rewrite <- Hb; naive_solver.
Qed.

Lemma expiry_remove_spec s q :
  expiry_wf q ->
  exists q', expiry_remove s q = Ok (bool_decide (is_Some (session_to_expiration_time q !! s)), q') /\
    expiry_wf q' /\
    session_to_expiration_time q' = delete s (session_to_expiration_time q) /\
    expiration_interval q' = expiration_interval q.
Proof.
  intros [Hb Hne Hi]. unfold expiry_remove.
  destruct (session_to_expiration_time q !! s) as [t|] eqn:E.
  - destruct (leave_bucket_spec s t (expiry_to_sessions q)) as (b' & -> & Hb' & Hne');
      [by apply Hb|done|]. eexists; split; [done|]. split; [|done].
    split; simpl; try done. intros s' t'. rewrite Hb', lookup_delete, <- Hb.
    case_decide; naive_solver.
  - exists q. split; [done|]. split; [by split|]. by rewrite delete_id.
Qed.

(** ** Rounding *)

(** In range, the rounded time is the next multiple of the interval strictly
    after the given time. *)
Lemma roundToNextInterval_spec interval time :
  0 < interval -> 0 <= time -> time + interval < 2 ^ 63 ->
  exists k, roundToNextInterval interval time = Ok (k * interval) /\
    time < k * interval <= time + interval.
Proof.
  intros Hi Ht Hmax. unfold roundToNextInterval. rewrite decide_False by lia.
  rewrite Z.quot_div_nonneg by lia. exists (time / interval + 1).
  pose proof (Z.div_mod time interval ltac:(lia)) as Hd.
  pose proof (Z.mod_pos_bound time interval Hi) as Hm.
  assert (0 <= time / interval <= time) by (split; [apply Z.div_pos|apply Z.div_le_upper_bound]; nia).
  set (k := time / interval) in *.
  assert (time < (k + 1) * interval <= time + interval) by lia.
  rewrite (i64_id k), (i64_id (k + 1)), i64_id by (unfold in_i64; lia). done.
Qed.

Lemma addNewSessionOrUpdate_total now s timeout q :
  expiry_wf q ->
  exists t q', addNewSessionOrUpdate now s timeout q = Ok q' /\ expiry_wf q' /\
    roundToNextInterval (expiration_interval q) (i64 (now + timeout)) = Ok t /\
    session_to_expiration_time q' = <[s := t]> (session_to_expiration_time q) /\
    expiration_interval q' = expiration_interval q.
Proof.
  intros Hwf. pose proof (wf_interval q Hwf). unfold addNewSessionOrUpdate, roundToNextInterval.
  rewrite decide_False by lia. simpl.
  edestruct setSessionExpirationTime_spec as (q' & -> & ?); [exact Hwf|]. naive_solver.
Qed.

(** ** The expired sessions *)

Lemma expired_loop_elem `{IterOrder} now keys buckets s :
  StronglySorted Z.le keys ->
  s ∈ expired_loop now keys buckets <->
  exists t, t ∈ keys /\ t <= now /\ s ∈ mset_get t buckets.
Proof.
  induction 1 as [|t keys Hs IH Hall]; simpl; [set_solver|].
  destruct (Z.leb_spec t now).
  - rewrite elem_of_app, IH, elem_of_iter_Z. set_solver.
  - split; [set_solver|]. intros (t' & [-> | Hin]%elem_of_cons & Hle & _); [lia|].
    rewrite Forall_forall in Hall. apply Hall in Hin. lia.
Qed.

#[export] Instance Zle_total : Total Z.le.
Proof. intros x y. lia. Qed.
#[export] Instance Zle_trans : Transitive Z.le.
Proof. intros x y z. lia. Qed.

Lemma sorted_keys_sorted {V} (m : gmap Z V) : StronglySorted Z.le (sorted_keys m).
Proof. apply StronglySorted_merge_sort; apply _. Qed.

Lemma sorted_keys_perm {V} (m : gmap Z V) : sorted_keys m ≡ₚ elements (dom m).
Proof. apply merge_sort_Permutation. Qed.

Lemma elem_of_sorted_keys {V} (m : gmap Z V) k : k ∈ sorted_keys m <-> is_Some (m !! k).
Proof. rewrite sorted_keys_perm, elem_of_elements. apply elem_of_dom. Qed.

Lemma NoDup_sorted_keys {V} (m : gmap Z V) : NoDup (sorted_keys m).
Proof. rewrite sorted_keys_perm. apply NoDup_elements. Qed.

Lemma expired_loop_NoDup `{IterOrder} now keys buckets :
  NoDup keys -> StronglySorted Z.le keys ->
  (forall t1 t2 s, s ∈ mset_get t1 buckets -> s ∈ mset_get t2 buckets -> t1 = t2) ->
  NoDup (expired_loop now keys buckets).
Proof.
  intros Hnd Hs Hdisj. induction Hnd as [|t keys Hnin Hnd IH]; simpl; [constructor|].
  apply StronglySorted_inv in Hs as [Hs Hall].
  destruct (t <=? now); [|constructor]. apply NoDup_app. split; [apply NoDup_iter_Z|].
  split; [|by apply IH]. intros s ?%elem_of_iter_Z (t' & ? & _ & ?)%expired_loop_elem; [|done].
  by assert (t = t') as -> by eauto.
Qed.

(** Exactly the sessions whose time has come are reported. *)
Lemma getExpiredSessions_elem `{IterOrder} now q s :
  expiry_wf q ->
  s ∈ getExpiredSessions now q <->
  exists t, session_to_expiration_time q !! s = Some t /\ t <= now.
Proof.
  intros [Hb Hne Hi]. unfold getExpiredSessions.
  rewrite expired_loop_elem by apply sorted_keys_sorted. split.
  - intros (t & _ & ? & ?%Hb). eauto.
  - intros (t & ?%Hb & ?). exists t. split; [|done]. apply elem_of_sorted_keys.
    destruct (mset_get_elem t s (expiry_to_sessions q)) as (X & -> & _); eauto.
Qed.

Lemma getExpiredSessions_NoDup `{IterOrder} now q :
  expiry_wf q -> NoDup (getExpiredSessions now q).
Proof.
  intros [Hb Hne Hi]. apply expired_loop_NoDup;
    [apply NoDup_sorted_keys|apply sorted_keys_sorted|].
  intros t1 t2 s ?%Hb ?%Hb. congruence.
Qed.

(** ** The session manager as a state machine *)

(** The calls the rest of the server makes. *)
Inductive SessionCall :=
| CallGetSessionID (now timeout : Z)
| CallUpdateTimeout (now session_id timeout : Z)
| CallUpdateExpiration (now session_id : Z)
| CallExpire (session_id : Z)
| CallRemote (session_id expiration_time : Z)
| CallAddSession (now session_id timeout : Z)
| CallSetCounter (counter : Z)
| CallReset.

(** One call; the list holds the session id the call allocated, if any. *)
Definition session_call (c : SessionCall) (m : SessionManager) : outcome (list Z * SessionManager) :=
  match c with
  | CallGetSessionID now timeout => r ← getSessionID now timeout m; Ok ([r.1], r.2)
  | CallUpdateTimeout now s timeout => r ← updateSessionTimeout now s timeout m; Ok ([], r.2)
  | CallUpdateExpiration now s => m' ← updateSessionExpirationTime now s m; Ok ([], m')
  | CallExpire s => m' ← expireSession s m; Ok ([], m')
  | CallRemote s t => m' ← handleRemoteSession s t m; Ok ([], m')
  | CallAddSession now s timeout => m' ← addSessionID now s timeout m; Ok ([], m')
  | CallSetCounter c => Ok ([], setSessionIDCounter c m)
  | CallReset => Ok ([], SessionManager_reset m)
  end.

Fixpoint session_calls (cs : list SessionCall) (m : SessionManager) : outcome (list Z * SessionManager) :=
  match cs with
  | [] => Ok ([], m)
  | c :: cs' =>
      r1 ← session_call c m;
      r2 ← session_calls cs' r1.2;
      Ok (r1.1 ++ r2.1, r2.2)
  end.

(** Every known session has an expiry time, so none can linger for ever. *)
Record sessions_wf (m : SessionManager) : Prop := {
  wf_queue : expiry_wf (session_expiry_queue m);
  wf_tracked : forall s, is_Some (session_and_timeout m !! s) ->
               is_Some (session_to_expiration_time (session_expiry_queue m) !! s)
}.

Lemma sessions_wf_init period : 0 < period < 2 ^ 63 -> sessions_wf (SessionManager_init period).
Proof. split; simpl; [by apply expiry_wf_init|]. intros s. rewrite lookup_empty. by intros []. Qed.
#[export] Hint Resolve sessions_wf_init : rk.

Lemma lookup_emplace_is_Some {V} k (v : V) m k' :
  is_Some (emplace k v m !! k') <-> k' = k \/ is_Some (m !! k').
Proof.
  unfold emplace. destruct (m !! k) eqn:E; [split; naive_solver|].
  rewrite lookup_insert_is_Some'. naive_solver.
Qed.

(** Touching a session that is known, or being added, keeps the invariant. *)
Lemma touch_session_wf now s timeout m :
  sessions_wf m ->
  exists t q', addNewSessionOrUpdate now s timeout (session_expiry_queue m) = Ok q' /\ expiry_wf q' /\
    session_to_expiration_time q' = <[s := t]> (session_to_expiration_time (session_expiry_queue m)).
Proof.
  intros [Hq _]. destruct (addNewSessionOrUpdate_total now s timeout _ Hq) as (t & q' & ? & ? & _ & ? & _).
  eauto.
Qed.

Lemma session_call_wf c m :
  sessions_wf m -> exists r, session_call c m = Ok r /\ sessions_wf r.2.
Proof.
  intros Hm. pose proof Hm as [Hq Ht]. destruct c as [now t|now s t|now s|s|s t|now s t|c|]; simpl.
  - unfold getSessionID.
    destruct (touch_session_wf now (session_id_counter m) t m Hm) as (x & q' & -> & Hq' & E).
    eexists; split; [done|]. split; simpl; [done|]. intros s.
    rewrite E, lookup_emplace_is_Some, lookup_insert_is_Some'. naive_solver.
  - unfold updateSessionTimeout. destruct (session_and_timeout m !! s) as [t'|]; [|naive_solver].
    destruct (touch_session_wf now s t' m Hm) as (x & q' & -> & Hq' & E).
    eexists; split; [done|]. split; simpl; [done|]. intros s'.
    rewrite E, lookup_insert_is_Some'. naive_solver.
  - unfold updateSessionExpirationTime. destruct (session_and_timeout m !! s) as [t'|]; [|naive_solver].
    destruct (touch_session_wf now s t' m Hm) as (x & q' & -> & Hq' & E).
    eexists; split; [done|]. split; simpl; [done|]. intros s'.
    rewrite E, lookup_insert_is_Some'. naive_solver.
  - unfold expireSession. destruct (expiry_remove_spec s _ Hq) as (q' & -> & Hq' & E & _).
    eexists; split; [done|]. split; simpl; [done|]. intros s'.
    rewrite E, !lookup_delete_is_Some. naive_solver.
  - unfold handleRemoteSession.
    destruct (setSessionExpirationTime_spec s t _ Hq) as (q' & -> & Hq' & E & _).
    eexists; split; [done|]. split; simpl; [done|]. intros s'.
    rewrite E, lookup_insert_is_Some'. naive_solver.
  - unfold addSessionID. destruct (touch_session_wf now s t m Hm) as (x & q' & -> & Hq' & E).
    eexists; split; [done|]. split; simpl; [done|]. intros s'.
    rewrite E, lookup_emplace_is_Some, lookup_insert_is_Some'. naive_solver.
  - eexists; split; [done|]. by split.
  - eexists; split; [done|]. split; simpl; [by apply expiry_wf_clear|].
    intros s. rewrite lookup_empty. by intros [].
Qed.

Lemma session_calls_wf cs m :
  sessions_wf m -> exists r, session_calls cs m = Ok r /\ sessions_wf r.2.
Proof.
  revert m. induction cs as [|c cs IH]; intros m Hm; simpl; [eauto|].
  destruct (session_call_wf c m Hm) as (r1 & -> & H1). simpl.
  destruct (IH _ H1) as (r2 & -> & H2). simpl. eauto.
Qed.

(** The calls made while serving; the others load a snapshot. *)
Definition serving_call (c : SessionCall) : bool :=
  match c with
  | CallGetSessionID _ _ | CallUpdateTimeout _ _ _ | CallUpdateExpiration _ _
  | CallExpire _ | CallRemote _ _ => true
  | _ => false
  end.

Lemma session_call_ids c m ids m' :
  serving_call c = true -> in_i64 (session_id_counter m) ->
  session_call c m = Ok (ids, m') ->
  (ids = [] /\ session_id_counter m' = session_id_counter m) \/
  (ids = [session_id_counter m] /\ session_id_counter m' = i64 (session_id_counter m + 1)).
Proof.
  intros Hserv Hc. destruct c; try done; simpl;
    unfold getSessionID, updateSessionTimeout, updateSessionExpirationTime, expireSession,
      handleRemoteSession, mbind, outcome_bind;
    repeat case_match; intros; simplify_eq; simpl; auto.
Qed.

Lemma session_calls_ids cs m ids m' :
  Forall (fun c => serving_call c = true) cs ->
  1 <= session_id_counter m -> session_id_counter m + Z.of_nat (length cs) < 2 ^ 63 ->
  session_calls cs m = Ok (ids, m') ->
  StronglySorted Z.lt ids /\ Forall (fun s => session_id_counter m <= s) ids.
Proof.
  intros Hserv. revert m ids. induction Hserv as [|c cs Hc Hcs IH]; intros m ids H1 H2; simpl in *.
  { intros [= <- <-]. split; constructor. }
  destruct (session_call c m) as [[ids1 m1]|] eqn:E1; simpl; [|done].
  destruct (session_calls cs m1) as [[ids2 m2]|] eqn:E2; simpl; [|done]. intros [= <- <-].
  apply session_call_ids in E1; [|done|unfold in_i64; lia].
  destruct E1 as [[-> Hn]|[-> Hn]]; simpl.
  - rewrite <- Hn. eapply IH; [lia|lia|done].
  - rewrite i64_id in Hn by (unfold in_i64; lia).
    destruct (IH m1 ids2 ltac:(lia) ltac:(lia) E2) as [Hs Hall].
    assert (Forall (fun s => session_id_counter m < s) ids2)
      by (eapply Forall_impl; [exact Hall|simpl; lia]).
    split; [by constructor|]. constructor; [lia|]. eapply Forall_impl; [exact Hall|simpl; lia].
Qed.

(** ** Theorems *)

(** Whatever sequence of calls the session manager has served, no call
    runs into undefined behaviour, and every session it knows has an expiry
    time, so that it is reported dead once that time has come. *)
Theorem session_manager_reachable `{IterOrder} period cs :
  0 < period < 2 ^ 63 ->
  exists ids m, session_calls cs (SessionManager_init period) = Ok (ids, m) /\
    forall s, sessions_contains s m = true ->
      exists t, sessionToExpirationTime m !! s = Some t /\
        forall now, s ∈ getDeadSessions now m <-> t <= now.
Proof.
  intros Hp. destruct (session_calls_wf cs _ (sessions_wf_init period Hp)) as ([ids m] & -> & [Hq Ht]).
  exists ids, m. split; [done|]. intros s Hs%bool_decide_eq_true.
  destruct (Ht s Hs) as [t Et]. exists t. split; [done|]. intros now.
  unfold getDeadSessions. rewrite getExpiredSessions_elem by done. naive_solver.
Qed.

Lemma session_manager_reachable_witness :
  exists ids m, session_calls [CallGetSessionID 1000 30000; CallUpdateExpiration 2000 1; CallExpire 7]
                  (SessionManager_init 500) = Ok (ids, m) /\
    sessions_contains 1 m = true /\ sessionToExpirationTime m !! 1 = Some 32500.
Proof.
  destruct (session_manager_reachable 500
    [CallGetSessionID 1000 30000; CallUpdateExpiration 2000 1; CallExpire 7] ltac:(lia))
    as (ids & m & E & _).
  exists ids, m. split; [exact E|]. vm_compute in E. injection E as _ <-. by vm_compute.
Defined.

(** The queue reports exactly the sessions whose expiry time has been
    reached, each once, although it stops at the first bucket that is not due. *)
Theorem expired_sessions_exact `{IterOrder} now q :
  expiry_wf q ->
  NoDup (getExpiredSessions now q) /\
  forall s, s ∈ getExpiredSessions now q <->
    exists t, session_to_expiration_time q !! s = Some t /\ t <= now.
Proof.
  intros Hq. split; [by apply getExpiredSessions_NoDup|].
  intros s. by apply getExpiredSessions_elem.
Qed.

Lemma expired_sessions_exact_witness :
  NoDup (getExpiredSessions 10 (SessionExpiryQueue_init 500)).
Proof.
  exact (proj1 (expired_sessions_exact 10 (SessionExpiryQueue_init 500)
                  (expiry_wf_init 500 ltac:(lia)))).
Defined.

(** C26: a session touched at time [now] is not reported dead before its timeout
    has passed, and is reported dead at most one check interval later, unless
    it is touched again. *)
Theorem session_expiry_window `{IterOrder} now s timeout q :
  expiry_wf q -> 0 <= now -> 0 <= timeout ->
  now + timeout + expiration_interval q < 2 ^ 63 ->
  exists q', addNewSessionOrUpdate now s timeout q = Ok q' /\ expiry_wf q' /\
    forall later,
      (later <= now + timeout -> s ∉ getExpiredSessions later q') /\
      (now + timeout + expiration_interval q <= later -> s ∈ getExpiredSessions later q').
Proof.
  intros Hq Hn Ht Hmax. pose proof (wf_interval q Hq).
  destruct (addNewSessionOrUpdate_total now s timeout q Hq) as (t & q' & -> & Hq' & Hr & E & _).
  exists q'. split; [done|]. split; [done|].
  rewrite i64_id in Hr by (unfold in_i64; lia).
  destruct (roundToNextInterval_spec (expiration_interval q) (now + timeout)) as (k & Hk & Hb); [lia..|].
  rewrite Hr in Hk. injection Hk as ->. intros later.
  rewrite getExpiredSessions_elem by done. rewrite E, lookup_insert_eq.
  split; [intros ? (? & [= <-] & ?); lia|]. intros. eexists; split; [done|lia].
Qed.

Lemma session_expiry_window_witness :
  exists q', addNewSessionOrUpdate 1000 7 30000 (SessionExpiryQueue_init 500) = Ok q' /\
    (7 ∉ getExpiredSessions 31000 q') /\ 7 ∈ getExpiredSessions 31500 q'.
Proof.
  destruct (session_expiry_window 1000 7 30000 (SessionExpiryQueue_init 500)
    (expiry_wf_init 500 ltac:(lia)) ltac:(lia) ltac:(lia) ltac:(simpl; lia)) as (q' & E & _ & H).
  exists q'. split; [exact E|]. split; [apply (H 31000); lia|apply (H 31500); simpl; lia].
Defined.

(** Session ids are never handed out twice: the ids allocated by any
    sequence of calls made while serving increase strictly. *)
Theorem session_ids_increase period cs ids m :
  Forall (fun c => serving_call c = true) cs -> Z.of_nat (length cs) < 2 ^ 63 - 1 ->
  session_calls cs (SessionManager_init period) = Ok (ids, m) ->
  StronglySorted Z.lt ids /\ Forall (fun s => 1 <= s) ids.
Proof.
  intros Hs Hlen Hc.
  apply (session_calls_ids cs (SessionManager_init period) ids m Hs); [done| |exact Hc]. simpl. lia.
Qed.

Lemma session_ids_increase_witness : StronglySorted Z.lt [1; 2].
Proof.
  set (cs := [CallGetSessionID 0 10; CallExpire 1; CallGetSessionID 5 10]).
  destruct (session_calls cs (SessionManager_init 500)) as [[ids m]|f] eqn:E; [|by vm_compute in E].
  assert (ids = [1; 2]) as <- by (vm_compute in E; congruence).
  refine (proj1 (session_ids_increase 500 cs ids m _ _ E)); [|simpl; lia].
  by repeat constructor.
Defined.
