(* ===== verification/Watches.v ===== *)
(** * Watches

    [WatchManager] of [src/src/Service/WatchManager.h/.cpp]: who watches the
    data or the children of which path, in both directions. The mutex is part
    of the state: [std::mutex] is not recursive, so that a function that takes
    it while it is held waits for ever ([Deadlock]). *)

From S2P Require Import Prelude Coordination Paths.

(** [WatchType]: one bit each. *)
Inductive WatchType := WatchType_List | WatchType_Data.

Definition WatchType_bit (t : WatchType) : Z :=
  match t with WatchType_List => 1 | WatchType_Data => 2 end.

Record WatchManager := mkWatchManager {
  sessions_and_watchers : gmap Z (gmap string Z);
  watches : gmap string (gset Z);
  list_watches : gmap string (gset Z);
  watch_mutex : bool
}.

Definition WatchManager_init : WatchManager := mkWatchManager ∅ ∅ ∅ false.

(** [std::lock_guard lock(watch_mutex)] and its destructor. *)
Definition watch_lock (m : WatchManager) : outcome WatchManager :=
  if watch_mutex m then Fault Deadlock
  else Ok (mkWatchManager (sessions_and_watchers m) (watches m) (list_watches m) true).

Definition watch_unlock (m : WatchManager) : WatchManager :=
  mkWatchManager (sessions_and_watchers m) (watches m) (list_watches m) false.

(** [sessions_and_watchers[session_id][path]], the bits of one entry. *)
Definition watch_bits (sw : gmap Z (gmap string Z)) (session_id : Z) (path : string) : Z :=
  default 0 (default ∅ (sw !! session_id) !! path).

(** [sessions_and_watchers[session_id][path] |= type] *)
Definition set_bit (t : WatchType) (session_id : Z) (path : string) (sw : gmap Z (gmap string Z))
    : gmap Z (gmap string Z) :=
  <[session_id := <[path := Z.lor (watch_bits sw session_id path) (WatchType_bit t)]>
                    (default ∅ (sw !! session_id))]> sw.

(** [if ((sessions_and_watchers[session_id][path] ^= type) == 0) erase(path)] *)
Definition flip_bit (t : WatchType) (session_id : Z) (path : string) (sw : gmap Z (gmap string Z))
    : gmap Z (gmap string Z) :=
  let bits := Z.lxor (watch_bits sw session_id path) (WatchType_bit t) in
  let paths := default ∅ (sw !! session_id) in
  <[session_id := if decide (bits = 0) then delete path paths else <[path := bits]> paths]> sw.

(** Adds one watch of the given kind. *)
Definition add_watch (t : WatchType) (path : string) (session_id : Z) (m : WatchManager) : WatchManager :=
  let sw := set_bit t session_id path (sessions_and_watchers m) in
  match t with
  | WatchType_Data => mkWatchManager sw (mset_add path session_id (watches m)) (list_watches m) (watch_mutex m)
  | WatchType_List => mkWatchManager sw (watches m) (mset_add path session_id (list_watches m)) (watch_mutex m)
  end.

Definition watches_type (opnum : OpNum) : WatchType :=
  if decide (opnum = OpList \/ opnum = OpSimpleList \/ opnum = OpFilteredList)
  then WatchType_List else WatchType_Data.

Definition registerWatches (path : string) (session_id : Z) (opnum : OpNum) (m : WatchManager)
    : outcome WatchManager :=
  m ← watch_lock m;
  Ok (watch_unlock (add_watch (watches_type opnum) path session_id m)).

(** The notification: a [ZooKeeperWatchResponse]. *)
Definition watch_response (event_type : Event) (path : string) : ZooKeeperResponse :=
  (mkResponseHeader ZOK WATCH_XID (-1) 0, WatchResponse (Event_code event_type) State_CONNECTED path).

(** The sessions that watch [path], with the other kind's map untouched. *)
Definition watchers (t : WatchType) (path : string) (m : WatchManager) : gset Z :=
  match t with
  | WatchType_Data => mset_get path (watches m)
  | WatchType_List => mset_get path (list_watches m)
  end.

(** [it = watches.find(path); if (it != end) { notify; unregister; erase(it) }],
    for either map. *)
Definition fire `{IterOrder} (t : WatchType) (path : string) (event_type : Event) (m : WatchManager)
    : list ResponseForSession * WatchManager :=
  let sessions := iter_Z (watchers t path m) in
  let sw := foldl (fun sw s => flip_bit t s path sw) (sessions_and_watchers m) sessions in
  ((fun s => (s, watch_response event_type path)) <$> sessions,
   match t with
   | WatchType_Data => mkWatchManager sw (delete path (watches m)) (list_watches m) (watch_mutex m)
   | WatchType_List => mkWatchManager sw (watches m) (delete path (list_watches m)) (watch_mutex m)
   end).

(** [paths_to_check_for_list_watches]: a CHANGED event triggers none. *)
Definition paths_to_check (path : string) (event_type : Event) : list string :=
  match event_type with
  | EVENT_CREATED => [getParentPath path]
  | EVENT_DELETED => [path; getParentPath path]
  | _ => []
  end.

Fixpoint fire_lists `{IterOrder} (parent_path : string) (paths : list string) (m : WatchManager)
    : list ResponseForSession * WatchManager :=
  match paths with
  | [] => ([], m)
  | path_to_check :: paths' =>
      let event_type := if decide (path_to_check = parent_path) then EVENT_CHILD else EVENT_DELETED in
      let r1 := fire WatchType_List path_to_check event_type m in
      let r2 := fire_lists parent_path paths' r1.2 in
      (r1.1 ++ r2.1, r2.2)
  end.

Definition processWatches `{IterOrder} (path : string) (event_type : Event) (m : WatchManager)
    : outcome (list ResponseForSession * WatchManager) :=
  m ← watch_lock m;
  let r1 := fire WatchType_Data path event_type m in
  let r2 := fire_lists (getParentPath path) (paths_to_check path event_type) r1.2 in
  Ok (r1.1 ++ r2.1, watch_unlock r2.2).

(** The overload on operation numbers. *)
Definition processWatches_op `{IterOrder} (path : string) (opnum : OpNum) (m : WatchManager)
    : outcome (list ResponseForSession * WatchManager) :=
  match opnum with
  | OpCreate => processWatches path EVENT_CREATED m
  | OpRemove => processWatches path EVENT_DELETED m
  | OpSet => processWatches path EVENT_CHANGED m
  | _ => Ok ([], m)
  end.

(** ** SetWatches *)

(** mzxid and pzxid of the nodes a SetWatches request names. *)
Definition WatchNodesInfo : Type := gmap string (Z * Z).

(** The event a watch of a SetWatches request has missed, if any. *)
Definition missed_data (info : WatchNodesInfo) (relative_zxid : Z) (path : string) : option Event :=
  match info !! path with
  | None => Some EVENT_DELETED
  | Some (mzxid, _) => if relative_zxid <? mzxid then Some EVENT_CHANGED else None
  end.

Definition missed_exist (info : WatchNodesInfo) (path : string) : option Event :=
  match info !! path with Some _ => Some EVENT_CREATED | None => None end.

Definition missed_list (info : WatchNodesInfo) (relative_zxid : Z) (path : string) : option Event :=
  match info !! path with
  | None => Some EVENT_DELETED
  | Some (_, pzxid) => if relative_zxid <? pzxid then Some EVENT_CHILD else None
  end.

(** One of the three loops: register, then call [processWatches] for a missed
    event; the caller's lock is still held. *)
Fixpoint set_watch_loop `{IterOrder} (t : WatchType) (missed : string -> option Event)
    (session_id : Z) (paths : list string) (m : WatchManager)
    : outcome (list ResponseForSession * WatchManager) :=
  match paths with
  | [] => Ok ([], m)
  | path :: paths' =>
      let m := add_watch t path session_id m in
      r1 ← match missed path with
           | Some event_type => processWatches path event_type m
           | None => Ok ([], m)
           end;
      r2 ← set_watch_loop t missed session_id paths' r1.2;
      Ok (r1.1 ++ r2.1, r2.2)
  end.

Definition processRequestSetWatch `{IterOrder} (session_id relative_zxid : Z)
    (data_watches exist_watches list_watches : list string) (info : WatchNodesInfo)
    (m : WatchManager) : outcome (list ResponseForSession * WatchManager) :=
  m ← watch_lock m;
  r1 ← set_watch_loop WatchType_Data (missed_data info relative_zxid) session_id data_watches m;
  r2 ← set_watch_loop WatchType_Data (missed_exist info) session_id exist_watches r1.2;
  r3 ← set_watch_loop WatchType_List (missed_list info relative_zxid) session_id list_watches r2.2;
  Ok (r1.1 ++ r2.1 ++ r3.1, watch_unlock r3.2).

(** ** Sessions that end *)

(** [find(path)], drop the session, drop the set when it is empty. *)
Definition drop_watcher (session_id : Z) (path : string) (w : gmap string (gset Z)) : gmap string (gset Z) :=
  match w !! path with
  | None => w
  | Some sessions =>
      let sessions' := sessions ∖ {[session_id]} in
      if decide (sessions' = ∅) then delete path w else <[path := sessions']> w
  end.

(** The order in which the session's paths are visited does not matter:
    [cleanDeadWatches_spec]. *)
Definition cleanDeadWatches (session_id : Z) (m : WatchManager) : outcome WatchManager :=
  m ← watch_lock m;
  Ok (watch_unlock
    match sessions_and_watchers m !! session_id with
    | None => m
    | Some paths =>
        let ps := (map_to_list paths).*1 in
        mkWatchManager (delete session_id (sessions_and_watchers m))
          (foldl (fun w p => drop_watcher session_id p w) (watches m) ps)
          (foldl (fun w p => drop_watcher session_id p w) (list_watches m) ps)
          (watch_mutex m)
    end).

(** ** Counters and reset *)

Definition getWatchedPathsCount (m : WatchManager) : Z :=
  u64 (Z.of_nat (size (watches m)) + Z.of_nat (size (list_watches m))).

Definition count_watches (w : gmap string (gset Z)) : Z :=
  foldr (fun p n => Z.of_nat (size p.2) + n) 0 (map_to_list w).

Definition getTotalWatchesCount (m : WatchManager) : Z :=
  u64 (count_watches (watches m) + count_watches (list_watches m)).

Definition watching_sessions (w : gmap string (gset Z)) : gset Z :=
  foldr (fun p acc => p.2 ∪ acc) ∅ (map_to_list w).

Definition getSessionsWithWatchesCount (m : WatchManager) : Z :=
  Z.of_nat (size (watching_sessions (watches m) ∪ watching_sessions (list_watches m))).

Definition WatchManager_reset (m : WatchManager) : outcome WatchManager :=
  m ← watch_lock m;
  Ok (watch_unlock (mkWatchManager ∅ ∅ ∅ (watch_mutex m))).

(** ** The invariant

    The per-session bits and the per-path sets say the same, only known bits
    are set, and neither empty sets nor empty entries are kept. *)

#[export] Instance WatchType_eq_dec : EqDecision WatchType.
Proof. solve_decision. Defined.

Definition WatchType_index (t : WatchType) : Z :=
  match t with WatchType_List => 0 | WatchType_Data => 1 end.

Record watch_inv (m : WatchManager) : Prop := {
  wi_bits : forall t s p, s ∈ watchers t p m <->
            Z.testbit (watch_bits (sessions_and_watchers m) s p) (WatchType_index t) = true;
  wi_range : forall s p, 0 <= watch_bits (sessions_and_watchers m) s p <= 3;
  wi_stored : forall s ws p, sessions_and_watchers m !! s = Some ws -> ws !! p <> Some 0;
  wi_data_ne : forall p, watches m !! p <> Some ∅;
  wi_list_ne : forall p, list_watches m !! p <> Some ∅
}.

(** Between two calls nobody holds the mutex. *)
Definition watch_wf (m : WatchManager) : Prop := watch_inv m /\ watch_mutex m = false.

Lemma watch_wf_init : watch_wf WatchManager_init.
Proof.
  split; [|done]. split; simpl; try done.
  intros [] s p; unfold watchers, mset_get, watch_bits; simpl;
    rewrite !lookup_empty; simpl; rewrite ?lookup_empty; set_solver.
Qed.
#[export] Hint Resolve watch_wf_init : rk.

Lemma watch_inv_mutex sw w lw b b' :
  watch_inv (mkWatchManager sw w lw b) -> watch_inv (mkWatchManager sw w lw b').
Proof. intros []. by split. Qed.

Lemma watch_lock_ok m :
  watch_wf m -> exists m', watch_lock m = Ok m' /\ watch_inv m' /\
    sessions_and_watchers m' = sessions_and_watchers m /\
    watches m' = watches m /\ list_watches m' = list_watches m.
Proof.
  intros [Hi Hl]. unfold watch_lock. rewrite Hl. eexists; split; [done|]. split; [|done].
  destruct m. by eapply watch_inv_mutex.
Qed.

Lemma watch_wf_unlock m : watch_inv m -> watch_wf (watch_unlock m).
Proof. intros Hi. split; [|done]. destruct m. by eapply watch_inv_mutex. Qed.

(** *** Bits *)

Lemma WatchType_bit_testbit t t' :
  Z.testbit (WatchType_bit t) (WatchType_index t') = bool_decide (t = t').
Proof. by destruct t, t'. Qed.

Lemma bits_cases b : 0 <= b <= 3 -> b = 0 \/ b = 1 \/ b = 2 \/ b = 3.
Proof. lia. Qed.

Lemma lor_bits_range b t : 0 <= b <= 3 -> 0 < Z.lor b (WatchType_bit t) <= 3.
Proof. intros [-> | [-> | [-> | ->]]]%bits_cases; destruct t; vm_compute; split; congruence. Qed.

Lemma lxor_bits_range b t : 0 <= b <= 3 -> 0 <= Z.lxor b (WatchType_bit t) <= 3.
Proof. intros [-> | [-> | [-> | ->]]]%bits_cases; destruct t; vm_compute; split; congruence. Qed.

Lemma watch_bits_insert sw s ws s' p' :
  watch_bits (<[s := ws]> sw) s' p' = if decide (s = s') then default 0 (ws !! p') else watch_bits sw s' p'.
Proof. unfold watch_bits. rewrite lookup_insert. by case_decide. Qed.

Lemma watch_bits_set_bit t s p sw s' p' :
  watch_bits (set_bit t s p sw) s' p' =
  if decide (s = s' /\ p = p') then Z.lor (watch_bits sw s p) (WatchType_bit t) else watch_bits sw s' p'.
Proof.
  unfold set_bit. rewrite watch_bits_insert. repeat case_decide; naive_solver (by simplify_map_eq).
Qed.

Lemma watch_bits_flip_bit t s p sw s' p' :
  watch_bits (flip_bit t s p sw) s' p' =
  if decide (s = s' /\ p = p') then Z.lxor (watch_bits sw s p) (WatchType_bit t) else watch_bits sw s' p'.
Proof.
  unfold flip_bit. rewrite watch_bits_insert.
  destruct (decide (s = s')) as [<-|]; [|by rewrite decide_False by naive_solver].
  destruct (decide (p = p')) as [<-|].
  - rewrite (decide_True (P := _ /\ _)) by done. case_decide as E.
    + by rewrite lookup_delete_eq, E.
    + by rewrite lookup_insert_eq.
  - rewrite (decide_False (P := _ /\ _)) by naive_solver.
    case_decide; [by rewrite lookup_delete_ne|by rewrite lookup_insert_ne].
Qed.

Lemma watch_bits_flip_loop t p ss sw s' p' :
  NoDup ss ->
  watch_bits (foldl (fun sw s => flip_bit t s p sw) sw ss) s' p' =
  if decide (s' ∈ ss /\ p = p') then Z.lxor (watch_bits sw s' p') (WatchType_bit t)
  else watch_bits sw s' p'.
Proof.
  intros Hnd. revert sw. induction Hnd as [|s ss Hnin Hnd IH]; intros sw; simpl; [done|].
  rewrite IH, watch_bits_flip_bit.
  destruct (decide (s' ∈ ss /\ p = p')) as [[Hin ->]|Hout].
  - rewrite (decide_False (P := s = s' /\ _)) by naive_solver.
    by rewrite decide_True by set_solver.
  - destruct (decide (s = s' /\ p = p')) as [[-> ->]|].
    + by rewrite decide_True by set_solver.
    + rewrite decide_False; [done|]. rewrite elem_of_cons. naive_solver.
Qed.

Definition stored_nonzero (sw : gmap Z (gmap string Z)) : Prop :=
  forall s ws p, sw !! s = Some ws -> ws !! p <> Some 0.

Lemma stored_nonzero_default sw s p : stored_nonzero sw -> default ∅ (sw !! s) !! p <> Some 0.
Proof. intros Hn. destruct (sw !! s) eqn:E; simpl; [by eapply Hn|by rewrite lookup_empty]. Qed.

Lemma stored_nonzero_insert sw s ws :
  stored_nonzero sw -> (forall p, ws !! p <> Some 0) -> stored_nonzero (<[s := ws]> sw).
Proof. intros Hn Hws s' ws' p. rewrite lookup_insert. case_decide; [|apply Hn]. intros [= <-]. apply Hws. Qed.

Lemma stored_nonzero_set_bit t s p sw :
  (forall s p, 0 <= watch_bits sw s p <= 3) -> stored_nonzero sw -> stored_nonzero (set_bit t s p sw).
Proof.
  intros Hr Hn. apply stored_nonzero_insert; [done|]. intros p'. rewrite lookup_insert.
  case_decide; [|by apply stored_nonzero_default]. intros [= E].
  pose proof (lor_bits_range _ t (Hr s p)). lia.
Qed.

Lemma stored_nonzero_flip_loop t p ss sw :
  stored_nonzero sw -> stored_nonzero (foldl (fun sw s => flip_bit t s p sw) sw ss).
Proof.
  revert sw. induction ss as [|s ss IH]; intros sw Hn; simpl; [done|]. apply IH.
  apply stored_nonzero_insert; [done|]. intros p'.
  case_decide; rewrite ?lookup_delete, ?lookup_insert; case_decide;
    auto using stored_nonzero_default; congruence.
Qed.

(** *** One operation at a time *)

Lemma elem_of_watchers_add t p s m t' p' s' :
  s' ∈ watchers t' p' (add_watch t p s m) <->
  (t = t' /\ p = p' /\ s' = s) \/ s' ∈ watchers t' p' m.
Proof. destruct t, t'; simpl; rewrite ?elem_of_mset_add; naive_solver. Qed.

Lemma mset_add_ne {K} `{Countable K} (k : K) (x : Z) (m : gmap K (gset Z)) :
  (forall k', m !! k' <> Some ∅) -> forall k', mset_add k x m !! k' <> Some ∅.
Proof.
  intros Hne k'. unfold mset_add. rewrite lookup_insert. case_decide; [|done].
  intros [= E]. set_solver.
Qed.

Lemma watch_inv_add t p s m : watch_inv m -> watch_inv (add_watch t p s m).
Proof.
  intros [Hb Hr Hs Hd Hl].
  assert (sessions_and_watchers (add_watch t p s m) = set_bit t s p (sessions_and_watchers m)) as E
    by (by destruct t).
  split; try (destruct t; simpl; by auto using mset_add_ne).
  - intros t' s' p'. rewrite elem_of_watchers_add, E, watch_bits_set_bit, Hb.
    case_decide as Hc; [|naive_solver]. destruct Hc as [-> ->].
    rewrite Z.lor_spec, WatchType_bit_testbit, orb_true_iff, bool_decide_eq_true. naive_solver.
  - intros s' p'. rewrite E, watch_bits_set_bit. case_decide; [|done].
    pose proof (lor_bits_range _ t (Hr s p)). lia.
  - rewrite E. by apply stored_nonzero_set_bit.
Qed.

Section fire.
Context `{IterOrder}.

Lemma watchers_fire t p ev m t' p' :
  watchers t' p' (fire t p ev m).2 = if decide (t = t' /\ p = p') then ∅ else watchers t' p' m.
Proof.
  destruct t, t'; simpl; rewrite ?mset_get_delete; repeat case_decide; naive_solver.
Qed.

Lemma watchers_fire_data p ev m p' :
  watchers WatchType_List p' (fire WatchType_Data p ev m).2 = watchers WatchType_List p' m.
Proof. done. Qed.

Lemma watch_inv_fire t p ev m : watch_inv m -> watch_inv (fire t p ev m).2.
Proof.
  intros [Hb Hr Hs Hd Hl].
  assert (sessions_and_watchers (fire t p ev m).2 =
          foldl (fun sw s => flip_bit t s p sw) (sessions_and_watchers m) (iter_Z (watchers t p m))) as E
    by (by destruct t).
  pose proof (NoDup_iter_Z (watchers t p m)) as Hnd.
  split.
  - intros t' s' p'. rewrite watchers_fire, E, watch_bits_flip_loop by done.
    destruct (decide (t = t' /\ p = p')) as [[<- <-]|Hne].
    + case_decide as Hc; rewrite elem_of_iter_Z in Hc.
      * destruct Hc as [Hc%Hb _]. rewrite Z.lxor_spec, WatchType_bit_testbit, Hc.
        rewrite bool_decide_true by done. set_solver.
      * rewrite <- Hb. set_solver.
    + rewrite Hb. case_decide as Hc; [|done]. destruct Hc as [_ <-].
      rewrite Z.lxor_spec, WatchType_bit_testbit, bool_decide_false by naive_solver.
      by rewrite xorb_false_r.
  - intros s' p'. rewrite E, watch_bits_flip_loop by done.
    case_decide; [by apply lxor_bits_range|done].
  - rewrite E. by apply stored_nonzero_flip_loop.
  - intros p'. destruct t; simpl; [done|]. rewrite lookup_delete. by case_decide.
  - intros p'. destruct t; simpl; [|done]. rewrite lookup_delete. by case_decide.
Qed.

Lemma fire_mutex t p ev m : watch_mutex (fire t p ev m).2 = watch_mutex m.
Proof. by destruct t. Qed.

Lemma elem_of_fire t p ev m s r :
  (s, r) ∈ (fire t p ev m).1 <-> s ∈ watchers t p m /\ r = watch_response ev p.
Proof.
  unfold fire; simpl. rewrite list_elem_of_fmap. setoid_rewrite elem_of_iter_Z. naive_solver.
Qed.

Lemma watch_inv_fire_lists parent ps m : watch_inv m -> watch_inv (fire_lists parent ps m).2.
Proof.
  revert m. induction ps as [|p ps IH]; intros m Hm; [done|].
  cbn [fire_lists snd]. by apply IH, watch_inv_fire.
Qed.

(** A path in the list loses its list watchers, everything else stays. *)
Lemma watchers_fire_lists parent ps m t p :
  watchers t p (fire_lists parent ps m).2 =
  if decide (t = WatchType_List /\ p ∈ ps) then ∅ else watchers t p m.
Proof.
  revert m. induction ps as [|q ps IH]; intros m.
  { rewrite decide_False; [done|]. set_solver. }
  cbn [fire_lists snd]. rewrite IH, watchers_fire. repeat case_decide; set_solver.
Qed.

Definition list_event (parent p : string) : Event :=
  if decide (p = parent) then EVENT_CHILD else EVENT_DELETED.

Lemma elem_of_fire_lists parent ps m s r :
  (s, r) ∈ (fire_lists parent ps m).1 <->
  exists p, p ∈ ps /\ s ∈ watchers WatchType_List p m /\ r = watch_response (list_event parent p) p.
Proof.
  revert m. induction ps as [|q ps IH]; intros m; [simpl; set_solver|].
  cbn [fire_lists fst]. rewrite elem_of_app, elem_of_fire, IH.
  setoid_rewrite watchers_fire. split.
  - intros [[? ->]|(p & ? & Hs & ->)]; [exists q; set_solver|].
    exists p. case_decide; set_solver.
  - intros (p & [-> | Hin]%elem_of_cons & Hs & ->); [by left|].
    destruct (decide (q = p)) as [-> | Hne]; [by left|].
    right. exists p. rewrite decide_False by naive_solver. done.
Qed.

(** *** processWatches *)

Lemma processWatches_spec path ev m :
  watch_wf m ->
  exists rs m', processWatches path ev m = Ok (rs, m') /\ watch_wf m' /\
    (forall s r, (s, r) ∈ rs <->
       (s ∈ watchers WatchType_Data path m /\ r = watch_response ev path) \/
       (exists p, p ∈ paths_to_check path ev /\ s ∈ watchers WatchType_List p m /\
                  r = watch_response (list_event (getParentPath path) p) p)) /\
    (forall p, watchers WatchType_Data p m' = if decide (p = path) then ∅ else watchers WatchType_Data p m) /\
    (forall p, watchers WatchType_List p m' =
       if decide (p ∈ paths_to_check path ev) then ∅ else watchers WatchType_List p m).
Proof.
  intros Hwf. destruct (watch_lock_ok m Hwf) as (m1 & E1 & Hi1 & Esw & Ew & Elw).
  assert (forall t p, watchers t p m1 = watchers t p m) as Hsame.
  { intros [] p; simpl; congruence. }
  unfold processWatches. rewrite E1. cbn [mbind outcome_bind].
  eexists _, _. split; [done|]. split; [|split; [|split]].
  - by apply watch_wf_unlock, watch_inv_fire_lists, watch_inv_fire.
  - intros s r. rewrite elem_of_app, elem_of_fire, elem_of_fire_lists, Hsame.
    setoid_rewrite watchers_fire_data. by setoid_rewrite Hsame.
  - intros p. change (watchers WatchType_Data p (watch_unlock ?x)) with (watchers WatchType_Data p x).
    rewrite watchers_fire_lists, watchers_fire, Hsame. repeat case_decide; naive_solver.
  - intros p. change (watchers WatchType_List p (watch_unlock ?x)) with (watchers WatchType_List p x).
    rewrite watchers_fire_lists, watchers_fire, Hsame. repeat case_decide; naive_solver.
Qed.
End fire.

(** *** Registering *)

Lemma registerWatches_spec path s op m :
  watch_wf m ->
  exists m', registerWatches path s op m = Ok m' /\ watch_wf m' /\
    forall t p s', s' ∈ watchers t p m' <->
      (t = watches_type op /\ p = path /\ s' = s) \/ s' ∈ watchers t p m.
Proof.
  intros Hwf. destruct (watch_lock_ok m Hwf) as (m1 & E1 & Hi1 & Esw & Ew & Elw).
  unfold registerWatches. rewrite E1. cbn [mbind outcome_bind].
  eexists; split; [done|]. split; [by apply watch_wf_unlock, watch_inv_add|].
  intros t p s'. change (watchers t p (watch_unlock ?x)) with (watchers t p x).
  rewrite elem_of_watchers_add. destruct t; simpl; rewrite ?Ew, ?Elw; naive_solver.
Qed.

(** *** Cleaning up after a session *)

Lemma drop_watcher_spec s p w p' s' :
  s' ∈ mset_get p' (drop_watcher s p w) <-> s' ∈ mset_get p' w /\ ~ (p' = p /\ s' = s).
Proof.
  unfold drop_watcher, mset_get. destruct (w !! p) as [X|] eqn:E; simpl.
  - case_decide; rewrite ?lookup_delete, ?lookup_insert; case_decide; subst; rewrite ?E; simpl; set_solver.
  - destruct (decide (p' = p)) as [-> | ]; [rewrite E; simpl|]; set_solver.
Qed.

Lemma drop_watcher_ne s p w :
  (forall p', w !! p' <> Some ∅) -> forall p', drop_watcher s p w !! p' <> Some ∅.
Proof.
  intros Hne p'. unfold drop_watcher. destruct (w !! p); [|done].
  case_decide; rewrite ?lookup_delete, ?lookup_insert; case_decide; congruence.
Qed.

Lemma drop_watchers_spec s ps w p' s' :
  s' ∈ mset_get p' (foldl (fun w p => drop_watcher s p w) w ps) <->
  s' ∈ mset_get p' w /\ ~ (p' ∈ ps /\ s' = s).
Proof.
  revert w. induction ps as [|p ps IH]; intros w; simpl; [set_solver|].
  rewrite IH, drop_watcher_spec. set_solver.
Qed.

Lemma drop_watchers_ne s ps w :
  (forall p', w !! p' <> Some ∅) ->
  forall p', foldl (fun w p => drop_watcher s p w) w ps !! p' <> Some ∅.
Proof. revert w. induction ps; intros w Hne; simpl; auto using drop_watcher_ne. Qed.

Lemma watched_is_stored t p s m :
  watch_inv m -> s ∈ watchers t p m ->
  exists ws, sessions_and_watchers m !! s = Some ws /\ p ∈ (map_to_list ws).*1.
Proof.
  intros [Hb _ _ _ _]. rewrite Hb. unfold watch_bits.
  destruct (sessions_and_watchers m !! s) as [ws|] eqn:E; simpl;
    [|rewrite lookup_empty; simpl; by rewrite Z.testbit_0_l].
  destruct (ws !! p) as [b|] eqn:E2; simpl; [|by rewrite Z.testbit_0_l].
  intros _. exists ws. split; [done|]. apply list_elem_of_fmap.
  exists (p, b). split; [done|]. by apply elem_of_map_to_list.
Qed.

Lemma cleanDeadWatches_spec s m :
  watch_wf m ->
  exists m', cleanDeadWatches s m = Ok m' /\ watch_wf m' /\
    sessions_and_watchers m' = delete s (sessions_and_watchers m) /\
    forall t p s', s' ∈ watchers t p m' <-> s' ∈ watchers t p m /\ s' <> s.
Proof.
  intros Hwf. destruct (watch_lock_ok m Hwf) as (m1 & E1 & Hi1 & Esw & Ew & Elw).
  unfold cleanDeadWatches. rewrite E1. cbn [mbind outcome_bind].
  assert (forall t p, watchers t p m1 = watchers t p m) as Hsame by (intros [] p; simpl; congruence).
  rewrite <- Esw. eexists; split; [done|].
  destruct (sessions_and_watchers m1 !! s) as [ws|] eqn:E; simpl.
  - set (ps := (map_to_list ws).*1).
    set (m2 := mkWatchManager _ _ _ _).
    assert (forall t p s', s' ∈ watchers t p m2 <-> s' ∈ watchers t p m1 /\ s' <> s) as Hm2.
    { intros t p s'. transitivity (s' ∈ watchers t p m1 /\ ~ (p ∈ ps /\ s' = s)).
      - destruct t; simpl; apply drop_watchers_spec.
      - split; [|naive_solver]. intros [Hs Hn]. split; [done|]. intros ->. apply Hn. split; [|done].
        destruct (watched_is_stored t p s m1 Hi1 Hs) as (ws' & E' & ?). unfold ps. congruence. }
    split; [|split; [done|]].
    + apply watch_wf_unlock. pose proof Hi1 as [Hb Hr Hst Hd Hl].
      split; [| |intros s' ws' p'; simpl; rewrite lookup_delete; case_decide; [done|by apply Hst]
        |simpl; by apply drop_watchers_ne..].
      * intros t s' p'. rewrite Hm2, Hb. unfold watch_bits; simpl. rewrite lookup_delete.
        case_decide; subst; simpl; [rewrite lookup_empty; simpl; rewrite Z.testbit_0_l|]; naive_solver.
      * intros s' p'. unfold watch_bits; simpl. rewrite lookup_delete.
        case_decide; simpl; [rewrite lookup_empty; simpl; lia|apply Hr].
    + intros t p s'. rewrite <- Hsame. apply Hm2.
  - split; [by apply watch_wf_unlock|]. split; [by rewrite delete_id|].
    intros t p s'. change (watchers t p (watch_unlock m1)) with (watchers t p m1). rewrite <- Hsame.
    split; [|naive_solver]. intros Hs. split; [done|]. intros ->.
    destruct (watched_is_stored t p s m1 Hi1 Hs) as (ws' & E' & _). congruence.
Qed.

(** *** SetWatches *)

Lemma set_watch_loop_deadlock `{IterOrder} t missed s ps m :
  watch_mutex m = true -> Exists (fun p => is_Some (missed p)) ps ->
  set_watch_loop t missed s ps m = Fault Deadlock.
Proof.
  intros Hl Hex. revert m Hl. induction ps as [|p ps IH]; [by apply Exists_nil in Hex|].
  intros m Hl. simpl. assert (watch_mutex (add_watch t p s m) = true) as Hl' by (by destruct t).
  destruct (missed p) as [ev|] eqn:E.
  - unfold processWatches, watch_lock. by rewrite Hl'.
  - apply Exists_cons in Hex as [[? ?]|Hex]; [congruence|]. simpl. by rewrite IH.
Qed.

Lemma set_watch_loop_quiet `{IterOrder} t missed s ps m :
  Forall (fun p => missed p = None) ps ->
  set_watch_loop t missed s ps m = Ok ([], foldl (fun m p => add_watch t p s m) m ps).
Proof.
  intros Hall. revert m. induction Hall as [|p ps E Hall IH]; intros m; simpl; [done|].
  rewrite E. simpl. by rewrite IH.
Qed.

Lemma add_watches_mutex t s ps m :
  watch_mutex (foldl (fun m p => add_watch t p s m) m ps) = watch_mutex m.
Proof. revert m. induction ps as [|p ps IH]; intros m; simpl; [done|]. rewrite IH. by destruct t. Qed.

Lemma watch_inv_add_watches t s ps m :
  watch_inv m -> watch_inv (foldl (fun m p => add_watch t p s m) m ps).
Proof. revert m. induction ps; intros m Hm; simpl; auto using watch_inv_add. Qed.

Lemma elem_of_add_watches t s ps m t' p' s' :
  s' ∈ watchers t' p' (foldl (fun m p => add_watch t p s m) m ps) <->
  (t = t' /\ p' ∈ ps /\ s' = s) \/ s' ∈ watchers t' p' m.
Proof.
  revert m. induction ps as [|p ps IH]; intros m; simpl; [set_solver|].
  rewrite IH, elem_of_watchers_add. set_solver.
Qed.

(** What a SetWatches request has missed. *)
Definition missed_any (relative_zxid : Z) (dw ew lw : list string) (info : WatchNodesInfo) : Prop :=
  Exists (fun p => is_Some (missed_data info relative_zxid p)) dw \/
  Exists (fun p => is_Some (missed_exist info p)) ew \/
  Exists (fun p => is_Some (missed_list info relative_zxid p)) lw.

Lemma missed_split {A} (f : A -> option Event) l :
  Exists (fun p => is_Some (f p)) l \/ Forall (fun p => f p = None) l.
Proof.
  induction l as [|a l [IH|IH]]; [by right; constructor|by left; apply Exists_cons_tl|].
  destruct (f a) eqn:E; [left; apply Exists_cons_hd; eauto|right; by constructor].
Qed.

Lemma Exists_None {A} (f : A -> option Event) l :
  Forall (fun p => f p = None) l -> ~ Exists (fun p => is_Some (f p)) l.
Proof.
  rewrite Exists_exists, Forall_forall. intros Hall (x & Hx & Hf). apply Hall in Hx.
  rewrite Hx in Hf. by destruct Hf.
Qed.

Lemma missed_any_or z dw ew lw info : missed_any z dw ew lw info \/ ~ missed_any z dw ew lw info.
Proof.
  unfold missed_any. destruct (missed_split (missed_data info z) dw) as [?|H1]; [auto|].
  destruct (missed_split (missed_exist info) ew) as [?|H2]; [auto|].
  destruct (missed_split (missed_list info z) lw) as [?|H3]; [auto|].
  right. apply Exists_None in H1, H2, H3. tauto.
Qed.

Lemma processRequestSetWatch_quiet `{IterOrder} s z dw ew lw info m :
  watch_wf m -> ~ missed_any z dw ew lw info ->
  exists m', processRequestSetWatch s z dw ew lw info m = Ok ([], m') /\ watch_wf m' /\
    forall t p s', s' ∈ watchers t p m' <->
      (s' = s /\ p ∈ match t with WatchType_Data => dw ++ ew | WatchType_List => lw end) \/
      s' ∈ watchers t p m.
Proof.
  intros Hwf Hno. destruct (watch_lock_ok m Hwf) as (m1 & E1 & Hi1 & Esw & Ew & Elw).
  assert (forall t p, watchers t p m1 = watchers t p m) as Hsame by (intros [] p; simpl; congruence).
  unfold missed_any in Hno. unfold processRequestSetWatch. rewrite E1. cbn [mbind outcome_bind].
  destruct (missed_split (missed_data info z) dw); [naive_solver|].
  destruct (missed_split (missed_exist info) ew); [naive_solver|].
  destruct (missed_split (missed_list info z) lw); [naive_solver|].
  do 3 (rewrite set_watch_loop_quiet by done; cbn [mbind outcome_bind fst snd app]).
  eexists; split; [done|].
  split; [by apply watch_wf_unlock; do 3 apply watch_inv_add_watches|].
  intros t p s'. change (watchers t p (watch_unlock ?x)) with (watchers t p x).
  rewrite !elem_of_add_watches, Hsame. destruct t; rewrite ?elem_of_app; naive_solver.
Qed.

Lemma processRequestSetWatch_missed `{IterOrder} s z dw ew lw info m :
  watch_wf m -> missed_any z dw ew lw info ->
  processRequestSetWatch s z dw ew lw info m = Fault Deadlock.
Proof.
  intros [_ Hl] Hm. unfold processRequestSetWatch, watch_lock. rewrite Hl. cbn [mbind outcome_bind].
  destruct (missed_split (missed_data info z) dw) as [Hd|Hd].
  { by rewrite set_watch_loop_deadlock. }
  rewrite set_watch_loop_quiet by done. cbn [mbind outcome_bind fst snd].
  destruct (missed_split (missed_exist info) ew) as [He|He].
  { rewrite set_watch_loop_deadlock; [done| |done]. by rewrite add_watches_mutex. }
  rewrite set_watch_loop_quiet by done. cbn [mbind outcome_bind fst snd].
  rewrite set_watch_loop_deadlock; [done|by rewrite !add_watches_mutex|].
  destruct Hm as [?|[?|?]]; [by apply Exists_None in Hd|by apply Exists_None in He|done].
Qed.

(** ** The watch manager as a state machine *)

Inductive watch_step `{IterOrder} : WatchManager -> WatchManager -> Prop :=
| ws_register path s op m m' : registerWatches path s op m = Ok m' -> watch_step m m'
| ws_process path ev m rs m' : processWatches path ev m = Ok (rs, m') -> watch_step m m'
| ws_set s z dw ew lw info m rs m' :
    processRequestSetWatch s z dw ew lw info m = Ok (rs, m') -> watch_step m m'
| ws_clean s m m' : cleanDeadWatches s m = Ok m' -> watch_step m m'
| ws_reset m m' : WatchManager_reset m = Ok m' -> watch_step m m'.

Lemma WatchManager_reset_spec m : watch_wf m -> WatchManager_reset m = Ok WatchManager_init.
Proof. intros [_ Hl]. unfold WatchManager_reset, watch_lock. by rewrite Hl. Qed.

Lemma watch_step_wf `{IterOrder} m m' : watch_step m m' -> watch_wf m -> watch_wf m'.
Proof.
  intros Hs Hm. destruct Hs as [path s op m m' E|path ev m rs m' E|s z dw ew lw info m rs m' E|s m m' E|m m' E].
  - destruct (registerWatches_spec path s op m Hm) as (? & ? & ? & _). congruence.
  - destruct (processWatches_spec path ev m Hm) as (? & ? & ? & ? & _). congruence.
  - assert (~ missed_any z dw ew lw info) as Hn.
    { intros Hmiss. by rewrite (processRequestSetWatch_missed s) in E. }
    destruct (processRequestSetWatch_quiet s z dw ew lw info m Hm Hn) as (? & ? & ? & _). congruence.
  - destruct (cleanDeadWatches_spec s m Hm) as (? & ? & ? & _). congruence.
  - rewrite WatchManager_reset_spec in E by done. injection E as <-. apply watch_wf_init.
Qed.

Lemma watch_reachable_wf `{IterOrder} m : rtc watch_step WatchManager_init m -> watch_wf m.
Proof.
  pose proof watch_wf_init as Hw. intros Hr.
  induction Hr as [|m1 m2 m3 Hs Hr IH]; [done|]. eauto using watch_step_wf.
Qed.

(** ** Theorems *)

(** In every reachable state the two indexes of the watch manager agree:
    a session is in the set of a path exactly when its own entry has the bit of
    that kind of watch, the mutex is free, and no empty entry is kept. *)
Theorem watch_indexes_agree `{IterOrder} m t s p :
  rtc watch_step WatchManager_init m ->
  watch_mutex m = false /\
  (s ∈ watchers t p m <->
   Z.testbit (watch_bits (sessions_and_watchers m) s p) (WatchType_index t) = true) /\
  watches m !! p <> Some ∅ /\ list_watches m !! p <> Some ∅.
Proof. intros Hr. destruct (watch_reachable_wf m Hr) as [[] ?]. auto. Qed.

Lemma watch_indexes_agree_witness :
  exists m, registerWatches "/a" 7 OpGet WatchManager_init = Ok m /\
    (7 ∈ watchers WatchType_Data "/a" m <->
     Z.testbit (watch_bits (sessions_and_watchers m) 7 "/a") 1 = true).
Proof.
  destruct (registerWatches "/a" 7 OpGet WatchManager_init) as [m|f] eqn:E; [|by vm_compute in E].
  exists m. split; [done|].
  apply (watch_indexes_agree m WatchType_Data 7 "/a").
  eapply rtc_once, ws_register, E.
Defined.

(** One notification for each session that watches. *)
Definition notices (t : WatchType) (path : string) (ev : Event) (m : WatchManager) : list ResponseForSession :=
  (fun s => (s, watch_response ev path)) <$> elements (watchers t path m).

(** The watches on these paths are gone, all others stay. *)
Definition fired_only (data lists : list string) (m m' : WatchManager) : Prop :=
  (forall p, watchers WatchType_Data p m' = if decide (p ∈ data) then ∅ else watchers WatchType_Data p m) /\
  (forall p, watchers WatchType_List p m' = if decide (p ∈ lists) then ∅ else watchers WatchType_List p m).

Section fires.
Context `{IterOrder}.

Lemma fire_notices t p ev m : (fire t p ev m).1 ≡ₚ notices t p ev m.
Proof. unfold fire, notices. cbn. by rewrite iter_Z_perm. Qed.

Lemma notices_same t p ev m m' : watchers t p m' = watchers t p m -> notices t p ev m' = notices t p ev m.
Proof. unfold notices. by intros ->. Qed.

(** Of a path that comes twice the watches fire once. *)
Lemma fire_lists_two parent path m :
  (fire_lists parent [path; parent] m).1 ≡ₚ
  notices WatchType_List parent EVENT_CHILD m ++ (if decide (path = parent) then [] else notices WatchType_List path EVENT_DELETED m).
Proof.
  cbn [fire_lists fst]. rewrite (decide_True (P := parent = parent)) by done. rewrite !fire_notices, app_nil_r.
  case_decide as Hp; [subst path|].
  - assert (notices WatchType_List parent EVENT_CHILD (fire WatchType_List parent EVENT_CHILD m).2 = []) as ->; [|done].
    unfold notices. rewrite watchers_fire, decide_True by done. by rewrite elements_empty.
  - rewrite Permutation_app_comm. apply Permutation_app; [|done]. erewrite notices_same; [done|].
    by rewrite watchers_fire, decide_False by naive_solver.
Qed.

Lemma processWatches_fires path ev m : watch_wf m ->
  exists rs m' m1, processWatches path ev m = Ok (rs, m') /\ watch_wf m' /\ fired_only [path] (paths_to_check path ev) m m' /\
    rs ≡ₚ notices WatchType_Data path ev m ++ (fire_lists (getParentPath path) (paths_to_check path ev) m1).1 /\
    forall p, watchers WatchType_List p m1 = watchers WatchType_List p m.
Proof.
  intros Hwf. destruct (processWatches_spec path ev m Hwf) as (rs & m' & E & Hm' & _ & Hd & Hl).
  destruct (watch_lock_ok m Hwf) as (m1 & E1 & _ & _ & Ew & Elw).
  assert (forall t p, watchers t p m1 = watchers t p m) as Hsame by (intros [] p; simpl; congruence).
  exists rs, m', (fire WatchType_Data path ev m1).2. split; [done|]. split; [done|]. split; [|split].
  - split; [|done]. intros p. rewrite Hd. repeat case_decide; set_solver.
  - unfold processWatches in E. rewrite E1 in E. cbn [mbind outcome_bind] in E. 
    assert (rs = (fire WatchType_Data path ev m1).1 ++
      (fire_lists (getParentPath path) (paths_to_check path ev) (fire WatchType_Data path ev m1).2).1) as -> by congruence.
    rewrite fire_notices. by rewrite (notices_same _ _ _ m m1).
  - intros p. by rewrite watchers_fire_data, Hsame.
Qed.

(** C25: what the protocol promises of watches. A creation tells each session that
    watches the path, and each that lists its parent; a removal also each that lists
    the path itself; a change of the data those that watch the path. Each of them is
    told once, with the event of its kind, and nobody else is; the watches that fired
    are gone, all others stay. *)
Theorem watches_fire_exactly_once path m :
  watch_wf m -> let parent := getParentPath path in
  (exists rs m', processWatches_op path OpCreate m = Ok (rs, m') /\ watch_wf m' /\ fired_only [path] [parent] m m' /\
     rs ≡ₚ notices WatchType_Data path EVENT_CREATED m ++ notices WatchType_List parent EVENT_CHILD m) /\
  (exists rs m', processWatches_op path OpRemove m = Ok (rs, m') /\ watch_wf m' /\ fired_only [path] [path; parent] m m' /\
     rs ≡ₚ notices WatchType_Data path EVENT_DELETED m ++ notices WatchType_List parent EVENT_CHILD m ++
           (if decide (path = parent) then [] else notices WatchType_List path EVENT_DELETED m)) /\
  (exists rs m', processWatches_op path OpSet m = Ok (rs, m') /\ watch_wf m' /\ fired_only [path] [] m m' /\
     rs ≡ₚ notices WatchType_Data path EVENT_CHANGED m).
Proof.
  intros Hwf parent. split; [|split]; cbn [processWatches_op].
  - destruct (processWatches_fires path EVENT_CREATED m Hwf) as (rs & m' & m1 & E & Hm' & Hf & Hrs & Hs).
    exists rs, m'. split; [done|]. split; [done|]. split; [done|]. rewrite Hrs. apply Permutation_app_head.
    cbn [paths_to_check fire_lists fst]. rewrite decide_True, fire_notices, app_nil_r by done. by rewrite (notices_same _ _ _ m m1).
  - destruct (processWatches_fires path EVENT_DELETED m Hwf) as (rs & m' & m1 & E & Hm' & Hf & Hrs & Hs).
    exists rs, m'. split; [done|]. split; [done|]. split; [done|]. rewrite Hrs. apply Permutation_app_head.
    cbn [paths_to_check]. rewrite fire_lists_two. fold parent. by rewrite (notices_same _ _ _ m m1), (notices_same _ path _ m m1).
  - destruct (processWatches_fires path EVENT_CHANGED m Hwf) as (rs & m' & m1 & E & Hm' & Hf & Hrs & Hs).
    exists rs, m'. rewrite app_nil_r in Hrs. by split_and!.
Qed.
End fires.

(** Session 7 lists [/a] and watches [/a/b], which is removed. *)
Lemma watches_fire_exactly_once_witness :
  exists m rs m', (m0 ← registerWatches "/a" 7 OpList WatchManager_init; registerWatches "/a/b" 7 OpGet m0) = Ok m /\
    processWatches_op "/a/b" OpRemove m = Ok (rs, m') /\
    rs ≡ₚ [(7, watch_response EVENT_DELETED "/a/b"); (7, watch_response EVENT_CHILD "/a")].
Proof.
  destruct (registerWatches "/a" 7 OpList WatchManager_init) as [m0|f] eqn:E; [|by vm_compute in E].
  destruct (registerWatches "/a/b" 7 OpGet m0) as [m|f] eqn:E'; [|by vm_compute in E; injection E as <-; vm_compute in E'].
  destruct (registerWatches_spec "/a" 7 OpList _ watch_wf_init) as (m1 & E1 & Hm & _).
  assert (m1 = m0) as -> by congruence. destruct (registerWatches_spec "/a/b" 7 OpGet _ Hm) as (m2 & E2 & Hm2 & _).
  assert (m2 = m) as -> by congruence.
  destruct (watches_fire_exactly_once "/a/b" m Hm2) as (_ & (rs & m' & E3 & _ & _ & Hrs) & _).
  exists m, rs, m'. split; [exact E'|]. split; [exact E3|]. rewrite Hrs.
  vm_compute in E. injection E as <-. vm_compute in E'. injection E' as <-. vm_compute. reflexivity.
Defined.

(** When a session ends, all its watches go and nobody else's. *)
Theorem cleaned_session_watches_nothing s m :
  watch_wf m ->
  exists m', cleanDeadWatches s m = Ok m' /\ watch_wf m' /\
    sessions_and_watchers m' = delete s (sessions_and_watchers m) /\
    forall t p s', s' ∈ watchers t p m' <-> s' ∈ watchers t p m /\ s' <> s.
Proof. apply cleanDeadWatches_spec. Qed.

Lemma cleaned_session_watches_nothing_witness :
  exists m', cleanDeadWatches 7 WatchManager_init = Ok m' /\ 7 ∉ watchers WatchType_Data "/a" m'.
Proof.
  destruct (cleaned_session_watches_nothing 7 WatchManager_init watch_wf_init)
    as (m' & E & _ & _ & Hm). exists m'. split; [done|]. rewrite Hm. naive_solver.
Defined.


