(* ===== verification/DataTree.v ===== *)
(** * The data tree

    [KeeperNode] and [KeeperNodeMap] of [src/src/Service/KeeperStore.h], the
    functions of [KeeperStore.cpp] that dump the tree and rebuild it, and the
    well-formedness of a tree. [KeeperNodeMap] spreads the nodes over a fixed
    number of hash maps: it is shown to behave as one finite map, which is what
    the store's model uses. *)

From S2P Require Import Prelude Coordination Paths.

(** ** Nodes *)

Record KeeperNode := mkKeeperNode {
  data : string;
  acl_id : Z;
  is_ephemeral : bool;
  is_sequential : bool;
  stat : Stat;
  children : gset string
}.

(** The value-initialised node. *)
Definition KeeperNode0 : KeeperNode := mkKeeperNode "" 0 false false Stat0 ∅.

(** Copies by value; the children are a copy of the set. *)
Definition clone (n : KeeperNode) : KeeperNode :=
  mkKeeperNode (data n) (acl_id n) (is_ephemeral n) (is_sequential n) (stat n) (children n).

Definition cloneWithoutChildren (n : KeeperNode) : KeeperNode :=
  mkKeeperNode (data n) (acl_id n) (is_ephemeral n) (is_sequential n) (stat n) ∅.

(** The statistics a client sees: children counted from the set, [cversion]
    counting creations and removals. *)
Definition statForResponse (n : KeeperNode) : Stat :=
  let s := stat n in
  mkStat (czxid s) (mzxid s) (ctime s) (mtime s) (version s)
    (i32 (i32 (cversion s * 2) - numChildren s)) (aversion s) (ephemeralOwner s) (dataLength s)
    (i32 (Z.of_nat (size (children n)))) (pzxid s).

Definition with_children (f : gset string -> gset string) (n : KeeperNode) : KeeperNode :=
  mkKeeperNode (data n) (acl_id n) (is_ephemeral n) (is_sequential n) (stat n) (f (children n)).

Definition with_stat (f : Stat -> Stat) (n : KeeperNode) : KeeperNode :=
  mkKeeperNode (data n) (acl_id n) (is_ephemeral n) (is_sequential n) (f (stat n)) (children n).

Definition stat_numChildren (f : Z -> Z) (s : Stat) : Stat :=
  mkStat (czxid s) (mzxid s) (ctime s) (mtime s) (version s) (cversion s) (aversion s)
    (ephemeralOwner s) (dataLength s) (f (numChildren s)) (pzxid s).

(** ** The interface of a node map

    What the store relies on: a map from paths to values, with the number of
    entries and whether an insertion was new. [nm_rel m t] relates a
    representation to the finite map it stands for. *)
Class NodeMap (M V : Type) := {
  nm_get : string -> M -> option V;
  nm_emplace : string -> V -> M -> bool * M;
  nm_erase : string -> M -> bool * M;
  nm_size : M -> Z;
  nm_clear : M -> M;
  nm_rel : M -> gmap string V -> Prop;
  nm_get_rel m t k : nm_rel m t -> nm_get k m = t !! k;
  nm_size_rel m t : nm_rel m t -> nm_size m = u64 (Z.of_nat (size t));
  nm_emplace_rel m t k v : nm_rel m t ->
    (nm_emplace k v m).1 = bool_decide (t !! k = None) /\
    nm_rel (nm_emplace k v m).2 (<[k := v]> t);
  nm_erase_rel m t k : nm_rel m t ->
    (nm_erase k m).1 = bool_decide (is_Some (t !! k)) /\
    nm_rel (nm_erase k m).2 (delete k t);
  nm_clear_rel m t : nm_rel m t -> nm_rel (nm_clear m) ∅
}.

(** ** KeeperNodeMap *)

(** [std::hash<String>] is a parameter; the bucket number is fixed. *)
Section node_map.
Context {V : Type} (hash : string -> Z) (NumBuckets : nat).

Record KeeperNodeMap := mkNodeMap {
  buckets : list (gmap string V);
  node_count : Z
}.

Definition KeeperNodeMap_init : KeeperNodeMap := mkNodeMap (replicate NumBuckets ∅) 0.

(** InnerMap: [insert_or_assign(...).second] and [map.erase(key)]. *)
Definition inner_emplace (key : string) (value : V) (m : gmap string V) : bool * gmap string V :=
  (bool_decide (m !! key = None), <[key := value]> m).

Definition inner_erase (key : string) (m : gmap string V) : bool * gmap string V :=
  (bool_decide (is_Some (m !! key)), delete key m).

Definition getBucketIndex (key : string) : nat := Z.to_nat (hash key mod Z.of_nat NumBuckets).

Definition getMap (bucket_id : nat) (m : KeeperNodeMap) : gmap string V :=
  default ∅ (buckets m !! bucket_id).

Definition node_get (key : string) (m : KeeperNodeMap) : option V :=
  getMap (getBucketIndex key) m !! key.

(** [emplace(key, value, bucket_id)]: into the bucket the caller names, which
    is below the bucket number. *)
Definition node_emplace_at (key : string) (value : V) (bucket_id : nat) (m : KeeperNodeMap)
    : bool * KeeperNodeMap :=
  let r := inner_emplace key value (getMap bucket_id m) in
  let bs := <[bucket_id := r.2]> (buckets m) in
  if r.1 then (true, mkNodeMap bs (u64 (node_count m + 1))) else (false, mkNodeMap bs (node_count m)).

Definition node_emplace (key : string) (value : V) (m : KeeperNodeMap) : bool * KeeperNodeMap :=
  node_emplace_at key value (getBucketIndex key) m.

Definition node_erase (key : string) (m : KeeperNodeMap) : bool * KeeperNodeMap :=
  let r := inner_erase key (getMap (getBucketIndex key) m) in
  let bs := <[getBucketIndex key := r.2]> (buckets m) in
  if r.1 then (true, mkNodeMap bs (u64 (node_count m - 1))) else (false, mkNodeMap bs (node_count m)).

Definition node_map_count (key : string) (m : KeeperNodeMap) : Z :=
  match node_get key m with Some _ => 1 | None => 0 end.

Definition node_clear (m : KeeperNodeMap) : KeeperNodeMap :=
  mkNodeMap ((fun _ => ∅) <$> buckets m) 0.

Definition node_map_size (m : KeeperNodeMap) : Z := node_count m.

(** *** The simulation relation *)

Record node_rel (m : KeeperNodeMap) (t : gmap string V) : Prop := {
  nr_length : length (buckets m) = NumBuckets;
  nr_lookup : forall k, node_get k m = t !! k;
  nr_placed : forall i k, is_Some (getMap i m !! k) -> getBucketIndex k = i;
  nr_count : node_count m = u64 (Z.of_nat (size t))
}.

Hypothesis NumBuckets_pos : (0 < NumBuckets)%nat.

Lemma getBucketIndex_lt k : (getBucketIndex k < NumBuckets)%nat.
Proof.
  unfold getBucketIndex. pose proof (Z.mod_pos_bound (hash k) (Z.of_nat NumBuckets)). lia.
Qed.

Lemma getMap_insert i b bs c j :
  (i < length bs)%nat ->
  getMap j (mkNodeMap (<[i := b]> bs) c) = if decide (i = j) then b else getMap j (mkNodeMap bs c).
Proof.
  intros Hi. unfold getMap; simpl. case_decide; subst.
  - by rewrite list_lookup_insert_eq.
  - by rewrite list_lookup_insert_ne.
Qed.

(** Inserting into the bucket the hash selects is inserting into the map. *)
Lemma node_rel_emplace m t k v :
  node_rel m t ->
  (node_emplace k v m).1 = bool_decide (t !! k = None) /\ node_rel (node_emplace k v m).2 (<[k := v]> t).
Proof.
  intros [Hlen Hl Hp Hc]. pose proof (getBucketIndex_lt k) as Hlt.
  assert (getMap (getBucketIndex k) m !! k = t !! k) as E by apply Hl.
  unfold node_emplace, node_emplace_at, inner_emplace; cbn [fst snd]. rewrite E.
  assert (forall c j, getMap j (mkNodeMap (<[getBucketIndex k := <[k := v]> (getMap (getBucketIndex k) m)]>
            (buckets m)) c) =
          if decide (getBucketIndex k = j) then <[k := v]> (getMap j m) else getMap j m) as Hget.
  { intros c j. rewrite getMap_insert by lia. by case_decide; subst. }
  split; [by case_bool_decide|].
  assert (forall c, c = u64 (Z.of_nat (size (<[k := v]> t))) ->
    node_rel (mkNodeMap (<[getBucketIndex k := <[k := v]> (getMap (getBucketIndex k) m)]> (buckets m)) c)
             (<[k := v]> t)) as Hrel.
  { intros c Hcnt. split; simpl; [by rewrite length_insert| | |done].
    - intros k'. unfold node_get. rewrite Hget, lookup_insert. case_decide as Hi.
      + rewrite lookup_insert. case_decide; [done|]. apply Hl.
      + rewrite decide_False by congruence. apply Hl.
    - intros i k'. rewrite Hget. case_decide; [|apply Hp].
      rewrite lookup_insert. case_decide; [by subst|apply Hp]. }
  case_bool_decide as Hn; apply Hrel.
  - rewrite map_size_insert_None, Hc by done. int_lia.
  - rewrite map_size_insert_Some, Hc; [done|]. by apply not_eq_None_Some.
Qed.

Lemma node_rel_erase m t k :
  node_rel m t ->
  (node_erase k m).1 = bool_decide (is_Some (t !! k)) /\ node_rel (node_erase k m).2 (delete k t).
Proof.
  intros [Hlen Hl Hp Hc]. pose proof (getBucketIndex_lt k) as Hlt.
  assert (getMap (getBucketIndex k) m !! k = t !! k) as E by apply Hl.
  unfold node_erase, inner_erase; cbn [fst snd]. rewrite E.
  split; [by case_bool_decide|].
  assert (forall c, c = u64 (Z.of_nat (size (delete k t))) ->
    node_rel (mkNodeMap (<[getBucketIndex k := delete k (getMap (getBucketIndex k) m)]> (buckets m)) c)
             (delete k t)) as Hrel.
  { intros c Hcnt. split; simpl; [by rewrite length_insert| | |done].
    - intros k'. unfold node_get. rewrite getMap_insert by lia. rewrite lookup_delete.
      case_decide as Hi.
      + rewrite lookup_delete. case_decide; [done|]. rewrite Hi. apply Hl.
      + rewrite decide_False by congruence. apply Hl.
    - intros i k'. rewrite getMap_insert by lia. case_decide; [|apply Hp].
      rewrite lookup_delete. case_decide; [by intros []|subst; apply Hp]. }
  case_bool_decide as Hn; apply Hrel.
  - destruct Hn as [v Hv]. rewrite map_size_delete_Some, Hc by (by exists v).
    assert (size t <> 0%nat) by (intros ->%map_size_empty_inv; done). int_lia.
  - rewrite delete_id; [done|]. by apply eq_None_not_Some.
Qed.

Lemma node_rel_clear m t : node_rel m t -> node_rel (node_clear m) ∅.
Proof.
  intros [Hlen _ _ _].
  assert (forall i, getMap i (node_clear m) = ∅) as Hget.
  { intros i. unfold getMap, node_clear; simpl. rewrite list_lookup_fmap. by destruct (buckets m !! i). }
  split; [by simpl; rewrite length_fmap| |by intros i k; rewrite Hget; intros []|done].
  intros k. unfold node_get. by rewrite Hget.
Qed.

Lemma node_rel_init : node_rel KeeperNodeMap_init ∅.
Proof.
  assert (forall i, getMap i KeeperNodeMap_init = ∅) as Hget.
  { intros i. unfold getMap; simpl. destruct (replicate NumBuckets ∅ !! i) eqn:E; [|done].
    apply lookup_replicate in E as [-> _]. done. }
  split; [by simpl; rewrite length_replicate| |by intros i k; rewrite Hget; intros []|done].
  intros k. unfold node_get. by rewrite Hget.
Qed.

#[export] Instance KeeperNodeMap_NodeMap : NodeMap KeeperNodeMap V := {|
  nm_get := node_get;
  nm_emplace := node_emplace;
  nm_erase := node_erase;
  nm_size := node_map_size;
  nm_clear := node_clear;
  nm_rel := node_rel;
  nm_get_rel m t k H := nr_lookup m t H k;
  nm_size_rel m t H := nr_count m t H;
  nm_emplace_rel := node_rel_emplace;
  nm_erase_rel := node_rel_erase;
  nm_clear_rel := node_rel_clear
|}.
End node_map.
Arguments KeeperNodeMap : clear implicits.

(** [KeeperStore::DATA_TREE_BUCKET_NUM] *)
Definition DATA_TREE_BUCKET_NUM : nat := 16.

(** ** Clients of the interface

    A run of map operations and what it lets a client observe. *)
Inductive MapOp (V : Type) :=
| MapGet (key : string)
| MapEmplace (key : string) (value : V)
| MapErase (key : string)
| MapSize
| MapClear.
Arguments MapGet {V} key.
Arguments MapEmplace {V} key value.
Arguments MapErase {V} key.
Arguments MapSize {V}.
Arguments MapClear {V}.

Inductive MapObs (V : Type) :=
| ObsValue (v : option V)
| ObsBool (b : bool)
| ObsSize (n : Z)
| ObsUnit.
Arguments ObsValue {V} v.
Arguments ObsBool {V} b.
Arguments ObsSize {V} n.
Arguments ObsUnit {V}.

Definition map_op {M V} `{NodeMap M V} (o : MapOp V) (m : M) : MapObs V * M :=
  match o with
  | MapGet k => (ObsValue (nm_get k m), m)
  | MapEmplace k v => let r := nm_emplace k v m in (ObsBool r.1, r.2)
  | MapErase k => let r := nm_erase k m in (ObsBool r.1, r.2)
  | MapSize => (ObsSize (nm_size m), m)
  | MapClear => (ObsUnit, nm_clear m)
  end.

Fixpoint map_ops {M V} `{NodeMap M V} (os : list (MapOp V)) (m : M) : list (MapObs V) * M :=
  match os with
  | [] => ([], m)
  | o :: os' => let r := map_op o m in let rs := map_ops os' r.2 in (r.1 :: rs.1, rs.2)
  end.

(** The specification: one finite map. *)
#[export] Program Instance gmap_NodeMap V : NodeMap (gmap string V) V := {|
  nm_get k m := m !! k;
  nm_emplace k v m := (bool_decide (m !! k = None), <[k := v]> m);
  nm_erase k m := (bool_decide (is_Some (m !! k)), delete k m);
  nm_size m := u64 (Z.of_nat (size m));
  nm_clear _ := ∅;
  nm_rel m t := m = t
|}.
Solve Obligations with naive_solver.

(** Every implementation of the interface is indistinguishable from it. *)
Lemma map_ops_refine {M V} `{NodeMap M V} os m t :
  nm_rel m t ->
  (map_ops os m).1 = (map_ops os t).1 /\ nm_rel (map_ops os m).2 (map_ops os t).2.
Proof.
  revert m t. induction os as [|o os IH]; intros m t Hr; [done|].
  assert ((map_op o m).1 = (map_op o t).1 /\ nm_rel (map_op o m).2 (map_op o t).2) as [E Hr'].
  { destruct o as [k|k v|k| |]; simpl.
    - by rewrite (nm_get_rel m t k Hr).
    - destruct (nm_emplace_rel m t k v Hr) as [-> ?]. done.
    - destruct (nm_erase_rel m t k Hr) as [-> ?]. done.
    - by rewrite (nm_size_rel m t Hr).
    - split; [done|]. by apply (nm_clear_rel m t). }
  cbn [map_ops fst snd]. destruct (IH _ _ Hr') as [-> ?]. by rewrite E.
Qed.

(** C27: the two-level [KeeperNodeMap], whatever the hash function, behaves as
    one map: no sequence of lookups, insertions, removals, clears and size
    queries can tell the difference. *)
Theorem node_map_refines {V} (hash : string -> Z) (os : list (MapOp V)) :
  (@map_ops _ _ (KeeperNodeMap_NodeMap hash DATA_TREE_BUCKET_NUM ltac:(unfold DATA_TREE_BUCKET_NUM; lia))
     os (KeeperNodeMap_init DATA_TREE_BUCKET_NUM)).1 =
  (map_ops os (∅ : gmap string V)).1.
Proof.
  refine (proj1 (@map_ops_refine _ _ (KeeperNodeMap_NodeMap hash DATA_TREE_BUCKET_NUM _) os _ _ _)).
  apply node_rel_init.
Qed.

(** ** Well-formed trees *)

Abbreviation Tree := (gmap string KeeperNode).

(** The children sets mirror the paths: a node other than the root is listed
    by its parent, every listed child exists, and ephemeral nodes have none. *)
Record tree_wf (t : Tree) : Prop := {
  tw_root : is_Some (t !! "/");
  tw_valid : forall p, is_Some (t !! p) -> valid_path p;
  tw_parent : forall p, is_Some (t !! p) -> p <> "/" ->
    exists n, t !! getParentPath p = Some n /\ getBaseName p ∈ children n;
  tw_child : forall p n c, t !! p = Some n -> c ∈ children n ->
    valid_name c /\ is_Some (t !! join_path p c);
  tw_ephemeral : forall p n, t !! p = Some n -> is_ephemeral n = true -> children n = ∅
}.

(** ** Dumping the tree and building it again *)

Section dump.
Context `{IterOrder} (hash : string -> Z).

(** [std::array<std::vector<std::pair<String, KeeperNode>>, N>] *)
Definition BucketNodes : Type := list (list (string * KeeperNode)).
Definition BucketEdges : Type := list (list (string * string)).

(** The entries of one hash map, in its iteration order. *)
Definition iter_nodes (b : gmap string KeeperNode) : list (string * KeeperNode) :=
  omap (fun k => n ← b !! k; Some (k, n)) (iter_str (dom b)).

(** Each bucket is dumped by one thread into its own slot, without children. *)
Definition dumpDataTree (m : KeeperNodeMap KeeperNode) : BucketNodes :=
  (fun b => (fun p => (p.1, cloneWithoutChildren p.2)) <$> iter_nodes b) <$> buckets m.

Fixpoint fill_loop (nodes : list (string * KeeperNode)) (bucket_id : nat) (m : KeeperNodeMap KeeperNode)
    : outcome (KeeperNodeMap KeeperNode) :=
  match nodes with
  | [] => Ok m
  | (path, node) :: nodes' =>
      let r := node_emplace_at path node bucket_id m in
      if negb r.1 && negb (bool_decide (path = "/")) then Fault (Throw LOGICAL_ERROR)
      else fill_loop nodes' bucket_id r.2
  end.

Definition fillDataTreeBucket (all_objects_nodes : list BucketNodes) (bucket_id : nat)
    (m : KeeperNodeMap KeeperNode) : outcome (KeeperNodeMap KeeperNode) :=
  fill_loop (concat ((fun nodes : BucketNodes => default [] (nodes !! bucket_id)) <$> all_objects_nodes))
    bucket_id m.

(** [parent->children.insert(...)] through the node's pointer. *)
Definition node_update (f : KeeperNode -> KeeperNode) (path : string) (m : KeeperNodeMap KeeperNode)
    : option (KeeperNodeMap KeeperNode) :=
  let i := getBucketIndex hash DATA_TREE_BUCKET_NUM path in
  match getMap i m !! path with
  | Some n => Some (mkNodeMap (<[i := <[path := f n]> (getMap i m)]> (buckets m)) (node_count m))
  | None => None
  end.

Fixpoint edges_loop (edges : list (string * string)) (m : KeeperNodeMap KeeperNode)
    : outcome (KeeperNodeMap KeeperNode) :=
  match edges with
  | [] => Ok m
  | (parent_path, path) :: edges' =>
      match node_update (with_children (fun X => {[path]} ∪ X)) parent_path m with
      | Some m' => edges_loop edges' m'
      | None => Fault (Throw LOGICAL_ERROR)
      end
  end.

Definition buildBucketChildren (all_objects_edges : list BucketEdges) (bucket_id : nat)
    (m : KeeperNodeMap KeeperNode) : outcome (KeeperNodeMap KeeperNode) :=
  edges_loop (concat ((fun edges : BucketEdges => default [] (edges !! bucket_id)) <$> all_objects_edges)) m.

Fixpoint children_loop (from_zk_snapshot : bool) (paths : list string) (m : KeeperNodeMap KeeperNode)
    : outcome (KeeperNodeMap KeeperNode) :=
  match paths with
  | [] => Ok m
  | path :: paths' =>
      if decide (path = "/") then children_loop from_zk_snapshot paths' m
      else
        let f n := with_stat (stat_numChildren (fun z => if from_zk_snapshot then i32 (z + 1) else z))
                     (with_children (fun X => {[getBaseName path]} ∪ X) n) in
        match node_update f (getParentPath path) m with
        | Some m' => children_loop from_zk_snapshot paths' m'
        | None => Fault (Throw LOGICAL_ERROR)
        end
  end.

(** The keys do not change during the loop, only the nodes' values. *)
Definition buildChildrenSet (from_zk_snapshot : bool) (m : KeeperNodeMap KeeperNode)
    : outcome (KeeperNodeMap KeeperNode) :=
  children_loop from_zk_snapshot (concat ((fun b => iter_str (dom b)) <$> buckets m)) m.
End dump.

(** ** A dumped tree is rebuilt as it was *)

Section rebuild.
Context `{IterOrder} (hash : string -> Z).
Local Abbreviation idx := (getBucketIndex hash DATA_TREE_BUCKET_NUM).
Local Abbreviation rel := (node_rel hash DATA_TREE_BUCKET_NUM).

Lemma bucket_num_pos : (0 < DATA_TREE_BUCKET_NUM)%nat.
Proof. unfold DATA_TREE_BUCKET_NUM. lia. Qed.

(** The snapshot's objects hold the dump of every bucket, split in any way. *)
Definition objects_of (objs : list BucketNodes) (dump : BucketNodes) : Prop :=
  forall i, (i < DATA_TREE_BUCKET_NUM)%nat ->
    concat ((fun nodes : BucketNodes => default [] (nodes !! i)) <$> objs) ≡ₚ default [] (dump !! i).

(** The objects hold an edge for every node but the root, in the bucket of its
    parent. *)
Definition edges_of (eds : list BucketEdges) (t : Tree) : Prop :=
  forall i p c, (i < DATA_TREE_BUCKET_NUM)%nat ->
    (p, c) ∈ concat ((fun edges : BucketEdges => default [] (edges !! i)) <$> eds) <->
    idx p = i /\ exists q, is_Some (t !! q) /\ q <> "/" /\ getParentPath q = p /\ getBaseName q = c.

(** What a loader's thread does for a bucket, and all buckets in some order. *)
Definition load_bucket (objs : list BucketNodes) (eds : list BucketEdges) (i : nat)
    (m : KeeperNodeMap KeeperNode) : outcome (KeeperNodeMap KeeperNode) :=
  m' ← fillDataTreeBucket objs i m; buildBucketChildren hash eds i m'.

Fixpoint load_buckets (objs : list BucketNodes) (eds : list BucketEdges) (ids : list nat)
    (m : KeeperNodeMap KeeperNode) : outcome (KeeperNodeMap KeeperNode) :=
  match ids with
  | [] => Ok m
  | i :: ids' => m' ← load_bucket objs eds i m; load_buckets objs eds ids' m'
  end.

Lemma elem_of_iter_nodes (b : gmap string KeeperNode) k n :
  (k, n) ∈ iter_nodes b <-> b !! k = Some n.
Proof.
  unfold iter_nodes. rewrite list_elem_of_omap. split.
  - intros (k' & _ & E). destruct (b !! k') eqn:E'; simpl in E; by simplify_eq.
  - intros E. exists k. rewrite E. split; [|done]. apply elem_of_iter_str, elem_of_dom. eauto.
Qed.

Lemma iter_nodes_keys (b : gmap string KeeperNode) : (iter_nodes b).*1 = iter_str (dom b).
Proof.
  unfold iter_nodes.
  assert (Forall (fun k => is_Some (b !! k)) (iter_str (dom b))) as Hall.
  { apply Forall_forall. intros k. rewrite elem_of_iter_str. apply elem_of_dom. }
  induction Hall as [|k ks [n Hn] _ IH]; [done|]. simpl. rewrite Hn. simpl. f_equal. exact IH.
Qed.

Lemma dump_lookup m i :
  dumpDataTree m !! i =
  (fun b => (fun p => (p.1, cloneWithoutChildren p.2)) <$> iter_nodes b) <$> buckets m !! i.
Proof. apply list_lookup_fmap. Qed.

Lemma elem_of_dump m t i k x :
  rel m t -> (i < DATA_TREE_BUCKET_NUM)%nat ->
  (k, x) ∈ default [] (dumpDataTree m !! i) <->
  idx k = i /\ exists n, t !! k = Some n /\ x = cloneWithoutChildren n.
Proof.
  intros [Hlen Hl Hp _] Hi. rewrite dump_lookup.
  destruct (buckets m !! i) as [b|] eqn:E; [|apply lookup_ge_None in E; lia]. simpl.
  assert (getMap i m = b) as Eb by (unfold getMap; by rewrite E).
  rewrite list_elem_of_fmap. split.
  - intros ([k' n] & [= <- ->] & Hin%elem_of_iter_nodes). rewrite <- Eb in Hin.
    assert (idx k = i) as <- by (apply Hp; eauto). split; [done|]. exists n. split; [|done].
    rewrite <- Hl. done.
  - intros (<- & n & Hn & ->). exists (k, n). split; [done|]. apply elem_of_iter_nodes.
    rewrite <- Eb. rewrite <- Hn, <- Hl. done.
Qed.

Lemma NoDup_dump_keys m i : NoDup (default [] (dumpDataTree m !! i)).*1.
Proof.
  rewrite dump_lookup. destruct (buckets m !! i) as [b|]; simpl; [|constructor].
  rewrite <- list_fmap_compose. change (fst ∘ _) with (fst : string * KeeperNode -> string).
  rewrite iter_nodes_keys. apply NoDup_iter_str.
Qed.

(** Filling a bucket with new paths that hash to it; the root may be there. *)
Lemma fill_loop_spec nodes i m t :
  rel m t -> (i < DATA_TREE_BUCKET_NUM)%nat -> NoDup nodes.*1 ->
  (forall k, k ∈ nodes.*1 -> idx k = i /\ (t !! k = None \/ k = "/")) ->
  exists m', fill_loop nodes i m = Ok m' /\ rel m' (list_to_map nodes ∪ t).
Proof.
  intros Hr Hi. revert m t Hr. induction nodes as [|[k n] nodes IH]; intros m t Hr Hnd Hk.
  { exists m. split; [done|]. simpl. by rewrite (left_id_L ∅ (∪)). }
  apply NoDup_cons in Hnd as [Hnin Hnd]. destruct (Hk k) as [<- Ht]; [set_solver|].
  destruct (node_rel_emplace hash _ bucket_num_pos m t k n Hr) as [E1 E2].
  unfold node_emplace in E1, E2. cbn [fill_loop]. rewrite E1.
  assert (negb (bool_decide (t !! k = None)) && negb (bool_decide (k = "/")) = false) as ->.
  { destruct Ht as [Ht|Ht]; rewrite (bool_decide_true _ Ht); simpl; [done|apply andb_false_r]. }
  destruct (IH _ _ E2 Hnd) as (m' & -> & Hr').
  { intros k' Hk'. destruct (Hk k') as [? ?]; [set_solver|]. split; [done|].
    rewrite lookup_insert_ne; [done|]. intros ->. done. }
  exists m'. split; [done|]. simpl. rewrite <- insert_union_l.
  rewrite <- insert_union_r in Hr'; [done|]. by apply not_elem_of_list_to_map_1.
Qed.

(** *** The children sets *)

Lemma node_update_spec f p m t :
  rel m t ->
  match t !! p with
  | Some n => exists m', node_update hash f p m = Some m' /\ rel m' (<[p := f n]> t)
  | None => node_update hash f p m = None
  end.
Proof.
  intros Hr. pose proof (nr_lookup _ _ m t Hr p) as E. unfold node_get in E.
  unfold node_update. rewrite E. destruct (t !! p) as [n|] eqn:En; [|done].
  eexists; split; [done|].
  destruct (node_rel_emplace hash _ bucket_num_pos m t p (f n) Hr) as [_ Hr'].
  unfold node_emplace, node_emplace_at, inner_emplace in Hr'; cbn [fst snd] in Hr'.
  by rewrite E, bool_decide_false in Hr'.
Qed.

(** The names [paths] contribute to the children of [p]. *)
Definition names_under (paths : list string) (p : string) : gset string :=
  list_to_set (getBaseName <$> filter (fun q => q <> "/" /\ getParentPath q = p) paths).

Lemma names_under_cons q paths p :
  names_under (q :: paths) p =
  (if decide (q <> "/" /\ getParentPath q = p) then {[getBaseName q]} else ∅) ∪ names_under paths p.
Proof.
  unfold names_under. rewrite filter_cons. case_decide; [done|]. by rewrite (left_id_L ∅ (∪)).
Qed.

Lemma children_loop_spec paths m t :
  rel m t -> (forall q, q ∈ paths -> q <> "/" -> is_Some (t !! getParentPath q)) ->
  exists m' t', children_loop hash false paths m = Ok m' /\ rel m' t' /\
    forall p, t' !! p = with_children (fun X => names_under paths p ∪ X) <$> t !! p.
Proof.
  revert m t. induction paths as [|q paths IH]; intros m t Hr Hpar.
  { exists m, t. split; [done|]. split; [done|]. intros p. unfold names_under; simpl.
    destruct (t !! p) as [[]|]; [|done]. simpl. unfold with_children; simpl.
    by rewrite (left_id_L ∅ (∪)). }
  cbn [children_loop]. case_decide as Hq.
  - destruct (IH m t Hr) as (m' & t' & E & Hr' & Ht'); [set_solver|].
    exists m', t'. split; [done|]. split; [done|]. intros p. rewrite Ht', names_under_cons.
    rewrite decide_False by naive_solver. by rewrite (left_id_L ∅ (∪)).
  - set (f := fun n : KeeperNode => with_stat _ _). destruct (Hpar q ltac:(set_solver) Hq) as [n Hn].
    pose proof (node_update_spec f (getParentPath q) m t Hr) as Hu. rewrite Hn in Hu.
    destruct Hu as (m1 & -> & Hr1).
    destruct (IH m1 _ Hr1) as (m' & t' & E & Hr' & Ht').
    { intros q' Hq' Hne. apply lookup_insert_is_Some'. right. apply Hpar; set_solver. }
    exists m', t'. split; [done|]. split; [done|]. intros p. rewrite Ht', names_under_cons, lookup_insert.
    destruct (decide (getParentPath q = p)) as [<-|Hne].
    + rewrite Hn, decide_True by done. simpl. f_equal. unfold f, with_stat, stat_numChildren, with_children; simpl.
      destruct n as [? ? ? ? [] ?]; simpl. f_equal. set_solver.
    + rewrite (decide_False (P := _ /\ _)) by naive_solver. by rewrite (left_id_L ∅ (∪)).
Qed.

Lemma all_paths_elem (m : KeeperNodeMap KeeperNode) (t : Tree) q :
  rel m t -> q ∈ concat ((fun b => iter_str (dom b)) <$> buckets m) <-> is_Some (t !! q).
Proof.
  intros [Hlen Hl Hp _]. rewrite list_elem_of_In, in_concat. split.
  - intros (ks & Hks & Hq). apply list_elem_of_In, list_elem_of_fmap in Hks as (b & -> & Hb).
    apply list_elem_of_In, elem_of_iter_str, elem_of_dom in Hq.
    apply list_elem_of_lookup in Hb as [i Hi].
    assert (getMap i m = b) as <- by (unfold getMap; by rewrite Hi).
    rewrite <- Hl. unfold node_get. by rewrite (Hp i q Hq).
  - rewrite <- Hl. unfold node_get. intros Hq.
    pose proof (getBucketIndex_lt hash _ bucket_num_pos q) as Hlt.
    destruct (lookup_lt_is_Some_2 (buckets m) (idx q)) as [b Hb]; [lia|].
    exists (iter_str (dom b)). split.
    + apply list_elem_of_In, list_elem_of_fmap. exists b. split; [done|]. by eapply list_elem_of_lookup_2.
    + apply list_elem_of_In, elem_of_iter_str, elem_of_dom. unfold getMap in Hq. by rewrite Hb in Hq.
Qed.

(** In a well-formed tree the names under a path are its children. *)
Lemma tree_children t p n paths :
  tree_wf t -> (forall q, q ∈ paths <-> is_Some (t !! q)) -> t !! p = Some n ->
  names_under paths p = children n.
Proof.
  intros Hwf Hp Hn. apply set_eq. intros c. unfold names_under.
  rewrite elem_of_list_to_set, list_elem_of_fmap. setoid_rewrite list_elem_of_filter.
  assert (valid_path p) as Hv by (apply (tw_valid t Hwf); eauto). split.
  - intros (q & -> & [Hq <-] & Hin%Hp). destruct (tw_parent t Hwf q Hin Hq) as (n' & Hn' & ?). congruence.
  - intros Hc. destruct (tw_child t Hwf p n c Hn Hc) as [Hvc Hex].
    exists (join_path p c). split; [by rewrite getBaseName_join|].
    split; [|by apply Hp]. split; [by apply join_path_ne_root|by apply getParentPath_join].
Qed.

(** [buildChildrenSet] of a tree whose children sets are empty. *)
Lemma buildChildrenSet_spec m1 t :
  rel m1 (cloneWithoutChildren <$> t) -> tree_wf t ->
  exists m2, buildChildrenSet hash false m1 = Ok m2 /\ rel m2 t.
Proof.
  intros Hr1 Hwf.
  assert (forall q, q ∈ concat ((fun b => iter_str (dom b)) <$> buckets m1) <-> is_Some (t !! q)) as Hall.
  { intros q. rewrite (all_paths_elem m1 _ q Hr1), lookup_fmap. by rewrite fmap_is_Some. }
  unfold buildChildrenSet. set (paths := concat _) in *.
  destruct (children_loop_spec paths m1 _ Hr1) as (m2 & t' & E & Hr2 & Ht').
  { intros q Hq%Hall Hne. rewrite lookup_fmap, fmap_is_Some.
    destruct (tw_parent t Hwf q Hq Hne) as (n & -> & _). eauto. }
  exists m2. split; [exact E|].
  replace t with t'; [done|]. apply map_eq. intros p. rewrite Ht', lookup_fmap.
  destruct (t !! p) as [n|] eqn:En; [|done]. simpl. f_equal.
  rewrite (tree_children t p n paths Hwf Hall En).
  destruct n; unfold with_children; simpl. f_equal. apply (right_id_L ∅ (∪)).
Qed.

(** *** Bucket by bucket *)

(** The names [edges] give to the children of [p]. *)
Definition edge_names (edges : list (string * string)) (p : string) : gset string :=
  list_to_set (snd <$> filter (fun e => e.1 = p) edges).

Lemma edges_loop_spec edges m t :
  rel m t -> (forall e, e ∈ edges -> is_Some (t !! e.1)) ->
  exists m' t', edges_loop hash edges m = Ok m' /\ rel m' t' /\
    forall p, t' !! p = with_children (fun X => edge_names edges p ∪ X) <$> t !! p.
Proof.
  revert m t. induction edges as [|[q c] edges IH]; intros m t Hr Hpar.
  { exists m, t. split; [done|]. split; [done|]. intros p. unfold edge_names; simpl.
    destruct (t !! p) as [[]|]; [|done]. simpl. unfold with_children; simpl. by rewrite (left_id_L ∅ (∪)). }
  cbn [edges_loop]. destruct (Hpar (q, c) ltac:(set_solver)) as [n Hn]. simpl in Hn.
  pose proof (node_update_spec (with_children (fun X => {[c]} ∪ X)) q m t Hr) as Hu. rewrite Hn in Hu.
  destruct Hu as (m1 & -> & Hr1). destruct (IH m1 _ Hr1) as (m' & t' & E & Hr' & Ht').
  { intros e He. apply lookup_insert_is_Some'. right. apply Hpar. set_solver. }
  exists m', t'. split; [done|]. split; [done|]. intros p. rewrite Ht', lookup_insert.
  unfold edge_names. rewrite filter_cons. simpl. destruct (decide (q = p)) as [<-|Hne].
  - rewrite Hn. simpl. f_equal. unfold with_children; simpl. f_equal. set_solver.
  - done.
Qed.

(** The part of the tree a set of buckets holds. *)
Definition tree_part (t : Tree) (D : list nat) : Tree := filter (fun p => idx p.1 ∈ D) t.

Lemma tree_part_lookup t D k :
  tree_part t D !! k = if decide (idx k ∈ D) then t !! k else None.
Proof.
  unfold tree_part. rewrite map_lookup_filter. destruct (t !! k); simpl; [by case_guard|by case_decide].
Qed.

(** What the map may hold before: nothing, or the root of a new store. *)
Definition start_tree (t0 : Tree) : Prop := forall k, is_Some (t0 !! k) -> k = "/".

Lemma fill_bucket_step objs m0 t t0 D j m :
  rel m0 t -> start_tree t0 -> objects_of objs (dumpDataTree m0) -> (j < DATA_TREE_BUCKET_NUM)%nat -> j ∉ D ->
  rel m (tree_part t D ∪ t0) ->
  exists m', fillDataTreeBucket objs j m = Ok m' /\
    rel m' ((cloneWithoutChildren <$> tree_part t [j]) ∪ (tree_part t D ∪ t0)).
Proof.
  intros Hr0 H0 Ho Hj HD Hr. unfold fillDataTreeBucket. set (nodes := concat _).
  assert (nodes ≡ₚ default [] (dumpDataTree m0 !! j)) as Hp by (by apply Ho).
  assert (NoDup nodes.*1) as Hnd by (rewrite Hp; apply NoDup_dump_keys).
  assert (forall k x, (k, x) ∈ nodes <-> idx k = j /\ exists n, t !! k = Some n /\ x = cloneWithoutChildren n)
    as Hin by (intros k x; rewrite Hp; by apply elem_of_dump).
  destruct (fill_loop_spec nodes j m (tree_part t D ∪ t0)) as (m' & E & Hr'); [done..| |].
  { intros k ([k' x] & -> & Hk)%list_elem_of_fmap. apply Hin in Hk as [<- _].
    split; [done|]. simpl. rewrite lookup_union_r by (by rewrite tree_part_lookup, decide_False).
    destruct (t0 !! k') eqn:E0; [right; apply H0; eauto|by left]. }
  exists m'. split; [done|]. replace (cloneWithoutChildren <$> tree_part t [j]) with (list_to_map nodes : Tree); [done|].
  apply map_eq. intros k. rewrite lookup_fmap, tree_part_lookup.
  destruct ((list_to_map nodes : Tree) !! k) as [x|] eqn:Ek.
  - apply elem_of_list_to_map, Hin in Ek as (<- & n & -> & ->); [|done]. by rewrite decide_True by set_solver.
  - case_decide as Hk; [|done]. destruct (t !! k) as [n|] eqn:En; [|done].
    exfalso. apply not_elem_of_list_to_map_2 in Ek. apply Ek, list_elem_of_fmap.
    exists (k, cloneWithoutChildren n). split; [done|]. apply Hin. split; [set_solver|eauto].
Qed.

(** The edges of a bucket give its nodes their children. *)
Lemma edge_names_children eds t j p n :
  tree_wf t -> edges_of eds t -> (j < DATA_TREE_BUCKET_NUM)%nat -> idx p = j -> t !! p = Some n ->
  edge_names (concat ((fun edges : BucketEdges => default [] (edges !! j)) <$> eds)) p = children n.
Proof.
  intros Hwf He Hj Hp En. apply set_eq. intros c. unfold edge_names.
  rewrite elem_of_list_to_set, list_elem_of_fmap. setoid_rewrite list_elem_of_filter.
  assert (valid_path p) as Hv by (apply (tw_valid t Hwf); eauto). split.
  - intros ([p' c'] & -> & <- & (_ & q & Hq & Hne & Hpq & <-)%He); [|done]. simpl in *.
    destruct (tw_parent t Hwf q Hq Hne) as (n' & Hn' & ?). congruence.
  - intros Hc. destruct (tw_child t Hwf p n c En Hc) as [Hvc Hex]. exists (p, c). split; [done|].
    split; [done|]. apply He; [done|]. split; [done|]. exists (join_path p c).
    split; [done|]. split; [by apply join_path_ne_root|].
    split; [by apply getParentPath_join|by apply getBaseName_join].
Qed.

Lemma edge_names_other eds t j p :
  edges_of eds t -> (j < DATA_TREE_BUCKET_NUM)%nat -> idx p <> j ->
  edge_names (concat ((fun edges : BucketEdges => default [] (edges !! j)) <$> eds)) p = ∅.
Proof.
  intros He Hj Hp. apply elem_of_equiv_empty_L. intros c. unfold edge_names.
  rewrite elem_of_list_to_set, list_elem_of_fmap.
  intros ([p' c'] & _ & [<- Hin]%list_elem_of_filter). apply He in Hin as [? _]; done.
Qed.

Lemma with_children_empty n : with_children (fun X => ∅ ∪ X) n = n.
Proof. destruct n; unfold with_children; simpl. f_equal. apply (left_id_L ∅ (∪)). Qed.

Lemma load_bucket_step objs eds m0 t t0 D j m :
  rel m0 t -> tree_wf t -> start_tree t0 -> objects_of objs (dumpDataTree m0) -> edges_of eds t ->
  (j < DATA_TREE_BUCKET_NUM)%nat -> j ∉ D -> rel m (tree_part t D ∪ t0) ->
  exists m', load_bucket objs eds j m = Ok m' /\ rel m' (tree_part t (j :: D) ∪ t0).
Proof.
  intros Hr0 Hwf H0 Ho He Hj HD Hr. unfold load_bucket.
  destruct (fill_bucket_step objs m0 t t0 D j m) as (m1 & -> & Hr1); [done..|]. simpl.
  unfold buildBucketChildren. set (edges := concat _).
  destruct (edges_loop_spec edges m1 _ Hr1) as (m' & t' & E & Hr' & Ht').
  { intros [p c] (Hp & q & Hq & Hne & <- & _)%He; [|done]. simpl.
    destruct (tw_parent t Hwf q Hq Hne) as (n & Hn & _).
    exists (cloneWithoutChildren n). apply lookup_union_Some_l.
    rewrite lookup_fmap, tree_part_lookup, Hp, decide_True by set_solver. by rewrite Hn. }
  exists m'. split; [exact E|]. replace (tree_part t (j :: D) ∪ t0) with t'; [done|].
  apply map_eq. intros p. rewrite Ht'. destruct (decide (idx p = j)) as [Hp|Hp].
  - destruct (t !! p) as [n|] eqn:En.
    + rewrite (lookup_union_Some_l _ _ p (cloneWithoutChildren n)).
      2:{ rewrite lookup_fmap, tree_part_lookup, decide_True, En by set_solver. done. }
      rewrite (lookup_union_Some_l _ _ p n).
      2:{ rewrite tree_part_lookup, decide_True by set_solver. done. }
      simpl. f_equal. unfold edges. rewrite (edge_names_children eds t j p n) by done.
      destruct n; unfold with_children; simpl. f_equal. apply (right_id_L ∅ (∪)).
    + assert (t0 !! p = None) as Hp0.
      { apply eq_None_not_Some. intros Hs. rewrite (H0 p Hs) in En. destruct (tw_root t Hwf) as [? ?]. congruence. }
      rewrite !lookup_union, lookup_fmap, !tree_part_lookup, En, Hp0. by repeat case_decide.
  - unfold edges. rewrite (edge_names_other eds t j p) by done.
    rewrite !lookup_union, lookup_fmap, !tree_part_lookup.
    rewrite (decide_False (P := idx p ∈ [j])) by set_solver. simpl.
    destruct (decide (idx p ∈ D)).
    + rewrite decide_True by set_solver. rewrite !(left_id_L None (∪)).
      destruct (t !! p ∪ t0 !! p) as [x|]; simpl; [by rewrite with_children_empty|done].
    + rewrite decide_False by set_solver. rewrite !(left_id_L None (∪)).
      destruct (t0 !! p) as [x|]; simpl; [by rewrite with_children_empty|done].
Qed.

Lemma load_buckets_spec objs eds m0 t t0 ids : forall D m,
  rel m0 t -> tree_wf t -> start_tree t0 -> objects_of objs (dumpDataTree m0) -> edges_of eds t ->
  NoDup (ids ++ D) -> Forall (fun i => (i < DATA_TREE_BUCKET_NUM)%nat) ids -> rel m (tree_part t D ∪ t0) ->
  exists m', load_buckets objs eds ids m = Ok m' /\ rel m' (tree_part t (ids ++ D) ∪ t0).
Proof.
  induction ids as [|j ids IH]; intros D m Hr0 Hwf H0 Ho He Hnd Hlt Hr; [by exists m|].
  apply Forall_cons in Hlt as [Hj Hlt]. rewrite <- app_comm_cons in *.
  apply NoDup_cons in Hnd as [Hnin Hnd]. cbn [load_buckets].
  destruct (load_bucket_step objs eds m0 t t0 D j m) as (m1 & -> & Hr1); [done..|set_solver|done|]. simpl.
  destruct (IH (j :: D) m1) as (m' & -> & Hr'); [done..| |done|done|].
  { rewrite <- Permutation_middle. by constructor. }
  exists m'. split; [done|]. replace (tree_part t (j :: ids ++ D)) with (tree_part t (ids ++ j :: D)); [done|].
  apply map_eq. intros k. rewrite !tree_part_lookup.
  repeat case_decide; set_solver.
Qed.
End rebuild.

(** Dumping the tree bucket by bucket without the children sets, filling
    the buckets of an empty map, or of the map of a new store, from the dump
    however it was split into objects, and inserting the edges of each bucket
    gives the tree that was dumped, in whatever order the loader's threads take
    the buckets. *)
Lemma dump_and_rebuild_identity `{IterOrder} (hash : string -> Z) objs eds ids m m0 t t0 :
  node_rel hash DATA_TREE_BUCKET_NUM m t -> tree_wf t ->
  objects_of objs (dumpDataTree m) -> edges_of hash eds t -> ids ≡ₚ seq 0 DATA_TREE_BUCKET_NUM ->
  node_rel hash DATA_TREE_BUCKET_NUM m0 t0 -> start_tree t0 ->
  exists m', load_buckets hash objs eds ids m0 = Ok m' /\ node_rel hash DATA_TREE_BUCKET_NUM m' t.
Proof.
  intros Hr Hwf Ho He Hids Hr0 H0.
  destruct (load_buckets_spec hash objs eds m t t0 ids [] m0) as (m' & -> & Hr'); [done..| | | |].
  - rewrite app_nil_r, Hids. apply NoDup_seq.
  - rewrite Hids. apply Forall_seq. lia.
  - replace (tree_part hash t []) with (∅ : Tree); [by rewrite (left_id_L ∅ (∪))|].
    apply map_eq. intros k. by rewrite tree_part_lookup, decide_False by set_solver.
  - exists m'. split; [done|]. replace t with (tree_part hash t (ids ++ []) ∪ t0); [done|].
    apply map_eq. intros k. rewrite lookup_union, tree_part_lookup, decide_True.
    2:{ rewrite app_nil_r, Hids, elem_of_seq. split; [lia|]. apply getBucketIndex_lt, bucket_num_pos. }
    destruct (t !! k) as [n|] eqn:En; [by destruct (t0 !! k)|].
    destruct (t0 !! k) as [n|] eqn:E0; [|done]. rewrite (H0 k) in En by eauto.
    destruct (tw_root t Hwf) as [? ?]. congruence.
Qed.

(** The tree of a new store: the root alone. *)
Definition root_tree : gmap string KeeperNode := {["/" := KeeperNode0]}.

Lemma root_tree_wf : tree_wf root_tree.
Proof.
  unfold root_tree. split.
  - by exists KeeperNode0.
  - intros p [n [<- _]%lookup_singleton_Some]. apply valid_path_root.
  - intros p [n [<- _]%lookup_singleton_Some]. done.
  - intros p n c [_ <-]%lookup_singleton_Some. set_solver.
  - by intros p n [_ <-]%lookup_singleton_Some.
Qed.
