(* ===== verification/Store.v ===== *)
(** * The store

    [KeeperStore] and the [StoreRequest*] classes of
    [src/src/Service/KeeperStore.h/.cpp]: the state machine every committed
    request is applied to.

    Code runs in the monad [SM KeeperStore]: a fault keeps the state reached.
    Parameters of the model: the iteration order of the hash containers
    ([IterOrder]), the composition of Poco's SHA1 and Base64 ([sha1_base64]),
    the wall clock ([now]) and the compile-time switch
    COMPATIBLE_MODE_ZOOKEEPER ([compat]). *)

From stdpp Require Import pretty.
From S2P Require Import Prelude Coordination Paths AclMap Sessions Watches DataTree.

Local Infix "+++" := String.append (at level 60, right associativity).

Record KeeperStore := mkStore {
  data_tree : gmap string KeeperNode;
  session_manager : SessionManager;
  watch_manager : WatchManager;
  ephemerals : gmap Z (gset string);
  zxid : Z;
  session_and_auth : gmap Z (list AuthID);
  acl_map : ACLMap;
  finalized : bool;
  super_digest : string
}.

(** The constructor: only the root exists. *)
Definition KeeperStore_init (dead_session_check_period_ms : Z) (digest : string) : KeeperStore :=
  mkStore root_tree (SessionManager_init dead_session_check_period_ms) WatchManager_init ∅ 0 ∅
    ACLMap_init false digest.

(** ** Field updates *)
Definition with_tree (f : gmap string KeeperNode -> gmap string KeeperNode) (s : KeeperStore) : KeeperStore :=
  mkStore (f (data_tree s)) (session_manager s) (watch_manager s) (ephemerals s) (zxid s)
    (session_and_auth s) (acl_map s) (finalized s) (super_digest s).
Definition with_sessions (x : SessionManager) (s : KeeperStore) : KeeperStore :=
  mkStore (data_tree s) x (watch_manager s) (ephemerals s) (zxid s)
    (session_and_auth s) (acl_map s) (finalized s) (super_digest s).
Definition with_watches (x : WatchManager) (s : KeeperStore) : KeeperStore :=
  mkStore (data_tree s) (session_manager s) x (ephemerals s) (zxid s)
    (session_and_auth s) (acl_map s) (finalized s) (super_digest s).
Definition with_ephemerals (f : gmap Z (gset string) -> gmap Z (gset string)) (s : KeeperStore) : KeeperStore :=
  mkStore (data_tree s) (session_manager s) (watch_manager s) (f (ephemerals s)) (zxid s)
    (session_and_auth s) (acl_map s) (finalized s) (super_digest s).
Definition with_zxid (x : Z) (s : KeeperStore) : KeeperStore :=
  mkStore (data_tree s) (session_manager s) (watch_manager s) (ephemerals s) x
    (session_and_auth s) (acl_map s) (finalized s) (super_digest s).
Definition with_auth (f : gmap Z (list AuthID) -> gmap Z (list AuthID)) (s : KeeperStore) : KeeperStore :=
  mkStore (data_tree s) (session_manager s) (watch_manager s) (ephemerals s) (zxid s)
    (f (session_and_auth s)) (acl_map s) (finalized s) (super_digest s).
Definition with_acl (f : ACLMap -> ACLMap) (s : KeeperStore) : KeeperStore :=
  mkStore (data_tree s) (session_manager s) (watch_manager s) (ephemerals s) (zxid s)
    (session_and_auth s) (f (acl_map s)) (finalized s) (super_digest s).
Definition with_finalized (x : bool) (s : KeeperStore) : KeeperStore :=
  mkStore (data_tree s) (session_manager s) (watch_manager s) (ephemerals s) (zxid s)
    (session_and_auth s) (acl_map s) x (super_digest s).

(** ** Access to the tree and the indexes (KeeperStore.h) *)

Definition getNode (path : string) : SM KeeperStore (option KeeperNode) :=
  sm_get (fun s => data_tree s !! path).

Definition addNode (path : string) (node : KeeperNode) : SM KeeperStore unit :=
  sm_modify (with_tree (<[path := node]>)).

Definition removeNode (path : string) : SM KeeperStore unit :=
  sm_modify (with_tree (delete path)).

(** Changes the node a [KeeperNodePtr] from the tree points to. *)
Definition updateNode (f : KeeperNode -> KeeperNode) (path : string) : SM KeeperStore unit :=
  sm_modify (with_tree (alter f path)).

Definition addEphemeralNode (session_id : Z) (path : string) : SM KeeperStore unit :=
  sm_modify (with_ephemerals (mset_add session_id path)).

Definition removeEphemeralNode (session_id : Z) (path : string) : SM KeeperStore unit :=
  sm_modify (with_ephemerals (mset_del session_id path)).

(** [fetchAndGetZxid]: [zxid++] returns the old value. *)
Definition fetchAndGetZxid : SM KeeperStore Z := fun s =>
  (Ok (zxid s), with_zxid (i64 (zxid s + 1)) s).

(** Calls of the watch and session managers, whose faults end the process. *)
Definition watch_op {A} (f : WatchManager -> outcome (A * WatchManager)) : SM KeeperStore A := fun s =>
  match f (watch_manager s) with
  | Ok (a, w) => (Ok a, with_watches w s)
  | Fault e => (Fault e, s)
  end.

Definition session_op {A} (f : SessionManager -> outcome (A * SessionManager)) : SM KeeperStore A := fun s =>
  match f (session_manager s) with
  | Ok (a, m) => (Ok a, with_sessions m s)
  | Fault e => (Fault e, s)
  end.

Definition no_result {S} (m : outcome S) : outcome (unit * S) := x ← m; Ok (tt, x).

Definition addSessionAuth (session_id : Z) (auth : list AuthID) : SM KeeperStore unit :=
  sm_modify (with_auth (<[session_id := auth]>)).

(** ** Access control *)

(** [checkACL] *)
Definition checkACL (permission : Z) (node_acls : list ACL) (session_auths : list AuthID) : bool :=
  match node_acls with
  | [] => true
  | _ =>
      existsb (fun a => bool_decide (AuthID_scheme a = "super")) session_auths ||
      existsb (fun acl =>
        negb (bool_decide (Z.land (ACL_permissions acl) permission = 0)) &&
        ((bool_decide (ACL_scheme acl = "world") && bool_decide (ACL_id acl = "anyone")) ||
         existsb (fun a => bool_decide (ACL_scheme acl = AuthID_scheme a) &&
                           bool_decide (ACL_id acl = AuthID_id a)) session_auths)) node_acls
  end.

Definition colon : ascii := ":"%char.

(** The loop of [fixupACL]: [None] is [return false] inside it, otherwise the
    flag [valid_found] and the list built so far. *)
Fixpoint fixup_loop (request_acls : list ACL) (current_ids : list AuthID) (valid_found : bool)
    (result_acls : list ACL) : option (bool * list ACL) :=
  match request_acls with
  | [] => Some (valid_found, result_acls)
  | a :: rest =>
      if decide (ACL_scheme a = "auth") then
        fixup_loop rest current_ids (valid_found || negb (bool_decide (current_ids = [])))
          (result_acls ++ ((fun i => mkACL (ACL_permissions a) (AuthID_scheme i) (AuthID_id i)) <$> current_ids))
      else if decide (ACL_scheme a = "world" /\ ACL_id a = "anyone") then
        fixup_loop rest current_ids true (result_acls ++ [a])
      else if decide (ACL_scheme a = "digest") then
        if decide (str_count colon (ACL_id a) <> 1%nat) then None
        else fixup_loop rest current_ids true (result_acls ++ [a])
      else fixup_loop rest current_ids valid_found result_acls
  end.

(** [fixupACL]: the result list, or [None] when it returns false. *)
Definition fixupACL (request_acls : list ACL) (current_ids : list AuthID) : option (list ACL) :=
  match request_acls with
  | [] => Some []
  | _ =>
      match fixup_loop request_acls current_ids false [] with
      | Some (true, result_acls) => Some result_acls
      | _ => None
      end
  end.

(** The common shape of [checkAuth]: the permission on the node at [path]. *)
Definition checkNodeAuth (permission : Z) (path : string) (session_id : Z) : SM KeeperStore bool := fun s =>
  match data_tree s !! path with
  | None => (Ok true, s)
  | Some node =>
      match convertNumber (acl_id node) (acl_map s) with
      | Fault e => (Fault e, s)
      | Ok node_acls =>
          if decide (node_acls = []) then (Ok true, s)
          else (Ok (checkACL permission node_acls (default [] (session_and_auth s !! session_id))), s)
      end
  end.

(** [store.session_and_auth[session_id]]: creates the entry. *)
Definition session_auth_ids (session_id : Z) : SM KeeperStore (list AuthID) := fun s =>
  let ids := default [] (session_and_auth s !! session_id) in
  (Ok ids, with_auth (<[session_id := ids]>) s).

(** ** Requests on nodes

    [StoreRequest::process] gives the response and an undo action, which
    [StoreRequestMultiTxn] runs when a later part of the transaction fails. *)
Definition Undo : Type := option (SM KeeperStore unit).
Definition Processed : Type := ZooKeeperResponse * Undo.

Definition failed (e : Error) (b : ResponseBody) : SM KeeperStore Processed :=
  sm_ret (set_error e (ResponseHeader0, b), None).

(** A node through a pointer that must not be null. *)
Definition derefNode (f : KeeperNode -> KeeperNode) (path : string) : SM KeeperStore unit := fun s =>
  match data_tree s !! path with
  | Some _ => updateNode f path s
  | None => (Fault UndefinedBehaviour, s)
  end.

(** The changes of a parent's statistics. *)
Definition stat_child (dc dn : Z) (pzxid' : Z) (s : Stat) : Stat :=
  mkStat (czxid s) (mzxid s) (ctime s) (mtime s) (version s) (i32 (cversion s + dc)) (aversion s)
    (ephemeralOwner s) (dataLength s) (i32 (numChildren s + dn)) pzxid'.

(** [setw(10) << setfill('0') << seq_num]: padded on the left, sign included. *)
Fixpoint zeros (n : nat) : string :=
  match n with O => "" | S n' => String "0"%char (zeros n') end.

Definition seq_num_str (seq_num : Z) : string :=
  let s := pretty seq_num in zeros (10 - String.length s) +++ s.

(** *** Create *)

Definition undo_create (session_id : Z) (path_created : string) (pzxid' : Z) (ephemeral : bool)
    (parent_path child_path : string) (acl_id' : Z) : SM KeeperStore unit :=
  (removeNode path_created ;;;
   sm_modify (with_acl (removeUsage acl_id')) ;;;
   (if ephemeral then removeEphemeralNode session_id path_created else sm_ret tt) ;;;
   derefNode (fun n => with_children (fun X => X ∖ {[child_path]})
                         (with_stat (stat_child (-1) (-1) pzxid') n)) parent_path)%sm.

(** The ACL number of a new node; [None] when the request's list is refused. *)
Definition create_acl (acls : list ACL) (session_id : Z) : SM KeeperStore (option Z) :=
  (if decide (acls = []) then sm_ret (Some 0)
   else
     ids <- session_auth_ids session_id ;;
     match fixupACL acls ids with
     | None => sm_ret None
     | Some node_acls => fun s =>
         let r := convertACLs node_acls (acl_map s) in
         (Ok (Some r.1), with_acl (fun _ => addUsage r.1 1 r.2) s)
     end)%sm.

Definition created_node (data' : string) (ephemeral sequential : bool) (acl_id' zxid' session_id time : Z)
    : KeeperNode :=
  mkKeeperNode data' acl_id' ephemeral sequential
    (mkStat zxid' zxid' time time 0 0 0 (if ephemeral then session_id else 0)
       (i32 (Z.of_nat (String.length data'))) 0 zxid') ∅.

Definition process_create (path data' : string) (ephemeral sequential : bool) (acls : list ACL)
    (not_exists : bool) (zxid' session_id time : Z) : SM KeeperStore Processed :=
  (parent <- getNode (getParentPath path) ;;
   match parent with
   | None => failed ZNONODE (CreateResponse "")
   | Some parent =>
       if is_ephemeral parent then failed ZNOCHILDRENFOREPHEMERALS (CreateResponse "")
       else if sequential && not_exists then failed ZBADARGUMENTS (CreateResponse "")
       else
         let path_created := if sequential then path +++ seq_num_str (cversion (stat parent)) else path in
         existing <- getNode path_created ;;
         match existing with
         | Some _ =>
             if not_exists then sm_ret ((ResponseHeader0, CreateResponse path), None)
             else failed ZNODEEXISTS (CreateResponse "")
         | None =>
             let child_path := getBaseName path_created in
             if decide (child_path = "") then failed ZBADARGUMENTS (CreateResponse "")
             else
               acl <- create_acl acls session_id ;;
               match acl with
               | None => failed ZINVALIDACL (CreateResponse "")
               | Some acl_id' =>
                   updateNode (fun n => with_children (fun X => {[child_path]} ∪ X)
                                          (with_stat (stat_child 1 1 zxid') n)) (getParentPath path) ;;;
                   addNode path_created
                     (created_node data' ephemeral sequential acl_id' zxid' session_id time) ;;;
                   (if ephemeral then addEphemeralNode session_id path_created else sm_ret tt) ;;;
                   sm_ret ((ResponseHeader0, CreateResponse path_created),
                           Some (undo_create session_id path_created (pzxid (stat parent)) ephemeral
                                   (getParentPath path) child_path acl_id'))
               end
         end
   end)%sm.

(** *** Get, Exists *)

Definition process_get (path : string) : SM KeeperStore Processed :=
  (node <- getNode path ;;
   match node with
   | None => failed ZNONODE (GetResponse "" Stat0)
   | Some node => sm_ret ((ResponseHeader0, GetResponse (data node) (statForResponse node)), None)
   end)%sm.

Definition process_exists (path : string) : SM KeeperStore Processed :=
  (node <- getNode path ;;
   match node with
   | None => failed ZNONODE (ExistsResponse Stat0)
   | Some node => sm_ret ((ResponseHeader0, ExistsResponse (statForResponse node)), None)
   end)%sm.

(** *** Remove *)

Definition undo_remove (prev_node : KeeperNode) (ephemeral_owner : Z) (path : string) (pzxid' : Z)
    (child_basename : string) : SM KeeperStore unit :=
  ((if is_ephemeral prev_node then addEphemeralNode ephemeral_owner path else sm_ret tt) ;;;
   sm_modify (with_acl (addUsage (acl_id prev_node) 1)) ;;;
   addNode path prev_node ;;;
   derefNode (fun n => with_children (fun X => {[child_basename]} ∪ X)
                         (with_stat (stat_child 0 1 pzxid') n)) (getParentPath path))%sm.

Definition process_remove (path : string) (version' zxid' : Z) : SM KeeperStore Processed :=
  (node <- getNode path ;;
   match node with
   | None => failed ZNONODE RemoveResponse
   | Some node =>
       if decide (version' <> -1 /\ version' <> version (stat node)) then failed ZBADVERSION RemoveResponse
       else if decide (children node <> ∅) then failed ZNOTEMPTY RemoveResponse
       else
         let prev_node := clone node in
         let child_basename := getBaseName path in
         parent <- getNode (getParentPath path) ;;
         match parent with
         | None => sm_fault UndefinedBehaviour
         | Some parent =>
             updateNode (fun n => with_children (fun X => X ∖ {[child_basename]})
                                    (with_stat (stat_child 0 (-1) zxid') n)) (getParentPath path) ;;;
             sm_modify (with_acl (removeUsage (acl_id prev_node))) ;;;
             removeNode path ;;;
             let ephemeral_owner := if is_ephemeral prev_node then ephemeralOwner (stat prev_node) else 0 in
             (if is_ephemeral prev_node then removeEphemeralNode ephemeral_owner path else sm_ret tt) ;;;
             sm_ret ((ResponseHeader0, RemoveResponse),
                     Some (undo_remove prev_node ephemeral_owner path (pzxid (stat parent)) child_basename))
         end
   end)%sm.

(** *** Set *)

Definition set_node (data' : string) (zxid' time : Z) (n : KeeperNode) : KeeperNode :=
  let s := stat n in
  mkKeeperNode data' (acl_id n) (is_ephemeral n) (is_sequential n)
    (mkStat (czxid s) zxid' (ctime s) time (i32 (version s + 1)) (cversion s) (aversion s)
       (ephemeralOwner s) (i32 (Z.of_nat (String.length data'))) (numChildren s) (pzxid s)) (children n).

Definition process_set (path data' : string) (version' zxid' time : Z) : SM KeeperStore Processed :=
  (node <- getNode path ;;
   match node with
   | None => failed ZNONODE (SetResponse Stat0)
   | Some node =>
       if decide (version' = -1 \/ version' = version (stat node)) then
         let prev_node := clone node in
         updateNode (set_node data' zxid' time) path ;;;
         sm_ret ((ResponseHeader0, SetResponse (statForResponse (set_node data' zxid' time node))),
                 Some (addNode path prev_node))
       else failed ZBADVERSION (SetResponse Stat0)
   end)%sm.

(** *** List, SimpleList, FilteredList *)

(** The loop over the children with [add_child]: the child's node is looked up
    at [path + "/" + child] and dereferenced without a null check (the test in
    the code is on the parent). *)
Fixpoint filter_children (path : string) (list_request_type : Z) (names : list string)
    : SM KeeperStore (list string) :=
  match names with
  | [] => sm_ret []
  | child :: names' =>
      (child_node <- getNode (path +++ "/" +++ child) ;;
       match child_node with
       | None => sm_fault UndefinedBehaviour
       | Some n =>
           let ephemeral := negb (bool_decide (ephemeralOwner (stat n) = 0)) in
           let keep := (ephemeral && bool_decide (list_request_type = ListRequestType_EPHEMERAL_ONLY))
                       || (negb ephemeral && bool_decide (list_request_type = ListRequestType_PERSISTENT_ONLY)) in
           rest <- filter_children path list_request_type names' ;;
           sm_ret (if keep then child :: rest else rest)
       end)%sm
  end.

Definition process_list `{IterOrder} (path : string) (list_request_type : Z) : SM KeeperStore Processed :=
  (node <- getNode path ;;
   match node with
   | None => failed ZNONODE (ListResponse [] Stat0)
   | Some node =>
       if decide (path = "") then sm_fault (Throw LOGICAL_ERROR)
       else if decide (list_request_type = ListRequestType_ALL) then
         sm_ret ((ResponseHeader0, ListResponse (iter_str (children node)) (statForResponse node)), None)
       else
         names <- filter_children path list_request_type (iter_str (children node)) ;;
         sm_ret ((ResponseHeader0, ListResponse names (statForResponse node)), None)
   end)%sm.

Definition process_simple_list `{IterOrder} (path : string) : SM KeeperStore Processed :=
  (node <- getNode path ;;
   match node with
   | None => failed ZNONODE (SimpleListResponse [])
   | Some node =>
       if decide (path = "") then sm_fault (Throw LOGICAL_ERROR)
       else sm_ret ((ResponseHeader0, SimpleListResponse (iter_str (children node))), None)
   end)%sm.

(** *** Check, CheckNotExists *)

Definition process_check (path : string) (version' : Z) (not_exists : bool) : SM KeeperStore Processed :=
  let body := if not_exists then CheckNotExistsResponse else CheckResponse in
  (node <- getNode path ;;
   if not_exists then
     match node with
     | Some n =>
         if decide (version' = -1 \/ version' = version (stat n)) then failed ZNODEEXISTS body
         else sm_ret ((ResponseHeader0, body), None)
     | None => sm_ret ((ResponseHeader0, body), None)
     end
   else
     match node with
     | None => failed ZNONODE body
     | Some n =>
         if decide (version' <> -1 /\ version' <> version (stat n)) then failed ZBADVERSION body
         else sm_ret ((ResponseHeader0, body), None)
     end)%sm.

(** *** SetACL, GetACL *)

Definition set_acl_node (acl_id' : Z) (n : KeeperNode) : KeeperNode :=
  let s := stat n in
  mkKeeperNode (data n) acl_id' (is_ephemeral n) (is_sequential n)
    (mkStat (czxid s) (mzxid s) (ctime s) (mtime s) (version s) (cversion s) (i32 (aversion s + 1))
       (ephemeralOwner s) (dataLength s) (numChildren s) (pzxid s)) (children n).

(** The previous list's usage is not given back, and the response carries the
    stored statistics, not [statForResponse]. *)
Definition process_set_acl (path : string) (acls : list ACL) (version' session_id : Z)
    : SM KeeperStore Processed :=
  (node <- getNode path ;;
   match node with
   | None => failed ZNONODE (SetACLResponse Stat0)
   | Some node =>
       if decide (version' <> -1 /\ version' <> aversion (stat node)) then
         failed ZBADVERSION (SetACLResponse Stat0)
       else
         ids <- session_auth_ids session_id ;;
         match fixupACL acls ids with
         | None => failed ZINVALIDACL (SetACLResponse Stat0)
         | Some node_acls =>
             acl_id' <- (fun s => let r := convertACLs node_acls (acl_map s) in
                                  (Ok r.1, with_acl (fun _ => addUsage r.1 1 r.2) s)) ;;
             updateNode (set_acl_node acl_id') path ;;;
             sm_ret ((ResponseHeader0, SetACLResponse (stat (set_acl_node acl_id' node))), None)
         end
   end)%sm.

Definition process_get_acl (path : string) : SM KeeperStore Processed :=
  (node <- getNode path ;;
   match node with
   | None => failed ZNONODE (GetACLResponse [] Stat0)
   | Some node => fun s =>
       match convertNumber (acl_id node) (acl_map s) with
       | Ok acls => (Ok ((ResponseHeader0, GetACLResponse acls (stat node)), None), s)
       | Fault e => (Fault e, s)
       end
   end)%sm.

(** *** Auth, Sync *)

(** The part of [s] before the first colon: [boost::split(...)[0]]. *)
Fixpoint before_colon (s : string) : string :=
  match s with
  | EmptyString => EmptyString
  | String a s' => if decide (a = colon) then EmptyString else String a (before_colon s')
  end.

Definition generateDigest (sha1_base64 : string -> string) (userdata : string) : string :=
  before_colon userdata +++ ":" +++ sha1_base64 userdata.

Definition process_auth (sha1_base64 : string -> string) (scheme data' : string) (session_id : Z)
    : SM KeeperStore Processed :=
  if decide (scheme <> "digest" \/ str_count colon data' <> 1%nat) then failed ZAUTHFAILED AuthResponse
  else fun s =>
    let digest := generateDigest sha1_base64 data' in
    let ids := default [] (session_and_auth s !! session_id) in
    let ids' :=
      if decide (digest = super_digest s) then ids ++ [mkAuthID "super" ""]
      else let auth := mkAuthID scheme digest in
           if decide (auth ∈ ids) then ids else ids ++ [auth] in
    (Ok ((ResponseHeader0, AuthResponse), None), with_auth (<[session_id := ids']>) s).

Definition process_sync (path : string) : SM KeeperStore Processed :=
  sm_ret ((ResponseHeader0, SyncResponse path), None).

(** ** The requests that are not transactions *)

Section store.
Context `{IterOrder} (sha1_base64 : string -> string) (compat : bool).

(** [process] of the class [StoreRequestFactory] makes for the request;
    [StoreRequestClose] and unregistered numbers throw. *)
Definition process_concrete (r : ZooKeeperRequest) (zxid' session_id time : Z) : SM KeeperStore Processed :=
  match r.2 with
  | HeartbeatRequest | SetWatchesRequest _ _ _ _ => sm_ret (makeResponse r.1 r.2, None)
  | SyncRequest path => process_sync path
  | AuthRequest _ scheme data' => process_auth sha1_base64 scheme data' session_id
  | CreateRequest path data' ephemeral sequential acls not_exists =>
      process_create path data' ephemeral sequential acls not_exists zxid' session_id time
  | RemoveRequest path version' => process_remove path version' zxid'
  | ExistsRequest path => process_exists path
  | GetRequest path => process_get path
  | SetRequest path data' version' => process_set path data' version' zxid' time
  | ListRequest path => process_list path ListRequestType_ALL
  | SimpleListRequest path => process_simple_list path
  | FilteredListRequest path list_request_type => process_list path list_request_type
  | CheckRequest path version' not_exists => process_check path version' not_exists
  | SetACLRequest path acls version' => process_set_acl path acls version' session_id
  | GetACLRequest path => process_get_acl path
  | CloseRequest | MultiRequest _ _ | NewSessionRequest _ _ _ | UpdateSessionRequest _ _ _ =>
      sm_fault (Throw LOGICAL_ERROR)
  end.

(** [checkAuth] of the same classes. *)
Definition checkAuth_concrete (r : ZooKeeperRequest) (session_id : Z) : SM KeeperStore bool :=
  match r.2 with
  | CreateRequest path _ _ _ _ _ => checkNodeAuth ACL_Create (getParentPath path) session_id
  | RemoveRequest path _ => checkNodeAuth ACL_Delete (getParentPath path) session_id
  | GetRequest path | ListRequest path | SimpleListRequest path | FilteredListRequest path _
  | CheckRequest path _ _ => checkNodeAuth ACL_Read path session_id
  | SetRequest path _ _ => checkNodeAuth ACL_Write path session_id
  | SetACLRequest path _ _ => checkNodeAuth ACL_Admin path session_id
  | GetACLRequest path => checkNodeAuth (Z.lor ACL_Admin ACL_Read) path session_id
  | _ => sm_ret true
  end.

(** ** Transactions: StoreRequestMultiTxn *)

(** The kind of operation a part of a transaction is, if it may be one. *)
Definition sub_operation_type (r : RequestBody) : option OperationType :=
  match request_getOpNum r with
  | OpCreate | OpCreateIfNotExists | OpRemove | OpSet | OpCheck | OpCheckNotExists =>
      Some OperationType_Write
  | OpGet | OpExists | OpList | OpSimpleList | OpFilteredList => Some OperationType_Read
  | _ => None
  end.

(** The constructor: refuses mixed and illegal parts. *)
Fixpoint check_operation_type (type : OperationType) (rs : list ZooKeeperRequest) : outcome OperationType :=
  match rs with
  | [] => Ok type
  | r :: rs' =>
      match sub_operation_type r.2 with
      | None => Fault (Throw BAD_ARGUMENTS)
      | Some t =>
          if decide (type <> OperationType_Unspecified /\ type <> t) then Fault (Throw BAD_ARGUMENTS)
          else check_operation_type t rs'
      end
  end.

Definition multi_operation_type (rs : list ZooKeeperRequest) : outcome OperationType :=
  check_operation_type OperationType_Unspecified rs.

Definition error_response (e : Error) : ZooKeeperResponse := set_error e (ResponseHeader0, ErrorResponse).

Definition to_error (r : ZooKeeperResponse) : ZooKeeperResponse := error_response (error r.1).

(** The undo actions, latest first. *)
Fixpoint run_undos (undo_actions : list Undo) : SM KeeperStore unit :=
  match undo_actions with
  | [] => sm_ret tt
  | None :: us => run_undos us
  | Some u :: us => (u ;;; run_undos us)%sm
  end.

(** The loop of [process]: [responses] and [undo_actions] hold what the parts
    before gave, latest first. *)
Fixpoint multi_loop (operation_type : OperationType) (zxid' session_id time : Z)
    (rs : list ZooKeeperRequest) (responses : list ZooKeeperResponse) (undo_actions : list Undo)
    : SM KeeperStore (list ZooKeeperResponse) :=
  match rs with
  | [] => sm_ret (rev responses)
  | r :: rs' => fun s =>
      match process_concrete r zxid' session_id time s with
      | (Ok (cur_response, undo_action), s1) =>
          if decide (error cur_response.1 <> ZOK /\ operation_type = OperationType_Write) then
            (run_undos undo_actions ;;;
             sm_ret ((to_error <$> rev (cur_response :: responses)) ++
                     ((fun _ => error_response ZRUNTIMEINCONSISTENCY) <$> rs')))%sm s1
          else
            let response :=
              if compat && negb (bool_decide (error cur_response.1 = ZOK)) then to_error cur_response
              else cur_response in
            multi_loop operation_type zxid' session_id time rs' (response :: responses)
              (undo_action :: undo_actions) s1
      | (Fault (Throw e), s1) => (run_undos undo_actions ;;; sm_fault (Throw e))%sm s1
      | (Fault f, s1) => (Fault f, s1)
      end
  end.

Definition process_multi (request_type : OperationType) (rs : list ZooKeeperRequest)
    (zxid' session_id time : Z) : SM KeeperStore Processed :=
  (operation_type <- sm_lift (multi_operation_type rs) ;;
   responses <- multi_loop operation_type zxid' session_id time rs [] [] ;;
   sm_ret ((ResponseHeader0, if decide (request_type = OperationType_Read)
                             then MultiReadResponse responses else MultiWriteResponse responses), None))%sm.

Fixpoint checkAuth_all (rs : list ZooKeeperRequest) (session_id : Z) : SM KeeperStore bool :=
  match rs with
  | [] => sm_ret true
  | r :: rs' =>
      (ok <- checkAuth_concrete r session_id ;;
       if ok : bool then checkAuth_all rs' session_id else sm_ret false)%sm
  end.

(** ** Any request *)

(** [StoreRequestFactory::get]: making the request object may throw. *)
Definition factory_get (r : ZooKeeperRequest) : outcome unit :=
  match r.2 with
  | MultiRequest _ rs => _ ← multi_operation_type rs; Ok tt
  | NewSessionRequest _ _ _ | UpdateSessionRequest _ _ _ => Fault (Throw LOGICAL_ERROR)
  | _ => Ok tt
  end.

Definition process (r : ZooKeeperRequest) (zxid' session_id time : Z) : SM KeeperStore Processed :=
  match r.2 with
  | MultiRequest t rs => process_multi t rs zxid' session_id time
  | _ => process_concrete r zxid' session_id time
  end.

Definition checkAuth (r : ZooKeeperRequest) (session_id : Z) : SM KeeperStore bool :=
  match r.2 with
  | MultiRequest _ rs => checkAuth_all rs session_id
  | _ => checkAuth_concrete r session_id
  end.

(** [shouldIncreaseZxid]: List stands for its subclasses too. *)
Definition shouldIncreaseZxid (r : RequestBody) : bool :=
  match r with
  | GetRequest _ | SetWatchesRequest _ _ _ _ | ExistsRequest _ | AuthRequest _ _ _ | HeartbeatRequest
  | ListRequest _ | FilteredListRequest _ _ | SimpleListRequest _ => false
  | _ => true
  end.

(** ** processRequest

    Its state is the store and the queue of responses. *)
Definition Server : Type := KeeperStore * list ResponseForSession.

Definition on_store {A} (m : SM KeeperStore A) : SM Server A := fun st =>
  let r := m st.1 in (r.1, (r.2, st.2)).

Definition set_response (ignore_response : bool) (responses : list ResponseForSession) : SM Server unit :=
  sm_modify (fun st => (st.1, if ignore_response then st.2 else st.2 ++ responses)).

(** *** Sessions that close *)

Fixpoint clean_ephemerals_loop (ignore_response : bool) (paths : list string) : SM Server unit :=
  match paths with
  | [] => sm_ret tt
  | path :: paths' =>
      (on_store (updateNode (fun n => with_children (fun X => X ∖ {[getBaseName path]})
                   (with_stat (stat_numChildren (fun z => i32 (z - 1))) n)) (getParentPath path)) ;;;
       on_store (removeNode path) ;;;
       responses <- on_store (watch_op (processWatches path EVENT_DELETED)) ;;
       set_response ignore_response responses ;;;
       clean_ephemerals_loop ignore_response paths')%sm
  end.

(** A parent that does not exist is only logged: [updateNode] does nothing. *)
Definition cleanEphemeralNodes (session_id : Z) (ignore_response : bool) : SM Server unit := fun st =>
  match ephemerals st.1 !! session_id with
  | None => (Ok tt, st)
  | Some paths =>
      (clean_ephemerals_loop ignore_response (iter_str paths) ;;;
       on_store (sm_modify (with_ephemerals (delete session_id))))%sm st
  end.

Definition process_close (r : RequestForSession) (new_last_zxid : option Z) (ignore_response : bool)
    : SM Server unit :=
  (cleanEphemeralNodes (session_id r) ignore_response ;;;
   on_store (watch_op (fun w => no_result (cleanDeadWatches (session_id r) w))) ;;;
   on_store (sm_modify (with_auth (delete (session_id r)))) ;;;
   on_store (session_op (fun m => no_result (expireSession (session_id r) m))) ;;;
   z <- on_store (match new_last_zxid with Some _ => sm_get zxid | None => fetchAndGetZxid end) ;;
   set_response ignore_response
     [(session_id r, set_zxid z (set_xid (xid (request r).1) (ResponseHeader0, CloseResponse)))])%sm.

(** *** Session requests *)

Definition process_new_session (now : Z) (r : RequestForSession) (internal_id timeout server_id' : Z)
    (ignore_response : bool) : SM Server unit :=
  (z <- on_store fetchAndGetZxid ;;
   new_id <- on_store (session_op (getSessionID now timeout)) ;;
   set_response ignore_response
     [(session_id r, set_zxid z (set_body (NewSessionResponse internal_id new_id server_id' true)
                       (makeResponse (request r).1 (request r).2)))])%sm.

Definition process_update_session (now : Z) (r : RequestForSession) (session_id' server_id' : Z)
    (ignore_response : bool) : SM Server unit :=
  (z <- on_store fetchAndGetZxid ;;
   success <- on_store (session_op (updateSessionTimeout now (session_id r) 0)) ;;
   let response := set_zxid z (set_body (UpdateSessionResponse session_id' server_id' success)
                                 (makeResponse (request r).1 (request r).2)) in
   set_response ignore_response
     [(session_id r, if success then response else set_error ZSESSIONEXPIRED response)])%sm.

(** *** Heartbeat and SetWatches *)

Definition process_heartbeat (r : RequestForSession) (ignore_response : bool) : SM Server unit :=
  (p <- on_store (fun s => process (request r) (zxid s) (session_id r) (process_time r) s) ;;
   z <- on_store (sm_get zxid) ;;
   set_response ignore_response [(session_id r, set_zxid z (set_xid (xid (request r).1) p.1))])%sm.

(** Only the paths of [data_watches] are looked up. *)
Definition watch_nodes_info (t : gmap string KeeperNode) (data_watches : list string) : WatchNodesInfo :=
  foldl (fun info path =>
    match t !! path with
    | Some n => match info !! path with
                | Some _ => info
                | None => <[path := (mzxid (stat n), pzxid (stat n))]> info
                end
    | None => info
    end) ∅ data_watches.

Definition process_set_watches (r : RequestForSession) (relative_zxid : Z)
    (data_watches exist_watches list_watches' : list string) (ignore_response : bool) : SM Server unit :=
  (p <- on_store (fun s => process (request r) (zxid s) (session_id r) (process_time r) s) ;;
   z <- on_store (sm_get zxid) ;;
   info <- on_store (sm_get (fun s => watch_nodes_info (data_tree s) data_watches)) ;;
   watch_responses <- on_store (watch_op (processRequestSetWatch (session_id r) relative_zxid
                        data_watches exist_watches list_watches' info)) ;;
   set_response ignore_response watch_responses ;;;
   set_response ignore_response [(session_id r, set_zxid z (set_xid (xid (request r).1) p.1))])%sm.

(** *** Everything else *)

(** The watches a successful write triggers, one request after the other. *)
Fixpoint trigger_watches (ignore_response : bool) (rs : list ZooKeeperRequest) : SM Server unit :=
  match rs with
  | [] => sm_ret tt
  | r :: rs' =>
      (responses <- on_store (watch_op (processWatches_op (request_getPath r.2) (request_getOpNum r.2))) ;;
       set_response ignore_response responses ;;;
       trigger_watches ignore_response rs')%sm
  end.

(** The requests whose watches are triggered: the parts of a transaction whose
    last response is no error, or the request itself. *)
Definition triggering (r : ZooKeeperRequest) (response : ZooKeeperResponse) : list ZooKeeperRequest :=
  match r.2, response.2 with
  | MultiRequest _ rs, MultiWriteResponse responses =>
      match last responses with
      | Some l => if decide (error l.1 = ZOK) then rs else []
      | None => []
      end
  | _, _ => [r]
  end.

Definition respond (r : RequestForSession) (response : ZooKeeperResponse) (ignore_response : bool)
    : SM Server unit :=
  let zk_request := request r in
  let op := request_getOpNum zk_request.2 in
  (if request_isReadRequest zk_request.2 then
     (if has_watch zk_request.1 &&
         bool_decide (error response.1 = ZOK \/ (error response.1 = ZNONODE /\ op = OpExists))
      then on_store (watch_op (fun w =>
             no_result (registerWatches (request_getPath zk_request.2) (session_id r) op w)))
      else sm_ret tt) ;;;
     set_response ignore_response [(session_id r, response)]
   else
     (if decide (error response.1 = ZOK) then trigger_watches ignore_response (triggering zk_request response)
      else sm_ret tt) ;;;
     set_response ignore_response [(session_id r, response)])%sm.

Definition process_other (r : RequestForSession) (new_last_zxid : option Z)
    (check_acl ignore_response : bool) : SM Server unit :=
  let zk_request := request r in
  (sm_lift (factory_get zk_request) ;;;
   allowed <- (if check_acl then on_store (checkAuth zk_request (session_id r)) else sm_ret true) ;;
   response <- (if allowed : bool
                then p <- on_store (fun s => process zk_request (zxid s) (session_id r) (process_time r) s) ;;
                     sm_ret p.1
                else sm_ret (set_error ZNOAUTH (makeResponse zk_request.1 zk_request.2))) ;;
   z <- on_store (match new_last_zxid with
                  | Some _ => sm_get zxid
                  | None => if shouldIncreaseZxid zk_request.2 then fetchAndGetZxid else sm_get zxid
                  end) ;;
   respond r (set_zxid z (set_xid (xid zk_request.1) (set_created (create_time r) response)))
     ignore_response)%sm.

(** A transaction number from outside must be larger than the store's. *)
Definition adopt_zxid (new_last_zxid : option Z) : SM Server unit := fun st =>
  match new_last_zxid with
  | None => (Ok tt, st)
  | Some z =>
      if z <=? zxid st.1 then (Fault (Throw LOGICAL_ERROR), st)
      else (Ok tt, (with_zxid z st.1, st.2))
  end.

Definition processRequest (now : Z) (r : RequestForSession) (new_last_zxid : option Z)
    (check_acl ignore_response : bool) : SM Server unit :=
  (adopt_zxid new_last_zxid ;;;
   match (request r).2 with
   | CloseRequest => process_close r new_last_zxid ignore_response
   | NewSessionRequest internal_id timeout server_id' =>
       process_new_session now r internal_id timeout server_id' ignore_response
   | UpdateSessionRequest session_id' _ server_id' =>
       process_update_session now r session_id' server_id' ignore_response
   | body =>
       known <- on_store (sm_get (fun s => sessions_contains (session_id r) (session_manager s))) ;;
       if negb known && bool_decide (new_last_zxid = None) then sm_ret tt
       else
         on_store (session_op (fun m => no_result (updateSessionExpirationTime now (session_id r) m))) ;;;
         match body with
         | HeartbeatRequest => process_heartbeat r ignore_response
         | SetWatchesRequest relative_zxid dw ew lw =>
             process_set_watches r relative_zxid dw ew lw ignore_response
         | _ => process_other r new_last_zxid check_acl ignore_response
         end
   end)%sm.
End store.

(** ** The rest of KeeperStore *)

Section store_rest.
Context `{IterOrder}.

(** [finalize]: the ephemeral nodes of all sessions, then the managers. *)
Fixpoint finalize_loop (paths : list string) : SM KeeperStore unit :=
  match paths with
  | [] => sm_ret tt
  | path :: paths' =>
      (derefNode (fun n => with_children (fun X => X ∖ {[getBaseName path]})
                    (with_stat (stat_numChildren (fun z => i32 (z - 1))) n)) (getParentPath path) ;;;
       removeNode path ;;;
       finalize_loop paths')%sm
  end.

Definition all_ephemerals (e : gmap Z (gset string)) : list string :=
  concat ((fun s => iter_str (mset_get s e)) <$> iter_Z (dom e)).

Definition finalize : SM KeeperStore unit := fun s =>
  if finalized s then (Fault (Throw LOGICAL_ERROR), s)
  else
    (sm_modify (with_finalized true) ;;;
     finalize_loop (all_ephemerals (ephemerals s)) ;;;
     sm_modify (with_ephemerals (fun _ => ∅)) ;;;
     sm_modify (fun s => with_sessions (SessionManager_reset (session_manager s)) s) ;;;
     watch_op (fun w => no_result (WatchManager_reset w)) ;;;
     sm_modify (with_auth (fun _ => ∅)))%sm s.

(** [reset]: note that the root goes too. *)
Definition store_reset : SM KeeperStore unit :=
  (sm_modify (with_tree (fun _ => ∅)) ;;;
   sm_modify (with_zxid 0) ;;;
   sm_modify (with_acl ACLMap_reset) ;;;
   sm_modify (fun s => with_sessions (SessionManager_reset (session_manager s)) s) ;;;
   watch_op (fun w => no_result (WatchManager_reset w)) ;;;
   sm_modify (with_auth (fun _ => ∅)) ;;;
   sm_modify (with_ephemerals (fun _ => ∅)))%sm.

(** The system nodes; [compat] is COMPATIBLE_MODE_ZOOKEEPER. *)
Definition ZOOKEEPER_SYSTEM_PATH : string := "/zookeeper".
Definition ZOOKEEPER_CONFIG_NODE : string := "/zookeeper/config".
Definition CLICKHOUSE_KEEPER_SYSTEM_PATH : string := "/keeper".
Definition CLICKHOUSE_KEEPER_API_VERSION_PATH : string := "/keeper/api_version".
Definition CLICKHOUSE_KEEPER_API_FEATURE_FLAGS_PATH : string := "/keeper/feature_flags".

(** [CURRENT_KEEPER_API_VERSION] as text and [CURRENT_KEEPER_FEATURE_FLAGS]. *)
Definition CURRENT_KEEPER_API_VERSION : string := "2".
Definition CURRENT_KEEPER_FEATURE_FLAGS : string := String (Ascii.ascii_of_nat 240) "".

Definition add_system_node (path : string) : SM KeeperStore unit :=
  (existing <- getNode path ;;
   match existing with
   | Some _ => sm_ret tt
   | None =>
       addNode path KeeperNode0 ;;;
       derefNode (with_children (fun X => {[getBaseName path]} ∪ X)) (getParentPath path)
   end)%sm.

Definition with_data (d : string) (n : KeeperNode) : KeeperNode :=
  mkKeeperNode d (acl_id n) (is_ephemeral n) (is_sequential n) (stat n) (children n).

Definition initializeSystemNodes (compat : bool) : SM KeeperStore unit :=
  (if compat then
     add_system_node ZOOKEEPER_SYSTEM_PATH ;;;
     add_system_node ZOOKEEPER_CONFIG_NODE
   else
     add_system_node CLICKHOUSE_KEEPER_SYSTEM_PATH ;;;
     add_system_node CLICKHOUSE_KEEPER_API_VERSION_PATH ;;;
     add_system_node CLICKHOUSE_KEEPER_API_FEATURE_FLAGS_PATH ;;;
     derefNode (with_data CURRENT_KEEPER_API_VERSION) CLICKHOUSE_KEEPER_API_VERSION_PATH ;;;
     derefNode (with_data CURRENT_KEEPER_FEATURE_FLAGS) CLICKHOUSE_KEEPER_API_FEATURE_FLAGS_PATH)%sm.

(** Introspection. *)
Definition getNodesCount (s : KeeperStore) : Z := Z.of_nat (size (data_tree s)).
Definition getSessionWithEphemeralNodesCount (s : KeeperStore) : Z := Z.of_nat (size (ephemerals s)).
Definition getTotalEphemeralNodesCount (s : KeeperStore) : Z :=
  u64 (foldr (fun p n => Z.of_nat (size p.2) + n) 0 (map_to_list (ephemerals s))).
End store_rest.
