(* ===== verification/StoreTree.v ===== *)
(** * The tree under the store's operations

    The invariant of the tree and of the index of ephemeral nodes, and the
    three ways the code changes a tree: a child is added, a leaf is removed, a
    node is changed in place. *)

From stdpp Require Import pretty.
From S2P Require Import Prelude Coordination Paths AclMap Sessions Watches DataTree Store.

(** ** The invariant *)

(** The counters a rollback decrements are 32-bit integers. *)
Definition node_typed (n : KeeperNode) : Prop :=
  in_i32 (cversion (stat n)) /\ in_i32 (numChildren (stat n)).

(** [ephemerals] lists exactly the ephemeral nodes, under their owner. *)
Definition eph_ok (t : Tree) (e : gmap Z (gset string)) : Prop :=
  forall s p, p ∈ mset_get s e <->
    exists n, t !! p = Some n /\ is_ephemeral n = true /\ ephemeralOwner (stat n) = s.

Record tree_inv (t : Tree) (e : gmap Z (gset string)) : Prop := {
  ti_wf : tree_wf t;
  ti_typed : map_Forall (fun _ n => node_typed n) t;
  ti_eph : eph_ok t e;
  ti_root : forall n, t !! "/" = Some n -> is_ephemeral n = false
}.

Lemma tree_inv_root : tree_inv root_tree ∅.
Proof.
  split; [apply root_tree_wf|..]; unfold root_tree.
  - intros p n [<- <-]%lookup_singleton_Some. split; simpl; unfold in_i32; lia.
  - intros s p. unfold mset_get. rewrite lookup_empty. simpl. split; [set_solver|].
    intros (n & [_ <-]%lookup_singleton_Some & ? & _). done.
  - by intros n [_ <-]%lookup_singleton_Some.
Qed.

(** The index matters only up to the sets it lists. *)
Definition eph_eq (e e' : gmap Z (gset string)) : Prop := forall s, mset_get s e = mset_get s e'.

#[export] Instance eph_eq_equiv : Equivalence eph_eq.
Proof. split; [done|by intros e e' He s|by intros e1 e2 e3 H1 H2 s; rewrite H1]. Qed.

#[export] Instance mset_get_proper s : Proper (eph_eq ==> eq) (mset_get s).
Proof. intros e e' He. apply He. Qed.

#[export] Instance eph_ok_proper t : Proper (eph_eq ==> iff) (eph_ok t).
Proof. intros e e' He. unfold eph_ok. by setoid_rewrite He. Qed.

#[export] Instance mset_add_proper s p : Proper (eph_eq ==> eph_eq) (mset_add s p).
Proof. intros e e' He s'. rewrite !mset_get_add. by rewrite !He. Qed.

#[export] Instance mset_del_proper s p : Proper (eph_eq ==> eph_eq) (mset_del s p).
Proof. intros e e' He s'. rewrite !mset_get_del. by rewrite !He. Qed.

Lemma tree_inv_eph_eq t e e' : eph_eq e e' -> tree_inv t e -> tree_inv t e'.
Proof. intros He []. split; [done|done| |done]. by rewrite <- He. Qed.

(** ** Maps *)

Lemma alter_Some {A} (f : A -> A) p (t : gmap string A) n :
  t !! p = Some n -> alter f p t = <[p := f n]> t.
Proof.
  intros Hn. apply map_eq. intros q. rewrite lookup_insert, lookup_alter.
  case_decide; [subst|done]. by rewrite Hn.
Qed.

(** ** Changes of a tree *)

(** In place: the children and the kind of the node stay. *)
Lemma tree_inv_update t e p n n' :
  tree_inv t e -> t !! p = Some n ->
  children n' = children n -> is_ephemeral n' = is_ephemeral n ->
  ephemeralOwner (stat n') = ephemeralOwner (stat n) -> node_typed n' ->
  tree_inv (<[p := n']> t) e.
Proof.
  intros [[Hroot Hval Hpar Hch Heph] Hty Hidx Hrp] Hn Hc He Ho Hn'. split; [split|..].
  - apply lookup_insert_is_Some'. auto.
  - intros q [<-|Hq]%lookup_insert_is_Some'; eauto.
  - intros q Hq Hne. assert (is_Some (t !! q)) as Hq' by (apply lookup_insert_is_Some' in Hq as [<-|]; eauto).
    destruct (Hpar q Hq' Hne) as (m & Hm & Hin). rewrite lookup_insert.
    case_decide; [|eauto]. exists n'. split; [done|]. rewrite Hc. congruence.
  - intros q m c Hq Hin. rewrite lookup_insert_is_Some'.
    rewrite lookup_insert in Hq. case_decide as Hpq; simplify_eq.
    + rewrite Hc in Hin. destruct (Hch _ _ _ Hn Hin). auto.
    + destruct (Hch _ _ _ Hq Hin). auto.
  - intros q m Hq. rewrite lookup_insert in Hq. case_decide; simplify_eq; [|eauto].
    rewrite He, Hc. eauto.
  - by apply map_Forall_insert_2.
  - intros s q. rewrite (Hidx s q), lookup_insert. case_decide; [subst|done].
    rewrite Hn. naive_solver.
  - intros m. rewrite lookup_insert. case_decide; [|apply Hrp]. intros [= <-]. subst. rewrite He. auto.
Qed.

(** A new leaf [c] under [p]. *)
Lemma tree_wf_add t p pn pn' c n :
  tree_wf t -> t !! p = Some pn -> is_ephemeral pn = false -> valid_name c ->
  t !! join_path p c = None ->
  children pn' = {[c]} ∪ children pn -> is_ephemeral pn' = is_ephemeral pn -> children n = ∅ ->
  tree_wf (<[join_path p c := n]> (<[p := pn']> t)).
Proof.
  intros [Hroot Hval Hpar Hch Heph] Hp Hpe Hvc Hnew Hc' He' Hcn.
  assert (valid_path p) as Hvp by eauto.
  pose proof (join_path_ne_self p c Hvp Hvc) as Hne.
  assert (forall q, is_Some ((<[join_path p c := n]> (<[p := pn']> t)) !! q) <->
                    q = join_path p c \/ is_Some (t !! q)) as Hdom.
  { intros q. rewrite !lookup_insert_is_Some'. split; [|naive_solver].
    intros [<-|[<-|?]]; eauto. }
  split.
  - apply Hdom. auto.
  - intros q [->|Hq]%Hdom; eauto with rk.
  - intros q [->|Hq]%Hdom Hqr.
    + rewrite getParentPath_join, getBaseName_join by done.
      exists pn'. rewrite lookup_insert_ne, lookup_insert_eq by done. set_solver.
    + destruct (Hpar q Hq Hqr) as (m & Hm & Hin).
      assert (getParentPath q <> join_path p c) as Hqc by congruence.
      rewrite lookup_insert_ne, lookup_insert by done. case_decide; [|eauto].
      exists pn'. split; [done|]. set_solver.
  - intros q m d Hq Hin. rewrite Hdom. rewrite lookup_insert in Hq.
    case_decide; simplify_eq; [set_solver|]. rewrite lookup_insert in Hq. case_decide; simplify_eq.
    + rewrite Hc' in Hin. apply elem_of_union in Hin as [->%elem_of_singleton|Hin]; [auto|].
      destruct (Hch _ _ _ Hp Hin). auto.
    + destruct (Hch _ _ _ Hq Hin). auto.
  - intros q m Hq. rewrite lookup_insert in Hq. case_decide; simplify_eq; [done|].
    rewrite lookup_insert in Hq. case_decide; simplify_eq; [|eauto]. congruence.
Qed.

(** The leaf [c] under [p] goes. *)
Lemma tree_wf_remove t p pn pn' c n :
  tree_wf t -> t !! p = Some pn -> valid_name c -> t !! join_path p c = Some n -> children n = ∅ ->
  children pn' = children pn ∖ {[c]} -> is_ephemeral pn' = is_ephemeral pn ->
  tree_wf (delete (join_path p c) (<[p := pn']> t)).
Proof.
  intros [Hroot Hval Hpar Hch Heph] Hp Hvc Hn Hcn Hc' He'.
  assert (valid_path p) as Hvp by eauto.
  pose proof (join_path_ne_self p c Hvp Hvc) as Hne.
  assert (forall q, is_Some ((delete (join_path p c) (<[p := pn']> t)) !! q) <->
                    q <> join_path p c /\ is_Some (t !! q)) as Hdom.
  { intros q. rewrite lookup_delete_is_Some, lookup_insert_is_Some'. split; [|naive_solver].
    intros [? [<-|?]]; eauto. }
  split.
  - apply Hdom. split; [|done]. pose proof (join_path_ne_root p c Hvp Hvc). congruence.
  - intros q [_ Hq]%Hdom; eauto.
  - intros q [Hqc Hq]%Hdom Hqr. destruct (Hpar q Hq Hqr) as (m & Hm & Hin).
    assert (getParentPath q <> join_path p c) as Hpc.
    { intros E. rewrite E in Hm. simplify_eq. set_solver. }
    rewrite lookup_delete_ne, lookup_insert by done. case_decide as Epq; [|eauto].
    exists pn'. split; [done|]. rewrite Hc'.
    assert (m = pn) as -> by congruence. apply elem_of_difference. split; [done|].
    intros Ec%elem_of_singleton. apply Hqc.
    destruct (valid_path_inv q) as (_ & _ & <-); [eauto|done|]. by rewrite Ec, Epq.
  - intros q m d Hq Hin. rewrite Hdom. rewrite lookup_delete in Hq. case_decide; [done|].
    rewrite lookup_insert in Hq. case_decide; simplify_eq.
    + rewrite Hc' in Hin. apply elem_of_difference in Hin as [Hin Hdc].
      destruct (Hch _ _ _ Hp Hin) as [Hvd ?]. split_and!; try done.
      intros E. apply join_path_inj in E as [_ ->]; [set_solver|done..].
    + destruct (Hch _ _ _ Hq Hin) as [Hvd ?]. split_and!; try done.
      intros E. apply join_path_inj in E as [-> _]; [done|eauto|done..].
  - intros q m Hq. rewrite lookup_delete in Hq. case_decide; [done|].
    rewrite lookup_insert in Hq. case_decide; simplify_eq; [|eauto].
    intros Hm. rewrite Hc'. rewrite (Heph _ _ Hp) by congruence. set_solver.
Qed.

Local Infix "+++" := String.append (at level 60, right associativity).

(** ** Sequence numbers *)

Lemma no_slash_cons a s : a <> slash -> no_slash s -> no_slash (String a s).
Proof. intros Ha Hs. unfold no_slash in *. simpl. rewrite Hs. by rewrite decide_False. Qed.

Lemma no_slash_zeros n : no_slash (zeros n).
Proof. induction n; [done|]. by apply no_slash_cons. Qed.

Lemma no_slash_pretty_N_go x s : no_slash s -> no_slash (pretty_N_go x s).
Proof.
  revert s. induction (N.lt_wf_0 x) as [x _ IH]; intros s Hs.
  destruct (decide (x = 0%N)) as [->|Hx]; [by rewrite pretty_N_go_0|].
  rewrite pretty_N_go_step by lia. apply IH; [apply N.div_lt; lia|].
  apply no_slash_cons; [|done]. unfold pretty_N_char. by repeat case_match.
Qed.

Lemma no_slash_pretty_Z (z : Z) : no_slash (pretty z).
Proof.
  assert (forall n : N, no_slash (pretty n)) as HN.
  { intros n. unfold pretty, pretty_N. case_decide; [done|]. by apply no_slash_pretty_N_go. }
  unfold pretty, pretty_Z. destruct z; [done|apply HN|]. apply no_slash_cons; [done|apply HN].
Qed.

Lemma no_slash_seq_num z : no_slash (seq_num_str z).
Proof. apply no_slash_app. split; [apply no_slash_zeros|apply no_slash_pretty_Z]. Qed.

(** ** What an operation leaves alone *)

Record frame (s s' : KeeperStore) : Prop := {
  fr_sessions : session_manager s' = session_manager s;
  fr_watches : watch_manager s' = watch_manager s;
  fr_zxid : zxid s' = zxid s;
  fr_finalized : finalized s' = finalized s;
  fr_digest : super_digest s' = super_digest s
}.

#[export] Instance frame_preorder : PreOrder frame.
Proof. split; [by split|]. intros s1 s2 s3 [] []. split; congruence. Qed.

Definition store_inv (s : KeeperStore) : Prop := tree_inv (data_tree s) (ephemerals s).

(** The tree and, up to empty entries, the index are the same. *)
Definition same_tree (s s' : KeeperStore) : Prop :=
  data_tree s = data_tree s' /\ eph_eq (ephemerals s) (ephemerals s').

#[export] Instance same_tree_equiv : Equivalence same_tree.
Proof.
  split; [by split|intros s s' [Ht He]; by split|].
  intros s1 s2 s3 [Ht1 H1] [Ht2 H2]. split; [congruence|]. by rewrite H1.
Qed.

Lemma store_inv_same s s' : same_tree s s' -> store_inv s -> store_inv s'.
Proof. intros [Ht He]. unfold store_inv. rewrite <- Ht. by apply tree_inv_eph_eq. Qed.

(** [undo], run in any store with the tree of [s'], gives back the tree of [s]. *)
Definition undoes (undo : Undo) (s s' : KeeperStore) : Prop :=
  match undo with
  | None => same_tree s s'
  | Some u => forall x, same_tree x s' ->
      exists x', u x = (Ok tt, x') /\ same_tree x' s /\ frame x x'
  end.

(** ** Create *)

Definition parent_gains (child_path : string) (zxid' : Z) (n : KeeperNode) : KeeperNode :=
  with_children (fun X => {[child_path]} ∪ X) (with_stat (stat_child 1 1 zxid') n).

Definition parent_loses (child_path : string) (zxid' : Z) (n : KeeperNode) : KeeperNode :=
  with_children (fun X => X ∖ {[child_path]}) (with_stat (stat_child 0 (-1) zxid') n).

Lemma node_typed_child f dc dn z n : node_typed (with_children f (with_stat (stat_child dc dn z) n)).
Proof. split; apply i32_range. Qed.

(** Both counters and the set go back to what they were. *)
Lemma undo_parent_gains c z n :
  node_typed n -> c ∉ children n ->
  with_children (fun X => X ∖ {[c]}) (with_stat (stat_child (-1) (-1) (pzxid (stat n))) (parent_gains c z n)) = n.
Proof.
  intros [H1 H2] Hc. destruct n as [? ? ? ? [] ch]; simpl in *.
  unfold parent_gains, with_children, with_stat, stat_child; simpl.
  change (?x + -1) with (x - 1). rewrite !i32_succ_pred by done. f_equal. set_solver.
Qed.

Lemma undo_parent_loses c z n :
  node_typed n -> c ∈ children n ->
  with_children (fun X => {[c]} ∪ X) (with_stat (stat_child 0 1 (pzxid (stat n))) (parent_loses c z n)) = n.
Proof.
  intros [H1 H2] Hc. destruct n as [? ? ? ? [] ch]; simpl in *.
  unfold parent_loses, with_children, with_stat, stat_child; simpl.
  change (?x + -1) with (x - 1). rewrite !Z.add_0_r, !i32_pred_succ, !i32_id by (done || apply i32_range).
  f_equal. apply set_eq. intros x. destruct (decide (x = c)); set_solver.
Qed.

(** The state after a successful creation, but for the ACL map. *)
Definition created (parent_path path_created child_path : string) (n : KeeperNode) (zxid' session_id : Z)
    (s : KeeperStore) : KeeperStore :=
  let s1 := with_tree (<[path_created := n]>) (with_tree (alter (parent_gains child_path zxid') parent_path) s) in
  if is_ephemeral n then with_ephemerals (mset_add session_id path_created) s1 else s1.

Lemma data_tree_created pp pc c n z sid s :
  data_tree (created pp pc c n z sid s) = <[pc := n]> (alter (parent_gains c z) pp (data_tree s)).
Proof. unfold created. by destruct (is_ephemeral n). Qed.

Lemma ephemerals_created pp pc c n z sid s :
  ephemerals (created pp pc c n z sid s) =
  if is_ephemeral n then mset_add sid pc (ephemerals s) else ephemerals s.
Proof. unfold created. by destruct (is_ephemeral n). Qed.

Lemma frame_created pp pc c n z sid s : frame s (created pp pc c n z sid s).
Proof. unfold created. by destruct (is_ephemeral n). Qed.

Lemma eph_ok_update t e p n n' :
  eph_ok t e -> t !! p = Some n -> is_ephemeral n' = is_ephemeral n ->
  ephemeralOwner (stat n') = ephemeralOwner (stat n) -> eph_ok (<[p := n']> t) e.
Proof.
  intros He Hn E1 E2 s q. rewrite (He s q), lookup_insert. case_decide; [subst|done].
  rewrite Hn. naive_solver.
Qed.

Lemma eph_ok_add t e q n sid :
  eph_ok t e -> t !! q = None -> (is_ephemeral n = true -> ephemeralOwner (stat n) = sid) ->
  eph_ok (<[q := n]> t) (if is_ephemeral n then mset_add sid q e else e).
Proof.
  intros He Hq Ho s p. destruct (decide (q = p)) as [->|Hne].
  - rewrite lookup_insert_eq.
    destruct (is_ephemeral n) eqn:En; rewrite ?elem_of_mset_add, (He s p), Hq; split.
    + intros [[<- _]|(? & ? & _)]; [|done]. exists n. auto.
    + intros (m & [= <-] & _ & <-). left. by rewrite Ho.
    + by intros (? & ? & _).
    + intros (m & [= <-] & ? & _). congruence.
  - rewrite lookup_insert_ne, <- (He s p) by done.
    destruct (is_ephemeral n); [|done]. rewrite elem_of_mset_add. naive_solver.
Qed.

Lemma eph_ok_remove t e q n :
  eph_ok t e -> t !! q = Some n ->
  eph_ok (delete q t) (if is_ephemeral n then mset_del (ephemeralOwner (stat n)) q e else e).
Proof.
  intros He Hq s p. destruct (decide (q = p)) as [->|Hne].
  - rewrite lookup_delete_eq. split; [|by intros (? & ? & _)].
    destruct (is_ephemeral n) eqn:En; rewrite ?elem_of_mset_del, (He s p), Hq.
    + intros [(m & [= <-] & _ & Ho) Hn]. by destruct Hn.
    + intros (m & [= <-] & ? & _). congruence.
  - rewrite lookup_delete_ne, <- (He s p) by done.
    destruct (is_ephemeral n); [|done]. rewrite elem_of_mset_del. naive_solver.
Qed.

(** What makes a creation go through. *)
Record creatable (s : KeeperStore) (pp pc c : string) (pn : KeeperNode) : Prop := {
  cr_parent : data_tree s !! pp = Some pn;
  cr_persistent : is_ephemeral pn = false;
  cr_name : valid_name c;
  cr_path : pc = join_path pp c;
  cr_new : data_tree s !! pc = None
}.

Lemma creatable_ne s pp pc c pn : store_inv s -> creatable s pp pc c pn -> pp <> pc.
Proof. intros _ [Hp _ _ _ Hn] ->. congruence. Qed.

(** A name the parent does not list: otherwise the node would exist. *)
Lemma creatable_fresh s pp pc c pn : store_inv s -> creatable s pp pc c pn -> c ∉ children pn.
Proof.
  intros [Hwf _ _ _] [Hp _ _ -> Hn] Hin. destruct (tw_child _ Hwf _ _ _ Hp Hin) as [_ [? ?]]. congruence.
Qed.

Lemma store_inv_created s pp pc c pn d eph seq a z sid time :
  store_inv s -> creatable s pp pc c pn ->
  store_inv (created pp pc c (created_node d eph seq a z sid time) z sid s).
Proof.
  intros Hinv Hcr. pose proof (creatable_ne _ _ _ _ _ Hinv Hcr) as Hne.
  destruct Hinv as [Hwf Hty He Hrp], Hcr as [Hp Hpe Hc -> Hn]. unfold store_inv.
  rewrite data_tree_created, ephemerals_created, (alter_Some _ _ _ pn) by done. split.
  - by eapply tree_wf_add.
  - apply map_Forall_insert_2; [split; simpl; unfold in_i32; lia|].
    apply map_Forall_insert_2; [apply node_typed_child|done].
  - apply eph_ok_add; [by eapply eph_ok_update|by rewrite lookup_insert_ne|]. simpl. by intros ->.
  - intros m. assert (join_path pp c <> "/") by (apply join_path_ne_root; [apply (tw_valid _ Hwf); eauto|done]).
    rewrite lookup_insert_ne, lookup_insert by done. case_decide; [|apply Hrp]. by intros [= <-].
Qed.

(** The undo action of a creation restores the tree. *)
Lemma undo_create_ok s pp pc c pn d eph seq a z sid time x :
  store_inv s -> creatable s pp pc c pn ->
  same_tree x (created pp pc c (created_node d eph seq a z sid time) z sid s) ->
  exists x', undo_create sid pc (pzxid (stat pn)) eph pp c a x = (Ok tt, x') /\
    same_tree x' s /\ frame x x'.
Proof.
  intros Hinv Hcr [Ht He]. pose proof (creatable_ne _ _ _ _ _ Hinv Hcr) as Hne.
  pose proof (creatable_fresh _ _ _ _ _ Hinv Hcr) as Hfr.
  pose proof (ti_typed _ _ Hinv _ _ (cr_parent _ _ _ _ _ Hcr)) as Hty. simpl in Hty.
  destruct Hcr as [Hp _ _ _ Hn].
  rewrite data_tree_created, (alter_Some _ _ _ pn) in Ht by done. rewrite ephemerals_created in He.
  assert (delete pc (data_tree x) = <[pp := parent_gains c z pn]> (data_tree s)) as Hdel.
  { rewrite Ht, delete_insert_eq. apply delete_id. by rewrite lookup_insert_ne. }
  unfold undo_create, derefNode, removeNode, removeEphemeralNode.
  destruct eph; simpl; rewrite Hdel, lookup_insert_eq; (eexists; split; [done|]); (split; [|done]); split; simpl.
  1,3: rewrite Hdel, (alter_Some _ _ _ _ (lookup_insert_eq _ _ _)), insert_insert_eq, undo_parent_gains by done;
       by apply insert_id.
  - rewrite He. simpl. intros s'. assert (pc ∉ mset_get s' (ephemerals s)) as Hpc.
    { intros (n & ? & _)%(ti_eph _ _ Hinv). congruence. }
    apply set_eq. intros q. rewrite elem_of_mset_del, elem_of_mset_add.
    split; [intros [[[-> ->]|?] Hnn]; [by destruct Hnn|done]|].
    intros Hq. split; [by right|]. by intros [_ ->].
  - done.
Qed.
