(* ===== verification/StoreOps.v ===== *)
(** * The requests on nodes, one by one

    Every request that may be part of a transaction keeps the invariant of the
    tree and comes with an undo action that restores the tree; read requests
    change nothing. The functional behaviour of Create, Remove and Set. *)

From stdpp Require Import pretty.
From S2P Require Import Prelude Coordination Paths AclMap Sessions Watches DataTree Store StoreTree.

Local Infix "+++" := String.append (at level 60, right associativity).

(** Nothing but the ACL map and the credentials differ. *)
Record same_nodes (s s' : KeeperStore) : Prop := {
  sn_tree : data_tree s' = data_tree s;
  sn_eph : ephemerals s' = ephemerals s;
  sn_frame : frame s s'
}.

#[export] Instance same_nodes_preorder : PreOrder same_nodes.
Proof.
  split; [intros s; by split|]. intros s1 s2 s3 [] []. split; [congruence..|]. by etransitivity.
Qed.

Lemma same_nodes_tree s s' : same_nodes s s' -> same_tree s s'.
Proof. intros [H1 H2 _]. by split; rewrite ?H1, ?H2. Qed.

Lemma same_nodes_inv s s' : same_nodes s s' -> store_inv s -> store_inv s'.
Proof. intros [H1 H2 _]. unfold store_inv. by rewrite H1, H2. Qed.
#[export] Hint Resolve same_nodes_tree same_nodes_inv sn_frame : rk.

Lemma same_nodes_auth f s : same_nodes s (with_auth f s).
Proof. by split. Qed.
Lemma same_nodes_acl f s : same_nodes s (with_acl f s).
Proof. by split. Qed.
#[export] Hint Resolve same_nodes_auth same_nodes_acl : rk.

(** What a part of a transaction promises. *)
Definition sound_step (s : KeeperStore) (r : outcome Processed * KeeperStore) : Prop :=
  exists resp undo s', r = (Ok (resp, undo), s') /\
    store_inv s' /\ frame s s' /\ undoes undo s s' /\
    (error resp.1 <> ZOK -> undo = None).

Lemma sound_same s s' resp :
  store_inv s -> same_nodes s s' -> sound_step s (Ok (resp, None), s').
Proof.
  intros Hi Hs. eexists _, _, _. split; [done|].
  split; [by eapply same_nodes_inv|]. split; [apply Hs|]. split; [by apply same_nodes_tree|done].
Qed.

(** ** Create *)

Lemma create_acl_spec acls sid s :
  exists o s', create_acl acls sid s = (Ok o, s') /\ same_nodes s s'.
Proof.
  unfold create_acl, session_auth_ids. case_decide; simpl; [eexists _, _; split; [done|]; reflexivity|].
  destruct (fixupACL _ _); simpl; eexists _, _; (split; [done|]); by split.
Qed.

Definition path_created (path : string) (sequential : bool) (parent : KeeperNode) : string :=
  if sequential then path +++ seq_num_str (cversion (stat parent)) else path.

Lemma path_created_join path seq pn :
  valid_path (getParentPath path) -> double_slash path = false ->
  no_slash (getBaseName (path_created path seq pn)) /\
  path_created path seq pn = join_path (getParentPath path) (getBaseName (path_created path seq pn)).
Proof.
  intros Hv Hd. unfold path_created.
  destruct seq; [apply (created_path path (seq_num_str (cversion (stat pn)))); auto using no_slash_seq_num|].
  destruct (created_path path "" Hv Hd eq_refl) as (_ & ? & ?). by rewrite app_nil_r_str in *.
Qed.

(** The successful run. *)
Lemma process_create_eq path d eph seq acls ne z sid time s pn a s1 :
  data_tree s !! getParentPath path = Some pn -> is_ephemeral pn = false -> seq && ne = false ->
  data_tree s !! path_created path seq pn = None -> getBaseName (path_created path seq pn) <> "" ->
  create_acl acls sid s = (Ok (Some a), s1) ->
  let pc := path_created path seq pn in
  process_create path d eph seq acls ne z sid time s =
    (Ok ((ResponseHeader0, CreateResponse pc),
         Some (undo_create sid pc (pzxid (stat pn)) eph (getParentPath path) (getBaseName pc) a)),
     created (getParentPath path) pc (getBaseName pc) (created_node d eph seq a z sid time) z sid s1).
Proof.
  intros Hp Hpe Hsn Hnew Hname Ea pc. unfold process_create. cbn [sm_bind getNode sm_get].
  rewrite Hp, Hpe, Hsn. cbn zeta. fold (path_created path seq pn). fold pc in Hnew, Hname |- *.
  cbn [sm_bind getNode sm_get]. rewrite Hnew, decide_False by done. cbn [sm_bind]. rewrite Ea.
  by destruct eph.
Qed.

(** The only three ways a Create ends. *)
Inductive create_result (path d : string) (eph seq : bool) (acls : list ACL) (ne : bool)
    (z sid time : Z) (s : KeeperStore) : outcome Processed * KeeperStore -> Prop :=
| create_refused e s' :
    e <> ZOK -> same_nodes s s' ->
    create_result path d eph seq acls ne z sid time s
      (Ok (set_error e (ResponseHeader0, CreateResponse ""), None), s')
| create_present :
    ne = true -> is_Some (data_tree s !! path) ->
    create_result path d eph seq acls ne z sid time s (Ok ((ResponseHeader0, CreateResponse path), None), s)
| create_done pn a s1 :
    let pc := path_created path seq pn in
    creatable s1 (getParentPath path) pc (getBaseName pc) pn ->
    create_acl acls sid s = (Ok (Some a), s1) -> same_nodes s s1 ->
    create_result path d eph seq acls ne z sid time s
      (Ok ((ResponseHeader0, CreateResponse pc),
           Some (undo_create sid pc (pzxid (stat pn)) eph (getParentPath path) (getBaseName pc) a)),
       created (getParentPath path) pc (getBaseName pc) (created_node d eph seq a z sid time) z sid s1).

Lemma process_create_result path d eph seq acls ne z sid time s :
  store_inv s -> double_slash path = false ->
  create_result path d eph seq acls ne z sid time s
    (process_create path d eph seq acls ne z sid time s).
Proof.
  intros [Hwf _ _ _] Hd. unfold process_create, failed. simpl.
  destruct (data_tree s !! getParentPath path) as [pn|] eqn:Hp; [|by apply create_refused].
  assert (valid_path (getParentPath path)) as Hv by (apply (tw_valid _ Hwf); eauto).
  destruct (is_ephemeral pn) eqn:Hpe; [by apply create_refused|].
  destruct (seq && ne) eqn:Hsn; [by apply create_refused|]. cbn zeta.
  fold (path_created path seq pn). set (pc := path_created path seq pn).
  destruct (path_created_join path seq pn Hv Hd) as [Hns Hj]. fold pc in Hns, Hj.
  cbn [sm_bind getNode sm_get].
  destruct (data_tree s !! pc) as [n|] eqn:Hex.
  { destruct ne; [|by apply create_refused]. destruct seq; [done|]. apply create_present; [done|]. eauto. }
  case_decide as Hname; [by apply create_refused|].
  destruct (create_acl_spec acls sid s) as (o & s1 & E & Hs).
  destruct o as [a|]; [|cbn [sm_bind]; rewrite E; by apply create_refused].
  pose proof (process_create_eq path d eph seq acls ne z sid time s pn a s1 Hp Hpe Hsn Hex Hname E) as Heq.
  unfold process_create, failed in Heq. cbn [sm_bind getNode sm_get] in Heq.
  rewrite Hp, Hpe, Hsn in Heq. cbn zeta in Heq. fold (path_created path seq pn) in Heq. fold pc in Heq.
  cbn [sm_bind getNode sm_get] in Heq. rewrite Hex, decide_False in Heq by done. rewrite Heq.
  apply create_done; [|done..].
  pose proof (sn_tree _ _ Hs) as Et. split; rewrite ?Et; done.
Qed.

Lemma process_create_sound path d eph seq acls ne z sid time s :
  store_inv s -> double_slash path = false ->
  sound_step s (process_create path d eph seq acls ne z sid time s).
Proof.
  intros Hi Hd. destruct (process_create_result path d eph seq acls ne z sid time s Hi Hd)
    as [e s' He Hs|Hne Hex|pn a s1 pc Hcr E Hs].
  - by apply sound_same.
  - by apply sound_same.
  - pose proof (same_nodes_inv _ _ Hs Hi) as Hi1. eexists _, _, _. split; [done|].
    split; [by eapply store_inv_created|]. split.
    { etransitivity; [apply Hs|apply frame_created]. }
    split; [|done]. intros x Hx.
    destruct (undo_create_ok s1 _ _ _ _ d eph seq a z sid time x Hi1 Hcr Hx) as (x' & -> & Hx' & Hf).
    exists x'. split; [done|]. split; [|done]. rewrite Hx'. symmetry. by apply same_nodes_tree.
Qed.

(** ** Remove *)

(** The state after a successful removal of the node [n] at [path]. *)
Definition removed (path : string) (n : KeeperNode) (z : Z) (s : KeeperStore) : KeeperStore :=
  let s1 := with_tree (delete path)
              (with_acl (removeUsage (acl_id n))
                (with_tree (alter (parent_loses (getBaseName path) z) (getParentPath path)) s)) in
  if is_ephemeral n then with_ephemerals (mset_del (ephemeralOwner (stat n)) path) s1 else s1.

Lemma data_tree_removed path n z s :
  data_tree (removed path n z s) =
  delete path (alter (parent_loses (getBaseName path) z) (getParentPath path) (data_tree s)).
Proof. unfold removed. by destruct (is_ephemeral n). Qed.

Lemma ephemerals_removed path n z s :
  ephemerals (removed path n z s) =
  if is_ephemeral n then mset_del (ephemeralOwner (stat n)) path (ephemerals s) else ephemerals s.
Proof. unfold removed. by destruct (is_ephemeral n). Qed.

Lemma frame_removed path n z s : frame s (removed path n z s).
Proof. unfold removed. by destruct (is_ephemeral n). Qed.

(** A leaf with its parent. *)
Record removable (s : KeeperStore) (path : string) (n pn : KeeperNode) : Prop := {
  rm_node : data_tree s !! path = Some n;
  rm_leaf : children n = ∅;
  rm_parent : data_tree s !! getParentPath path = Some pn;
  rm_not_root : path <> "/"
}.

Lemma removable_shape s path n pn :
  store_inv s -> removable s path n pn ->
  valid_name (getBaseName path) /\ join_path (getParentPath path) (getBaseName path) = path /\
  getBaseName path ∈ children pn /\ getParentPath path <> path.
Proof.
  intros [Hwf _ _ _] [Hn _ Hp Hr].
  destruct (valid_path_inv path) as (Hvp & Hvn & Hj); [apply (tw_valid _ Hwf); eauto|done|].
  destruct (tw_parent _ Hwf path) as (m & Hm & Hin); [eauto|done|].
  split_and!; [done|done|congruence|].
  pose proof (join_path_ne_self _ _ Hvp Hvn). congruence.
Qed.

Lemma store_inv_removed s path n pn z :
  store_inv s -> removable s path n pn -> store_inv (removed path n z s).
Proof.
  intros Hinv Hrm. destruct (removable_shape _ _ _ _ Hinv Hrm) as (Hvn & Hj & Hin & Hne).
  destruct Hinv as [Hwf Hty He Hrp], Hrm as [Hn Hl Hp Hr]. unfold store_inv.
  rewrite data_tree_removed, ephemerals_removed, (alter_Some _ _ _ pn) by done. split.
  - rewrite <- Hj at 1. eapply tree_wf_remove; [done|done|done|by rewrite Hj|done|done|done].
  - apply map_Forall_delete, map_Forall_insert_2; [apply node_typed_child|done].
  - apply eph_ok_remove; [by eapply eph_ok_update|by rewrite lookup_insert_ne].
  - intros m. rewrite lookup_delete_ne, lookup_insert by done.
    case_decide as Er; [|apply Hrp]. intros [= <-]. simpl. apply Hrp. congruence.
Qed.

Lemma undo_remove_ok s path n pn z x :
  store_inv s -> removable s path n pn -> same_tree x (removed path n z s) ->
  exists x', undo_remove n (if is_ephemeral n then ephemeralOwner (stat n) else 0) path
               (pzxid (stat pn)) (getBaseName path) x = (Ok tt, x') /\
    same_tree x' s /\ frame x x'.
Proof.
  intros Hinv Hrm [Ht He]. destruct (removable_shape _ _ _ _ Hinv Hrm) as (Hvn & Hj & Hin & Hne).
  pose proof (ti_typed _ _ Hinv _ _ (rm_parent _ _ _ _ Hrm)) as Hty. simpl in Hty.
  pose proof (ti_eph _ _ Hinv) as Heph. destruct Hrm as [Hn Hl Hp Hr].
  rewrite data_tree_removed, (alter_Some _ _ _ pn) in Ht by done. rewrite ephemerals_removed in He.
  assert (<[path := n]> (data_tree x) =
          <[getParentPath path := parent_loses (getBaseName path) z pn]> (data_tree s)) as Hins.
  { rewrite Ht, insert_delete_eq, insert_insert_ne by done. f_equal. by apply insert_id. }
  assert (alter (fun m => with_children (fun X => {[getBaseName path]} ∪ X)
            (with_stat (stat_child 0 1 (pzxid (stat pn))) m)) (getParentPath path)
            (<[path := n]> (data_tree x)) = data_tree s) as Hback.
  { rewrite Hins, (alter_Some _ _ _ _ (lookup_insert_eq _ _ _)), insert_insert_eq, undo_parent_loses by done.
    by apply insert_id. }
  assert (is_Some ((<[path := n]> (data_tree x)) !! getParentPath path)) as [m Hm]
    by (rewrite Hins, lookup_insert_eq; eauto).
  unfold undo_remove, derefNode, addNode, addEphemeralNode.
  destruct (is_ephemeral n) eqn:En; simpl; rewrite Hm; (eexists; split; [done|]); (split; [|done]);
    split; simpl; try done.
  rewrite He. intros s'. apply set_eq. intros q. rewrite elem_of_mset_add, elem_of_mset_del.
  split; [|destruct (decide (ephemeralOwner (stat n) = s' /\ q = path)); tauto].
  intros [[<- ->]|[? _]]; [|done]. apply Heph. eauto.
Qed.

Inductive remove_result (path : string) (v z : Z) (s : KeeperStore) : outcome Processed * KeeperStore -> Prop :=
| remove_refused e :
    e <> ZOK -> remove_result path v z s (Ok (set_error e (ResponseHeader0, RemoveResponse), None), s)
| remove_done n pn :
    removable s path n pn -> v = -1 \/ v = version (stat n) ->
    remove_result path v z s
      (Ok ((ResponseHeader0, RemoveResponse),
           Some (undo_remove n (if is_ephemeral n then ephemeralOwner (stat n) else 0) path
                   (pzxid (stat pn)) (getBaseName path))),
       removed path n z s).

Lemma process_remove_result path v z s :
  store_inv s -> path <> "/" -> remove_result path v z s (process_remove path v z s).
Proof.
  intros [Hwf _ _ _] Hr. unfold process_remove, failed. cbn [sm_bind getNode sm_get].
  destruct (data_tree s !! path) as [n|] eqn:Hn; [|by apply remove_refused].
  case_decide as Hv; [by apply remove_refused|]. case_decide as Hc; [by apply remove_refused|].
  destruct (tw_parent _ Hwf path) as (pn & Hp & _); [eauto|done|].
  cbn [sm_bind getNode sm_get]. rewrite Hp.
  assert (removable s path n pn) as Hrm by (split; try done; by apply dec_stable in Hc).
  assert (v = -1 \/ v = version (stat n)) as Hv' by lia.
  pose proof (remove_done path v z s n pn Hrm Hv') as Hdone.
  destruct n as [d a [] sq st ch]; exact Hdone.
Qed.

Lemma process_remove_sound path v z s :
  store_inv s -> path <> "/" -> sound_step s (process_remove path v z s).
Proof.
  intros Hi Hr. destruct (process_remove_result path v z s Hi Hr) as [e He|n pn Hrm _].
  - by apply sound_same.
  - eexists _, _, _. split; [done|]. split; [by eapply store_inv_removed|].
    split; [apply frame_removed|]. split; [|done]. intros x Hx. by eapply undo_remove_ok.
Qed.

(** ** Set *)

Inductive set_result (path d : string) (v z time : Z) (s : KeeperStore) : outcome Processed * KeeperStore -> Prop :=
| set_refused e :
    e <> ZOK -> set_result path d v z time s (Ok (set_error e (ResponseHeader0, SetResponse Stat0), None), s)
| set_done n :
    data_tree s !! path = Some n -> v = -1 \/ v = version (stat n) ->
    set_result path d v z time s
      (Ok ((ResponseHeader0, SetResponse (statForResponse (set_node d z time n))), Some (addNode path n)),
       with_tree (<[path := set_node d z time n]>) s).

Lemma process_set_result path d v z time s :
  set_result path d v z time s (process_set path d v z time s).
Proof.
  unfold process_set, failed. cbn [sm_bind getNode sm_get].
  destruct (data_tree s !! path) as [n|] eqn:Hn; [|by apply set_refused].
  case_decide as Hv; [|by apply set_refused].
  pose proof (set_done path d v z time s n Hn Hv) as Hdone.
  cbn [sm_bind updateNode sm_modify sm_ret].
  replace (with_tree (alter _ _) s) with (with_tree (<[path := set_node d z time n]>) s)
    by (unfold with_tree; by rewrite (alter_Some _ _ _ n)).
  by destruct n.
Qed.

Lemma process_set_sound path d v z time s : store_inv s -> sound_step s (process_set path d v z time s).
Proof.
  intros Hi. destruct (process_set_result path d v z time s) as [e He|n Hn _]; [by apply sound_same|].
  pose proof (ti_typed _ _ Hi _ _ Hn) as Hty. simpl in Hty.
  eexists _, _, _. split; [done|]. split; [by eapply tree_inv_update|]. split; [by split|].
  split; [|done]. intros x [Ht He]. simpl. eexists; split; [done|]. split; [|by split].
  split; simpl; [|done]. rewrite Ht. simpl. rewrite insert_insert_eq. by apply insert_id.
Qed.

(** ** Requests that read *)

Lemma process_get_same path s : exists resp, process_get path s = (Ok (resp, None), s).
Proof.
  unfold process_get, failed. cbn [sm_bind getNode sm_get].
  destruct (data_tree s !! path); eexists; reflexivity.
Qed.

Lemma process_exists_same path s : exists resp, process_exists path s = (Ok (resp, None), s).
Proof.
  unfold process_exists, failed. cbn [sm_bind getNode sm_get].
  destruct (data_tree s !! path); eexists; reflexivity.
Qed.

Lemma process_check_same path v ne s : exists resp, process_check path v ne s = (Ok (resp, None), s).
Proof.
  unfold process_check, failed. cbn [sm_bind getNode sm_get].
  destruct ne, (data_tree s !! path); try case_decide; eexists; reflexivity.
Qed.

(** The children of a node other than the root are found at [path + "/" + child]. *)
Lemma filter_children_same path t names s :
  Forall (fun c => is_Some (data_tree s !! (path +++ "/" +++ c))) names ->
  exists l, filter_children path t names s = (Ok l, s).
Proof.
  induction 1 as [|c names [n Hn] _ [l IH]]; [by exists []|].
  cbn [filter_children sm_bind getNode sm_get]. rewrite Hn. cbn [sm_bind]. rewrite IH.
  eexists; reflexivity.
Qed.

Lemma process_list_same `{IterOrder} path t s :
  store_inv s -> path <> "/" \/ t = ListRequestType_ALL ->
  exists resp, process_list path t s = (Ok (resp, None), s).
Proof.
  intros [Hwf _ _ _] Ht. unfold process_list, failed. cbn [sm_bind getNode sm_get].
  destruct (data_tree s !! path) as [n|] eqn:Hn; [|by eexists].
  case_decide as Hp.
  { subst path. exfalso. apply (valid_path_slash ""); [|done]. apply (tw_valid _ Hwf). eauto. }
  case_decide; [by eexists|]. cbn [sm_bind].
  destruct (filter_children_same path t (iter_str (children n)) s) as [l El]; [|rewrite El; by eexists].
  apply Forall_forall. intros c Hc%elem_of_iter_str.
  destruct (tw_child _ Hwf path n c Hn Hc) as [_ Hex]. unfold join_path in Hex.
  rewrite decide_False in Hex by naive_solver. done.
Qed.

Lemma process_simple_list_same `{IterOrder} path s :
  store_inv s -> exists resp, process_simple_list path s = (Ok (resp, None), s).
Proof.
  intros [Hwf _ _ _]. unfold process_simple_list, failed. cbn [sm_bind getNode sm_get].
  destruct (data_tree s !! path) as [n|] eqn:Hn; [|by eexists].
  case_decide as Hp; [|by eexists].
  subst path. exfalso. apply (valid_path_slash ""); [|done]. apply (tw_valid _ Hwf). eauto.
Qed.

(** ** Any part of a transaction *)

(** The request paths the tree's invariant depends on: no creation below
    ["//"], no removal of the root, no filtered list of the root. *)
Definition path_ok (r : RequestBody) : Prop :=
  match r with
  | CreateRequest path _ _ _ _ _ => double_slash path = false
  | RemoveRequest path _ => path <> "/"
  | FilteredListRequest path t => path <> "/" \/ t = ListRequestType_ALL
  | _ => True
  end.

Section concrete.
Context `{IterOrder} (sha1_base64 : string -> string).

Lemma sound_read s r :
  store_inv s -> (exists resp, r = (Ok (resp, None), s)) -> sound_step s r.
Proof. intros Hi [resp ->]. by apply sound_same. Qed.

Lemma process_concrete_sound r z sid time s t :
  sub_operation_type r.2 = Some t -> path_ok r.2 -> store_inv s ->
  sound_step s (process_concrete sha1_base64 r z sid time s).
Proof.
  intros Ht Hok Hi. destruct r as [h r].
  destruct r; try done; simpl in *.
  - by apply process_create_sound.
  - by apply process_remove_sound.
  - apply sound_read, process_exists_same; done.
  - apply sound_read, process_get_same; done.
  - by apply process_set_sound.
  - apply sound_read, process_list_same; auto.
  - apply sound_read, process_simple_list_same; done.
  - apply sound_read, process_list_same; done.
  - apply sound_read, process_check_same; done.
  - by destruct operation_type.
Qed.

(** A part that reads does not change the store at all. *)
Lemma process_concrete_read r z sid time s :
  sub_operation_type r.2 = Some OperationType_Read -> path_ok r.2 -> store_inv s ->
  exists resp, process_concrete sha1_base64 r z sid time s = (Ok (resp, None), s).
Proof.
  intros Ht Hok Hi. destruct r as [h r]. destruct r as [| | | | |? ? ? ? ? []| | | | | | | |? ? []| | |[]| |]; try done; simpl in *.
  - apply process_exists_same.
  - apply process_get_same.
  - apply process_list_same; auto.
  - by apply process_simple_list_same.
  - by apply process_list_same.
Qed.
End concrete.

(** ** Theorems *)

Lemma i32_cong x k : i32 (x + 4294967296 * k) = i32 x.
Proof. int_lia. Qed.

Lemma i32_shift x : exists k, i32 x = x + 4294967296 * k.
Proof. exists (- ((x + 2147483648) / 4294967296)). int_lia. Qed.

(** The version of the children that clients see, from the stored counters. *)
Lemma visible_cversion dc dn z f n :
  cversion (statForResponse (with_children f (with_stat (stat_child dc dn z) n))) =
  i32 (cversion (statForResponse n) + (2 * dc - dn)).
Proof.
  destruct n as [? ? ? ? [? ? ? ? ? cv ? ? ? nc ?] ?]; simpl.
  destruct (i32_shift (cv + dc)) as [k1 ->]. destruct (i32_shift ((cv + dc + 4294967296 * k1) * 2)) as [k2 ->].
  destruct (i32_shift (nc + dn)) as [k3 ->]. destruct (i32_shift (cv * 2)) as [k4 ->].
  destruct (i32_shift (cv * 2 + 4294967296 * k4 - nc)) as [k5 ->].
  rewrite <- (i32_cong (_ + (2 * dc - dn)) (2 * k1 + k2 - k3 - k4 - k5)). f_equal. lia.
Qed.

(** A Create whose parent exists and is persistent, whose path is free and
    whose ACL is valid creates exactly that node: with the given data, the
    transaction's zxid and time, listed by its parent, whose visible child
    version grows by one; no other node changes. *)
Theorem create_adds_child path d eph seq acls ne z sid time s pn :
  store_inv s -> double_slash path = false ->
  data_tree s !! getParentPath path = Some pn -> is_ephemeral pn = false ->
  seq && ne = false -> data_tree s !! path_created path seq pn = None ->
  getBaseName (path_created path seq pn) <> "" ->
  acls = [] \/ is_Some (fixupACL acls (default [] (session_and_auth s !! sid))) ->
  exists u s' n pn',
    process_create path d eph seq acls ne z sid time s =
      (Ok ((ResponseHeader0, CreateResponse (path_created path seq pn)), Some u), s') /\
    store_inv s' /\
    data_tree s' !! path_created path seq pn = Some n /\
    data n = d /\ is_ephemeral n = eph /\ children n = ∅ /\
    stat n = mkStat z z time time 0 0 0 (if eph then sid else 0) (i32 (Z.of_nat (String.length d))) 0 z /\
    data_tree s' !! getParentPath path = Some pn' /\
    children pn' = {[getBaseName (path_created path seq pn)]} ∪ children pn /\
    pzxid (stat pn') = z /\
    cversion (statForResponse pn') = i32 (cversion (statForResponse pn) + 1) /\
    forall q, q <> path_created path seq pn -> q <> getParentPath path ->
      data_tree s' !! q = data_tree s !! q.
Proof.
  intros Hi Hd Hp Hpe Hsn Hnew Hname Hacl.
  assert (exists a s1, create_acl acls sid s = (Ok (Some a), s1)) as (a & s1 & Ea).
  { unfold create_acl, session_auth_ids. case_decide; simpl; [by eexists _, _|].
    destruct Hacl as [?|[l ->]]; [done|]. by eexists _, _. }
  assert (same_nodes s s1) as Hs by (destruct (create_acl_spec acls sid s) as (o & s2 & E2 & ?); congruence).
  pose proof (sn_tree _ _ Hs) as Et.
  assert (valid_path (getParentPath path)) as Hv by (apply (tw_valid _ (ti_wf _ _ Hi)); eauto).
  destruct (path_created_join path seq pn Hv Hd) as [Hns Hj].
  set (pc := path_created path seq pn) in *.
  assert (creatable s1 (getParentPath path) pc (getBaseName pc) pn) as Hcr by (split; rewrite ?Et; done).
  pose proof (creatable_ne _ _ _ _ _ (same_nodes_inv _ _ Hs Hi) Hcr) as Hne.
  rewrite (process_create_eq path d eph seq acls ne z sid time s pn a s1) by done. fold pc.
  eexists _, _, (created_node d eph seq a z sid time), (parent_gains (getBaseName pc) z pn).
  split; [done|]. split; [eapply store_inv_created; [by eapply same_nodes_inv|done]|].
  rewrite data_tree_created, (alter_Some _ _ _ pn), Et by (by rewrite Et).
  rewrite lookup_insert_eq, lookup_insert_ne, lookup_insert_eq by done. do 5 (split; [done|]).
  split; [done|]. split; [done|]. split; [done|].
  split; [apply visible_cversion|]. intros q Hq1 Hq2. by rewrite !lookup_insert_ne.
Qed.

Lemma store_inv_init period digest : store_inv (KeeperStore_init period digest).
Proof. apply tree_inv_root. Qed.

Lemma create_adds_child_witness :
  exists u s' n, process_create "/a" "x" false false [] false 7 1 99 (KeeperStore_init 500 "") =
      (Ok ((ResponseHeader0, CreateResponse "/a"), Some u), s') /\
    data_tree s' !! "/a" = Some n /\ data n = "x".
Proof.
  destruct (create_adds_child "/a" "x" false false [] false 7 1 99 (KeeperStore_init 500 "") KeeperNode0)
    as (u & s' & n & pn' & E & _ & Hn & Hd & _); try done; [apply store_inv_init|by left|].
  exists u, s', n. auto.
Defined.

(** Remove on any path: the node must exist, have the expected version and
    no children, otherwise the matching error and no change; then exactly that
    node goes, its parent no longer lists it and its visible child version
    grows by one. *)
Theorem remove_takes_leaf path v z s :
  store_inv s -> path <> "/" ->
  exists resp undo s', process_remove path v z s = (Ok (resp, undo), s') /\ store_inv s' /\
    match data_tree s !! path with
    | None => error resp.1 = ZNONODE /\ s' = s
    | Some n =>
        if decide (v <> -1 /\ v <> version (stat n)) then error resp.1 = ZBADVERSION /\ s' = s
        else if decide (children n <> ∅) then error resp.1 = ZNOTEMPTY /\ s' = s
        else error resp.1 = ZOK /\ data_tree s' !! path = None /\
             (exists pn pn', data_tree s !! getParentPath path = Some pn /\
                data_tree s' !! getParentPath path = Some pn' /\
                children pn' = children pn ∖ {[getBaseName path]} /\ pzxid (stat pn') = z /\
                cversion (statForResponse pn') = i32 (cversion (statForResponse pn) + 1)) /\
             forall q, q <> path -> q <> getParentPath path -> data_tree s' !! q = data_tree s !! q
    end.
Proof.
  intros Hi Hr.
  assert (forall e, process_remove path v z s = (Ok (set_error e (ResponseHeader0, RemoveResponse), None), s) ->
    exists resp undo s', process_remove path v z s = (Ok (resp, undo), s') /\ store_inv s' /\
      error resp.1 = e /\ s' = s) as Hrefuse by (intros e ->; eexists _, _, _; split; [done|]; auto).
  pose proof (process_remove_result path v z s Hi Hr) as Hres.
  unfold process_remove, failed in Hres, Hrefuse |- *. cbn [sm_bind getNode sm_get] in *.
  destruct (data_tree s !! path) as [n|] eqn:Hn; [|by apply (Hrefuse ZNONODE)].
  destruct (decide (v <> -1 /\ v <> version (stat n))); [by apply (Hrefuse ZBADVERSION)|].
  destruct (decide (children n <> ∅)) as [|Hc]; [by apply (Hrefuse ZNOTEMPTY)|].
  clear Hrefuse. apply dec_stable in Hc.
  destruct (tw_parent _ (ti_wf _ _ Hi) path) as (pn & Hp & _); [eauto|done|].
  assert (removable s path n pn) as Hrm by done.
  destruct (removable_shape _ _ _ _ Hi Hrm) as (_ & _ & _ & Hne).
  cbn [sm_bind getNode sm_get] in *. rewrite Hp in *.
  exists (ResponseHeader0, RemoveResponse),
    (Some (undo_remove n (if is_ephemeral n then ephemeralOwner (stat n) else 0) path
             (pzxid (stat pn)) (getBaseName path))), (removed path n z s).
  split; [by destruct n as [? ? [] ? ? ?]|]. split; [by eapply store_inv_removed|]. split; [done|].
  rewrite data_tree_removed, (alter_Some _ _ _ pn), lookup_delete_eq by done. split; [done|]. split.
  - exists pn, (parent_loses (getBaseName path) z pn). rewrite lookup_delete_ne, lookup_insert_eq by done.
    do 4 (split; [done|]). unfold parent_loses. by rewrite visible_cversion.
  - intros q Hq1 Hq2. by rewrite lookup_delete_ne, lookup_insert_ne.
Qed.

Lemma remove_takes_leaf_witness :
  exists resp undo, process_remove "/a" (-1) 5 (KeeperStore_init 500 "") =
    (Ok (resp, undo), KeeperStore_init 500 "") /\ error resp.1 = ZNONODE.
Proof.
  destruct (remove_takes_leaf "/a" (-1) 5 (KeeperStore_init 500 "") (store_inv_init _ _) ltac:(done))
    as (resp & undo & s' & E & _ & Hc).
  change (data_tree (KeeperStore_init 500 "") !! "/a") with (@None KeeperNode) in Hc. simpl in Hc.
  destruct Hc as [Hc ->]. eauto.
Defined.

(** Set replaces the data of the named node when the expected version is
    the node's or -1, and raises its version by one; otherwise it answers
    ZNONODE or ZBADVERSION and the store does not change. *)
Theorem set_replaces_data path d v z time s :
  store_inv s ->
  exists resp undo s', process_set path d v z time s = (Ok (resp, undo), s') /\ store_inv s' /\
    match data_tree s !! path with
    | None => error resp.1 = ZNONODE /\ s' = s
    | Some n =>
        if decide (v = -1 \/ v = version (stat n)) then
          exists n', resp = (ResponseHeader0, SetResponse (statForResponse n')) /\
            data_tree s' = <[path := n']> (data_tree s) /\ data n' = d /\
            children n' = children n /\ acl_id n' = acl_id n /\
            version (stat n') = i32 (version (stat n) + 1) /\
            mzxid (stat n') = z /\ mtime (stat n') = time /\ czxid (stat n') = czxid (stat n) /\
            dataLength (stat n') = i32 (Z.of_nat (String.length d))
        else error resp.1 = ZBADVERSION /\ s' = s
    end.
Proof.
  intros Hi. unfold process_set, failed. cbn [sm_bind getNode sm_get].
  destruct (data_tree s !! path) as [n|] eqn:Hn; [|by eexists _, _, _].
  destruct (decide (v = -1 \/ v = version (stat n))); [|by eexists _, _, _].
  pose proof (ti_typed _ _ Hi _ _ Hn) as Hty. simpl in Hty.
  eexists _, _, _. split; [reflexivity|]. cbn [with_tree data_tree].
  rewrite (alter_Some _ _ _ n) by done. split.
  - unfold store_inv; simpl. rewrite (alter_Some _ _ _ n) by done. by eapply tree_inv_update.
  - exists (set_node d z time n). done.
Qed.

Lemma set_replaces_data_witness :
  exists resp undo s', process_set "/" "x" 0 5 6 (KeeperStore_init 500 "") = (Ok (resp, undo), s') /\
    exists n', data_tree s' = <["/" := n']> root_tree /\ data n' = "x" /\ version (stat n') = 1.
Proof.
  destruct (set_replaces_data "/" "x" 0 5 6 (KeeperStore_init 500 "") (store_inv_init _ _))
    as (resp & undo & s' & E & _ & Hc).
  change (data_tree (KeeperStore_init 500 "") !! "/") with (Some KeeperNode0) in Hc.
  cbv beta iota in Hc. rewrite decide_True in Hc by (by right).
  destruct Hc as (n' & _ & Ht & Hd & _ & _ & Hv & _). exists resp, undo, s'. split; [done|]. eauto.
Defined.
