(* ===== verification/StoreMulti.v ===== *)
(** * Transactions

    [StoreRequestMultiTxn] applies all its parts or none: a part that fails
    makes the undo actions of the parts before it run, latest first. *)

From S2P Require Import Prelude Coordination Paths AclMap Sessions Watches DataTree Store StoreTree StoreOps.

Section multi.
Context `{IterOrder} (sha1_base64 : string -> string) (compat : bool).
Local Abbreviation step := (process_concrete sha1_base64).
Local Abbreviation loop := (multi_loop sha1_base64 compat).

(** The undo actions collected so far lead back to [s0]. *)
Definition undo_stack (us : list Undo) (s0 s : KeeperStore) : Prop :=
  forall x, same_tree x s ->
    exists x', run_undos us x = (Ok tt, x') /\ same_tree x' s0 /\ frame x x'.

Lemma undo_stack_nil s : undo_stack [] s s.
Proof. intros x Hx. by exists x. Qed.

Lemma undo_stack_cons u us s0 s s' :
  undoes u s s' -> undo_stack us s0 s -> undo_stack (u :: us) s0 s'.
Proof.
  intros Hu Hus x Hx. destruct u as [u|]; simpl in *.
  - destruct (Hu x Hx) as (x1 & -> & Hx1 & Hf1).
    destruct (Hus x1 Hx1) as (x2 & -> & Hx2 & Hf2). exists x2. split; [done|]. split; [done|].
    by etransitivity.
  - apply Hus. rewrite Hx. by symmetry.
Qed.

(** The parts on their own, one after the other. *)
Fixpoint run_parts (zxid' session_id time : Z) (rs : list ZooKeeperRequest)
    : SM KeeperStore (list ZooKeeperResponse) :=
  match rs with
  | [] => sm_ret []
  | r :: rs' => (p <- step r zxid' session_id time ;;
                 rest <- run_parts zxid' session_id time rs' ;;
                 sm_ret (p.1 :: rest))%sm
  end.

Definition is_ok (r : ZooKeeperResponse) : Prop := error r.1 = ZOK.

(** A part of a write transaction. *)
Definition write_part (r : ZooKeeperRequest) : Prop :=
  sub_operation_type r.2 = Some OperationType_Write /\ path_ok r.2.

(** How the loop ends: all parts went through, or the failing part's error is
    reported, the parts before it report success, those after it an
    inconsistency, and the tree is back at [s0]. *)
Inductive multi_end (z sid time : Z) (rs : list ZooKeeperRequest) (done : list ZooKeeperResponse)
    (s0 s : KeeperStore) : outcome (list ZooKeeperResponse) * KeeperStore -> Prop :=
| multi_all resps s' :
    run_parts z sid time rs s = (Ok resps, s') -> Forall is_ok resps -> frame s s' -> store_inv s' ->
    multi_end z sid time rs done s0 s (Ok (rev done ++ resps), s')
| multi_none i e s' :
    (i < length rs)%nat -> e <> ZOK -> same_tree s' s0 -> frame s s' -> store_inv s' ->
    multi_end z sid time rs done s0 s
      (Ok ((to_error <$> rev done) ++ replicate i (error_response ZOK) ++ [error_response e] ++
           replicate (length rs - S i) (error_response ZRUNTIMEINCONSISTENCY)), s').

Lemma multi_end_cons z sid time r rs resp undo done s0 s s1 out :
  step r z sid time s = (Ok (resp, undo), s1) -> is_ok resp -> frame s s1 ->
  multi_end z sid time rs (resp :: done) s0 s1 out ->
  multi_end z sid time (r :: rs) done s0 s out.
Proof.
  intros E Hok Hf Hend. destruct Hend as [resps s' Hrun Hall Hf' Hinv|i e s' Hi He Hs Hf' Hinv].
  - simpl. rewrite <- app_assoc. apply multi_all; [|by constructor|by etransitivity|done].
    simpl. by rewrite E, Hrun.
  - simpl rev. rewrite fmap_app, <- app_assoc.
    assert (to_error resp = error_response ZOK) as Ee by (unfold to_error; by rewrite Hok).
    pose proof (multi_none z sid time (r :: rs) done s0 s (S i) e s') as Hnone. simpl in Hnone |- *.
    rewrite Ee. apply Hnone; [lia|done|done|by etransitivity|done].
Qed.

Lemma to_error_rest {A} (rs : list A) :
  ((fun _ => error_response ZRUNTIMEINCONSISTENCY) <$> rs) =
  replicate (length rs) (error_response ZRUNTIMEINCONSISTENCY).
Proof. induction rs; simpl; [done|]. by f_equal. Qed.

Lemma multi_loop_end z sid time rs done us s0 s :
  Forall write_part rs -> store_inv s0 -> store_inv s -> undo_stack us s0 s ->
  multi_end z sid time rs done s0 s (loop OperationType_Write z sid time rs done us s).
Proof.
  intros Hall Hi0. revert done us s. induction Hall as [|r rs [Hw Hok] Hall IH]; intros done us s Hi Hus.
  { simpl. rewrite <- (app_nil_r (rev done)). by apply multi_all. }
  destruct (process_concrete_sound sha1_base64 r z sid time s _ Hw Hok Hi)
    as (resp & undo & s1 & E & Hi1 & Hf1 & Hu & He).
  cbn [multi_loop]. rewrite E. case_decide as Herr.
  - destruct Herr as [Herr _]. rewrite (He Herr) in Hu. simpl in Hu.
    destruct (Hus s1) as (s2 & E2 & Hs2 & Hf2); [by symmetry|].
    cbn [sm_bind]. rewrite E2. cbn [sm_ret rev]. rewrite fmap_app, <- app_assoc, to_error_rest.
    pose proof (multi_none z sid time (r :: rs) done s0 s 0 (error resp.1) s2) as Hnone.
    simpl in Hnone. rewrite Nat.sub_0_r in Hnone.
    apply Hnone; [lia|done|done|by etransitivity|].
    eapply store_inv_same; [symmetry; exact Hs2|done].
  - assert (is_ok resp) as Hr.
    { unfold is_ok. destruct (decide (error resp.1 = ZOK)); [done|]. by destruct Herr. }
    rewrite Hr, bool_decide_true, andb_false_r by done.
    eapply multi_end_cons; [done|done|done|]. apply IH; [done|]. by eapply undo_stack_cons.
Qed.

(** The constructor's test makes every part a write. *)
Lemma check_operation_type_write t rs :
  check_operation_type t rs = Ok OperationType_Write ->
  t <> OperationType_Read -> Forall (fun r => sub_operation_type r.2 = Some OperationType_Write) rs.
Proof.
  revert t. induction rs as [|r rs IH]; intros t; simpl; [constructor|].
  destruct (sub_operation_type r.2) as [t'|] eqn:E; [|done]. case_decide as Hd; [done|].
  intros Hc Ht. assert (t' = OperationType_Write) as ->.
  { destruct t'; [..|done].
    - exfalso. revert E. unfold sub_operation_type. by repeat case_match.
    - exfalso. clear IH Hd. revert Hc. induction rs as [|r' rs IH']; simpl; [done|].
      destruct (sub_operation_type r'.2) as [t2|] eqn:E2; [|done].
      case_decide as Hd; [done|]. assert (t2 = OperationType_Read) as ->
        by (destruct t2; try done; exfalso; apply Hd; done). exact IH'. }
  constructor; [done|]. by eapply IH.
Qed.

Lemma process_multi_end t rs z sid time s :
  multi_operation_type rs = Ok OperationType_Write -> Forall (fun r => path_ok r.2) rs ->
  t <> OperationType_Read -> store_inv s ->
  exists resps s', multi_end z sid time rs [] s s (Ok resps, s') /\
    process_multi sha1_base64 compat t rs z sid time s =
      (Ok ((ResponseHeader0, MultiWriteResponse resps), None), s').
Proof.
  intros Ht Hok Hnr Hi.
  assert (Forall write_part rs) as Hw.
  { apply check_operation_type_write in Ht; [|done]. rewrite Forall_forall in Ht, Hok |- *.
    intros r Hr. split; auto. }
  pose proof (multi_loop_end z sid time rs [] [] s s Hw Hi Hi (undo_stack_nil s)) as Hend.
  destruct (loop _ _ _ _ rs [] [] s) as [o s'] eqn:E.
  assert (exists resps, o = Ok resps) as [resps ->] by (inversion Hend; eauto).
  exists resps, s'. split; [done|]. unfold process_multi. simpl. rewrite Ht. simpl. rewrite E.
  simpl. by rewrite decide_False.
Qed.
End multi.

(** C2: a write transaction none of whose parts creates a node below a double
    slash or removes the root is atomic. Either every part succeeds and the
    result is that of applying the parts one after the other, or one part
    fails and the tree and the ephemeral nodes are exactly what they were;
    then the parts before it answer with code 0, it answers with its error and
    the parts after it with ZRUNTIMEINCONSISTENCY. *)
Theorem multi_atomic `{IterOrder} sha1_base64 compat t rs z sid time s :
  multi_operation_type rs = Ok OperationType_Write -> Forall (fun r => path_ok r.2) rs ->
  t <> OperationType_Read -> store_inv s ->
  exists resps s',
    process_multi sha1_base64 compat t rs z sid time s =
      (Ok ((ResponseHeader0, MultiWriteResponse resps), None), s') /\ store_inv s' /\
    ((run_parts sha1_base64 z sid time rs s = (Ok resps, s') /\ Forall is_ok resps) \/
     (exists i e, (i < length rs)%nat /\ e <> ZOK /\ same_tree s' s /\ frame s s' /\
        resps = replicate i (error_response ZOK) ++ [error_response e] ++
                replicate (length rs - S i) (error_response ZRUNTIMEINCONSISTENCY))).
Proof.
  intros Ht Hok Hnr Hi.
  destruct (process_multi_end sha1_base64 compat t rs z sid time s Ht Hok Hnr Hi) as (resps & s' & Hend & E).
  exists resps, s'. split; [done|].
  inversion Hend as [r1 s1 Hrun Hall Hf Hinv|i e s1 Hlt He Hs Hf Hinv]; subst; (split; [done|]); [by left|].
  right. exists i, e. done.
Qed.

(** A transaction whose second part fails: the node of the first is not there. *)
Definition multi_example : list ZooKeeperRequest :=
  [(mkRequestHeader 0 false, CreateRequest "/a" "x" true false [] false);
   (mkRequestHeader 0 false, SetRequest "/b" "y" 0)].

(** The second part fails, and the first is undone. *)
Lemma multi_atomic_witness :
  exists resps s' i e,
    process_multi (fun _ => "") false OperationType_Write multi_example 5 1 9 (KeeperStore_init 500 "") =
      (Ok ((ResponseHeader0, MultiWriteResponse resps), None), s') /\ store_inv s' /\
    (i < 2)%nat /\ e <> ZOK /\ same_tree s' (KeeperStore_init 500 "") /\ frame (KeeperStore_init 500 "") s' /\
    resps = replicate i (error_response ZOK) ++ [error_response e] ++ replicate (2 - S i) (error_response ZRUNTIMEINCONSISTENCY).
Proof.
  destruct (multi_atomic (fun _ => "") false OperationType_Write multi_example 5 1 9
              (KeeperStore_init 500 "")) as (resps & s' & E & Hi & [[Hr Ha]|(i & e & H)]); try done;
    [by repeat constructor|apply store_inv_init| |exists resps, s', i, e; exact (conj E (conj Hi H))].
  exfalso. vm_compute in Hr. injection Hr as <- _. apply Forall_cons in Ha as [_ [Ha _]%Forall_cons]. discriminate Ha.
Defined.

(** Below a double slash it is not. The node ["//a"] counts as the child ["a"] of
    the root; when its creation is undone, the node ["/a"] that was there before is
    no longer a child of the root. *)
Lemma double_slash_not_undone :
  let sha1 := fun _ : string => "" in
  let create path := (mkRequestHeader 0 false, CreateRequest path "x" true false [] false) in
  let s := (run_parts sha1 4 1 9 [create "/a"] (KeeperStore_init 500 "")).2 in
  let s' := (process_multi sha1 false OperationType_Write [create "//a"; (mkRequestHeader 0 false, CheckRequest "/b" 0 false)] 5 1 9 s).2 in
  (fun n => children n) <$> data_tree s !! "/" = Some {["a"]} /\ is_Some (data_tree s' !! "/a") /\
  (fun n => children n) <$> data_tree s' !! "/" = Some ∅.
Proof. vm_compute. split_and!; [done|by eexists|done]. Qed.
