(* ===== verification/StoreRequest.v ===== *)
(** * Requests on the whole store

    [KeeperStore::processRequest] with its session, watch and queue effects:
    the invariant of the whole store, the end of a session, the transaction
    numbers, the responses, the access checks. *)

From S2P Require Import Prelude Coordination Paths AclMap Sessions Watches DataTree.
From S2P Require Import Store StoreTree StoreOps StoreMulti.

Record server_inv (s : KeeperStore) : Prop := {
  si_tree : store_inv s;
  si_sessions : sessions_wf (session_manager s);
  si_watches : watch_wf (watch_manager s)
}.

Lemma server_inv_init period digest :
  0 < period < 2 ^ 63 -> server_inv (KeeperStore_init period digest).
Proof. intros Hp. split; [apply store_inv_init|by apply sessions_wf_init|apply watch_wf_init]. Qed.

(** An operation on the tree keeps the managers. *)
Lemma server_inv_frame s s' : frame s s' -> store_inv s' -> server_inv s -> server_inv s'.
Proof. intros [] Hi []. split; [done|congruence..]. Qed.

(** A request all of whose parts have acceptable paths. *)
Definition request_ok (r : ZooKeeperRequest) : Prop :=
  match r.2 with
  | MultiRequest _ rs => Forall (fun x => path_ok x.2) rs
  | b => path_ok b
  end.

(** Ends normally or with an exception, with the tree in order and the
    managers untouched. *)
Definition tree_safe {A} (s : KeeperStore) (r : outcome A * KeeperStore) : Prop :=
  match r with
  | (Ok _, s') | (Fault (Throw _), s') => store_inv s' /\ frame s s'
  | _ => False
  end.

Section safe.
Context `{IterOrder} (sha1_base64 : string -> string) (compat : bool).

Lemma tree_safe_same {A} (o : A) s s' : store_inv s -> same_nodes s s' -> tree_safe s (Ok o, s').
Proof. intros Hi Hs. split; [by eapply same_nodes_inv|apply Hs]. Qed.

Lemma process_set_acl_safe path acls v sid s :
  store_inv s -> tree_safe s (process_set_acl path acls v sid s).
Proof.
  intros Hi. unfold process_set_acl, failed. cbn [sm_bind getNode sm_get].
  destruct (data_tree s !! path) as [n|] eqn:Hn; [|by apply tree_safe_same].
  case_decide; [by apply tree_safe_same|]. cbn [sm_bind session_auth_ids].
  destruct (fixupACL _ _) as [l|]; [|by apply tree_safe_same; [|apply same_nodes_auth]].
  cbn [sm_bind]. simpl. split; [|by split].
  unfold store_inv; simpl. rewrite (alter_Some _ _ _ n) by done.
  eapply tree_inv_update; try done. apply (ti_typed _ _ Hi _ _ Hn).
Qed.

Lemma process_concrete_safe r z sid time s :
  path_ok r.2 -> store_inv s -> tree_safe s (process_concrete sha1_base64 r z sid time s).
Proof.
  intros Hok Hi. destruct (sub_operation_type r.2) as [t|] eqn:Ht.
  { destruct (process_concrete_sound sha1_base64 r z sid time s t Ht Hok Hi)
      as (resp & undo & s' & -> & ? & ? & _). done. }
  destruct r as [h r]. unfold process_concrete; cbn [fst snd] in *.
  destruct r; try done; try (by apply (tree_safe_same _ s s)).
  - unfold process_auth, failed. case_decide; [by apply tree_safe_same|].
    apply tree_safe_same; [done|apply same_nodes_auth].
  - by destruct not_exists.
  - by destruct not_exists.
  - by apply process_set_acl_safe.
  - unfold process_get_acl, failed, convertNumber. cbn [sm_bind getNode sm_get].
    destruct (data_tree s !! path); [|by apply tree_safe_same].
    case_decide; [by apply tree_safe_same|]. destruct (num_to_acl _ !! _); by apply tree_safe_same || split.
Qed.

(** A transaction of reads leaves the store as it is. *)
Lemma multi_loop_read t z sid time rs done us s :
  Forall (fun r => sub_operation_type r.2 = Some OperationType_Read /\ path_ok r.2) rs ->
  t <> OperationType_Write -> store_inv s ->
  exists resps, multi_loop sha1_base64 compat t z sid time rs done us s = (Ok resps, s).
Proof.
  intros Hall Ht Hi. revert done us. induction Hall as [|r rs [Hr Hok] Hall IH]; intros done us; [by eexists|].
  destruct (process_concrete_read sha1_base64 r z sid time s Hr Hok Hi) as [resp E].
  cbn [multi_loop]. rewrite E. rewrite decide_False by naive_solver. apply IH.
Qed.

Lemma check_operation_type_read t rs t' :
  check_operation_type t rs = Ok t' -> t' <> OperationType_Write -> t <> OperationType_Write ->
  Forall (fun r => sub_operation_type r.2 = Some OperationType_Read) rs.
Proof.
  revert t. induction rs as [|r rs IH]; intros t; simpl; [constructor|].
  destruct (sub_operation_type r.2) as [u|] eqn:E; [|done]. case_decide as Hd; [done|].
  intros Hc Ht' Ht. assert (u = OperationType_Read) as ->.
  { destruct u; [..|done|].
    - exfalso. revert E. unfold sub_operation_type. by repeat case_match.
    - exfalso. clear IH Hd. revert Hc. induction rs as [|r' rs IH']; simpl; [congruence|].
      destruct (sub_operation_type r'.2) as [t2|]; [|done].
      case_decide as Hd; [done|]. assert (t2 = OperationType_Write) as ->
        by (destruct t2; try done; exfalso; apply Hd; done). exact IH'. }
  constructor; [done|]. by eapply IH.
Qed.

Lemma multi_operation_type_throws rs :
  (exists t, multi_operation_type rs = Ok t) \/ multi_operation_type rs = Fault (Throw BAD_ARGUMENTS).
Proof.
  unfold multi_operation_type. generalize OperationType_Unspecified.
  induction rs as [|r rs IH]; intros t; simpl; [by left; eexists|].
  destruct (sub_operation_type r.2); [|by right]. case_decide; [by right|]. apply IH.
Qed.

Lemma process_multi_safe t rs z sid time s :
  Forall (fun r => path_ok r.2) rs -> store_inv s ->
  tree_safe s (process_multi sha1_base64 compat t rs z sid time s).
Proof.
  intros Hok Hi. unfold process_multi. simpl.
  destruct (multi_operation_type_throws rs) as [[u Hu]|Hu]; rewrite Hu; simpl; [|done].
  destruct (decide (u = OperationType_Write)) as [->|Hw].
  - assert (Forall write_part rs) as Hp.
    { apply check_operation_type_write in Hu; [|done]. rewrite Forall_forall in Hu, Hok |- *.
      intros r Hr. split; auto. }
    pose proof (multi_loop_end sha1_base64 compat z sid time rs [] [] s s Hp Hi Hi (undo_stack_nil s)) as Hend.
    destruct (multi_loop _ _ _ _ _ _ rs [] [] s) as [o s'].
    inversion Hend; by subst.
  - destruct (multi_loop_read u z sid time rs [] [] s) as [resps ->]; [|done|done|by split].
    apply check_operation_type_read in Hu; [|done..]. rewrite Forall_forall in Hu, Hok |- *.
    intros r Hr. split; auto.
Qed.

Lemma process_safe r z sid time s :
  request_ok r -> store_inv s -> tree_safe s (process sha1_base64 compat r z sid time s).
Proof.
  intros Hok Hi. unfold process, request_ok in *.
  destruct r as [h []]; cbn [snd] in *; try (by apply process_concrete_safe). by apply process_multi_safe.
Qed.

(** The access check reads; it throws only when a node's ACL number is unknown. *)
Lemma checkNodeAuth_same perm path sid s :
  (exists b, checkNodeAuth perm path sid s = (Ok b, s)) \/
  checkNodeAuth perm path sid s = (Fault (Throw LOGICAL_ERROR), s).
Proof.
  unfold checkNodeAuth, convertNumber. destruct (data_tree s !! path); [|by left; eexists].
  case_decide; [case_decide; by left; eexists|].
  destruct (num_to_acl _ !! _); [case_decide; by left; eexists|by right].
Qed.

Lemma checkAuth_concrete_same r sid s :
  (exists b, checkAuth_concrete r sid s = (Ok b, s)) \/
  checkAuth_concrete r sid s = (Fault (Throw LOGICAL_ERROR), s).
Proof. destruct r as [h []]; simpl; by apply checkNodeAuth_same || left; eexists. Qed.

Lemma checkAuth_same r sid s :
  (exists b, checkAuth r sid s = (Ok b, s)) \/ checkAuth r sid s = (Fault (Throw LOGICAL_ERROR), s).
Proof.
  unfold checkAuth. destruct r as [h b]. destruct b as [| | | | | | | | | | | | | | | |t rs| |];
    try apply checkAuth_concrete_same. simpl.
  induction rs as [|r rs IH]; simpl; [by left; eexists|].
  destruct (checkAuth_concrete_same r sid s) as [[[] ->] | ->]; simpl; [done|by left; eexists|by right].
Qed.

(** ** Watches and the queue *)

(** Only the watches differ. *)
Record watches_only (s s' : KeeperStore) : Prop := {
  wo_tree : data_tree s' = data_tree s;
  wo_eph : ephemerals s' = ephemerals s;
  wo_sessions : session_manager s' = session_manager s;
  wo_zxid : zxid s' = zxid s;
  wo_auth : session_and_auth s' = session_and_auth s;
  wo_acl : acl_map s' = acl_map s
}.

#[export] Instance watches_only_preorder : PreOrder watches_only.
Proof. split; [by split|]. intros s1 s2 s3 [] []. split; congruence. Qed.

Lemma watches_only_with w s : watches_only s (with_watches w s).
Proof. by split. Qed.

Lemma watches_only_inv s s' :
  watches_only s s' -> watch_wf (watch_manager s') -> server_inv s -> server_inv s'.
Proof.
  intros [Ht He Hs _ _ _] Hw [Hi Hm _]. split; [|congruence|done].
  unfold store_inv. by rewrite Ht, He.
Qed.

(** A notification, as opposed to the answer to a request. *)
Definition watch_note (x : ResponseForSession) : Prop := resp_xid x.2.1 = WATCH_XID.

Lemma watch_response_note s ev p : watch_note (s, watch_response ev p).
Proof. done. Qed.

(** What a step that only notifies does to the store and the queue. *)
Definition notifies (ig : bool) (st st' : Server) : Prop :=
  watches_only st.1 st'.1 /\ watch_wf (watch_manager st'.1) /\
  exists ws, Forall watch_note ws /\ st'.2 = if ig then st.2 else st.2 ++ ws.

Lemma notifies_trans ig st1 st2 st3 : notifies ig st1 st2 -> notifies ig st2 st3 -> notifies ig st1 st3.
Proof.
  intros (H1 & _ & ws1 & Hw1 & E1) (H2 & Hw & ws2 & Hw2 & E2). split; [by etransitivity|].
  split; [done|]. exists (ws1 ++ ws2). split; [by apply Forall_app|].
  rewrite E2, E1. destruct ig; [done|]. by rewrite app_assoc.
Qed.

Lemma processWatches_notes path ev m :
  watch_wf m -> exists rs m', processWatches path ev m = Ok (rs, m') /\ watch_wf m' /\ Forall watch_note rs.
Proof.
  intros Hm. destruct (processWatches_spec path ev m Hm) as (rs & m' & E & Hm' & Hrs & _).
  exists rs, m'. split; [done|]. split; [done|]. apply Forall_forall. intros [s r] Hin.
  apply Hrs in Hin as [[_ ->]|(p & _ & _ & ->)]; apply watch_response_note.
Qed.

Lemma processWatches_op_notes path op m :
  watch_wf m -> exists rs m', processWatches_op path op m = Ok (rs, m') /\ watch_wf m' /\ Forall watch_note rs.
Proof.
  intros Hm. 
  destruct op; first [by apply processWatches_notes | exists [], m; split; [done|]; split; [done|constructor]].
Qed.

(** A call of the watch manager whose notifications go to the queue. *)
Lemma watch_op_notifies ig f st :
  (exists rs m', f (watch_manager st.1) = Ok (rs, m') /\ watch_wf m' /\ Forall watch_note rs) ->
  exists st', (responses <- on_store (watch_op f) ;; set_response ig responses)%sm st = (Ok tt, st') /\
    notifies ig st st'.
Proof.
  intros (rs & m' & E & Hm' & Hrs). unfold on_store, watch_op, set_response. simpl. rewrite E. simpl.
  eexists; split; [done|]. split; [apply watches_only_with|]. split; [done|]. by exists rs.
Qed.

Lemma trigger_watches_notifies ig rs st :
  watch_wf (watch_manager st.1) ->
  exists st', trigger_watches ig rs st = (Ok tt, st') /\ notifies ig st st'.
Proof.
  revert st. induction rs as [|r rs IH]; intros st Hw.
  { exists st. split; [done|]. split; [done|]. split; [done|]. exists []. split; [constructor|].
    destruct ig; [done|]. by rewrite app_nil_r. }
  destruct (watch_op_notifies ig (processWatches_op (request_getPath r.2) (request_getOpNum r.2)) st)
    as (st1 & E1 & Hn1); [by apply processWatches_op_notes|].
  destruct (IH st1) as (st2 & E2 & Hn2); [apply Hn1|]. exists st2. split; [|by eapply notifies_trans].
  cbn [trigger_watches]. rewrite <- E2. clear E2. cbn [sm_bind] in E1 |- *.
  destruct (on_store _ st) as [[a|f] st0]; [|done]. by rewrite E1.
Qed.

(** The request is answered once, after the notifications. *)
Definition answers (ig : bool) (sid : Z) (resp : ZooKeeperResponse) (st st' : Server) : Prop :=
  watches_only st.1 st'.1 /\ watch_wf (watch_manager st'.1) /\
  exists ws, Forall watch_note ws /\ st'.2 = if ig then st.2 else st.2 ++ ws ++ [(sid, resp)].

Lemma notifies_answers ig sid resp st st' :
  notifies ig st st' ->
  exists st2, set_response ig [(sid, resp)] st' = (Ok tt, st2) /\ answers ig sid resp st st2.
Proof.
  intros (H1 & Hw & ws & Hws & E). unfold set_response; simpl. eexists; split; [done|].
  split; [done|]. split; [done|]. exists ws. split; [done|]. simpl. rewrite E.
  destruct ig; [done|]. by rewrite app_assoc.
Qed.

Lemma notifies_refl ig st : watch_wf (watch_manager st.1) -> notifies ig st st.
Proof.
  intros Hw. split; [done|]. split; [done|]. exists []. split; [constructor|].
  destruct ig; [done|]. by rewrite app_nil_r.
Qed.

Lemma respond_answers r resp ig st :
  watch_wf (watch_manager st.1) ->
  exists st', respond r resp ig st = (Ok tt, st') /\ answers ig (session_id r) resp st st'.
Proof.
  intros Hw. unfold respond. destruct (request_isReadRequest (request r).2); cbn [sm_bind].
  - assert (exists st1, (if has_watch (request r).1 &&
        bool_decide (error resp.1 = ZOK \/ (error resp.1 = ZNONODE /\ request_getOpNum (request r).2 = OpExists))
        then on_store (watch_op (fun w => no_result
               (registerWatches (request_getPath (request r).2) (session_id r) (request_getOpNum (request r).2) w)))
        else sm_ret tt) st = (Ok tt, st1) /\ notifies ig st st1) as (st1 & -> & Hn).
    { destruct (_ && _); [|exists st; split; [done|by apply notifies_refl]].
      destruct (registerWatches_spec (request_getPath (request r).2) (session_id r)
                  (request_getOpNum (request r).2) _ Hw) as (m' & E & Hm' & _).
      unfold on_store, watch_op, no_result. rewrite E. simpl. eexists; split; [done|].
      split; [apply watches_only_with|]. split; [done|]. exists []. split; [constructor|].
      destruct ig; [done|]. by rewrite app_nil_r. }
    by apply notifies_answers.
  - assert (exists st1, (if decide (error resp.1 = ZOK) then trigger_watches ig (triggering (request r) resp)
        else sm_ret tt) st = (Ok tt, st1) /\ notifies ig st st1) as (st1 & -> & Hn).
    { case_decide; [by apply trigger_watches_notifies|]. exists st. split; [done|by apply notifies_refl]. }
    by apply notifies_answers.
Qed.

(** ** Ordinary requests *)

Definition next_zxid (r : RequestForSession) (nz : option Z) (z : Z) : Z :=
  match nz with
  | Some _ => z
  | None => if shouldIncreaseZxid (request r).2 then i64 (z + 1) else z
  end.

(** The answer as it is sent. *)
Definition stamped (r : RequestForSession) (z : Z) (resp : ZooKeeperResponse) : ZooKeeperResponse :=
  set_zxid z (set_xid (xid (request r).1) (set_created (create_time r) resp)).

(** The request was refused by the access check, or processed. *)
Inductive computed (r : RequestForSession) (ca : bool) (s : KeeperStore)
    : ZooKeeperResponse -> KeeperStore -> Prop :=
| computed_denied :
    ca = true -> checkAuth (request r) (session_id r) s = (Ok false, s) ->
    computed r ca s (set_error ZNOAUTH (makeResponse (request r).1 (request r).2)) s
| computed_done resp undo s1 :
    ca = false \/ checkAuth (request r) (session_id r) s = (Ok true, s) ->
    process sha1_base64 compat (request r) (zxid s) (session_id r) (process_time r) s = (Ok (resp, undo), s1) ->
    computed r ca s resp s1.

Inductive other_end (r : RequestForSession) (nz : option Z) (ca ig : bool) (s : KeeperStore)
    (q : list ResponseForSession) : outcome unit * Server -> Prop :=
| other_throws e s' :
    store_inv s' -> frame s s' -> other_end r nz ca ig s q (Fault (Throw e), (s', q))
| other_answers resp s1 st' :
    computed r ca s resp s1 -> store_inv s1 -> frame s s1 ->
    answers ig (session_id r) (stamped r (zxid s) resp) (with_zxid (next_zxid r nz (zxid s)) s1, q) st' ->
    other_end r nz ca ig s q (Ok tt, st').

Lemma with_zxid_id s : with_zxid (zxid s) s = s.
Proof. by destruct s. Qed.

Lemma process_other_tail r nz ig s q resp s1 :
  frame s s1 -> watch_wf (watch_manager s) ->
  exists st',
    (z <- on_store (match nz with
                  | Some _ => sm_get zxid
                  | None => if shouldIncreaseZxid (request r).2 then fetchAndGetZxid else sm_get zxid
                  end) ;;
     respond r (set_zxid z (set_xid (xid (request r).1) (set_created (create_time r) resp))) ig)%sm (s1, q) =
      (Ok tt, st') /\
    answers ig (session_id r) (stamped r (zxid s) resp) (with_zxid (next_zxid r nz (zxid s)) s1, q) st'.
Proof.
  intros Hf Hw. pose proof (fr_zxid _ _ Hf) as Hz. pose proof (fr_watches _ _ Hf) as Hwm.
  assert (on_store (match nz with
            | Some _ => sm_get zxid
            | None => if shouldIncreaseZxid (request r).2 then fetchAndGetZxid else sm_get zxid
            end) (s1, q) = (Ok (zxid s), (with_zxid (next_zxid r nz (zxid s)) s1, q))) as E.
  { unfold next_zxid, on_store, fetchAndGetZxid. rewrite <- Hz.
    destruct nz; [|destruct (shouldIncreaseZxid _)]; simpl; by rewrite ?with_zxid_id. }
  cbn [sm_bind]. rewrite E.
  apply (respond_answers r (stamped r (zxid s) resp) ig (with_zxid (next_zxid r nz (zxid s)) s1, q)).
  simpl. by rewrite Hwm.
Qed.

Lemma factory_get_throws r :
  factory_get r = Ok tt \/ exists e, factory_get r = Fault (Throw e).
Proof.
  unfold factory_get. destruct r as [h []]; simpl; auto; [|by right; eexists..].
  destruct (multi_operation_type_throws requests) as [[t ->] | ->]; [by left|by right; eexists].
Qed.

Lemma process_other_end r nz ca ig s q :
  request_ok (request r) -> server_inv s ->
  other_end r nz ca ig s q (process_other sha1_base64 compat r nz ca ig (s, q)).
Proof.
  intros Hok [Hi _ Hw]. unfold process_other. cbn [sm_bind sm_lift].
  destruct (factory_get_throws (request r)) as [-> | [e ->]]; [|by apply other_throws].
  assert ((if ca then on_store (checkAuth (request r) (session_id r)) else sm_ret true) (s, q) =
            (Fault (Throw LOGICAL_ERROR), (s, q)) \/
          exists b, (if ca then on_store (checkAuth (request r) (session_id r)) else sm_ret true) (s, q) =
            (Ok b, (s, q)) /\ (if b : bool then ca = false \/ checkAuth (request r) (session_id r) s = (Ok true, s)
                       else ca = true /\ checkAuth (request r) (session_id r) s = (Ok false, s))) as Ha.
  { destruct ca; [|right; exists true; auto]. unfold on_store; cbn [fst snd].
    destruct (checkAuth_same (request r) (session_id r) s) as [[b E]|E]; rewrite E; [right|by left].
    exists b. split; [done|]. destruct b; auto. }
  destruct Ha as [-> | (b & -> & Hb)]; [by apply other_throws|].
  destruct b; cbn [sm_bind sm_ret].
  - pose proof (process_safe (request r) (zxid s) (session_id r) (process_time r) s Hok Hi) as Hs.
    unfold on_store at 1. cbn [fst snd].
    destruct (process _ _ _ _ _ _ s) as [[[resp undo]|[e| | |]] s1] eqn:E; try done; cbn [fst snd].
    + destruct Hs as [Hi1 Hf1]. destruct (process_other_tail r nz ig s q resp s1 Hf1 Hw) as (st' & Est & Ha).
      cbn [sm_bind] in Est. rewrite Est. eapply other_answers; [by eapply computed_done|done..].
    + destruct Hs. by apply other_throws.
  - destruct Hb as [-> Hb].
    destruct (process_other_tail r nz ig s q (set_error ZNOAUTH (makeResponse (request r).1 (request r).2)) s)
      as (st' & Est & Ha); [done..|].
    cbn [sm_bind] in Est. rewrite Est. eapply other_answers; [by apply computed_denied|done..].
Qed.

End safe.

(** ** Closing a session *)

Section close.
Context `{IterOrder}.

(** The node with other children and another child counter. *)
Definition recount (X : gset string) (c : Z) (n : KeeperNode) : KeeperNode :=
  with_children (fun _ => X) (with_stat (stat_numChildren (fun _ => c)) n).

Lemma recount_id n : recount (children n) (numChildren (stat n)) n = n.
Proof. by destruct n as [? ? ? ? [] ?]. Qed.

Lemma recount_recount X c Y d n : recount X c (recount Y d n) = recount X c n.
Proof. done. Qed.

(** The paths of [ps] are gone, the other nodes lost at most children. *)
Definition shrunk (ps : list string) (t t' : Tree) : Prop :=
  forall q, match t !! q with
  | None => t' !! q = None
  | Some n => if decide (q ∈ ps) then t' !! q = None else exists X c, t' !! q = Some (recount X c n)
  end.

Lemma shrunk_nil t : shrunk [] t t.
Proof.
  intros q. destruct (t !! q) as [n|]; [|done]. rewrite decide_False by set_solver.
  exists (children n), (numChildren (stat n)). by rewrite recount_id.
Qed.

Lemma shrunk_cons p ps t t1 t2 : shrunk [p] t t1 -> shrunk ps t1 t2 -> shrunk (p :: ps) t t2.
Proof.
  intros H1 H2 q. specialize (H1 q). specialize (H2 q).
  destruct (t !! q) as [n|]; [|by rewrite H1 in H2].
  destruct (decide (q ∈ [p])) as [Hp|Hp]; [rewrite H1 in H2; by rewrite decide_True by set_solver|].
  destruct H1 as (X & c & H1). rewrite H1 in H2. destruct (decide (q ∈ ps)) as [Hps|Hps].
  - by rewrite decide_True by set_solver.
  - rewrite decide_False by set_solver. destruct H2 as (Y & d & H2). exists Y, d. by rewrite H2.
Qed.

Definition parent_drops (path : string) (n : KeeperNode) : KeeperNode :=
  with_children (fun X => X ∖ {[getBaseName path]}) (with_stat (stat_numChildren (fun z => i32 (z - 1))) n).

(** One ephemeral node of the session: it is a leaf below the root. *)
Lemma clean_step sid p ps t e :
  p ∉ ps -> tree_inv t (<[sid := list_to_set (p :: ps)]> e) ->
  let t' := delete p (alter (parent_drops p) (getParentPath p) t) in
  tree_inv t' (<[sid := list_to_set ps]> e) /\ shrunk [p] t t'.
Proof.
  intros Hnin [Hwf Hty Heph Hrp] t'.
  assert (p ∈ mset_get sid (<[sid := list_to_set (p :: ps)]> e)) as Hin.
  { unfold mset_get. rewrite lookup_insert_eq. simpl. set_solver. }
  apply Heph in Hin as (n & Hn & Hne & Hno).
  assert (p <> "/") as Hr by (intros ->; apply Hrp in Hn; congruence).
  destruct (valid_path_inv p) as (Hvp & Hvn & Hj); [apply (tw_valid _ Hwf); eauto|done|].
  destruct (tw_parent _ Hwf p) as (pn & Hp & _); [eauto|done|].
  pose proof (tw_ephemeral _ Hwf p n Hn Hne) as Hleaf.
  assert (getParentPath p <> p) as Hpp by (pose proof (join_path_ne_self _ _ Hvp Hvn); congruence).
  unfold t'. rewrite (alter_Some _ _ _ pn) by done. split; [split|].
  - rewrite <- Hj at 1. eapply tree_wf_remove; [done|done|done|by rewrite Hj|done|done|done].
  - apply map_Forall_delete, map_Forall_insert_2; [|done]. destruct (Hty _ _ Hp).
    split; simpl; [done|apply i32_range].
  - pose proof (eph_ok_remove _ _ p n (eph_ok_update _ _ _ pn (parent_drops p pn) Heph Hp eq_refl eq_refl))
      as Hrem. rewrite lookup_insert_ne in Hrem by done. specialize (Hrem Hn). rewrite Hne, Hno in Hrem.
    refine (proj1 (eph_ok_proper _ _ _ _) Hrem). intros s'.
    rewrite mset_get_del, !mset_get_insert. repeat case_decide; [set_solver|done..].
  - intros m. rewrite lookup_delete_ne, lookup_insert by done.
    case_decide as Er; [|apply Hrp]. intros [= <-]. simpl. apply Hrp. congruence.
  - intros q. destruct (t !! q) as [m|] eqn:Hq.
    + destruct (decide (q ∈ [p])) as [->%list_elem_of_singleton|Hqp]; [by rewrite lookup_delete_eq|].
      rewrite lookup_delete_ne by set_solver. rewrite lookup_insert. case_decide; subst.
      * assert (m = pn) as -> by congruence. by eexists _, _.
      * exists (children m), (numChildren (stat m)). by rewrite recount_id.
    + rewrite lookup_delete. case_decide; [done|]. rewrite lookup_insert_ne by congruence. done.
Qed.

(** Sessions, credentials, ACLs and the zxid stay. *)
Record clean_frame (s s' : KeeperStore) : Prop := {
  cf_eph : ephemerals s' = ephemerals s;
  cf_sessions : session_manager s' = session_manager s;
  cf_zxid : zxid s' = zxid s;
  cf_auth : session_and_auth s' = session_and_auth s
}.

Lemma clean_loop_spec sid ig ps e st :
  NoDup ps -> tree_inv (data_tree st.1) (<[sid := list_to_set ps]> e) -> watch_wf (watch_manager st.1) ->
  exists st', clean_ephemerals_loop ig ps st = (Ok tt, st') /\
    tree_inv (data_tree st'.1) (<[sid := ∅]> e) /\ watch_wf (watch_manager st'.1) /\
    shrunk ps (data_tree st.1) (data_tree st'.1) /\ clean_frame st.1 st'.1 /\
    exists ws, Forall watch_note ws /\ st'.2 = if ig then st.2 else st.2 ++ ws.
Proof.
  intros Hnd. revert st. induction Hnd as [|p ps Hnin Hnd IH]; intros [s q] Hi Hw; simpl fst in *.
  { exists (s, q). split; [done|]. split; [done|]. split; [done|]. split; [apply shrunk_nil|]. split; [by split|].
    exists []. split; [constructor|]. destruct ig; [done|]. by rewrite app_nil_r. }
  destruct (clean_step sid p ps (data_tree s) e Hnin Hi) as [Hi1 Hsh].
  set (s1 := with_tree (delete p) (with_tree (alter (parent_drops p) (getParentPath p)) s)).
  destruct (watch_op_notifies ig (processWatches p EVENT_DELETED) (s1, q)) as (st1 & E1 & Hn1 & Hw1 & ws1 & Hws1 & Eq1);
    [by apply processWatches_notes|].
  destruct (IH st1) as (st' & E' & Hi' & Hw' & Hsh' & [F1 F2 F3 F4] & ws & Hws & Eq).
  { by rewrite (wo_tree _ _ Hn1). }
  { done. }
  exists st'. split.
  { cbn [clean_ephemerals_loop]. rewrite <- E'. clear E'. cbn [sm_bind on_store updateNode removeNode sm_modify fst snd] in *.
    change (with_tree (delete p) (with_tree (alter _ _) s)) with s1.
    destruct (watch_op (processWatches p EVENT_DELETED) s1) as [[a|f] s2]; cbn [fst snd] in *; [|done].
    by rewrite E1. }
  destruct Hn1 as [T1 T2 T3 T4 T5 T6].
  rewrite T1 in Hsh'.
  split; [done|]. split; [done|]. split; [eapply shrunk_cons; [exact Hsh|exact Hsh']|].
  split; [split; by rewrite ?F1, ?F2, ?F3, ?F4|].
  exists (ws1 ++ ws). split; [by apply Forall_app|]. rewrite Eq, Eq1. destruct ig; [done|]. simpl. by rewrite app_assoc.
Qed.

Lemma cleanEphemeralNodes_spec sid ig s q :
  server_inv s ->
  exists s' ws, cleanEphemeralNodes sid ig (s, q) = (Ok tt, (s', if ig then q else q ++ ws)) /\
    server_inv s' /\ Forall watch_note ws /\
    shrunk (iter_str (mset_get sid (ephemerals s))) (data_tree s) (data_tree s') /\
    ephemerals s' = delete sid (ephemerals s) /\
    session_manager s' = session_manager s /\ zxid s' = zxid s /\
    session_and_auth s' = session_and_auth s.
Proof.
  intros [Hi Hm Hw]. unfold cleanEphemeralNodes. simpl fst. unfold mset_get.
  destruct (ephemerals s !! sid) as [X|] eqn:E; simpl default.
  - assert (tree_inv (data_tree s) (<[sid := list_to_set (iter_str X)]> (ephemerals s))) as Hi0.
    { replace (list_to_set (iter_str X)) with X; [by rewrite insert_id|].
      apply set_eq. intros p. by rewrite elem_of_list_to_set, elem_of_iter_str. }
    destruct (clean_loop_spec sid ig (iter_str X) (ephemerals s) (s, q) (NoDup_iter_str X) Hi0 Hw)
      as ([s1 q1] & E1 & Hi1 & Hw1 & Hsh & [F1 F2 F3 F4] & ws & Hws & Eq). simpl in *.
    exists (with_ephemerals (delete sid) s1), ws. unfold sm_bind. rewrite E1. simpl. rewrite Eq.
    split; [done|]. split; [split; simpl; [|by rewrite F2|done]|split_and!; simpl; congruence || done].
    eapply tree_inv_eph_eq; [|exact Hi1]. intros s'. simpl. rewrite F1, mset_get_insert, mset_get_delete. done.
  - exists s, []. split; [by destruct ig; rewrite ?app_nil_r|]. split; [by split|]. split; [constructor|].
    split; [|by rewrite delete_id]. replace (iter_str ∅) with (@nil string); [apply shrunk_nil|].
    symmetry. apply elem_of_nil_inv. intros x. rewrite elem_of_iter_str. set_solver.
Qed.

Lemma process_close_spec r nz ig s q :
  server_inv s ->
  exists s' ws z, process_close r nz ig (s, q) =
      (Ok tt, (s', if ig then q else q ++ ws ++
        [(session_id r, set_zxid z (set_xid (xid (request r).1) (ResponseHeader0, CloseResponse)))])) /\
    server_inv s' /\ Forall watch_note ws /\
    shrunk (iter_str (mset_get (session_id r) (ephemerals s))) (data_tree s) (data_tree s') /\
    ephemerals s' = delete (session_id r) (ephemerals s) /\
    session_and_auth s' = delete (session_id r) (session_and_auth s) /\
    session_and_timeout (session_manager s') = delete (session_id r) (session_and_timeout (session_manager s)) /\
    (forall t p, session_id r ∉ watchers t p (watch_manager s')) /\
    zxid s' = match nz with Some _ => zxid s | None => i64 (zxid s + 1) end.
Proof.
  intros Hinv. unfold process_close.
  destruct (cleanEphemeralNodes_spec (session_id r) ig s q Hinv)
    as (s1 & ws & E1 & [Hi1 Hm1 Hw1] & Hws & Hsh & He & Hs & Hz & Ha).
  destruct (cleanDeadWatches_spec (session_id r) _ Hw1) as (w & E2 & Hw2 & _ & Hnw).
  destruct (expiry_remove_spec (session_id r) _ (wf_queue _ Hm1)) as (q' & E3 & Hq' & Et & _).
  exists (with_zxid (match nz with Some _ => zxid s1 | None => i64 (zxid s1 + 1) end)
           (with_sessions (mkSessionManager (delete (session_id r) (session_and_timeout (session_manager s1))) q'
              (session_id_counter (session_manager s1)))
             (with_auth (delete (session_id r)) (with_watches w s1)))), ws, (zxid s1).
  split.
  { cbn [sm_bind]. rewrite E1. unfold on_store, watch_op, no_result. cbn [fst snd]. rewrite E2.
    unfold session_op, expireSession. simpl. rewrite E3. simpl.
    unfold set_response. destruct nz, ig; simpl; by rewrite ?app_assoc. }
  split; [split; simpl; [exact Hi1| |exact Hw2]|].
  { split; simpl; [done|]. intros x. rewrite Et, !lookup_delete_is_Some.
    pose proof (wf_tracked _ Hm1 x). naive_solver. }
  split; [done|]. split; [done|]. split; [done|]. simpl. rewrite Ha, Hs, Hz.
  split; [done|]. split; [done|]. split; [|done]. intros t p. rewrite Hnw. naive_solver.
Qed.
End close.
