(* ===== verification/StoreTheorems.v ===== *)
(** * What the store promises

    The theorems about [KeeperStore::processRequest] as a whole, and runs of
    the store that show where it departs from its own description. *)

From S2P Require Import Prelude Coordination Paths AclMap Sessions Watches DataTree.
From S2P Require Import Store StoreTree StoreOps StoreMulti StoreRequest.

Section server.
Context `{IterOrder} (sha1_base64 : string -> string) (compat : bool).
Local Abbreviation run := (processRequest sha1_base64 compat).

(** The bodies [processRequest] handles on their own before the session check. *)
Definition session_body (b : RequestBody) : bool :=
  match b with
  | CloseRequest | NewSessionRequest _ _ _ | UpdateSessionRequest _ _ _ => true
  | _ => false
  end.

(** The bodies handled by the general branch. *)
Definition other_body (b : RequestBody) : bool :=
  match b with
  | CloseRequest | NewSessionRequest _ _ _ | UpdateSessionRequest _ _ _
  | HeartbeatRequest | SetWatchesRequest _ _ _ _ => false
  | _ => true
  end.

(** The check of the transaction number. *)
Definition set_zxid_to (nz : option Z) (s : KeeperStore) : KeeperStore :=
  match nz with Some z => with_zxid z s | None => s end.

Lemma server_inv_zxid z s : server_inv s -> server_inv (with_zxid z s).
Proof. intros []. by split. Qed.

Lemma touch_spec now sid s :
  server_inv s ->
  exists m, session_op (fun m => no_result (updateSessionExpirationTime now sid m)) s = (Ok tt, with_sessions m s) /\
    server_inv (with_sessions m s) /\ session_and_timeout m = session_and_timeout (session_manager s).
Proof.
  intros [Hi Hm Hw]. unfold session_op, updateSessionExpirationTime.
  destruct (session_and_timeout (session_manager s) !! sid) as [t|].
  - destruct (touch_session_wf now sid t _ Hm) as (x & q' & -> & Hq' & E). simpl.
    eexists; split; [done|]. split; [|done]. split; simpl; [done| |done].
    split; simpl; [done|]. intros s'. rewrite E, lookup_insert_is_Some'. pose proof (wf_tracked _ Hm s'). auto.
  - simpl. eexists; split; [done|]. split; [|done]. by split.
Qed.

(** What is done for a live session once its expiry time has been moved. *)
Definition serve (r : RequestForSession) (nz : option Z) (ca ig : bool) : SM Server unit :=
  match (request r).2 with
  | HeartbeatRequest => process_heartbeat sha1_base64 compat r ig
  | SetWatchesRequest z dw ew lw => process_set_watches sha1_base64 compat r z dw ew lw ig
  | _ => process_other sha1_base64 compat r nz ca ig
  end.

Lemma adopt_zxid_cases nz s q :
  adopt_zxid nz (s, q) = (Fault (Throw LOGICAL_ERROR), (s, q)) \/
  adopt_zxid nz (s, q) = (Ok tt, (set_zxid_to nz s, q)) /\ (forall z, nz = Some z -> zxid s < z).
Proof.
  destruct nz as [z|]; simpl; [|right; by split]. destruct (Z.leb_spec z (zxid s)); [by left|right].
  split; [done|]. by intros ? [= <-].
Qed.

Lemma session_manager_set_zxid_to nz s : session_manager (set_zxid_to nz s) = session_manager s.
Proof. by destruct nz. Qed.

(** The request of a live session, on the store with the session touched. *)
Lemma processRequest_live now r nz ca ig s q :
  session_body (request r).2 = false -> server_inv s ->
  negb (sessions_contains (session_id r) (session_manager s)) && bool_decide (nz = None) = false ->
  adopt_zxid nz (s, q) = (Ok tt, (set_zxid_to nz s, q)) ->
  exists m, server_inv (with_sessions m (set_zxid_to nz s)) /\
    run now r nz ca ig (s, q) = serve r nz ca ig (with_sessions m (set_zxid_to nz s), q).
Proof.
  intros Hb Hinv Hk E0. assert (server_inv (set_zxid_to nz s)) as Hinv'
    by (destruct nz; [by apply server_inv_zxid|done]).
  destruct (touch_spec now (session_id r) (set_zxid_to nz s) Hinv') as (m & E & Hi & _).
  exists m. split; [done|]. unfold processRequest, serve. cbn [sm_bind]. rewrite E0.
  assert (on_store (session_op (fun m => no_result (updateSessionExpirationTime now (session_id r) m)))
            (set_zxid_to nz s, q) = (Ok tt, (with_sessions m (set_zxid_to nz s), q))) as E1
    by (unfold on_store; cbn [fst snd]; by rewrite E).
  rewrite <- (session_manager_set_zxid_to nz s) in Hk.
  destruct ((request r).2) eqn:Eb; try done; cbn [sm_bind on_store sm_get fst snd]; rewrite Hk;
    cbn [sm_bind]; by rewrite E1.
Qed.

(** A request of a session that is gone. *)
Lemma processRequest_unknown now r ca ig s q :
  session_body (request r).2 = false ->
  sessions_contains (session_id r) (session_manager s) = false ->
  run now r None ca ig (s, q) = (Ok tt, (s, q)).
Proof.
  intros Hb Hk. unfold processRequest. cbn [sm_bind adopt_zxid].
  destruct ((request r).2) eqn:Eb; try done; cbn [sm_bind on_store sm_get fst snd]; by rewrite Hk.
Qed.

Lemma serve_other r nz ca ig :
  other_body (request r).2 = true -> serve r nz ca ig = process_other sha1_base64 compat r nz ca ig.
Proof. unfold serve. by destruct (request r).2. Qed.

Lemma other_not_session b : other_body b = true -> session_body b = false.
Proof. by destruct b. Qed.

(** ** Answers *)

(** C19: a request of a live session, other than a heartbeat, a SetWatches and
    those that open, take up and close sessions, and not one of the paths the store
    has no answer for (a creation below a double slash, a removal or a filtered
    list of the root), is answered exactly once, to that session, with its own xid
    and the transaction number before it, after the watch notifications it causes;
    or it throws, and then nothing is queued and the store is still in order. *)
Theorem one_answer_per_request now r ca s q :
  other_body (request r).2 = true -> request_ok (request r) -> server_inv s ->
  sessions_contains (session_id r) (session_manager s) = true ->
  (exists e s', run now r None ca false (s, q) = (Fault (Throw e), (s', q)) /\ server_inv s') \/
  (exists s' ws resp, run now r None ca false (s, q) = (Ok tt, (s', q ++ ws ++ [(session_id r, resp)])) /\
     server_inv s' /\ Forall watch_note ws /\
     resp_xid resp.1 = xid (request r).1 /\ resp_zxid resp.1 = zxid s).
Proof.
  intros Hb Hok Hinv Hk.
  destruct (processRequest_live now r None ca false s q (other_not_session _ Hb) Hinv) as (m & Hi & ->);
    [by rewrite Hk|done|]. rewrite serve_other by done. simpl in *.
  destruct (process_other_end sha1_base64 compat r None ca false (with_sessions m s) q Hok Hi)
    as [e s' Hi' Hf|resp s1 [s' q'] Hc Hi1 Hf (Hw & Hwf & ws & Hws & Eq)].
  - left. exists e, s'. split; [done|]. by eapply server_inv_frame.
  - right. simpl in *. exists s', ws, (stamped r (zxid s) resp). rewrite Eq. split; [done|].
    split; [|done]. eapply watches_only_inv; [exact Hw|done|]. apply server_inv_zxid.
    by eapply server_inv_frame.
Qed.

(** ** The invariant *)

(** The event a SetWatches request of the store has missed. *)
Definition set_watches_missed (s : KeeperStore) (b : RequestBody) : Prop :=
  match b with
  | SetWatchesRequest z dw ew lw => missed_any z dw ew lw (watch_nodes_info (data_tree s) dw)
  | _ => False
  end.

(** How a request may end. *)
Definition server_safe (s : KeeperStore) (b : RequestBody) (r : outcome unit * Server) : Prop :=
  match r with
  | (Ok _, st') | (Fault (Throw _), st') => server_inv st'.1
  | (Fault Deadlock, _) => set_watches_missed s b
  | _ => False
  end.

Lemma new_session_safe now r a b c ig s q :
  server_inv s -> exists st', process_new_session now r a b c ig (s, q) = (Ok tt, st') /\ server_inv st'.1.
Proof.
  intros [Hi Hm Hw]. unfold process_new_session, getSessionID.
  destruct (touch_session_wf now (session_id_counter (session_manager s)) b _ Hm) as (x & q' & E & Hq' & Et).
  unfold on_store, fetchAndGetZxid, session_op. simpl. rewrite E. simpl. eexists; split; [done|].
  split; simpl; [done| |done]. split; simpl; [done|]. intros s'.
  rewrite Et, lookup_emplace_is_Some, lookup_insert_is_Some'. pose proof (wf_tracked _ Hm s'). naive_solver.
Qed.

Lemma update_session_safe now r a b ig s q :
  server_inv s -> exists st', process_update_session now r a b ig (s, q) = (Ok tt, st') /\ server_inv st'.1.
Proof.
  intros [Hi Hm Hw]. unfold process_update_session, updateSessionTimeout.
  unfold on_store, fetchAndGetZxid, session_op. simpl.
  destruct (session_and_timeout (session_manager s) !! session_id r) as [t|].
  - destruct (touch_session_wf now (session_id r) t _ Hm) as (x & q' & E & Hq' & Et). simpl. rewrite E. simpl.
    eexists; split; [done|]. split; simpl; [done| |done]. split; simpl; [done|]. intros s'.
    rewrite Et, lookup_insert_is_Some'. pose proof (wf_tracked _ Hm s'). auto.
  - simpl. eexists; split; [done|]. by split.
Qed.

Lemma heartbeat_safe r ig s q :
  (request r).2 = HeartbeatRequest -> server_inv s ->
  exists st', process_heartbeat sha1_base64 compat r ig (s, q) = (Ok tt, st') /\ server_inv st'.1.
Proof.
  intros E Hinv. unfold process_heartbeat, process, process_concrete. rewrite E. simpl.
  eexists; split; [done|]. done.
Qed.

Lemma set_watches_safe r z dw ew lw ig s q :
  (request r).2 = SetWatchesRequest z dw ew lw -> server_inv s ->
  server_safe s (SetWatchesRequest z dw ew lw) (process_set_watches sha1_base64 compat r z dw ew lw ig (s, q)).
Proof.
  intros E [Hi Hm Hw]. unfold process_set_watches, process, process_concrete. rewrite E.
  unfold on_store, watch_op. simpl. set (info := watch_nodes_info (data_tree s) dw).
  destruct (processRequestSetWatch (session_id r) z dw ew lw info (watch_manager s)) as [[rs m']|f] eqn:Ew.
  - assert (watch_step (watch_manager s) m') as Hstep by (eapply ws_set, Ew).
    simpl. split; simpl; [done|done|]. by eapply watch_step_wf.
  - destruct (missed_any_or z dw ew lw info) as [Hm'|Hm'].
    + rewrite (processRequestSetWatch_missed (session_id r)) in Ew by done. by simplify_eq.
    + destruct (processRequestSetWatch_quiet (session_id r) z dw ew lw info _ Hw Hm') as (m' & E' & _).
      congruence.
Qed.

Lemma set_zxid_to_missed nz s b : set_watches_missed (set_zxid_to nz s) b -> set_watches_missed s b.
Proof. by destruct nz, b. Qed.

Lemma processRequest_safe now r nz ca ig s q :
  request_ok (request r) -> server_inv s -> server_safe s (request r).2 (run now r nz ca ig (s, q)).
Proof.
  intros Hok Hinv.
  assert (server_inv (set_zxid_to nz s)) as Hinv' by (destruct nz; [by apply server_inv_zxid|done]).
  destruct (adopt_zxid_cases nz s q) as [E0 | [E0 Hz]]; [unfold processRequest; cbn [sm_bind]; by rewrite E0|].
  destruct (session_body (request r).2) eqn:Eb.
  { unfold processRequest. cbn [sm_bind]. rewrite E0.
    destruct ((request r).2) as [| | | | | | | | | | | | | | | | |a b c|a b c]; try done.
    - destruct (process_close_spec r nz ig (set_zxid_to nz s) q Hinv') as (s' & ws & z & -> & Hi & _). done.
    - destruct (new_session_safe now r a b c ig (set_zxid_to nz s) q Hinv') as (st' & -> & ?). done.
    - destruct (update_session_safe now r a c ig (set_zxid_to nz s) q Hinv') as (st' & -> & ?). done. }
  destruct (negb (sessions_contains (session_id r) (session_manager s)) && bool_decide (nz = None)) eqn:Ek.
  { apply andb_true_iff in Ek as [Ek ->%bool_decide_eq_true].
    by rewrite processRequest_unknown by (done || by apply negb_true_iff). }
  destruct (processRequest_live now r nz ca ig s q Eb Hinv Ek E0) as (m & Hi & ->).
  destruct (other_body (request r).2) eqn:Eo.
  - rewrite serve_other by done.
    destruct (process_other_end sha1_base64 compat r nz ca ig _ q Hok Hi)
      as [e s' Hi' Hf|resp s1 [s' q'] Hc Hi1 Hf (Hw & Hwf & _)]; [by eapply server_inv_frame|].
    eapply watches_only_inv; [exact Hw|done|]. apply server_inv_zxid. by eapply server_inv_frame.
  - unfold serve. destruct ((request r).2) as [|z dw ew lw| | | | | | | | | | | | | | | | |] eqn:E; try done.
    + destruct (heartbeat_safe r ig (with_sessions m (set_zxid_to nz s)) q E Hi) as (st' & -> & ?). done.
    + pose proof (set_watches_safe r z dw ew lw ig (with_sessions m (set_zxid_to nz s)) q E Hi) as Hs.
      unfold server_safe in Hs |- *. destruct (process_set_watches _ _ _ _ _ _ _ _ _) as [[?|[]] ?]; try done.
      by apply (set_zxid_to_missed nz s (SetWatchesRequest z dw ew lw)).
Qed.




(** ** The end of a session *)

(** C17: closing a session removes exactly the ephemeral nodes it owns: every
    other node stays with its data, permissions and versions and loses only
    the removed children; the session's watches, credentials and timeout are
    gone, and the last response queued answers the request. *)
Theorem close_ends_session now r ca s q :
  (request r).2 = CloseRequest -> server_inv s ->
  exists s' ws z,
    run now r None ca false (s, q) =
      (Ok tt, (s', q ++ ws ++
        [(session_id r, set_zxid z (set_xid (xid (request r).1) (ResponseHeader0, CloseResponse)))])) /\
    server_inv s' /\ Forall watch_note ws /\
    (forall p n, data_tree s !! p = Some n ->
       if is_ephemeral n && bool_decide (ephemeralOwner (stat n) = session_id r)
       then data_tree s' !! p = None
       else exists X c, data_tree s' !! p = Some (recount X c n)) /\
    (forall p, data_tree s !! p = None -> data_tree s' !! p = None) /\
    session_and_auth s' !! session_id r = None /\
    sessions_contains (session_id r) (session_manager s') = false /\
    (forall t p, session_id r ∉ watchers t p (watch_manager s')) /\
    zxid s' = i64 (zxid s + 1).
Proof.
  intros Eb Hinv. unfold processRequest. cbn [sm_bind adopt_zxid]. rewrite Eb.
  destruct (process_close_spec r None false s q Hinv)
    as (s' & ws & z & -> & Hi & Hws & Hsh & _ & Ha & Ht & Hw & Hz).
  exists s', ws, z. split; [done|]. split; [done|]. split; [done|].
  assert (forall p n, data_tree s !! p = Some n ->
    p ∈ iter_str (mset_get (session_id r) (ephemerals s)) <->
    is_ephemeral n && bool_decide (ephemeralOwner (stat n) = session_id r) = true) as Hown.
  { intros p n Hn. pose proof (ti_eph _ _ (si_tree _ Hinv)) as He.
    rewrite elem_of_iter_str, (He (session_id r) p), andb_true_iff, bool_decide_eq_true.
    split; [intros (m & ? & ?)|intros ?; exists n; by split]. by assert (m = n) as -> by congruence. }
  split; [|split]; [intros p n Hn|intros p Hn|]; [specialize (Hsh p); rewrite Hn in Hsh..|].
  - specialize (Hown p n Hn). destruct (is_ephemeral n && _).
    + by rewrite decide_True in Hsh by (by apply Hown).
    + by rewrite decide_False in Hsh by (intros ?%Hown; done).
  - done.
  - rewrite Ha, lookup_delete_eq. split; [done|]. split; [|done].
    apply bool_decide_eq_false. rewrite Ht, lookup_delete_eq. by intros [].
Qed.

(** ** Transaction numbers *)

(** A request applied from the log moves the transaction number by exactly
    one if it is a session request or of a kind that consumes a number, and by
    nothing otherwise; a request of an unknown session changes nothing. *)
Theorem zxid_advances now r ca ig s q s' q' :
  request_ok (request r) -> server_inv s ->
  run now r None ca ig (s, q) = (Ok tt, (s', q')) ->
  if session_body (request r).2 then zxid s' = i64 (zxid s + 1)
  else if sessions_contains (session_id r) (session_manager s) then
    zxid s' = (if shouldIncreaseZxid (request r).2 then i64 (zxid s + 1) else zxid s)
  else s' = s /\ q' = q.
Proof.
  intros Hok Hinv Erun. destruct (session_body (request r).2) eqn:Eb.
  { revert Erun. unfold processRequest. cbn [sm_bind adopt_zxid].
    destruct ((request r).2) as [| | | | | | | | | | | | | | | | |a b c|a b c]; try done.
    - destruct (process_close_spec r None ig s q Hinv) as (s1 & ws & z & -> & _ & _ & _ & _ & _ & _ & _ & Hz).
      by intros [= <- _].
    - unfold process_new_session, on_store, fetchAndGetZxid, session_op. simpl.
      destruct (getSessionID now b _) as [[? ?]|]; simpl; [by intros [= <- _]|done].
    - unfold process_update_session, on_store, fetchAndGetZxid, session_op. simpl.
      destruct (updateSessionTimeout now _ 0 _) as [[? ?]|]; simpl; [by intros [= <- _]|done]. }
  destruct (sessions_contains (session_id r) (session_manager s)) eqn:Ek.
  2:{ rewrite processRequest_unknown in Erun by done. by injection Erun. }
  destruct (processRequest_live now r None ca ig s q Eb Hinv) as (m & Hi & E); [by rewrite Ek|done|].
  rewrite E in Erun. cbn [set_zxid_to] in *. clear E. destruct (other_body (request r).2) eqn:Eo.
  - rewrite serve_other in Erun by done.
    pose proof (process_other_end sha1_base64 compat r None ca ig (with_sessions m s) q Hok Hi) as Hend.
    rewrite Erun in Hend. inversion Hend as [|resp s1 st' Hc Hi1 Hf (Hw & _) Est]; subst.
    exact (wo_zxid _ _ Hw).
  - revert Erun. unfold serve. destruct ((request r).2) as [|z dw ew lw| | | | | | | | | | | | | | | | |] eqn:Er; try done.
    + unfold process_heartbeat, process, process_concrete. rewrite Er. simpl. by intros [= <- _].
    + unfold process_set_watches, process, process_concrete. rewrite Er. unfold on_store, watch_op. simpl.
      destruct (processRequestSetWatch _ _ _ _ _ _ _) as [[? ?]|]; simpl; [by intros [= <- _]|done].
Qed.

(** ** Access control *)

(** C32: a request the access check refuses has no effect on the nodes, the
    ephemeral index, the permissions or the credentials, and is answered with
    ZNOAUTH. *)
Theorem denied_request_changes_nothing now r s q :
  other_body (request r).2 = true -> factory_get (request r) = Ok tt -> server_inv s ->
  sessions_contains (session_id r) (session_manager s) = true ->
  checkAuth (request r) (session_id r) s = (Ok false, s) ->
  exists s' ws resp, run now r None true false (s, q) = (Ok tt, (s', q ++ ws ++ [(session_id r, resp)])) /\
    error resp.1 = ZNOAUTH /\ Forall watch_note ws /\
    data_tree s' = data_tree s /\ ephemerals s' = ephemerals s /\
    acl_map s' = acl_map s /\ session_and_auth s' = session_and_auth s.
Proof.
  intros Hb Hg Hinv Hk Hd.
  destruct (processRequest_live now r None true false s q (other_not_session _ Hb) Hinv) as (m & Hi & ->);
    [by rewrite Hk|done|]. rewrite serve_other by done. cbn [set_zxid_to].
  assert (forall perm path sid, checkNodeAuth perm path sid (with_sessions m s) =
    let x := checkNodeAuth perm path sid s in (x.1, with_sessions m x.2)) as Hna.
  { intros perm path sid. unfold checkNodeAuth; simpl.
    destruct (data_tree s !! path); [|done]. destruct (convertNumber _ _); [case_decide|]; done. }
  assert (forall x sid, checkAuth_concrete x sid (with_sessions m s) =
    let y := checkAuth_concrete x sid s in (y.1, with_sessions m y.2)) as Hca.
  { intros [h []] sid; simpl; done || apply Hna. }
  assert (checkAuth (request r) (session_id r) (with_sessions m s) = (Ok false, with_sessions m s)) as Hd'.
  { unfold checkAuth in *. destruct (request r) as [h []]; cbn [snd] in *; try (rewrite Hca; cbn zeta; by rewrite Hd).
    clear Hg Hb. revert Hd. induction requests as [|x rs IH]; [done|]. simpl. rewrite Hca. cbn zeta.
    destruct (checkAuth_concrete_same x (session_id r) s) as [[b E]|E]; rewrite E; simpl; [|done].
    destruct b; [exact IH|done]. }
  unfold process_other. cbn [sm_bind sm_lift]. rewrite Hg. unfold on_store at 1. cbn [fst snd]. rewrite Hd'.
  cbn [fst snd sm_bind sm_ret].
  destruct (process_other_tail r None false (with_sessions m s) q
    (set_error ZNOAUTH (makeResponse (request r).1 (request r).2)) (with_sessions m s))
    as ([s' q'] & Est & [T1 T2 _ _ T5 T6] & _ & ws & Hws & Eq); [done|apply (si_watches _ Hi)|].
  cbn [sm_bind] in Est. rewrite Est. simpl in *. rewrite Eq. eexists s', ws, _. split; [done|]. split; [done|]. split; [done|].
  by rewrite T1, T2, T5, T6.
Qed.

(** ** Reads *)

(** The kind of a transaction is the one its parts have, as the parser sets it. *)
Definition multi_consistent (b : RequestBody) : Prop :=
  match b with MultiRequest t rs => multi_operation_type rs = Ok t | _ => True end.

Lemma process_read_same x z sid time s o s' :
  request_isReadRequest x.2 = true -> multi_consistent x.2 -> request_ok x -> store_inv s ->
  process sha1_base64 compat x z sid time s = (o, s') -> s' = s.
Proof.
  intros Hr Hmc Hok Hi. destruct x as [h b]. unfold process, request_ok in *; cbn [snd] in *.
  destruct b; try done; unfold process_concrete; cbn [snd].
  - by intros [= _ <-].
  - by intros [= _ <-].
  - destruct (process_exists_same path s) as [resp ->]. by intros [= _ <-].
  - destruct (process_get_same path s) as [resp ->]. by intros [= _ <-].
  - destruct (process_list_same path ListRequestType_ALL s Hi) as [resp ->]; [auto|]. by intros [= _ <-].
  - destruct (process_simple_list_same path s Hi) as [resp ->]. by intros [= _ <-].
  - destruct (process_list_same path list_request_type s Hi Hok) as [resp ->]. by intros [= _ <-].
  - unfold process_get_acl, failed. cbn [sm_bind getNode sm_get].
    destruct (data_tree s !! path); [|by intros [= _ <-]].
    destruct (convertNumber _ _); by intros [= _ <-].
  - unfold process_multi. simpl. simpl in Hmc. rewrite Hmc. simpl.
    destruct operation_type; try done.
    destruct (multi_loop_read sha1_base64 compat OperationType_Read z sid time requests [] [] s) as [resps ->];
      [|done|done|simpl; by intros [= _ <-]].
    apply check_operation_type_read in Hmc; [|done..]. rewrite Forall_forall in Hmc, Hok |- *. auto.
Qed.

(** A request that only reads (Get, Exists, the lists, GetACL, a transaction
    of reads, Heartbeat, SetWatches) leaves the nodes, the ephemeral index, the
    permissions and the credentials as they are. *)
Theorem reads_change_no_node now r ca ig s q s' q' :
  request_isReadRequest (request r).2 = true -> multi_consistent (request r).2 ->
  request_ok (request r) -> server_inv s ->
  run now r None ca ig (s, q) = (Ok tt, (s', q')) ->
  data_tree s' = data_tree s /\ ephemerals s' = ephemerals s /\ acl_map s' = acl_map s /\
  session_and_auth s' = session_and_auth s.
Proof.
  intros Hr Hmc Hok Hinv Erun.
  assert (session_body (request r).2 = false) as Eb by (by destruct (request r).2).
  destruct (sessions_contains (session_id r) (session_manager s)) eqn:Ek.
  2:{ rewrite processRequest_unknown in Erun by done. by injection Erun as <- <-. }
  destruct (processRequest_live now r None ca ig s q Eb Hinv) as (m & Hi & E); [by rewrite Ek|done|].
  rewrite E in Erun. cbn [set_zxid_to] in *. clear E. destruct (other_body (request r).2) eqn:Eo.
  - rewrite serve_other in Erun by done.
    pose proof (process_other_end sha1_base64 compat r None ca ig (with_sessions m s) q Hok Hi) as Hend.
    rewrite Erun in Hend. inversion Hend as [|resp s1 st' Hc Hi1 Hf ([T1 T2 _ _ T5 T6] & _) Est]; subst.
    simpl in *. assert (s1 = with_sessions m s) as ->; [|done].
    inversion Hc as [|resp0 undo s2 _ Ep]; [done|subst].
    eapply process_read_same; [exact Hr|done|done|apply (si_tree _ Hi)|exact Ep].
  - revert Erun. unfold serve. destruct ((request r).2) as [|z dw ew lw| | | | | | | | | | | | | | | | |] eqn:Er; try done.
    + unfold process_heartbeat, process, process_concrete. rewrite Er. simpl. by intros [= <- _].
    + unfold process_set_watches, process, process_concrete. rewrite Er. unfold on_store, watch_op. simpl.
      destruct (processRequestSetWatch _ _ _ _ _ _ _) as [[? ?]|]; simpl; [by intros [= <- _]|done].
Qed.
End server.

(** ** Permissions *)

Lemma fixup_loop_incl acls ids v l v' l' :
  fixup_loop acls ids v l = Some (v', l') -> forall x, x ∈ l -> x ∈ l'.
Proof.
  revert v l. induction acls as [|a acls IH]; intros v l; simpl; [by intros [= _ <-]|].
  repeat case_decide; try done; intros E x Hx; eapply IH; try exact E; set_solver.
Qed.

Lemma fixup_loop_auth acls ids v l v' l' a i :
  fixup_loop acls ids v l = Some (v', l') -> a ∈ acls -> ACL_scheme a = "auth" -> i ∈ ids ->
  mkACL (ACL_permissions a) (AuthID_scheme i) (AuthID_id i) ∈ l'.
Proof.
  intros E Ha Hs Hi. revert v l E. induction acls as [|b acls IH]; intros v l; [set_solver|].
  apply elem_of_cons in Ha as [<-|Ha]; simpl.
  - rewrite decide_True by done. intros E. eapply fixup_loop_incl; [exact E|].
    apply elem_of_app. right. apply list_elem_of_fmap. by exists i.
  - repeat case_decide; try done; apply IH; done.
Qed.

(** Who stores an [auth] entry can use it: the list [fixupACL] makes of it
    grants its permissions to every identity of the session that sent it. *)
Theorem auth_entry_grants_sender acls ids l a perm :
  fixupACL acls ids = Some l -> a ∈ acls -> ACL_scheme a = "auth" -> ids <> [] ->
  Z.land (ACL_permissions a) perm <> 0 -> checkACL perm l ids = true.
Proof.
  intros Hf Ha Hs Hne Hp. destruct ids as [|i ids]; [done|].
  assert (mkACL (ACL_permissions a) (AuthID_scheme i) (AuthID_id i) ∈ l) as Hin.
  { unfold fixupACL in Hf. destruct acls; [set_solver|].
    destruct (fixup_loop _ _ _ _) as [[[] l']|] eqn:E; [|done..]. injection Hf as <-.
    eapply fixup_loop_auth; [exact E|done|done|set_solver]. }
  unfold checkACL. destruct l; [done|]. apply orb_true_iff. right. apply existsb_exists.
  eexists. split; [by apply list_elem_of_In|]. simpl.
  rewrite (bool_decide_false (Z.land _ _ = 0)) by done.
  rewrite (bool_decide_true (AuthID_scheme i = AuthID_scheme i)), (bool_decide_true (AuthID_id i = AuthID_id i)) by done.
  simpl. apply orb_true_r.
Qed.

Lemma auth_entry_grants_sender_witness :
  checkACL ACL_Read [mkACL 31 "digest" "u:h"] [mkAuthID "digest" "u:h"] = true.
Proof.
  apply (auth_entry_grants_sender [mkACL 31 "auth" ""] [mkAuthID "digest" "u:h"]
           [mkACL 31 "digest" "u:h"] (mkACL 31 "auth" "")); [done|by left|done|done|done].
Defined.

(** ** Runs

    A session with requests sent one after the other; the first request makes
    the session, whose id is 1. *)
Definition demo_request (b : RequestBody) : RequestForSession :=
  mkRequestForSession 1 (mkRequestHeader 42 false, b) 0 0 (-1) (-1).

Definition demo_step (b : RequestBody) : SM Server unit :=
  processRequest (fun _ => "h") false 1000 (demo_request b) None true false.

Fixpoint demo_steps (bs : list RequestBody) : SM Server unit :=
  match bs with
  | [] => sm_ret tt
  | b :: bs' => (demo_step b ;;; demo_steps bs')%sm
  end.

Definition demo_start : Server :=
  (demo_step (NewSessionRequest 1 30000 1) (KeeperStore_init 500 "", [])).2.

(** A run keeps the invariant. *)
Lemma demo_steps_inv bs : forall st,
  Forall (fun b => request_ok (mkRequestHeader 42 false, b) /\
                   match b with SetWatchesRequest _ _ _ _ => False | _ => True end) bs ->
  server_inv st.1 -> server_inv (demo_steps bs st).2.1.
Proof.
  induction bs as [|b bs IH]; intros [s q] Hok Hi; [done|].
  apply Forall_cons in Hok as [[Hb Hs] Hbs]. cbn [demo_steps sm_bind].
  pose proof (processRequest_safe (fun _ => "h") false 1000 (demo_request b) None true false s q Hb Hi) as H1.
  fold (demo_step b) in H1. destruct (demo_step b (s, q)) as [[u|[]] st1]; try done.
  - by apply IH.
  - exfalso. simpl in H1. by destruct b.
Qed.

Lemma demo_start_inv : server_inv demo_start.1.
Proof.
  apply (demo_steps_inv [NewSessionRequest 1 30000 1] (KeeperStore_init 500 "", [])).
  - by repeat constructor.
  - by apply server_inv_init.
Qed.

Lemma demo_live : sessions_contains 1 (session_manager demo_start.1) = true.
Proof. vm_compute. reflexivity. Qed.

(** A Create is answered. *)
Lemma one_answer_per_request_witness :
  let r := demo_request (CreateRequest "/a" "x" true false [] false) in
  exists s' ws resp, processRequest (fun _ => "h") false 1000 r None true false (demo_start.1, []) =
     (Ok tt, (s', [] ++ ws ++ [(1, resp)])) /\ server_inv s' /\ Forall watch_note ws /\
     resp_xid resp.1 = 42 /\ resp_zxid resp.1 = zxid demo_start.1.
Proof.
  intros r. destruct (one_answer_per_request (fun _ => "h") false 1000 r true demo_start.1 []
    eq_refl eq_refl demo_start_inv demo_live) as [(e & s' & E & _)|H]; [|exact H].
  exfalso. vm_compute in E. discriminate E.
Defined.


Lemma close_ends_session_witness :
  exists s' ws z,
    processRequest (fun _ => "h") false 1000 (demo_request CloseRequest) None true false (demo_start.1, []) =
      (Ok tt, (s', [] ++ ws ++ [(1, set_zxid z (set_xid 42 (ResponseHeader0, CloseResponse)))])) /\
    sessions_contains 1 (session_manager s') = false.
Proof.
  destruct (close_ends_session (fun _ => "h") false 1000 (demo_request CloseRequest) true demo_start.1 []
    eq_refl demo_start_inv) as (s' & ws & z & E & _ & _ & _ & _ & _ & Hc & _).
  exists s', ws, z. split; [exact E|exact Hc].
Defined.

Lemma zxid_advances_witness :
  exists s' q', processRequest (fun _ => "h") false 1000 (demo_request (GetRequest "/")) None true false
      (demo_start.1, []) = (Ok tt, (s', q')) /\ zxid s' = zxid demo_start.1.
Proof.
  destruct (processRequest (fun _ => "h") false 1000 (demo_request (GetRequest "/")) None true false
    (demo_start.1, [])) as [[[]|f] [s' q']] eqn:E; [|vm_compute in E; discriminate E].
  exists s', q'. split; [done|].
  exact (zxid_advances (fun _ => "h") false 1000 (demo_request (GetRequest "/")) true false
    demo_start.1 [] s' q' I demo_start_inv E).
Defined.

(** A node only its owner may read, and the Get of another session. *)
Definition demo_private : KeeperStore :=
  (demo_steps [AuthRequest 0 "digest" "u:p"; CreateRequest "/a" "x" false false [mkACL 31 "auth" ""] false;
               NewSessionRequest 2 30000 1] demo_start).2.1.

Definition stranger : RequestForSession :=
  mkRequestForSession 2 (mkRequestHeader 43 false, GetRequest "/a") 0 0 (-1) (-1).

Lemma demo_private_inv : server_inv demo_private.
Proof.
  apply demo_steps_inv; [|apply demo_start_inv]. repeat constructor; simpl; auto.
Qed.

Lemma denied_request_changes_nothing_witness :
  exists s' ws resp, processRequest (fun _ => "h") false 1000 stranger None true false (demo_private, []) =
      (Ok tt, (s', [] ++ ws ++ [(2, resp)])) /\ error resp.1 = ZNOAUTH /\ Forall watch_note ws /\
    data_tree s' = data_tree demo_private /\ ephemerals s' = ephemerals demo_private /\
    acl_map s' = acl_map demo_private /\ session_and_auth s' = session_and_auth demo_private.
Proof.
  apply (denied_request_changes_nothing (fun _ => "h") false 1000 stranger demo_private []
    eq_refl eq_refl demo_private_inv); vm_compute; reflexivity.
Defined.

Lemma reads_change_no_node_witness :
  exists s' q', processRequest (fun _ => "h") false 1000 stranger None true false (demo_private, []) =
    (Ok tt, (s', q')) /\ data_tree s' = data_tree demo_private.
Proof.
  destruct (processRequest (fun _ => "h") false 1000 stranger None true false (demo_private, []))
    as [[[]|f] [s' q']] eqn:E; [|vm_compute in E; discriminate E].
  exists s', q'. split; [reflexivity|].
  apply (reads_change_no_node (fun _ => "h") false 1000 stranger true false demo_private [] s' q'
    eq_refl I I demo_private_inv E).
Defined.

(** ** Runs the invariants exclude

    Each of these is a request sequence a client can send to a fresh store. *)

Definition open_acl : list ACL := [mkACL 31 "world" "anyone"].

(** Listing only the persistent or only the ephemeral children of the root
    ends in undefined behaviour once the root has a child: the code looks up
    the child of [path] as [path + "/" + child], which is ["//a"], tests the
    wrong pointer and follows the null one. *)
Theorem filtered_root_list_undefined :
  exists st, demo_steps [CreateRequest "/a" "x" false false open_acl false] demo_start = (Ok tt, st) /\
    (demo_step (FilteredListRequest "/" ListRequestType_PERSISTENT_ONLY) st).1 = Fault UndefinedBehaviour /\
    (demo_step (FilteredListRequest "/" ListRequestType_EPHEMERAL_ONLY) st).1 = Fault UndefinedBehaviour.
Proof. eexists. split; [vm_compute; reflexivity|]. split; vm_compute; reflexivity. Qed.

(** A transaction that fails after removing the last node with an access
    list is rolled back, but the list itself is not: the node is back, and the
    next Get of it throws. *)
Theorem rolled_back_remove_loses_acl :
  let owned := [AuthRequest 0 "digest" "u:p"; CreateRequest "/a" "x" false false [mkACL 31 "auth" ""] false] in
  let failing := MultiRequest OperationType_Write
    [(mkRequestHeader 0 false, RemoveRequest "/a" (-1)); (mkRequestHeader 0 false, CheckRequest "/b" 0 false)] in
  exists st st', demo_steps owned demo_start = (Ok tt, st) /\ (demo_step (GetRequest "/a") st).1 = Ok tt /\
    demo_step failing st = (Ok tt, st') /\ data_tree st'.1 !! "/a" = data_tree st.1 !! "/a" /\
    is_Some (data_tree st'.1 !! "/a") /\
    (demo_step (GetRequest "/a") st').1 = Fault (Throw LOGICAL_ERROR).
Proof.
  eexists _, _. split; [vm_compute; reflexivity|]. split; [vm_compute; reflexivity|].
  split; [vm_compute; reflexivity|]. split; [vm_compute; reflexivity|].
  split; [eexists; vm_compute; reflexivity|]. vm_compute; reflexivity.
Qed.

(** Creating ["//a"] is accepted and lists the child ["a"] under the root,
    although there is no node ["/a"]. *)
Theorem double_slash_child_without_node :
  exists st n, demo_step (CreateRequest "//a" "x" false false open_acl false) demo_start = (Ok tt, st) /\
    data_tree st.1 !! "/" = Some n /\ "a" ∈ children n /\ data_tree st.1 !! "/a" = None.
Proof.
  eexists _, _. split; [vm_compute; reflexivity|]. split; [vm_compute; reflexivity|].
  split; [by apply (bool_decide_unpack _); vm_compute|vm_compute; reflexivity].
Qed.

(** GetACL and a transaction of reads consume a transaction number though
    they write nothing. *)
Theorem reads_that_consume_zxid :
  exists s1 q1 s2 q2,
    demo_step (GetACLRequest "/") demo_start = (Ok tt, (s1, q1)) /\
    demo_step (MultiRequest OperationType_Read [(mkRequestHeader 0 false, GetRequest "/")]) (s1, q1)
      = (Ok tt, (s2, q2)) /\
    request_isReadRequest (GetACLRequest "/") = true /\ data_tree s2 = data_tree demo_start.1 /\
    zxid s1 = zxid demo_start.1 + 1 /\ zxid s2 = zxid demo_start.1 + 2.
Proof.
  eexists _, _, _, _. split; [vm_compute; reflexivity|]. split; [vm_compute; reflexivity|].
  repeat split; vm_compute; reflexivity.
Qed.

(** A sequential Create notifies the watchers of the path in the request
    and not those of the path it creates: the watch set on the node's future
    path stays and no notification is queued. *)
Theorem sequential_create_misses_watch :
  let watch := mkRequestForSession 1 (mkRequestHeader 42 true, ExistsRequest "/a0000000000") 0 0 (-1) (-1) in
  exists s q s' resp,
    processRequest (fun _ => "h") false 1000 watch None true false demo_start = (Ok tt, (s, q)) /\
    1 ∈ watchers WatchType_Data "/a0000000000" (watch_manager s) /\ data_tree s !! "/a0000000000" = None /\
    demo_step (CreateRequest "/a" "x" false true open_acl false) (s, q) = (Ok tt, (s', q ++ [(1, resp)])) /\
    is_Some (data_tree s' !! "/a0000000000") /\
    1 ∈ watchers WatchType_Data "/a0000000000" (watch_manager s').
Proof.
  eexists _, _, _, _. split; [vm_compute; reflexivity|]. split; [by apply (bool_decide_unpack _); vm_compute|].
  split; [vm_compute; reflexivity|]. split; [vm_compute; reflexivity|].
  split; [eexists; vm_compute; reflexivity|]. by apply (bool_decide_unpack _); vm_compute.
Qed.
