(* ===== verification/Processor.v ===== *)
(** * The request processor

    [RequestProcessor] of [src/src/Service/RequestProcessor.h/.cpp], with the
    queues of [RequestsQueue.h]: requests of local sessions wait, by session, for
    the writes before them to be committed; committed writes are applied in the
    order of the log. What the code asks of others is an argument: whether a
    session is local ([KeeperDispatcher::isLocalSession]), whether the leader is
    alive, and the time. *)

From S2P Require Import Prelude Coordination Store.

(** ** Errors *)

(** The codes of NuRaft the code names, and any other one. *)
Inductive cmd_result_code :=
| RC_OK
| RC_CANCELLED
| RC_TIMEOUT
| RC_NOT_LEADER
| RC_FAILED
| RC_other (code : Z).

#[export] Instance cmd_result_code_eq_dec : EqDecision cmd_result_code.
Proof. solve_decision. Defined.

Record ErrorRequest := mkErrorRequest {
  accepted : bool;
  error_code : cmd_result_code;
  err_session_id : Z;
  err_xid : Z;
  opnum : OpNum
}.

Definition RequestId : Type := Z * Z.
Definition getRequestId (r : RequestForSession) : RequestId := (session_id r, xid (request r).1).
Definition error_getRequestId (e : ErrorRequest) : RequestId := (err_session_id e, err_xid e).

(** ** State *)

(** [applied] is not in the code: the requests passed to the store so far. *)
Record RequestProcessor := mkProcessor {
  requests_queue : list (list RequestForSession);
  pending_requests : list (gmap Z (list RequestForSession));
  committed_queue : list RequestForSession;
  error_requests : list ErrorRequest;
  error_request_ids : gset RequestId;
  proc_shutdown_called : bool;
  proc_server : Server;
  applied : list RequestForSession
}.

Abbreviation ProcM := (SM RequestProcessor).

Definition with_requests (q : list (list RequestForSession)) (p : RequestProcessor) : RequestProcessor :=
  mkProcessor q (pending_requests p) (committed_queue p) (error_requests p) (error_request_ids p)
    (proc_shutdown_called p) (proc_server p) (applied p).
Definition with_pending (m : list (gmap Z (list RequestForSession))) (p : RequestProcessor) : RequestProcessor :=
  mkProcessor (requests_queue p) m (committed_queue p) (error_requests p) (error_request_ids p)
    (proc_shutdown_called p) (proc_server p) (applied p).
Definition with_committed_queue (q : list RequestForSession) (p : RequestProcessor) : RequestProcessor :=
  mkProcessor (requests_queue p) (pending_requests p) q (error_requests p) (error_request_ids p)
    (proc_shutdown_called p) (proc_server p) (applied p).
Definition with_errors (es : list ErrorRequest) (ids : gset RequestId) (p : RequestProcessor) : RequestProcessor :=
  mkProcessor (requests_queue p) (pending_requests p) (committed_queue p) es ids
    (proc_shutdown_called p) (proc_server p) (applied p).
Definition with_proc_server (srv : Server) (p : RequestProcessor) : RequestProcessor :=
  mkProcessor (requests_queue p) (pending_requests p) (committed_queue p) (error_requests p) (error_request_ids p)
    (proc_shutdown_called p) srv (applied p).
Definition with_applied (l : list RequestForSession) (p : RequestProcessor) : RequestProcessor :=
  mkProcessor (requests_queue p) (pending_requests p) (committed_queue p) (error_requests p) (error_request_ids p)
    (proc_shutdown_called p) (proc_server p) l.

(** [responses_queue.push] *)
Definition push_response (session : Z) (response : ZooKeeperResponse) (p : RequestProcessor) : RequestProcessor :=
  with_proc_server ((proc_server p).1, (proc_server p).2 ++ [(session, response)]) p.

(** [initialize]: [parallel] queues, and as many maps. *)
Definition processor_init (parallel : nat) (srv : Server) : RequestProcessor :=
  mkProcessor (replicate parallel []) (replicate parallel ∅) [] [] ∅ false srv [].

Section processor.
Context `{IterOrder} (sha1_base64 : string -> string) (compat : bool).

(** [session_id % parallel]: the session id becomes unsigned. [RequestsQueue]
    computes the same with the number of its queues. *)
Context (parallel : nat).

Definition getRunnerId (session : Z) : nat := Z.to_nat (u64 session mod Z.of_nat parallel).

(** ** Applying a request *)

(** A response made up for a request that is not passed to the store. *)
Definition failed_response (e : Error) (r : RequestForSession) : ZooKeeperResponse :=
  set_error e (set_created (create_time r) (set_zxid 0 (set_xid (xid (request r).1)
    (makeResponse (request r).1 (request r).2)))).

(** An exception is logged for a read; for a write the process aborts. *)
Definition applyRequest (now : RequestForSession -> Z) (alive : RequestForSession -> bool) (r : RequestForSession)
    : ProcM unit := fun p =>
  let p1 := with_applied (applied p ++ [r]) p in
  let '(res, srv) := processRequest sha1_base64 compat (now r) r None true false (proc_server p) in
  if request_isReadRequest (request r).2 then
    if alive r then
      match res with
      | Ok _ | Fault (Throw _) => (Ok tt, with_proc_server srv p1)
      | Fault f => (Fault f, with_proc_server srv p1)
      end
    else (Ok tt, push_response (session_id r) (failed_response ZCONNECTIONLOSS r) p1)
  else
    match res with
    | Ok _ => (Ok tt, with_proc_server srv p1)
    | Fault (Throw _) => (Fault Terminate, with_proc_server srv p1)
    | Fault f => (Fault f, with_proc_server srv p1)
    end.

(** ** From other threads *)

(** [requests_queue->push]; the queue of the session's runner. *)
Definition processor_push (r : RequestForSession) (p : RequestProcessor) : RequestProcessor :=
  if proc_shutdown_called p then p
  else with_requests (alter (fun q => q ++ [r]) (getRunnerId (session_id r)) (requests_queue p)) p.

Definition processor_commit (r : RequestForSession) (p : RequestProcessor) : RequestProcessor :=
  if proc_shutdown_called p then p else with_committed_queue (committed_queue p ++ [r]) p.

Definition onError (e : ErrorRequest) (p : RequestProcessor) : RequestProcessor :=
  if proc_shutdown_called p then p
  else with_errors (error_requests p ++ [e]) ({[error_getRequestId e]} ∪ error_request_ids p) p.

(** ** Requests of local sessions *)

(** A request that is moved is appended to those of its session; Auth requests
    are dropped. *)
Definition move_request (r : RequestForSession) (m : gmap Z (list RequestForSession)) : gmap Z (list RequestForSession) :=
  if decide (request_getOpNum (request r).2 = OpAuth) then m
  else <[session_id r := default [] (m !! session_id r) ++ [r]]> m.

Definition moveRequestToPendingQueue (runner : nat) : ProcM unit := fun p =>
  match pending_requests p !! runner, requests_queue p !! runner with
  | Some m, Some q =>
      (Ok tt, with_pending (<[runner := fold_left (fun m r => move_request r m) q m]> (pending_requests p))
                (with_requests (<[runner := []]> (requests_queue p)) p))
  | _, _ => (Fault UndefinedBehaviour, p)
  end.

(** The reads a session has before its first write; what is left of its
    requests. *)
Fixpoint read_loop (now : RequestForSession -> Z) (alive : RequestForSession -> bool) (rs : list RequestForSession)
    : ProcM (list RequestForSession) :=
  match rs with
  | [] => sm_ret []
  | r :: rs' =>
      if request_isReadRequest (request r).2 then (applyRequest now alive r ;;; read_loop now alive rs')%sm
      else sm_ret rs
  end.

(** A session without requests is erased. *)
Definition keep_session (session : Z) (rs : list RequestForSession) (m : gmap Z (list RequestForSession))
    : gmap Z (list RequestForSession) :=
  match rs with [] => delete session m | _ => <[session := rs]> m end.

Fixpoint read_sessions (now : RequestForSession -> Z) (alive : RequestForSession -> bool) (runner : nat)
    (sessions : list Z) : ProcM unit :=
  match sessions with
  | [] => sm_ret tt
  | s :: sessions' =>
      (rs <- sm_get (fun p => default [] (pending_requests p !! runner ≫= lookup s)) ;;
       rs' <- read_loop now alive rs ;;
       sm_modify (fun p => with_pending (alter (keep_session s rs') runner (pending_requests p)) p) ;;;
       read_sessions now alive runner sessions')%sm
  end.

Definition processReadRequests (now : RequestForSession -> Z) (alive : RequestForSession -> bool) (runner : nat)
    : ProcM unit := fun p =>
  match pending_requests p !! runner with
  | None => (Fault UndefinedBehaviour, p)
  | Some m => read_sessions now alive runner (iter_Z (dom m)) p
  end.

(** ** Committed requests *)

(** Whether a committed request of a local session is processed now: with
    whether it is the first pending one of its session, whose time of creation
    it then has; [None] when a read or a failed request is before it. The index
    by session gets an entry. *)
Definition shouldProcessCommittedRequest (r : RequestForSession) (rs : list RequestForSession)
    (ids : gset RequestId) : option (bool * RequestForSession) :=
  match rs with
  | [] => Some (false, r)
  | first :: _ =>
      if decide (xid (request first).1 = xid (request r).1) then
        Some (true, mkRequestForSession (session_id r) (request r) (create_time first) (process_time r)
                      (server_id r) (client_id r))
      else if request_isReadRequest (request first).2 then None
      else if decide (getRequestId first ∈ ids) then None
      else Some (false, r)
  end.

(** The requests of a session, after [operator\[\]] made an entry for it. *)
Definition session_pending (session : Z) (p : RequestProcessor) : list RequestForSession :=
  default [] (pending_requests p !! getRunnerId session ≫= lookup session).

Definition set_pending (session : Z) (f : gmap Z (list RequestForSession) -> gmap Z (list RequestForSession))
    (p : RequestProcessor) : RequestProcessor :=
  with_pending (alter f (getRunnerId session) (pending_requests p)) p.

Definition pop_committed (p : RequestProcessor) : RequestProcessor := with_committed_queue (tail (committed_queue p)) p.

(** Applied whatever is pending: session requests, and Auth requests of local
    sessions; a session that is not local loses its pending requests. *)
Definition apply_at_once (local : Z -> bool) (r : RequestForSession) : bool :=
  isSessionRequest (request_getOpNum (request r).2) || negb (local (session_id r)) ||
  bool_decide (request_getOpNum (request r).2 = OpAuth).

Definition drop_remote (local : Z -> bool) (r : RequestForSession) (p : RequestProcessor) : RequestProcessor :=
  if isSessionRequest (request_getOpNum (request r).2) || local (session_id r) then p
  else set_pending (session_id r) (delete (session_id r)) p.

Fixpoint processCommittedRequest (now : RequestForSession -> Z) (alive : RequestForSession -> bool)
    (local : Z -> bool) (count : nat) : ProcM unit := fun p =>
  match count with
  | O => (Ok tt, p)
  | S count' =>
      match committed_queue p with
      | [] => processCommittedRequest now alive local count' p
      | r :: _ =>
          if apply_at_once local r then
            (applyRequest now alive r ;;; sm_modify pop_committed ;;; processCommittedRequest now alive local count')%sm
              (drop_remote local r p)
          else
            let p1 := set_pending (session_id r) (fun m => <[session_id r := default [] (m !! session_id r)]> m) p in
            match shouldProcessCommittedRequest r (session_pending (session_id r) p1) (error_request_ids p1) with
            | None => (Ok tt, p1)
            | Some (found_in_pending_queue, r') =>
                (applyRequest now alive r' ;;;
                 sm_modify pop_committed ;;;
                 sm_modify (fun p2 =>
                   let rs := session_pending (session_id r) p2 in
                   set_pending (session_id r)
                     (keep_session (session_id r) (if found_in_pending_queue then tail rs else rs)) p2) ;;;
                 processCommittedRequest now alive local count')%sm p1
            end
      end
  end.

(** ** Failed requests *)

(** Takes the first request that matches out of the list. *)
Fixpoint take_match (matches : RequestForSession -> bool) (rs : list RequestForSession)
    : option (RequestForSession * list RequestForSession) :=
  match rs with
  | [] => None
  | r :: rs' =>
      if matches r then Some (r, rs')
      else '(x, rest) ← take_match matches rs'; Some (x, r :: rest)
  end.

Definition error_matches (e : ErrorRequest) (r : RequestForSession) : bool :=
  bool_decide (xid (request r).1 = err_xid e) ||
  (bool_decide (request_getOpNum (request r).2 = OpClose) && bool_decide (opnum e = OpClose)).

(** The value-initialised request [std::make_shared<ZooKeeperAuthRequest>()]. *)
Definition blank_auth (e : ErrorRequest) (now : Z) : RequestForSession :=
  mkRequestForSession (err_session_id e) (mkRequestHeader 0 false, AuthRequest 0 "" "") now 0 (-1) (-1).

Definition findErrorRequest (now : Z) (e : ErrorRequest) (p : RequestProcessor)
    : option RequestForSession * RequestProcessor :=
  if decide (err_xid e = AUTH_XID) then (Some (blank_auth e now), p)
  else
    match take_match (error_matches e) (session_pending (err_session_id e) p) with
    | None => (None, p)
    | Some (r, rest) => (Some r, set_pending (err_session_id e) <[err_session_id e := rest]> p)
    end.

Definition error_of_code (c : cmd_result_code) : Error :=
  if decide (c = RC_TIMEOUT) then ZOPERATIONTIMEOUT else ZCONNECTIONLOSS.

(** The answer to a session request that failed; the server id is not set. *)
Definition session_error_response (now : Z) (e : ErrorRequest) : ZooKeeperResponse :=
  set_error (error_of_code (error_code e)) (set_created now (set_xid (err_xid e)
    (ResponseHeader0,
     if isNewSessionRequest (opnum e) then NewSessionResponse (err_session_id e) 0 0 false
     else UpdateSessionResponse (err_session_id e) 0 false))).

Definition process_error (now : Z) (local : Z -> bool) (e : ErrorRequest) (p : RequestProcessor) : RequestProcessor :=
  if isSessionRequest (opnum e) then push_response (err_session_id e) (session_error_response now e) p
  else if negb (local (err_session_id e)) then set_pending (err_session_id e) (delete (err_session_id e)) p
  else
    match findErrorRequest now e p with
    | (Some r, p1) => push_response (err_session_id e) (failed_response (error_of_code (error_code e)) r) p1
    | (None, p1) => p1
    end.

(** [error_requests.front()] of an empty list may not be used. *)
Fixpoint error_loop (now : Z) (local : Z -> bool) (count : nat) : ProcM unit := fun p =>
  match count with
  | O => (Ok tt, p)
  | S count' =>
      match error_requests p with
      | [] => (Fault UndefinedBehaviour, p)
      | e :: es =>
          let p1 := process_error now local e p in
          error_loop now local count' (with_errors es (error_request_ids p1 ∖ {[error_getRequestId e]}) p1)
      end
  end.

Definition processErrorRequest (now : Z) (local : Z -> bool) (count : nat) : ProcM unit := fun p =>
  if decide (error_request_ids p = ∅) then (Ok tt, p) else error_loop now local count p.

(** ** The thread

    [run], step by step: other threads may push, commit and report errors
    between any two steps. A wait ends by its timeout at the latest. What a step
    asks of others may be different in every step. *)
Record Inputs := mkInputs {
  in_now : RequestForSession -> Z;
  in_alive : RequestForSession -> bool;
  in_local : Z -> bool;
  in_time : Z
}.

Inductive RunPc :=
| RWait                                    (* cv.wait_for, then committed_queue.size() *)
| RErrorSize (committed : nat)             (* error_request_ids.size() *)
| RMove (runner committed errors : nat)    (* moveRequestToPendingQueue(runner_id) *)
| RReads (runner committed errors : nat)   (* processReadRequests(runner_id) *)
| RCommitted (committed errors : nat)      (* processCommittedRequest *)
| RErrors (errors : nat)                   (* processErrorRequest *)
| RReturned.

Definition run_step (i : Inputs) (pc : RunPc) : ProcM RunPc := fun p =>
  match pc with
  | RWait => (Ok (if proc_shutdown_called p then RReturned else RErrorSize (length (committed_queue p))), p)
  | RErrorSize c => (Ok (RMove 0 c (size (error_request_ids p))), p)
  | RMove runner c e =>
      if decide (runner < parallel)%nat then (moveRequestToPendingQueue runner ;;; sm_ret (RReads runner c e))%sm p
      else (Ok (RCommitted c e), p)
  | RReads runner c e =>
      (processReadRequests (in_now i) (in_alive i) runner ;;; sm_ret (RMove (S runner) c e))%sm p
  | RCommitted c e =>
      (processCommittedRequest (in_now i) (in_alive i) (in_local i) c ;;; sm_ret (RErrors e))%sm p
  | RErrors e => (processErrorRequest (in_time i) (in_local i) e ;;; sm_ret RWait)%sm p
  | RReturned => (Ok RReturned, p)
  end.

(** One turn of the loop without other threads: the steps from [RWait] to the
    next. *)
Fixpoint run_steps (i : Inputs) (n : nat) (pc : RunPc) : ProcM RunPc :=
  match n with
  | O => sm_ret pc
  | S n' => (pc' <- run_step i pc ;; run_steps i n' pc')%sm
  end.

Definition run_turn (i : Inputs) : ProcM RunPc := run_steps i (2 * parallel + 5) RWait.

Fixpoint run_turns (ins : list Inputs) : ProcM unit :=
  match ins with
  | [] => sm_ret tt
  | i :: ins' => (run_turn i ;;; run_turns ins')%sm
  end.

(** [max(1, capacity / child_queue_size)] with a capacity of 20000, and the one of
    [committed_queue]. A push to a full queue waits. *)
Definition requests_capacity : Z := Z.max 1 (20000 / Z.of_nat parallel).
Definition committed_capacity : Z := 1000.

Inductive Event :=
| EvPush (r : RequestForSession)
| EvCommit (r : RequestForSession)
| EvError (e : ErrorRequest)
| EvRun (i : Inputs).

Inductive proc_step : RunPc * RequestProcessor -> Event -> RunPc * RequestProcessor -> Prop :=
| ps_push pc p r q :
    requests_queue p !! getRunnerId (session_id r) = Some q -> Z.of_nat (length q) < requests_capacity ->
    proc_step (pc, p) (EvPush r) (pc, processor_push r p)
| ps_commit pc p r :
    Z.of_nat (length (committed_queue p)) < committed_capacity ->
    proc_step (pc, p) (EvCommit r) (pc, processor_commit r p)
| ps_error pc p e : proc_step (pc, p) (EvError e) (pc, onError e p)
| ps_run pc p i pc' p' : run_step i pc p = (Ok pc', p') -> proc_step (pc, p) (EvRun i) (pc', p').

Inductive proc_run : RunPc * RequestProcessor -> list Event -> RunPc * RequestProcessor -> Prop :=
| pr_nil st : proc_run st [] st
| pr_snoc st evs st1 ev st2 : proc_run st evs st1 -> proc_step st1 ev st2 -> proc_run st (evs ++ [ev]) st2.

(** [shutdown]: the thread is joined; what is left in the queues is answered. *)
Fixpoint answer_all (rs : list RequestForSession) (p : RequestProcessor) : RequestProcessor :=
  match rs with
  | [] => p
  | r :: rs' => answer_all rs' (push_response (session_id r) (failed_response ZSESSIONEXPIRED r) p)
  end.

Definition processor_shutdown (p : RequestProcessor) : RequestProcessor :=
  if proc_shutdown_called p then p
  else
    let p1 := mkProcessor (replicate (length (requests_queue p)) []) (pending_requests p) (committed_queue p)
                (error_requests p) (error_request_ids p) true (proc_server p) (applied p) in
    answer_all (concat (requests_queue p)) p1.
End processor.
