(* ===== verification/ProcessorSteps.v ===== *)
(** * The steps of the request processor

    What each step of the processor's loop does to the order of the requests:
    moving them from the queues, the reads, the committed requests and the failed
    ones. [ProcessorTheorems] puts the steps together. *)

From S2P Require Import Prelude Coordination Store Processor.

(** What identifies a request in the queue of a session and in the log: its
    session and content. *)
Definition key (r : RequestForSession) : Z * ZooKeeperRequest := (session_id r, request r).

Definition is_write (k : Z * ZooKeeperRequest) : Prop := request_isReadRequest k.2.2 = false.
#[export] Instance is_write_dec k : Decision (is_write k).
Proof. unfold is_write. apply _. Defined.

Definition commits (evs : list Event) : list (Z * ZooKeeperRequest) :=
  omap (fun ev => match ev with EvCommit r => Some (key r) | _ => None end) evs.
Definition pushes (evs : list Event) : list (Z * ZooKeeperRequest) :=
  omap (fun ev => match ev with EvPush r => Some (key r) | _ => None end) evs.

(** The writes passed to the store so far. *)
Definition applied_writes (p : RequestProcessor) : list (Z * ZooKeeperRequest) := filter is_write (key <$> applied p).

Section theorems.
Context `{IterOrder} (sha1_base64 : string -> string) (compat : bool) (parallel : nat).
Abbreviation applyRequest := (applyRequest sha1_base64 compat).
Abbreviation read_loop := (read_loop sha1_base64 compat).
Abbreviation read_sessions := (read_sessions sha1_base64 compat).
Abbreviation processReadRequests := (processReadRequests sha1_base64 compat).
Abbreviation processCommittedRequest := (processCommittedRequest sha1_base64 compat parallel).
Abbreviation session_pending := (session_pending parallel).
Abbreviation set_pending := (set_pending parallel).

(** ** Frames *)

(** Applying a request changes the store, and is recorded. *)
Lemma applyRequest_frame now alive r p res p' :
  applyRequest now alive r p = (res, p') ->
  exists srv, p' = with_proc_server srv (with_applied (applied p ++ [r]) p).
Proof.
  unfold Processor.applyRequest. destruct (processRequest _ _ _ _ _ _ _ _) as [o srv].
  intros E. repeat (case_match; simplify_eq/=); by eexists.
Qed.

(** A loop over reads applies them in order and leaves the rest. *)
Lemma read_loop_frame now alive rs p rs' p' :
  read_loop now alive rs p = (Ok rs', p') ->
  exists srv done, rs = done ++ rs' /\ Forall (fun r => ~ is_write (key r)) done /\
    (forall r, head rs' = Some r -> is_write (key r)) /\
    p' = with_proc_server srv (with_applied (applied p ++ done) p).
Proof.
  revert p. induction rs as [|r rs IH]; intros p; cbn [Processor.read_loop].
  { intros [= <- <-]. exists (proc_server p), []. split_and!; [done|by apply Forall_nil|done|destruct p; cbn; by rewrite app_nil_r]. }
  destruct (request_isReadRequest (request r).2) eqn:Hr.
  - unfold sm_bind. destruct (applyRequest now alive r p) as [[[]|] p1] eqn:Ea; [|done]. intros E.
    apply applyRequest_frame in Ea as (srv1 & ->). apply IH in E as (srv & rd & -> & Hd & Hh & ->).
    exists srv, (r :: rd). split_and!; [done| |done|].
    + constructor; [|done]. unfold is_write. cbn. by rewrite Hr.
    + cbn. by rewrite <- app_assoc.
  - intros [= <- <-]. exists (proc_server p), []. split_and!; [done|by apply Forall_nil| |destruct p; cbn; by rewrite app_nil_r].
    by intros r' [= <-].
Qed.

(** ** Well-formed queues *)

(** A request is in the queue, and then in the map, of its session's runner. *)
Record proc_wf (p : RequestProcessor) : Prop := {
  wf_queues : length (requests_queue p) = parallel;
  wf_maps : length (pending_requests p) = parallel;
  wf_queue i q r : requests_queue p !! i = Some q -> r ∈ q -> getRunnerId parallel (session_id r) = i;
  wf_map i m t rs : pending_requests p !! i = Some m -> m !! t = Some rs ->
    getRunnerId parallel t = i /\ Forall (fun r => session_id r = t) rs
}.

Lemma getRunnerId_lt s : (0 < parallel)%nat -> (getRunnerId parallel s < parallel)%nat.
Proof.
  intros Hp. unfold getRunnerId. pose proof (Z.mod_pos_bound (u64 s) (Z.of_nat parallel) ltac:(lia)). lia.
Qed.

Lemma session_pending_wf s p : proc_wf p -> Forall (fun r => session_id r = s) (session_pending s p).
Proof.
  intros Hw. unfold Processor.session_pending. destruct (pending_requests p !! _) as [m|] eqn:Em; cbn; [|by apply Forall_nil].
  destruct (m !! s) as [rs|] eqn:Er; cbn; [|by apply Forall_nil]. by apply (wf_map p Hw _ _ _ _ Em Er).
Qed.

(** A change of the map of one session. *)
Lemma session_pending_set s t f p :
  session_pending s (set_pending t f p) =
  if decide (getRunnerId parallel s = getRunnerId parallel t)
  then default [] (pending_requests p !! getRunnerId parallel s ≫= fun m => f m !! s) else session_pending s p.
Proof.
  unfold Processor.session_pending, Processor.set_pending. cbn [pending_requests with_pending]. case_decide as Hd.
  - rewrite Hd, list_lookup_alter_eq. by destruct (pending_requests p !! _).
  - by rewrite list_lookup_alter_ne by done.
Qed.

Lemma session_pending_set_ne s t f p :
  (forall m, f m !! s = m !! s) -> session_pending s (set_pending t f p) = session_pending s p.
Proof.
  intros Hf. rewrite session_pending_set. case_decide as Hd; [|done]. unfold Processor.session_pending.
  destruct (pending_requests p !! _); cbn; by rewrite ?Hf.
Qed.

Lemma set_pending_wf t f p :
  proc_wf p ->
  (forall m, pending_requests p !! getRunnerId parallel t = Some m -> forall u rs, f m !! u = Some rs ->
     u <> t -> m !! u = Some rs) ->
  (forall m, pending_requests p !! getRunnerId parallel t = Some m -> forall rs, f m !! t = Some rs ->
     Forall (fun r => session_id r = t) rs) ->
  proc_wf (set_pending t f p).
Proof.
  intros [H1 H2 H3 H4] Hu Ht. split; cbn [Processor.set_pending requests_queue pending_requests with_pending]; [done| |done|].
  - by rewrite length_alter.
  - intros i m u rs Hi Hm. destruct (decide (getRunnerId parallel t = i)) as [<-|Hne].
    + rewrite list_lookup_alter_eq in Hi. destruct (pending_requests p !! _) as [m0|] eqn:Em; [|done]. injection Hi as <-.
      destruct (decide (u = t)) as [->|Hut]; [split; [done|by eapply Ht]|]. eapply H4; [done|]. by eapply Hu.
    + rewrite list_lookup_alter_ne in Hi by done. by eapply H4.
Qed.

Lemma keep_session_ne s t rs m : s <> t -> keep_session t rs m !! s = m !! s.
Proof. intros Hne. unfold keep_session. destruct rs; [by rewrite lookup_delete_ne|by rewrite lookup_insert_ne]. Qed.

Lemma keep_session_eq t rs m : default [] (keep_session t rs m !! t) = rs.
Proof. unfold keep_session. destruct rs; [by rewrite lookup_delete_eq|by rewrite lookup_insert_eq]. Qed.

Lemma keep_pending_wf t rs p :
  proc_wf p -> Forall (fun r => session_id r = t) rs -> proc_wf (set_pending t (keep_session t rs) p).
Proof.
  intros Hw Hrs. apply set_pending_wf; [done| |].
  - intros m _ u rs' Hl Hne. by rewrite keep_session_ne in Hl.
  - intros m _ rs' Hl. pose proof (keep_session_eq t rs m) as E. rewrite Hl in E. cbn in E. by subst.
Qed.

Lemma keep_pending_eq t rs p :
  proc_wf p -> (0 < parallel)%nat -> session_pending t (set_pending t (keep_session t rs) p) = rs.
Proof.
  intros Hw Hp. rewrite session_pending_set, decide_True by done.
  destruct (lookup_lt_is_Some_2 (pending_requests p) (getRunnerId parallel t)) as [m Hm].
  { rewrite (wf_maps p Hw). by apply getRunnerId_lt. }
  rewrite Hm. cbn. apply keep_session_eq.
Qed.

(** ** Reads *)

(** The requests that wait for their turn in the session: session requests and
    Auth requests do not. *)
Definition ordered (r : RequestBody) : Prop :=
  isSessionRequest (request_getOpNum r) = false /\ request_getOpNum r <> OpAuth.
#[export] Instance ordered_dec r : Decision (ordered r).
Proof. unfold ordered. apply _. Defined.

Lemma read_ordered r : request_isReadRequest r = true -> ordered r.
Proof. destruct r as [| | | | | | | | | | | | | | | |[]| |]; try done; by intros _. Qed.

Definition of_session (s : Z) (k : Z * ZooKeeperRequest) : Prop := k.1 = s /\ ordered k.2.2.
#[export] Instance of_session_dec s k : Decision (of_session s k).
Proof. unfold of_session. apply _. Defined.

(** The requests of a session that were passed to the store. *)
Definition session_applied (s : Z) (p : RequestProcessor) : list (Z * ZooKeeperRequest) :=
  filter (of_session s) (key <$> applied p).

Definition same_queues (p p' : RequestProcessor) : Prop :=
  requests_queue p' = requests_queue p /\ committed_queue p' = committed_queue p /\
  error_requests p' = error_requests p /\ error_request_ids p' = error_request_ids p /\
  proc_shutdown_called p' = proc_shutdown_called p.

(** Reads of the session went from its pending requests to the store. *)
Definition reads_done (s : Z) (p p' : RequestProcessor) : Prop :=
  exists rd, Forall (fun r => ~ is_write (key r)) rd /\ session_pending s p = rd ++ session_pending s p' /\
    session_applied s p' = session_applied s p ++ (key <$> rd).

Lemma reads_done_refl s p : reads_done s p p.
Proof. exists []. rewrite app_nil_r. split_and!; [by apply Forall_nil|done|done]. Qed.

Lemma reads_done_trans s p1 p2 p3 : reads_done s p1 p2 -> reads_done s p2 p3 -> reads_done s p1 p3.
Proof.
  intros (d1 & H1 & E1 & A1) (d2 & H2 & E2 & A2). exists (d1 ++ d2). split_and!.
  - by apply Forall_app.
  - by rewrite E1, E2, app_assoc.
  - by rewrite A2, A1, fmap_app, app_assoc.
Qed.

Lemma filter_session_all s rs :
  Forall (fun r => session_id r = s) rs -> Forall (fun r => ~ is_write (key r)) rs ->
  filter (of_session s) (key <$> rs) = key <$> rs.
Proof.
  induction 1 as [|r rs Hr Hrs IH]; [done|]. intros [Hw Hws]%Forall_cons. cbn [fmap list_fmap].
  rewrite filter_cons_True; [f_equal; by apply IH|]. split; [done|]. apply read_ordered. unfold is_write in Hw.
  by destruct (request_isReadRequest (key r).2.2).
Qed.

Lemma filter_session_none s t rs :
  t <> s -> Forall (fun r => session_id r = t) rs -> filter (of_session s) (key <$> rs) = [].
Proof.
  intros Hne. induction 1 as [|r rs Hr Hrs IH]; [done|]. cbn [fmap list_fmap].
  rewrite filter_cons_False; [done|]. intros [E _]. cbn in E. congruence.
Qed.

(** Reads are not among the writes. *)
Lemma filter_writes_reads rs : Forall (fun r => ~ is_write (key r)) rs -> filter is_write (key <$> rs) = [].
Proof.
  induction 1 as [|r rs Hr Hrs IH]; [done|]. cbn [fmap list_fmap]. by rewrite filter_cons_False.
Qed.

(** One session: its reads are applied and it keeps the rest. *)
Lemma read_session_view now alive t p rs' p1 s :
  proc_wf p -> (0 < parallel)%nat -> read_loop now alive (session_pending t p) p = (Ok rs', p1) ->
  let p' := set_pending t (keep_session t rs') p1 in
  proc_wf p' /\ same_queues p p' /\ applied_writes p' = applied_writes p /\ reads_done s p p' /\
  (forall r, head (session_pending t p') = Some r -> is_write (key r)).
Proof.
  intros Hw Hp E p'. pose proof (session_pending_wf t p Hw) as Ht.
  apply read_loop_frame in E as (srv & rd & Ers & Hd & Hh & ->). rewrite Ers in Ht. apply Forall_app in Ht as [Hdt Hrt].
  assert (proc_wf (with_proc_server srv (with_applied (applied p ++ rd) p))) as Hw1 by (by destruct Hw; split).
  split_and!.
  - by apply keep_pending_wf.
  - done.
  - unfold applied_writes. subst p'. cbn. by rewrite fmap_app, filter_app, (filter_writes_reads rd), app_nil_r.
  - destruct (decide (t = s)) as [<-|Hne].
    + exists rd. split_and!; [done| |].
      * subst p'. by rewrite keep_pending_eq.
      * unfold session_applied. subst p'. cbn. by rewrite fmap_app, filter_app, (filter_session_all t rd).
    + exists []. rewrite app_nil_r. split_and!; [by apply Forall_nil| |].
      * subst p'. by rewrite session_pending_set_ne by (intros m; by apply keep_session_ne).
      * unfold session_applied. subst p'. cbn. by rewrite fmap_app, filter_app, (filter_session_none s t rd), app_nil_r.
  - subst p'. by rewrite keep_pending_eq.
Qed.

Lemma same_queues_trans p1 p2 p3 : same_queues p1 p2 -> same_queues p2 p3 -> same_queues p1 p3.
Proof. unfold same_queues. intuition congruence. Qed.

(** A write is first, or nothing is pending. *)
Definition no_leading_read (s : Z) (p : RequestProcessor) : Prop :=
  forall r, head (session_pending s p) = Some r -> is_write (key r).

Lemma no_leading_read_done s p p' : no_leading_read s p -> reads_done s p p' -> no_leading_read s p'.
Proof.
  intros Hn (rd & Hd & E & _). unfold no_leading_read in *. rewrite E in Hn. destruct rd as [|r rd]; [done|].
  apply Forall_cons in Hd as [Hr _]. destruct Hr. by apply Hn.
Qed.

Lemma read_sessions_view now alive runner sessions : Forall (fun t => getRunnerId parallel t = runner) sessions ->
  forall p p', proc_wf p -> (0 < parallel)%nat -> read_sessions now alive runner sessions p = (Ok tt, p') ->
  proc_wf p' /\ same_queues p p' /\ applied_writes p' = applied_writes p /\ (forall s, reads_done s p p') /\
  (forall s, s ∈ sessions -> no_leading_read s p').
Proof.
  induction 1 as [|t sessions Ht Hs IH]; intros p p' Hw Hp.
  { intros [= <-]. split_and!; try done; [intros; apply reads_done_refl|]. intros s Hin. by apply elem_of_nil in Hin. }
  cbn [Processor.read_sessions]. unfold sm_bind, sm_get, sm_modify.
  replace (default [] (pending_requests p !! runner ≫= lookup t)) with (session_pending t p)
    by (unfold Processor.session_pending; by rewrite Ht).
  destruct (read_loop now alive (session_pending t p) p) as [[rs'|] p1] eqn:El; [|done]. intros E.
  rewrite <- Ht in E. change (with_pending (alter (keep_session t rs') (getRunnerId parallel t) (pending_requests p1)) p1)
    with (set_pending t (keep_session t rs') p1) in E. rewrite Ht in E.
  assert (forall s, reads_done s p (set_pending t (keep_session t rs') p1)) as Hd1
    by (intros s; by eapply (read_session_view now alive t p rs' p1 s)).
  destruct (read_session_view now alive t p rs' p1 t Hw Hp El) as (Hw1 & Hq1 & Ha1 & _ & Hh1).
  destruct (IH _ p' Hw1 Hp E) as (Hw2 & Hq2 & Ha2 & Hd2 & Hh2). split_and!.
  - done.
  - by eapply same_queues_trans.
  - congruence.
  - intros s. eapply reads_done_trans; [apply Hd1|apply Hd2].
  - intros s [->|Hin]%elem_of_cons; [by eapply no_leading_read_done|by apply Hh2].
Qed.

Lemma processReadRequests_view now alive runner p p' :
  proc_wf p -> (0 < parallel)%nat -> processReadRequests now alive runner p = (Ok tt, p') ->
  proc_wf p' /\ same_queues p p' /\ applied_writes p' = applied_writes p /\ (forall s, reads_done s p p') /\
  (forall s, getRunnerId parallel s = runner -> no_leading_read s p').
Proof.
  intros Hw Hp. unfold Processor.processReadRequests. destruct (pending_requests p !! runner) as [m|] eqn:Em; [|done].
  intros E. apply read_sessions_view in E as (Hw' & Hq & Ha & Hd & Hh); [|..|done|done].
  - split_and!; [done..|]. intros s Hs. destruct (decide (s ∈ dom m)) as [Hin|Hin].
    + apply Hh. by apply elem_of_iter_Z.
    + eapply no_leading_read_done; [|apply Hd]. unfold no_leading_read, Processor.session_pending. rewrite Hs, Em. cbn.
      by rewrite (proj1 (not_elem_of_dom _ _) Hin).
  - apply Forall_forall. intros t Ht%elem_of_iter_Z. apply elem_of_dom in Ht as [rs Hrs]. by eapply wf_map.
Qed.

(** ** Moving requests *)

Definition is_auth (r : RequestForSession) : Prop := request_getOpNum (request r).2 = OpAuth.
#[export] Instance is_auth_dec r : Decision (is_auth r).
Proof. unfold is_auth. apply _. Defined.

(** What the queue of the session's runner has of the session. *)
Definition queued (s : Z) (p : RequestProcessor) : list RequestForSession :=
  filter (fun r => session_id r = s) (default [] (requests_queue p !! getRunnerId parallel s)).

Lemma move_all_lookup s q : forall m,
  default [] (fold_left (fun m r => move_request r m) q m !! s) =
  default [] (m !! s) ++ filter (fun r => session_id r = s /\ ~ is_auth r) q.
Proof.
  induction q as [|r q IH]; intros m; cbn [fold_left]; [by rewrite app_nil_r|]. rewrite IH. unfold move_request.
  destruct (decide (request_getOpNum (request r).2 = OpAuth)) as [Ha|Ha].
  - rewrite filter_cons_False by (intros [_ Hn]; by apply Hn). done.
  - destruct (decide (session_id r = s)) as [<-|Hne].
    + rewrite lookup_insert_eq, filter_cons_True by done. cbn. by rewrite <- app_assoc.
    + rewrite lookup_insert_ne by done. by rewrite filter_cons_False by naive_solver.
Qed.

Lemma move_all_wf q : forall m u rs,
  fold_left (fun m r => move_request r m) q m !! u = Some rs ->
  (forall v rs', m !! v = Some rs' -> Forall (fun r => session_id r = v) rs') ->
  Forall (fun r => session_id r = u) rs /\ (is_Some (m !! u) \/ exists r, r ∈ q /\ session_id r = u).
Proof.
  induction q as [|r q IH]; intros m u rs; cbn [fold_left].
  { intros Hl Hm. split; [by eapply Hm|left; by eexists]. }
  intros Hl Hm. apply IH in Hl as [Hrs Hor].
  - split; [done|]. destruct Hor as [[rs1 Hs]|(r' & Hin & Hr')]; [|right; exists r'; by split; [right|]].
    unfold move_request in Hs. case_decide; [left; by eexists|]. destruct (decide (session_id r = u)) as [E|E].
    + right. exists r. by split; [left|].
    + left. rewrite lookup_insert_ne in Hs by done. by eexists.
  - intros v rs'. unfold move_request. case_decide; [by apply Hm|]. destruct (decide (session_id r = v)) as [<-|E].
    + rewrite lookup_insert_eq. intros [= <-]. apply Forall_app. split; [|by constructor].
      destruct (m !! session_id r) eqn:Es; cbn; [by eapply Hm|by apply Forall_nil].
    + rewrite lookup_insert_ne by done. by apply Hm.
Qed.

Lemma filter_filter_and {A} (P Q : A -> Prop) `{!forall x, Decision (P x), !forall x, Decision (Q x)} (l : list A) :
  filter Q (filter P l) = filter (fun x => P x /\ Q x) l.
Proof.
  induction l as [|x l IH]; [done|]. destruct (decide (P x)).
  - rewrite filter_cons_True by done. destruct (decide (Q x)).
    + rewrite !filter_cons_True by done. by rewrite IH.
    + rewrite !filter_cons_False by naive_solver. done.
  - rewrite !(filter_cons_False _ x) by naive_solver. done.
Qed.

(** The requests of the sessions of one runner are appended to the pending ones. *)
Lemma move_view runner p p' :
  proc_wf p -> moveRequestToPendingQueue runner p = (Ok tt, p') ->
  proc_wf p' /\ committed_queue p' = committed_queue p /\ applied p' = applied p /\
  error_request_ids p' = error_request_ids p /\ error_requests p' = error_requests p /\
  proc_shutdown_called p' = proc_shutdown_called p /\
  forall s,
    if decide (getRunnerId parallel s = runner)
    then session_pending s p' = session_pending s p ++ filter (fun r => ~ is_auth r) (queued s p) /\ queued s p' = []
    else session_pending s p' = session_pending s p /\ queued s p' = queued s p.
Proof.
  intros Hw. unfold moveRequestToPendingQueue.
  destruct (pending_requests p !! runner) as [m|] eqn:Em; [|done].
  destruct (requests_queue p !! runner) as [q|] eqn:Eq; [|done]. intros [= <-].
  pose proof (lookup_lt_Some _ _ _ Em) as Hl1. pose proof (lookup_lt_Some _ _ _ Eq) as Hl2. split_and!; try done.
  - destruct Hw as [H1 H2 H3 H4]. split; cbn [requests_queue pending_requests with_pending with_requests].
    + by rewrite length_insert.
    + by rewrite length_insert.
    + intros i q' r Hi Hr. destruct (decide (runner = i)) as [<-|Hne].
      * rewrite list_lookup_insert_eq in Hi by done. injection Hi as <-. by apply elem_of_nil in Hr.
      * rewrite list_lookup_insert_ne in Hi by done. by eapply H3.
    + intros i m' t rs Hi Ht. destruct (decide (runner = i)) as [<-|Hne].
      * rewrite list_lookup_insert_eq in Hi by done. injection Hi as <-.
        apply move_all_wf in Ht as [Hrs Hor]; [|by intros v rs' Hv; eapply H4]. split; [|done].
        destruct Hor as [[rs0 Hs]|(r & Hin & <-)]; [by eapply H4|by eapply H3].
      * rewrite list_lookup_insert_ne in Hi by done. by eapply H4.
  - intros s. unfold Processor.session_pending, queued. cbn [requests_queue pending_requests with_pending with_requests].
    case_decide as Hs.
    + rewrite Hs, !list_lookup_insert_eq, Em, Eq by done. cbn. split; [|done].
      by rewrite move_all_lookup, filter_filter_and.
    + by rewrite !list_lookup_insert_ne by done.
Qed.

(** ** Committed requests *)

(** The entry [operator\[\]] makes. *)
Definition with_entry (t : Z) (m : gmap Z (list RequestForSession)) : gmap Z (list RequestForSession) :=
  <[t := default [] (m !! t)]> m.

Lemma with_entry_pending s t p : session_pending s (set_pending t (with_entry t) p) = session_pending s p.
Proof.
  rewrite session_pending_set. case_decide as Hd; [|done]. unfold Processor.session_pending.
  destruct (pending_requests p !! _) as [m|]; [|done]. cbn. unfold with_entry. destruct (decide (s = t)) as [->|Hne].
  - by rewrite lookup_insert_eq.
  - by rewrite lookup_insert_ne by done.
Qed.

Lemma with_entry_wf t p : proc_wf p -> proc_wf (set_pending t (with_entry t) p).
Proof.
  intros Hw. apply set_pending_wf; [done| |].
  - intros m _ u rs Hl Hne. unfold with_entry in Hl. by rewrite lookup_insert_ne in Hl.
  - intros m Hm rs. unfold with_entry. rewrite lookup_insert_eq. intros [= <-].
    destruct (m !! t) eqn:Et; cbn; [by eapply wf_map|by apply Forall_nil].
Qed.

Lemma drop_remote_wf local r p : proc_wf p -> proc_wf (drop_remote parallel local r p).
Proof.
  intros Hw. unfold drop_remote. destruct (_ || _); [done|]. apply set_pending_wf; [done| |].
  - intros m _ u rs Hl Hne. by rewrite lookup_delete_ne in Hl.
  - intros m _ rs. by rewrite lookup_delete_eq.
Qed.

Lemma drop_remote_pending local r p s :
  local s = true -> session_pending s (drop_remote parallel local r p) = session_pending s p.
Proof.
  intros Hl. unfold drop_remote. destruct (isSessionRequest _ || _) eqn:E; [done|].
  apply session_pending_set_ne. intros m. apply lookup_delete_ne. intros Es. by rewrite Es, Hl, orb_true_r in E.
Qed.

(** What is not touched by processing committed requests. *)
Definition same_inputs (p p' : RequestProcessor) : Prop :=
  requests_queue p' = requests_queue p /\ error_requests p' = error_requests p /\
  error_request_ids p' = error_request_ids p /\ proc_shutdown_called p' = proc_shutdown_called p.

(** One committed request: it is applied and leaves the queue, or it waits. *)
Inductive commit_turn (local : Z -> bool) (p : RequestProcessor) : RequestProcessor -> bool -> Prop :=
| ct_at_once r q srv p' :
    committed_queue p = r :: q -> apply_at_once local r = true ->
    p' = pop_committed (with_proc_server srv (with_applied (applied p ++ [r]) (drop_remote parallel local r p))) ->
    commit_turn local p p' true
| ct_waits r q :
    committed_queue p = r :: q -> apply_at_once local r = false ->
    shouldProcessCommittedRequest r (session_pending (session_id r) p) (error_request_ids p) = None ->
    commit_turn local p (set_pending (session_id r) (with_entry (session_id r)) p) false
| ct_local r q found r' srv p' :
    committed_queue p = r :: q -> apply_at_once local r = false ->
    shouldProcessCommittedRequest r (session_pending (session_id r) p) (error_request_ids p) = Some (found, r') ->
    p' = set_pending (session_id r)
           (keep_session (session_id r) (if found then tail (session_pending (session_id r) p)
                                         else session_pending (session_id r) p))
           (pop_committed (with_proc_server srv (with_applied (applied p ++ [r'])
              (set_pending (session_id r) (with_entry (session_id r)) p)))) ->
    commit_turn local p p' true.

Lemma processCommittedRequest_S now alive local n p p' :
  processCommittedRequest now alive local (S n) p = (Ok tt, p') -> committed_queue p <> [] ->
  (commit_turn local p p' false) \/
  exists p1, commit_turn local p p1 true /\ processCommittedRequest now alive local n p1 = (Ok tt, p').
Proof.
  intros E Hne. cbn [Processor.processCommittedRequest] in E. destruct (committed_queue p) as [|r q] eqn:Eq; [done|].
  destruct (apply_at_once local r) eqn:Eo.
  - unfold sm_bind, sm_modify in E. destruct (applyRequest now alive r _) as [[[]|] p2] eqn:Ea; [|done].
    apply applyRequest_frame in Ea as (srv & ->). right. eexists. split; [|exact E]. eapply ct_at_once; [done..|].
    assert (applied (drop_remote parallel local r p) = applied p) as -> by (unfold drop_remote; by destruct (_ || _)). done.
  - change (fun m : gmap Z (list RequestForSession) => <[session_id r := default [] (m !! session_id r)]> m)
      with (with_entry (session_id r)) in E. rewrite with_entry_pending in E.
    change (error_request_ids (set_pending (session_id r) (with_entry (session_id r)) p)) with (error_request_ids p) in E.
    destruct (shouldProcessCommittedRequest r _ _) as [[found r']|] eqn:Es.
    + unfold sm_bind, sm_modify in E. destruct (applyRequest now alive r' _) as [[[]|] p2] eqn:Ea; [|done].
      apply applyRequest_frame in Ea as (srv & ->). right. eexists. split; [|exact E]. eapply ct_local; [done..|].
      pose proof (with_entry_pending (session_id r) (session_id r) p) as Ep. unfold Processor.session_pending in *. cbn in *.
      by rewrite Ep.
    + injection E as <-. left. by eapply ct_waits.
Qed.

Lemma should_key r rs ids found r' : shouldProcessCommittedRequest r rs ids = Some (found, r') -> key r' = key r.
Proof. unfold shouldProcessCommittedRequest. intros E. repeat (case_match; simplify_eq/=); done. Qed.

Lemma commit_turn_frame local p p' b :
  commit_turn local p p' b -> proc_wf p -> (0 < parallel)%nat ->
  proc_wf p' /\ same_inputs p p' /\
  exists r q, committed_queue p = r :: q /\
    if b then committed_queue p' = q /\ key <$> applied p' = (key <$> applied p) ++ [key r]
    else committed_queue p' = r :: q /\ applied p' = applied p.
Proof.
  intros Ht Hw Hp. destruct Ht as [r q srv p' Hq Ho ->|r q Hq Ho Hs|r q found r' srv p' Hq Ho Hs ->].
  - pose proof (drop_remote_wf local r p Hw) as Hw1. split_and!.
    + by destruct Hw1; split.
    + unfold drop_remote. by destruct (_ || _).
    + exists r, q. assert (committed_queue (drop_remote parallel local r p) = committed_queue p) as Ec
        by (unfold drop_remote; by destruct (_ || _)). cbn. rewrite Ec, Hq. split_and!; [done|done|]. by rewrite fmap_app.
  - split_and!; [by apply with_entry_wf|done|]. by exists r, q.
  - pose proof (with_entry_wf (session_id r) p Hw) as Hw1. pose proof (session_pending_wf (session_id r) p Hw) as Hr.
    split_and!.
    + apply keep_pending_wf; [by destruct Hw1; split|]. destruct found; [|done]. by destruct Hr.
    + done.
    + exists r, q. cbn. rewrite Hq. split_and!; [done|done|]. rewrite fmap_app. f_equal. cbn [fmap list_fmap].
      by rewrite (should_key _ _ _ _ _ Hs).
Qed.

(** The writes passed to the store and those that wait are the committed ones. *)
Lemma commit_turn_writes local p p' b :
  commit_turn local p p' b -> proc_wf p -> (0 < parallel)%nat -> Forall is_write (key <$> committed_queue p) ->
  applied_writes p' ++ (key <$> committed_queue p') = applied_writes p ++ (key <$> committed_queue p) /\
  Forall is_write (key <$> committed_queue p').
Proof.
  intros Ht Hw Hp Hc. destruct (commit_turn_frame _ _ _ _ Ht Hw Hp) as (_ & _ & r & q & Eq & Hb). rewrite Eq in *.
  cbn [fmap list_fmap] in *. apply Forall_cons in Hc as [Hr Hc]. unfold applied_writes. destruct b; destruct Hb as [-> Ha].
  - rewrite Ha, filter_app, filter_cons_True, filter_nil by done. by rewrite <- app_assoc.
  - rewrite Ha. split; [done|by constructor].
Qed.

(** ** The order of a session *)

(** No other request has the number of a write. *)
Definition xids_distinct (ks : list (Z * ZooKeeperRequest)) : Prop :=
  forall i j k k', ks !! i = Some k -> ks !! j = Some k' -> is_write k -> xid k.2.1 = xid k'.2.1 -> i = j.

(** What the session sent is what was applied, what is pending and what is
    queued, in this order. *)
Definition session_order (s : Z) (sent : list (Z * ZooKeeperRequest)) (p : RequestProcessor) : Prop :=
  session_applied s p ++ (key <$> session_pending s p) ++ (key <$> queued s p) = sent.

(** The first [n] committed requests, as far as they are of the session, are
    among its pending ones. *)
Definition moved_first (s : Z) (n : nat) (p : RequestProcessor) : Prop :=
  filter (of_session s) (key <$> take n (committed_queue p)) `prefix_of` filter is_write (key <$> session_pending s p).

Lemma filter_writes_head rs k ks :
  filter is_write (key <$> rs) = k :: ks ->
  exists r rs', rs = r :: rs' /\
    (is_write (key r) /\ key r = k /\ filter is_write (key <$> rs') = ks \/
     ~ is_write (key r) /\ exists j r', rs' !! j = Some r' /\ key r' = k /\ is_write k).
Proof.
  destruct rs as [|r rs]; [done|]. cbn [fmap list_fmap]. intros E. exists r, rs. split; [done|].
  destruct (decide (is_write (key r))) as [Hr|Hr].
  - rewrite filter_cons_True in E by done. injection E as <- <-. by left.
  - rewrite filter_cons_False in E by done. right. split; [done|].
    assert (k ∈ filter is_write (key <$> rs)) as Hin by (rewrite E; by left).
    apply list_elem_of_filter in Hin as [Hw Hin]. apply list_elem_of_fmap in Hin as (r' & -> & Hin).
    apply list_elem_of_lookup_1 in Hin as [j Hj]. by exists j, r'.
Qed.

(** A committed request that is not in the order of the session. *)
Lemma other_session s n sent p p' r q :
  committed_queue p = r :: q -> committed_queue p' = q -> ~ of_session s (key r) ->
  session_pending s p' = session_pending s p -> requests_queue p' = requests_queue p ->
  key <$> applied p' = (key <$> applied p) ++ [key r] ->
  session_order s sent p -> moved_first s (S n) p -> session_order s sent p' /\ moved_first s n p'.
Proof.
  intros Hq Hq' Hr Hp Hreq Ha Ho Hm. unfold session_order, moved_first, session_applied, queued in *.
  rewrite Hp, Hreq, Hq', Ha, filter_app, filter_cons_False, app_nil_r by done. split; [done|].
  rewrite Hq in Hm. cbn [take fmap list_fmap] in Hm. by rewrite filter_cons_False in Hm.
Qed.

(** A write that is committed is the first of the pending requests of its
    session, unless a read is before it. *)
Inductive first_pending (s : Z) (n : nat) (p : RequestProcessor) (r : RequestForSession) (q : list RequestForSession) : Prop :=
| fp_write first rest r' :
    session_pending s p = first :: rest -> key first = key r ->
    filter (of_session s) (key <$> take n q) `prefix_of` filter is_write (key <$> rest) ->
    shouldProcessCommittedRequest r (session_pending s p) (error_request_ids p) = Some (true, r') ->
    first_pending s n p r q
| fp_read first rest :
    session_pending s p = first :: rest -> ~ is_write (key first) ->
    shouldProcessCommittedRequest r (session_pending s p) (error_request_ids p) = None ->
    first_pending s n p r q.

Lemma should_in_order s n sent p r q :
  xids_distinct sent -> session_order s sent p -> moved_first s (S n) p ->
  committed_queue p = r :: q -> of_session s (key r) -> first_pending s n p r q.
Proof.
  intros Hx Ho Hm Hq Hr. unfold moved_first in Hm. rewrite Hq in Hm. cbn [take fmap list_fmap] in Hm.
  rewrite filter_cons_True in Hm by done. destruct Hm as [ks Hks].
  destruct (filter_writes_head _ _ _ Hks) as (first & rest & Ep & Hcase).
  unfold session_order in Ho. rewrite Ep in Ho. cbn [fmap list_fmap] in Ho.
  assert (forall x, sent !! (length (session_applied s p) + x)%nat =
    ((key first :: (key <$> rest)) ++ (key <$> queued s p)) !! x) as Hat.
  { intros x. rewrite <- Ho. by rewrite lookup_app_r, Nat.add_comm, Nat.add_sub by lia. }
  destruct Hcase as [(Hw & Ek & Hrest)|(Hw & j & r' & Hj & Ek & Hkw)].
  - eapply (fp_write _ _ _ _ _ first rest); [done|done|rewrite Hrest; by eexists|]. rewrite Ep. cbn.
    rewrite decide_True by (injection Ek as _ Ereq; by rewrite Ereq). done.
  - eapply (fp_read _ _ _ _ _ first rest); [done|done|]. rewrite Ep. cbn. rewrite decide_False.
    + unfold is_write in Hw. cbn in Hw. by destruct (request_isReadRequest _).
    + intros Ex. assert (S j = 0)%nat; [|done]. apply (Nat.add_cancel_l _ _ (length (session_applied s p))).
      apply (Hx _ _ (key r) (key first)); [| |done|done].
      * rewrite Hat. change (((key <$> rest) ++ (key <$> queued s p)) !! j = Some (key r)). rewrite lookup_app_l; [|rewrite length_fmap; by eapply lookup_lt_Some].
        by rewrite list_lookup_fmap, Hj, <- Ek.
      * by rewrite Hat.
Qed.

Lemma apply_at_once_other local s r :
  local s = true -> apply_at_once local r = true -> ~ of_session s (key r).
Proof.
  unfold apply_at_once. intros Hl Ho [<- [Hs Ha]]. cbn in *. rewrite Hs, Hl in Ho. cbn in Ho.
  by apply bool_decide_eq_true in Ho.
Qed.

Lemma apply_at_once_ordered local r : apply_at_once local r = false -> of_session (session_id r) (key r).
Proof.
  unfold apply_at_once. intros [[Hs _]%orb_false_elim Ha]%orb_false_elim. split; [done|]. split; [done|].
  by apply bool_decide_eq_false in Ha.
Qed.

Lemma commit_turn_session local s n sent p p' b :
  commit_turn local p p' b -> proc_wf p -> (0 < parallel)%nat -> local s = true -> xids_distinct sent ->
  session_order s sent p -> moved_first s (S n) p ->
  session_order s sent p' /\ (b = true -> moved_first s n p').
Proof.
  intros Ht Hw Hp Hl Hx Ho Hm. destruct (commit_turn_frame _ _ _ _ Ht Hw Hp) as (_ & (Hreq & _) & r & q & Eq & Hb).
  destruct Ht as [r0 q0 srv p' Hq Hat ->|r0 q0 Hq Hat Hs|r0 q0 found r' srv p' Hq Hat Hs ->];
    rewrite Eq in Hq; injection Hq as <- <-.
  - destruct Hb as [Hc Ha]. assert (~ of_session s (key r)) as Hno by by apply (apply_at_once_other local).
    edestruct (other_session s n sent p) as [H1 H2]; [exact Eq|exact Hc|exact Hno| |exact Hreq|exact Ha|done|done|by split].
    change (session_pending s (drop_remote parallel local r p) = session_pending s p). by apply drop_remote_pending.
  - split; [|done]. unfold session_order in *. by rewrite with_entry_pending.
  - destruct Hb as [Hc Ha]. destruct (decide (session_id r = s)) as [<-|Hne].
    + pose proof (apply_at_once_ordered _ _ Hat) as Hof.
      destruct (should_in_order _ _ _ _ _ _ Hx Ho Hm Eq Hof) as [first rest r1 Ep Ek Hpre Hs'|first rest Ep Hnw Hs'];
        rewrite Hs' in Hs; [|done]. injection Hs as <- <-.
      set (p0 := pop_committed _) in *. assert (proc_wf p0) as Hw0 by (by destruct (with_entry_wf (session_id r) p Hw); split).
      unfold session_order, moved_first, session_applied, queued in *. rewrite keep_pending_eq by done.
      rewrite Hc, Ha, Hreq, Ep in *. cbn [tail fmap list_fmap] in *.
      rewrite filter_app, filter_cons_True, filter_nil by done. rewrite <- Ho, <- Ek, <- app_assoc. done.
    + edestruct (other_session s n sent p) as [H1 H2];
        [exact Eq|exact Hc|by intros [? _]| |exact Hreq|exact Ha|done|done|by split].
      rewrite session_pending_set_ne by (intros m; by apply keep_session_ne).
      change (session_pending s (set_pending (session_id r) (with_entry (session_id r)) p) = session_pending s p).
      apply with_entry_pending.
Qed.

(** All that processing committed requests keeps, for the session [s] too where
    its requests come in order. *)
Lemma committed_view now alive local n : forall p p',
  proc_wf p -> (0 < parallel)%nat -> processCommittedRequest now alive local n p = (Ok tt, p') ->
  Forall is_write (key <$> committed_queue p) ->
  proc_wf p' /\ same_inputs p p' /\
  applied_writes p' ++ (key <$> committed_queue p') = applied_writes p ++ (key <$> committed_queue p) /\
  Forall is_write (key <$> committed_queue p') /\
  forall s sent, local s = true -> xids_distinct sent -> session_order s sent p -> moved_first s n p ->
    session_order s sent p'.
Proof.
  induction n as [|n IH]; intros p p' Hw Hp E Hc; [injection E as <-; by split_and!|].
  destruct (decide (committed_queue p = [])) as [Hq|Hq].
  { cbn [Processor.processCommittedRequest] in E. rewrite Hq in E. destruct (IH p p' Hw Hp E Hc) as (H1 & H2 & H3 & H4 & H5).
    split_and!; [done..|]. intros s sent Hl Hx Ho Hm. apply H5; [done..|]. unfold moved_first in *. by rewrite Hq, take_nil in *. }
  destruct (processCommittedRequest_S _ _ _ _ _ _ E Hq) as [Ht|(p1 & Ht & E1)];
    destruct (commit_turn_frame _ _ _ _ Ht Hw Hp) as (Hw1 & Hi1 & _);
    destruct (commit_turn_writes _ _ _ _ Ht Hw Hp Hc) as (Ha1 & Hc1).
  - split_and!; [done..|]. intros s sent Hl Hx Ho Hm. by eapply commit_turn_session.
  - destruct (IH p1 p' Hw1 Hp E1 Hc1) as (H1 & H2 & H3 & H4 & H5). split_and!.
    + done.
    + unfold same_inputs in *. intuition congruence.
    + by rewrite H3.
    + done.
    + intros s sent Hl Hx Ho Hm. destruct (commit_turn_session _ s n sent _ _ _ Ht Hw Hp Hl Hx Ho Hm) as [Ho1 Hm1]. by apply H5; auto.
Qed.

(** ** Failed requests *)

Lemma take_match_Permutation f rs r rest : take_match f rs = Some (r, rest) -> rs ≡ₚ r :: rest.
Proof.
  revert r rest. induction rs as [|x rs IH]; intros r rest; cbn [take_match]; [done|].
  destruct (f x); [by intros [= <- <-]|]. destruct (take_match f rs) as [[y rest']|] eqn:E; [|done].
  intros [= <- <-]. rewrite (IH _ _ eq_refl). apply Permutation_swap.
Qed.

Definition no_errors_of (s : Z) (p : RequestProcessor) : Prop := Forall (fun e => err_session_id e <> s) (error_requests p).

(** A failed request changes only what is pending of its session. *)
Lemma process_error_view now local e p :
  proc_wf p ->
  let p' := process_error parallel now local e p in
  proc_wf p' /\ requests_queue p' = requests_queue p /\ committed_queue p' = committed_queue p /\ applied p' = applied p /\
  error_requests p' = error_requests p /\ proc_shutdown_called p' = proc_shutdown_called p /\
  forall s, err_session_id e <> s -> session_pending s p' = session_pending s p.
Proof.
  intros Hw. unfold process_error. destruct (isSessionRequest (opnum e)); [by split_and!; try done; destruct Hw; split|].
  destruct (local (err_session_id e)); cbn [negb].
  2:{ split_and!; try done.
      - apply set_pending_wf; [done| |].
        + intros m _ u rs Hl Hne. by rewrite lookup_delete_ne in Hl.
        + intros m _ rs. by rewrite lookup_delete_eq.
      - intros s Hs. apply session_pending_set_ne. intros m. by apply lookup_delete_ne. }
  unfold findErrorRequest. case_decide; [by split_and!; try done; destruct Hw; split|].
  destruct (take_match _ _) as [[r rest]|] eqn:Et; [|done]. split_and!; try done.
  - apply take_match_Permutation in Et. pose proof (session_pending_wf (err_session_id e) p Hw) as Hf. rewrite Et in Hf.
    apply Forall_cons in Hf as [_ Hf].
    assert (proc_wf (set_pending (err_session_id e) <[err_session_id e := rest]> p)) as Hw1; [|by destruct Hw1; split].
    apply set_pending_wf; [done| |].
    + intros m _ u rs Hl Hne. by rewrite lookup_insert_ne in Hl.
    + intros m _ rs. rewrite lookup_insert_eq. by intros [= <-].
  - intros s Hs.
    change (session_pending s (set_pending (err_session_id e) <[err_session_id e := rest]> p) = session_pending s p).
    apply session_pending_set_ne. intros m. by apply lookup_insert_ne.
Qed.

Lemma error_loop_view now local n : forall p p',
  proc_wf p -> error_loop parallel now local n p = (Ok tt, p') ->
  proc_wf p' /\ requests_queue p' = requests_queue p /\ committed_queue p' = committed_queue p /\ applied p' = applied p /\
  proc_shutdown_called p' = proc_shutdown_called p /\
  forall s, no_errors_of s p -> no_errors_of s p' /\ session_pending s p' = session_pending s p.
Proof.
  induction n as [|n IH]; intros p p' Hw E; cbn [error_loop] in E; [injection E as <-; by split_and!|].
  destruct (error_requests p) as [|e es] eqn:Ee; [done|].
  destruct (process_error_view now local e p Hw) as (Hw1 & Hr1 & Hc1 & Ha1 & _ & Hs1 & Hp1).
  set (p1 := process_error parallel now local e p) in *. set (ids := _ ∖ _) in *.
  assert (proc_wf (with_errors es ids p1)) as Hw2 by (by destruct Hw1; split).
  destruct (IH _ p' Hw2 E) as (H1 & H2 & H3 & H4 & H5 & H6). cbn in H2, H3, H4, H5. split_and!; try congruence.
  intros s Hs. unfold no_errors_of in Hs. rewrite Ee in Hs. apply Forall_cons in Hs as [Hse Hs].
  destruct (H6 s Hs) as [H7 H8]. split; [done|]. rewrite H8. by apply Hp1.
Qed.

Lemma error_view now local n p p' :
  proc_wf p -> processErrorRequest parallel now local n p = (Ok tt, p') ->
  proc_wf p' /\ requests_queue p' = requests_queue p /\ committed_queue p' = committed_queue p /\ applied p' = applied p /\
  proc_shutdown_called p' = proc_shutdown_called p /\
  forall s, no_errors_of s p -> no_errors_of s p' /\ session_pending s p' = session_pending s p.
Proof. intros Hw. unfold processErrorRequest. case_decide; [|by apply error_loop_view]. intros [= <-]. by split_and!. Qed.
End theorems.
