(* ===== verification/ProcessorTheorems.v ===== *)
(** * What the request processor promises

    Over all interleavings with the threads that push requests, commit them and
    report errors: committed writes reach the store in the order of the log, and
    the requests of a session in the order in which the session sent them, reads
    and writes alike; no committed request waits for ever. *)

From S2P Require Import Prelude Coordination Store Processor ProcessorSteps.

Section theorems.
Context `{IterOrder} (sha1_base64 : string -> string) (compat : bool) (parallel : nat).
Abbreviation run_step := (run_step sha1_base64 compat parallel).
Abbreviation proc_step := (proc_step sha1_base64 compat parallel).
Abbreviation proc_run := (proc_run sha1_base64 compat parallel).
Abbreviation runner := (getRunnerId parallel).

(** ** The order of the log *)

Record log_order (evs : list Event) (p : RequestProcessor) : Prop := {
  lo_wf : proc_wf parallel p;
  lo_running : proc_shutdown_called p = false;
  lo_writes : applied_writes p ++ (key <$> committed_queue p) = commits evs;
  lo_committed : Forall is_write (key <$> committed_queue p)
}.

Lemma commits_snoc evs ev :
  commits (evs ++ [ev]) = commits evs ++ match ev with EvCommit r => [key r] | _ => [] end.
Proof. unfold commits. rewrite omap_app. f_equal. by destruct ev. Qed.

Lemma pushes_snoc evs ev :
  pushes (evs ++ [ev]) = pushes evs ++ match ev with EvPush r => [key r] | _ => [] end.
Proof. unfold pushes. rewrite omap_app. f_equal. by destruct ev. Qed.

Lemma processor_init_wf srv : proc_wf parallel (processor_init parallel srv).
Proof.
  split; cbn; [apply length_replicate..| |].
  - intros i q r Hq Hr. apply lookup_replicate in Hq as [-> _]. by apply elem_of_nil in Hr.
  - intros i m t rs Hm Ht. apply lookup_replicate in Hm as [-> _]. by rewrite lookup_empty in Ht.
Qed.

Lemma push_wf r p : proc_wf parallel p -> proc_wf parallel (processor_push parallel r p).
Proof.
  intros Hw. unfold processor_push. destruct (proc_shutdown_called p); [done|]. destruct Hw as [H1 H2 H3 H4].
  split; cbn; [by rewrite length_alter|done| |done]. intros i q r' Hi Hr.
  destruct (decide (getRunnerId parallel (session_id r) = i)) as [<-|Hne].
  - rewrite list_lookup_alter_eq in Hi. destruct (requests_queue p !! _) as [q0|] eqn:Eq; [|done]. injection Hi as <-.
    apply elem_of_app in Hr as [Hr| ->%list_elem_of_singleton]; [by eapply H3|done].
  - rewrite list_lookup_alter_ne in Hi by done. by eapply H3.
Qed.

Lemma log_order_run evs i pc p pc' p' :
  (0 < parallel)%nat -> log_order evs p -> run_step i pc p = (Ok pc', p') -> log_order (evs ++ [EvRun i]) p'.
Proof.
  intros Hp [Hw Hr Ha Hc] E. unfold Processor.run_step in E.
  assert (forall q, log_order evs q -> log_order (evs ++ [EvRun i]) q) as Hev.
  { intros q [? ? Hq ?]. split; try done. by rewrite commits_snoc, app_nil_r. }
  apply Hev. destruct pc as [|c|k c e|k c e|c e|e|]; try (injection E as <- <-; by split).
  - case_decide; [|injection E as <- <-; by split]. unfold sm_bind in E.
    destruct (moveRequestToPendingQueue k p) as [[[]|] p1] eqn:Em; [|done]. injection E as <- <-.
    destruct (move_view _ _ _ _ Hw Em) as (H1 & H2 & H3 & H4 & H5 & H6 & _). split; unfold applied_writes in *; congruence.
  - unfold sm_bind in E. destruct (processReadRequests _ _ _ _ _ _) as [[[]|] p1] eqn:Er; [|done]. injection E as <- <-.
    destruct (processReadRequests_view _ _ _ _ _ _ _ _ Hw Hp Er) as (H1 & (H2 & H3 & H4 & H5 & H6) & H7 & _). split; congruence.
  - unfold sm_bind in E. destruct (processCommittedRequest _ _ _ _ _ _ _ _) as [[[]|] p1] eqn:Ec; [|done]. injection E as <- <-.
    destruct (committed_view _ _ _ _ _ _ _ _ _ Hw Hp Ec Hc) as (H1 & (H2 & H3 & H4 & H5) & H6 & H7 & _). split; congruence.
  - unfold sm_bind in E. destruct (processErrorRequest _ _ _ _ _) as [[[]|] p1] eqn:Ee; [|done]. injection E as <- <-.
    destruct (error_view _ _ _ _ _ _ Hw Ee) as (H1 & H2 & H3 & H4 & H5 & _). split; unfold applied_writes in *; congruence.
Qed.

Lemma log_order_reachable srv evs st :
  (0 < parallel)%nat -> proc_run (RWait, processor_init parallel srv) evs st -> Forall is_write (commits evs) ->
  log_order evs st.2.
Proof.
  intros Hp Hr. remember (RWait, processor_init parallel srv) as st0 eqn:E0. revert E0.
  induction Hr as [st|st evs st1 ev st2 Hr IH Hs]; intros -> Hc.
  { split; [apply processor_init_wf|done|done|by apply Forall_nil]. }
  rewrite commits_snoc in Hc. apply Forall_app in Hc as [Hc Hev]. specialize (IH eq_refl Hc).
  pose proof IH as [Hw Hrun Ha Hcq]. destruct Hs as [pc p r q Hq Hcap|pc p r Hcap|pc p e|pc p i pc' p' E]; cbn [snd] in *.
  - split; [by apply push_wf|..]; unfold processor_push; rewrite Hrun; try done. by rewrite commits_snoc, app_nil_r.
  - unfold processor_commit. rewrite Hrun. split; cbn; [by destruct Hw; split|done| |].
    + by rewrite commits_snoc, <- Ha, fmap_app, app_assoc.
    + rewrite fmap_app. by apply Forall_app.
  - unfold onError. rewrite Hrun. split; cbn; [by destruct Hw; split|done| |done]. by rewrite commits_snoc, app_nil_r.
  - by eapply log_order_run.
Qed.

(** C5: over all interleavings of the processor with the threads that push
    requests, commit them and report errors, the writes passed to the store,
    with those that wait in the queue behind them, are the committed ones in the
    order of the log: none is lost, repeated or passed by another. *)
Theorem writes_applied_in_log_order srv evs pc p :
  (0 < parallel)%nat -> proc_run (RWait, processor_init parallel srv) evs (pc, p) -> Forall is_write (commits evs) ->
  applied_writes p ++ (key <$> committed_queue p) = commits evs.
Proof. intros Hp Hr Hc. apply (lo_writes _ _ (log_order_reachable _ _ _ Hp Hr Hc)). Qed.

(** ** The order of a session *)

(** What the session sent. *)
Definition sent (s : Z) (evs : list Event) : list (Z * ZooKeeperRequest) := filter (fun k => k.1 = s) (pushes evs).

(** The session is local, none of its requests failed, its numbers are distinct,
    and Raft commits its writes in the order in which they were sent. *)
Record session_ok (s : Z) (evs : list Event) : Prop := {
  so_ordered r : EvPush r ∈ evs -> session_id r = s -> ordered (request r).2;
  so_local i : EvRun i ∈ evs -> in_local i s = true;
  so_errors e : EvError e ∈ evs -> err_session_id e <> s;
  so_xids : xids_distinct (sent s evs);
  so_commits pre r post : evs = pre ++ EvCommit r :: post -> of_session s (key r) ->
    filter (of_session s) (commits pre ++ [key r]) `prefix_of` filter is_write (sent s pre)
}.

Lemma sent_snoc s evs ev :
  sent s (evs ++ [ev]) =
  sent s evs ++ match ev with EvPush r => if decide (session_id r = s) then [key r] else [] | _ => [] end.
Proof.
  unfold sent. rewrite pushes_snoc, filter_app. f_equal. destruct ev as [r| | |]; [|done..]. case_decide.
  - by rewrite filter_cons_True.
  - by rewrite filter_cons_False.
Qed.

Lemma session_ok_prefix s evs ev : session_ok s (evs ++ [ev]) -> session_ok s evs.
Proof.
  intros [H1 H2 H3 H4 H5]. split.
  - intros r Hr. apply H1. apply elem_of_app. by left.
  - intros i Hi. apply H2. apply elem_of_app. by left.
  - intros e He. apply H3. apply elem_of_app. by left.
  - intros i j k k' Hi Hj. apply H4; rewrite sent_snoc; by apply lookup_app_l_Some.
  - intros pre r post ->. apply (H5 pre r (post ++ [ev])). by rewrite <- app_assoc.
Qed.

(** What an event needs for the session to stay as it should be. *)
Definition event_ok (s : Z) (evs : list Event) (ev : Event) : Prop :=
  match ev with
  | EvPush r => session_id r = s -> ordered (request r).2 /\ xids_distinct (sent s (evs ++ [ev]))
  | EvCommit r => of_session s (key r) -> filter (of_session s) (commits evs ++ [key r]) `prefix_of` filter is_write (sent s evs)
  | EvError e => err_session_id e <> s
  | EvRun i => in_local i s = true
  end.

Lemma session_ok_snoc s evs ev : session_ok s evs -> event_ok s evs ev -> session_ok s (evs ++ [ev]).
Proof.
  intros [H1 H2 H3 H4 H5] Hev. split.
  - intros r [Hr|E%list_elem_of_singleton]%elem_of_app; [by apply H1|]. intros Hs. rewrite <- E in Hev. by apply Hev.
  - intros j [Hj|E%list_elem_of_singleton]%elem_of_app; [by apply H2|by rewrite <- E in Hev].
  - intros e [He|E%list_elem_of_singleton]%elem_of_app; [by apply H3|by rewrite <- E in Hev].
  - rewrite sent_snoc. destruct ev as [r| | |]; [|by rewrite app_nil_r..]. case_decide as Hs; [|by rewrite app_nil_r].
    destruct (Hev Hs) as [_ Hx]. by rewrite sent_snoc, decide_True in Hx.
  - intros pre r post E. destruct post as [|ev' post _] using rev_ind.
    + apply app_inj_2 in E as [-> E]; [|done]. injection E as ->. exact Hev.
    + rewrite app_comm_cons, app_assoc in E. apply app_inj_2 in E as [E _]; [|done]. by apply (H5 pre r post).
Qed.

(** The writes of the session that were committed are the first it sent. *)
Lemma commits_of_session s evs :
  session_ok s evs -> filter (of_session s) (commits evs) `prefix_of` filter is_write (sent s evs).
Proof.
  induction evs as [|ev evs IH] using rev_ind; intros Hok; [done|]. pose proof (session_ok_prefix _ _ _ Hok) as Hpre.
  specialize (IH Hpre). rewrite commits_snoc, sent_snoc, filter_app. destruct ev as [r|r|e|i]; cbn [filter]; rewrite ?app_nil_r.
  - etrans; [exact IH|]. rewrite filter_app. by eexists.
  - destruct (decide (of_session s (key r))) as [Hr|Hr].
    + rewrite <- filter_app. apply (so_commits _ _ Hok evs r []); [done|done].
    + by rewrite filter_cons_False, app_nil_r by done.
  - done.
  - done.
Qed.

Lemma filter_comm {A} (P Q : A -> Prop) `{!forall x, Decision (P x), !forall x, Decision (Q x)} (l : list A) :
  filter P (filter Q l) = filter Q (filter P l).
Proof. rewrite !filter_filter_and. apply list_filter_iff. intros x. tauto. Qed.

(** What is committed of the session and not yet applied is the beginning of the
    writes that wait. *)
Lemma committed_waiting s evs p :
  log_order evs p -> session_ok s evs -> session_order parallel s (sent s evs) p ->
  filter (of_session s) (key <$> committed_queue p) `prefix_of`
  filter is_write ((key <$> session_pending parallel s p) ++ (key <$> queued parallel s p)).
Proof.
  intros Hlo Hok Ho. pose proof (commits_of_session s evs Hok) as Hpre. rewrite <- (lo_writes _ _ Hlo) in Hpre.
  rewrite <- Ho in Hpre. unfold applied_writes in Hpre. rewrite !(filter_app _ (filter _ _)), (filter_app _ (session_applied _ _)), filter_comm in Hpre.
  unfold session_applied in Hpre. by apply prefix_app_inv in Hpre.
Qed.

(** The number of committed requests the turn deals with. *)
Definition counted (pc : RunPc) : nat :=
  match pc with RErrorSize c | RMove _ c _ | RReads _ c _ | RCommitted c _ => c | _ => O end.

(** The requests of the session were moved in this turn. *)
Definition moved (s : Z) (pc : RunPc) : Prop :=
  match pc with
  | RMove i _ _ => (runner s < i)%nat
  | RReads i _ _ => (runner s <= i)%nat
  | RCommitted _ _ => True
  | _ => False
  end.

(** The reads of the session were processed in this turn. *)
Definition read (s : Z) (pc : RunPc) : Prop :=
  match pc with
  | RMove i _ _ | RReads i _ _ => (runner s < i)%nat
  | RCommitted _ _ => True
  | _ => False
  end.

Record session_inv (s : Z) (evs : list Event) (pc : RunPc) (p : RequestProcessor) : Prop := {
  si_order : session_order parallel s (sent s evs) p;
  si_errors : no_errors_of s p;
  si_counted : (counted pc <= length (committed_queue p))%nat;
  si_moved : moved s pc -> moved_first parallel s (counted pc) p;
  si_read : read s pc -> no_leading_read parallel s p
}.

Lemma sent_ordered s evs : session_ok s evs -> Forall (fun k => ordered k.2.2) (sent s evs).
Proof.
  intros Hok. apply Forall_forall. intros k. unfold sent, pushes.
  intros [Hs (ev & Hin & Ek)%list_elem_of_omap]%list_elem_of_filter.
  destruct ev as [r| | |]; [|done..]. injection Ek as <-. by apply (so_ordered _ _ Hok r).
Qed.

Lemma moved_first_take s n p :
  filter (of_session s) (key <$> committed_queue p) `prefix_of` filter is_write (key <$> session_pending parallel s p) ->
  moved_first parallel s n p.
Proof.
  intros Hpre. unfold moved_first. etrans; [|exact Hpre]. rewrite <- (take_drop n (committed_queue p)) at 2.
  rewrite fmap_app, filter_app. by eexists.
Qed.

Lemma session_push s evs pc p r q :
  log_order evs p -> session_inv s evs pc p -> requests_queue p !! runner (session_id r) = Some q ->
  session_inv s (evs ++ [EvPush r]) pc (processor_push parallel r p).
Proof.
  intros Hlo [Ho He Hc Hm Hrd] Hq. unfold processor_push. rewrite (lo_running _ _ Hlo). split; [|done..].
  unfold session_order, queued in *. rewrite sent_snoc, <- Ho. cbn [requests_queue with_requests].
  change (session_applied s (with_requests _ p)) with (session_applied s p).
  change (session_pending parallel s (with_requests _ p)) with (session_pending parallel s p). rewrite <- !app_assoc. f_equal. f_equal.
  destruct (decide (runner (session_id r) = runner s)) as [E|E].
  - rewrite <- E, list_lookup_alter_eq, Hq. cbn. rewrite filter_app, fmap_app. f_equal.
    case_decide; [by rewrite filter_cons_True|by rewrite filter_cons_False].
  - rewrite list_lookup_alter_ne by done. by rewrite decide_False, app_nil_r by congruence.
Qed.

Lemma session_commit s evs pc p r :
  log_order evs p -> session_inv s evs pc p -> session_inv s (evs ++ [EvCommit r]) pc (processor_commit r p).
Proof.
  intros Hlo [Ho He Hc Hm Hrd]. unfold processor_commit. rewrite (lo_running _ _ Hlo).
  split; [by rewrite sent_snoc, app_nil_r|done|cbn; rewrite length_app; lia| |done]. intros Hmv. specialize (Hm Hmv).
  unfold moved_first in *. cbn. by rewrite take_app_le.
Qed.

Lemma session_error s evs pc p e :
  log_order evs p -> err_session_id e <> s -> session_inv s evs pc p -> session_inv s (evs ++ [EvError e]) pc (onError e p).
Proof.
  intros Hlo Hne [Ho He Hc Hm Hrd]. unfold onError. rewrite (lo_running _ _ Hlo).
  split; [by rewrite sent_snoc, app_nil_r| |done..]. apply Forall_app. by split; [|constructor].
Qed.

Lemma session_move s evs p p' i c e :
  log_order evs p -> session_ok s evs -> session_inv s evs (RMove i c e) p -> moveRequestToPendingQueue i p = (Ok tt, p') ->
  log_order evs p' -> session_inv s evs (RReads i c e) p'.
Proof.
  intros Hlo Hok [Ho He Hc Hm Hrd] E Hlo'. destruct (move_view _ _ _ _ (lo_wf _ _ Hlo) E) as (_ & Hq & Ha & _ & Her & _ & Hs).
  specialize (Hs s). pose proof (sent_ordered _ _ Hok) as Hord. rewrite <- Ho in Hord.
  assert (session_order parallel s (sent s evs) p') as Ho'.
  { unfold session_order, session_applied in *. rewrite Ha, <- Ho. f_equal. case_decide; destruct Hs as [-> ->]; [|done].
    rewrite fmap_app, app_nil_r. f_equal. f_equal. apply filter_all. intros r Hr Hau.
    apply Forall_app in Hord as [_ Hord]. apply Forall_app in Hord as [_ Hord].
    rewrite Forall_forall in Hord. by destruct (Hord (key r) (list_elem_of_fmap_2 key _ _ Hr)). }
  split; [done|by unfold no_errors_of; rewrite Her|by rewrite Hq|intros Hmv; cbn in Hmv |- *|].
  2:{ intros Hmv. cbn in Hmv. unfold no_leading_read in *. rewrite decide_False in Hs by lia. destruct Hs as [-> _]. by apply Hrd. }
  case_decide as Hi; destruct Hs as [Hp1 Hq1].
  - apply moved_first_take. pose proof (committed_waiting s evs p' Hlo' Hok Ho') as Hpre.
    by rewrite Hq1, app_nil_r in Hpre.
  - unfold moved_first in *. rewrite Hp1, Hq. apply Hm. cbn. lia.
Qed.

Lemma session_reads s evs p p' i c e now alive :
  (0 < parallel)%nat -> log_order evs p -> session_inv s evs (RReads i c e) p ->
  processReadRequests sha1_base64 compat now alive i p = (Ok tt, p') -> session_inv s evs (RMove (S i) c e) p'.
Proof.
  intros Hpar Hlo [Ho He Hc Hm Hrd] E.
  destruct (processReadRequests_view _ _ _ _ _ _ _ _ (lo_wf _ _ Hlo) Hpar E) as (_ & (Hr & Hq & Her & _) & _ & Hd & Hh).
  destruct (Hd s) as (rd & Hrds & Ep & Ea). split.
  - unfold session_order, queued in *. rewrite Ea, Hr, <- Ho, Ep, fmap_app, <- !app_assoc. done.
  - by unfold no_errors_of; rewrite Her.
  - by rewrite Hq.
  - intros Hmv. cbn in Hmv. unfold moved_first in *. cbn in Hm |- *. rewrite Ep, fmap_app, filter_app, filter_writes_reads in Hm by done.
    rewrite Hq. apply Hm. lia.
  - intros Hmv. cbn in Hmv. destruct (decide (runner s = i)) as [Hi|Hi]; [by apply Hh|].
    eapply no_leading_read_done; [apply Hrd; cbn; lia|apply Hd].
Qed.

Lemma session_run s evs i pc p pc' p' :
  (0 < parallel)%nat -> log_order evs p -> session_ok s evs -> in_local i s = true -> session_inv s evs pc p ->
  run_step i pc p = (Ok pc', p') -> session_inv s (evs ++ [EvRun i]) pc' p'.
Proof.
  intros Hpar Hlo Hok Hl Hi E. pose proof (log_order_run _ _ _ _ _ _ Hpar Hlo E) as Hlo'.
  assert (forall pc q, session_inv s evs pc q -> session_inv s (evs ++ [EvRun i]) pc q) as Hev.
  { intros pc0 q [? ? ? ? ?]. split; try done. by rewrite sent_snoc, app_nil_r. }
  assert (log_order evs p') as Hlo1.
  { destruct Hlo' as [? ? Hw ?]. split; try done. by rewrite Hw, commits_snoc, app_nil_r. }
  apply Hev. unfold Processor.run_step in E. destruct pc as [|c|k c e|k c e|c e|e|].
  - injection E as <- <-. destruct Hi as [Ho He Hc _ _]. rewrite (lo_running _ _ Hlo). split; [done|done| | |]; cbn; lia.
  - injection E as <- <-. destruct Hi as [Ho He Hc _ _]. split; [done|done|done| |]; cbn; lia.
  - case_decide as Hk; [unfold sm_bind in E|injection E as <- <-].
    + destruct (moveRequestToPendingQueue k p) as [[[]|] p1] eqn:Em; [|done]. injection E as <- <-. exact (session_move _ _ _ _ _ _ _ Hlo Hok Hi Em Hlo1).
    + pose proof (getRunnerId_lt parallel s Hpar). destruct Hi as [Ho He Hc Hm Hrd].
      split; [done|done|done| |]; intros _; [apply Hm|apply Hrd]; cbn; lia.
  - unfold sm_bind in E. destruct (processReadRequests _ _ _ _ _ _) as [[[]|] p1] eqn:Er; [|done]. injection E as <- <-.
    exact (session_reads _ _ _ _ _ _ _ _ _ Hpar Hlo Hi Er).
  - unfold sm_bind in E. destruct (processCommittedRequest _ _ _ _ _ _ _ _) as [[[]|] p1] eqn:Ec; [|done]. injection E as <- <-.
    destruct Hi as [Ho He Hc Hm _].
    destruct (committed_view _ _ _ _ _ _ _ _ _ (lo_wf _ _ Hlo) Hpar Ec (lo_committed _ _ Hlo)) as (_ & (_ & Her & _) & _ & _ & Hv).
    split; [|unfold no_errors_of; by rewrite Her|cbn; lia|by intros []|by intros []]. apply Hv; [done|apply (so_xids _ _ Hok)|done|by apply Hm].
  - unfold sm_bind in E. destruct (processErrorRequest _ _ _ _ _) as [[[]|] p1] eqn:Ee; [|done]. injection E as <- <-.
    destruct Hi as [Ho He Hc _ _]. destruct (error_view _ _ _ _ _ _ (lo_wf _ _ Hlo) Ee) as (_ & Hr & _ & Ha & _ & Hv).
    destruct (Hv s He) as [He' Hp']. split; [|done|cbn; lia|by intros []|by intros []].
    unfold session_order, session_applied, queued in *. by rewrite Ha, Hp', Hr.
  - injection E as <- <-. destruct Hi. by split.
Qed.

Lemma session_inv_reachable srv s evs st :
  (0 < parallel)%nat -> proc_run (RWait, processor_init parallel srv) evs st -> Forall is_write (commits evs) ->
  session_ok s evs -> session_inv s evs st.1 st.2.
Proof.
  intros Hpar Hr. remember (RWait, processor_init parallel srv) as st0 eqn:E0. revert E0.
  induction Hr as [st|st evs st1 ev st2 Hr IH Hs]; intros -> Hc Hok.
  { split; [|by apply Forall_nil|cbn; lia|by intros []|by intros []]. unfold session_order, queued, session_pending. cbn.
    rewrite !lookup_replicate_2 by by apply getRunnerId_lt. by cbn; rewrite lookup_empty. }
  rewrite commits_snoc in Hc. apply Forall_app in Hc as [Hc Hev]. pose proof (session_ok_prefix _ _ _ Hok) as Hok1.
  specialize (IH eq_refl Hc Hok1). pose proof (log_order_reachable _ _ _ Hpar Hr Hc) as Hlo.
  assert (ev ∈ evs ++ [ev]) as Hin by (apply elem_of_app; right; by left).
  destruct Hs as [pc p r q Hq Hcap|pc p r Hcap|pc p e|pc p i pc' p' E]; cbn [fst snd] in *.
  - by eapply session_push.
  - by apply session_commit.
  - apply session_error; [done|by apply (so_errors _ _ Hok)|done].
  - eapply session_run; [done..| |done|exact E]. by apply (so_local _ _ Hok).
Qed.

(** C6: the requests of a session, reads and writes alike, are passed to the store
    in the order in which the session sent them, whatever other sessions and threads
    do: those that were passed to it, the pending ones and the queued ones are
    together exactly what the session sent. The session is local, uses every number
    once, sends no Auth, none of its requests is reported as failed, and Raft commits
    its writes in the order in which they were sent ([session_ok]); a write that was
    reported as failed and is committed later may be overtaken by a read. *)
Theorem session_requests_in_order srv s evs pc p :
  (0 < parallel)%nat -> proc_run (RWait, processor_init parallel srv) evs (pc, p) -> Forall is_write (commits evs) ->
  session_ok s evs ->
  session_applied s p ++ (key <$> session_pending parallel s p) ++ (key <$> queued parallel s p) = sent s evs.
Proof. intros Hpar Hr Hc Hok. exact (si_order _ _ _ _ (session_inv_reachable _ _ _ _ Hpar Hr Hc Hok)). Qed.
End theorems.
