(* ===== verification/ProcessorProgress.v ===== *)
(** * The request processor makes progress

    The loop of [RequestProcessor::run] faults only where the store does, counts
    no more failed requests than it has, and applies, turn by turn, all that was
    committed. *)

From S2P Require Import Prelude Coordination Store Processor ProcessorSteps ProcessorTheorems.

Section theorems.
Context `{IterOrder} (sha1_base64 : string -> string) (compat : bool) (parallel : nat).
Abbreviation applyRequest := (applyRequest sha1_base64 compat).
Abbreviation processReadRequests := (processReadRequests sha1_base64 compat).
Abbreviation processCommittedRequest := (processCommittedRequest sha1_base64 compat parallel).
Abbreviation run_step := (run_step sha1_base64 compat parallel).
Abbreviation run_steps := (run_steps sha1_base64 compat parallel).
Abbreviation run_turn := (run_turn sha1_base64 compat parallel).
Abbreviation proc_step := (proc_step sha1_base64 compat parallel).
Abbreviation proc_run := (proc_run sha1_base64 compat parallel).
Abbreviation runner := (getRunnerId parallel).

(** ** Faults *)

(** The fault is the one of the store on the last request, or the abort for the
    exception of a write. *)
Definition store_fault (f : fault) (p : RequestProcessor) : Prop :=
  exists now r srv f', last (applied p) = Some r /\
    processRequest sha1_base64 compat now r None true false srv = (Fault f', proc_server p) /\ (f = f' \/ f = Terminate).

Definition store_faults {A} (m : ProcM A) : Prop := forall p f p', m p = (Fault f, p') -> store_fault f p'.

Lemma store_faults_ret {A} (a : A) : store_faults (sm_ret a).
Proof. by intros p f p'. Qed.

Lemma store_faults_get {A} (g : RequestProcessor -> A) : store_faults (sm_get g).
Proof. by intros p f p'. Qed.

Lemma store_faults_modify g : store_faults (sm_modify g : ProcM unit).
Proof. by intros p f p'. Qed.

Lemma store_faults_bind {A B} (m : ProcM A) (k : A -> ProcM B) :
  store_faults m -> (forall a, store_faults (k a)) -> store_faults (sm_bind m k).
Proof.
  intros Hm Hk p f p'. unfold sm_bind. destruct (m p) as [[a|f1] p1] eqn:E; [by apply Hk|]. intros [= <- <-]. by eapply Hm.
Qed.

Lemma store_faults_apply now alive r : store_faults (applyRequest now alive r).
Proof.
  intros p f p'. unfold Processor.applyRequest. destruct (processRequest _ _ _ _ _ _ _ _) as [o srv] eqn:E. intros Er.
  exists (now r), r, (proc_server p).
  repeat (case_match; simplify_eq/=); eexists; (split; [apply last_snoc|]); split; try exact E; auto.
Qed.
#[local] Hint Resolve store_faults_ret store_faults_get store_faults_modify store_faults_bind store_faults_apply : core.

Lemma store_faults_read_loop now alive rs : store_faults (read_loop sha1_base64 compat now alive rs).
Proof. induction rs as [|r rs IH]; cbn; [auto|]. destruct (request_isReadRequest _); auto. Qed.
#[local] Hint Resolve store_faults_read_loop : core.

Lemma store_faults_read_sessions now alive k sessions : store_faults (read_sessions sha1_base64 compat now alive k sessions).
Proof. induction sessions as [|s sessions IH]; cbn [read_sessions]; auto. Qed.

Lemma reads_fault now alive k p f p' :
  proc_wf parallel p -> (k < parallel)%nat -> processReadRequests now alive k p = (Fault f, p') -> store_fault f p'.
Proof.
  intros Hw Hk. unfold Processor.processReadRequests. destruct (pending_requests p !! k) as [m|] eqn:Em.
  - apply store_faults_read_sessions.
  - apply lookup_ge_None in Em. rewrite (wf_maps parallel p Hw) in Em. lia.
Qed.

Lemma store_faults_committed now alive local n : store_faults (processCommittedRequest now alive local n).
Proof.
  induction n as [|n IH]; intros p f p'; cbn [Processor.processCommittedRequest]; [done|].
  destruct (committed_queue p) as [|r q]; [by apply IH|]. destruct (apply_at_once local r).
  - revert f p'. generalize (drop_remote parallel local r p). intros p1 f p'. revert p1 f p'.
    change (store_faults (applyRequest now alive r ;;; sm_modify pop_committed ;;; processCommittedRequest now alive local n)%sm).
    auto 10.
  - destruct (shouldProcessCommittedRequest _ _ _) as [[found r']|]; [|done]. intros E. refine (store_faults_bind _ _ _ _ _ _ _ E); [apply store_faults_apply|intros _].
    repeat (apply store_faults_bind; [apply store_faults_modify|intros _]). exact IH.
Qed.

Lemma move_ok k p : proc_wf parallel p -> (k < parallel)%nat -> exists p', moveRequestToPendingQueue k p = (Ok tt, p').
Proof.
  intros Hw Hk. unfold moveRequestToPendingQueue.
  destruct (lookup_lt_is_Some_2 (pending_requests p) k) as [m ->]; [by rewrite (wf_maps parallel p Hw)|].
  destruct (lookup_lt_is_Some_2 (requests_queue p) k) as [q ->]; [by rewrite (wf_queues parallel p Hw)|]. by eexists.
Qed.

(** ** Failed requests *)

(** The identifiers the thread counts are those of requests in the list. *)
Definition ids_listed (p : RequestProcessor) : Prop :=
  error_request_ids p ⊆ list_to_set (error_getRequestId <$> error_requests p).

(** The number of failed requests the turn deals with. *)
Definition errors_counted (pc : RunPc) : nat :=
  match pc with RMove _ _ e | RReads _ _ e | RCommitted _ e | RErrors e => e | _ => O end.

Record counts_inv (pc : RunPc) (p : RequestProcessor) : Prop := {
  ei_ids : ids_listed p;
  ei_counted : (errors_counted pc <= length (error_requests p))%nat;
  ei_committed : (counted pc <= length (committed_queue p))%nat
}.

Lemma ids_listed_size p : ids_listed p -> (size (error_request_ids p) <= length (error_requests p))%nat.
Proof.
  intros Hs. etrans; [by apply subseteq_size|]. clear Hs. induction (error_requests p) as [|e es IH]; [done|].
  cbn [fmap list_fmap list_to_set length]. rewrite size_union_alt, size_singleton. apply le_n_S. etrans; [|exact IH]. apply subseteq_size. set_solver.
Qed.

Lemma process_error_errors now local e p :
  let p' := process_error parallel now local e p in
  error_requests p' = error_requests p /\ error_request_ids p' = error_request_ids p.
Proof.
  unfold process_error, findErrorRequest. destruct (isSessionRequest _); [done|]. destruct (negb _); [done|].
  case_decide; [done|]. by destruct (take_match _ _) as [[r rest]|].
Qed.

Lemma error_loop_ok now local n : forall p,
  ids_listed p -> (n <= length (error_requests p))%nat ->
  exists p', error_loop parallel now local n p = (Ok tt, p') /\ ids_listed p'.
Proof.
  induction n as [|n IH]; intros p Hi Hn; cbn [error_loop]; [by eexists|].
  destruct (error_requests p) as [|e es] eqn:Ee; [cbn in Hn; lia|]. cbn in Hn.
  destruct (process_error_errors now local e p) as [_ Hids]. apply IH; [|cbn; lia].
  unfold ids_listed in *. cbn. rewrite Hids. rewrite Ee in Hi. cbn [fmap list_fmap list_to_set] in Hi. set_solver.
Qed.

Lemma processErrorRequest_ok now local n p :
  ids_listed p -> (n <= length (error_requests p))%nat ->
  exists p', processErrorRequest parallel now local n p = (Ok tt, p') /\ ids_listed p'.
Proof. intros Hi Hn. unfold processErrorRequest. case_decide; [by eexists|by apply error_loop_ok]. Qed.

(** ** Steps *)

(** The runner a step deals with is one of the processor. *)
Definition pc_wf (pc : RunPc) : Prop := match pc with RReads k _ _ => (k < parallel)%nat | _ => True end.


(** A step goes on, or the store faulted; the counts stay right. *)
Lemma run_step_result i pc p :
  (0 < parallel)%nat -> proc_wf parallel p -> Forall is_write (key <$> committed_queue p) -> pc_wf pc -> counts_inv pc p ->
  match run_step i pc p with
  | (Ok pc', p') => pc_wf pc' /\ counts_inv pc' p'
  | (Fault f, p') => store_fault f p'
  end.
Proof.
  intros Hpar Hw Hc Hpc [Hi He Hn]. unfold Processor.run_step. destruct pc as [|c|k c e|k c e|c e|e|].
  - destruct (proc_shutdown_called p); (split; [done|split; [done|cbn; lia|cbn; lia]]).
  - split; [done|]. split; [done|by apply ids_listed_size|done].
  - case_decide as Hk; [|by split; [|split]]. destruct (move_ok k p Hw Hk) as [p' E]. unfold sm_bind. rewrite E. cbn.
    destruct (move_view _ _ _ _ Hw E) as (_ & Hq & _ & Hid & Her & _).
    split; [done|]. unfold ids_listed in *. by split; [unfold ids_listed|..]; rewrite ?Her, ?Hid, ?Hq.
  - unfold sm_bind. destruct (processReadRequests _ _ _ _) as [[[]|f] p'] eqn:E; [|by eapply reads_fault].
    destruct (processReadRequests_view _ _ _ _ _ _ _ _ Hw Hpar E) as (_ & (_ & Hq & Her & Hid & _) & _). split; [done|].
    unfold ids_listed in *. by split; [unfold ids_listed|..]; rewrite ?Her, ?Hid, ?Hq.
  - unfold sm_bind. destruct (processCommittedRequest _ _ _ _ _) as [[[]|f] p'] eqn:E; [|by eapply store_faults_committed].
    destruct (committed_view _ _ _ _ _ _ _ _ _ Hw Hpar E Hc) as (_ & (_ & Her & Hid & _) & _). split; [done|].
    unfold ids_listed in *. split; [unfold ids_listed; by rewrite Her, Hid|by rewrite Her|cbn; lia].
  - unfold sm_bind. destruct (processErrorRequest_ok (in_time i) (in_local i) e p Hi He) as (p' & -> & Hi').
    split; [done|]. split; [done|cbn; lia|cbn; lia].
  - by split; [|split].
Qed.

Lemma run_step_invariants srv evs st :
  (0 < parallel)%nat -> proc_run (RWait, processor_init parallel srv) evs st -> Forall is_write (commits evs) ->
  pc_wf st.1 /\ counts_inv st.1 st.2.
Proof.
  intros Hpar Hr. remember (RWait, processor_init parallel srv) as st0 eqn:E0. revert E0.
  induction Hr as [st|st evs st1 ev st2 Hr IH Hs]; intros -> Hc.
  { split; [done|]. split; [done|cbn; lia|cbn; lia]. }
  rewrite commits_snoc in Hc. apply Forall_app in Hc as [Hc _]. destruct (IH eq_refl Hc) as [Hpc [Hi He Hn]].
  pose proof (log_order_reachable _ _ _ _ _ _ Hpar Hr Hc) as [Hw Hrun _ Hcq].
  destruct Hs as [pc p r q Hq Hcap|pc p r Hcap|pc p e|pc p i pc' p' E]; cbn [fst snd] in *.
  - unfold processor_push. rewrite Hrun. by split.
  - unfold processor_commit. rewrite Hrun. split; [done|]. split; [done|done|cbn; rewrite length_app; lia].
  - unfold onError. rewrite Hrun. split; [done|]. split; cbn; [|rewrite length_app; lia|done].
    unfold ids_listed in *. cbn. rewrite fmap_app, list_to_set_app. cbn. set_solver.
  - pose proof (run_step_result i pc p Hpar Hw Hcq Hpc) as Hres. rewrite E in Hres. by apply Hres.
Qed.

(** ** Progress *)

Lemma committed_shrinks now alive local n : forall p p',
  proc_wf parallel p -> (0 < parallel)%nat -> processCommittedRequest now alive local n p = (Ok tt, p') ->
  (length (committed_queue p') <= length (committed_queue p))%nat.
Proof.
  induction n as [|n IH]; intros p p' Hw Hpar E; [by injection E as <-|].
  destruct (decide (committed_queue p = [])) as [Hq|Hq].
  { cbn [Processor.processCommittedRequest] in E. rewrite Hq in E. by apply IH. }
  destruct (processCommittedRequest_S _ _ _ _ _ _ _ _ _ E Hq) as [Ht|(p1 & Ht & E1)];
    destruct (commit_turn_frame _ _ _ _ _ Ht Hw Hpar) as (Hw1 & _ & r & q & -> & Hq1 & _); [by rewrite Hq1|].
  etrans; [by apply (IH p1)|]. rewrite Hq1. cbn. lia.
Qed.

(** After the reads of a turn no session has a read before its first write. *)
Definition reads_out (pc : RunPc) (p : RequestProcessor) : Prop :=
  forall s, read parallel s pc -> no_leading_read parallel s p.

(** The turn has work that must shrink a queue: committed requests, or a failed one
    that keeps one of them back. *)
Definition pressing (pc : RunPc) (p : RequestProcessor) : Prop :=
  match pc with
  | RErrorSize c => (0 < c)%nat
  | RMove _ c e | RReads _ c e | RCommitted c e => (0 < c)%nat /\ e = size (error_request_ids p)
  | RErrors e => error_request_ids p <> ∅ /\ e = size (error_request_ids p)
  | RWait | RReturned => False
  end.

Definition backlog (p : RequestProcessor) : nat := (length (committed_queue p) + length (error_requests p))%nat.
Definition no_longer (p p' : RequestProcessor) : Prop :=
  (length (committed_queue p') <= length (committed_queue p))%nat /\ (length (error_requests p') <= length (error_requests p))%nat.

Lemma no_longer_trans p1 p2 p3 : no_longer p1 p2 -> no_longer p2 p3 -> no_longer p1 p3.
Proof. unfold no_longer. lia. Qed.

Lemma no_longer_backlog p p' : no_longer p p' -> (backlog p' <= backlog p)%nat.
Proof. unfold no_longer, backlog. lia. Qed.

(** The first committed request is applied, unless a failed one is before it. *)
Lemma committed_progress now alive local n p p' :
  proc_wf parallel p -> (0 < parallel)%nat -> processCommittedRequest now alive local n p = (Ok tt, p') ->
  (0 < n)%nat -> committed_queue p <> [] -> (forall s, no_leading_read parallel s p) ->
  error_request_ids p <> ∅ \/ (length (committed_queue p') < length (committed_queue p))%nat.
Proof.
  intros Hw Hpar E Hn Hq Hnr. destruct n as [|n]; [lia|].
  destruct (processCommittedRequest_S _ _ _ _ _ _ _ _ _ E Hq) as [Ht|(p1 & Ht & E1)].
  - left. inversion Ht as [|r q Eq Hat Hsh|]; subst. specialize (Hnr (session_id r)). unfold no_leading_read in Hnr.
    unfold shouldProcessCommittedRequest in Hsh. destruct (session_pending parallel (session_id r) p) as [|first rest]; [done|].
    specialize (Hnr first eq_refl). unfold is_write in Hnr. cbn in Hnr. rewrite Hnr in Hsh.
    repeat case_decide; try done. set_solver.
  - right. destruct (commit_turn_frame _ _ _ _ _ Ht Hw Hpar) as (Hw1 & _ & r & q & Eq & Hq1 & _).
    pose proof (committed_shrinks _ _ _ _ _ _ Hw1 Hpar E1) as Hle. rewrite Eq, Hq1 in *. cbn. lia.
Qed.

Lemma error_loop_shrinks now local n : forall p p', error_loop parallel now local n p = (Ok tt, p') ->
  length (error_requests p) = (n + length (error_requests p'))%nat.
Proof.
  induction n as [|n IH]; intros p p'; cbn [error_loop]; [by intros [= <-]|].
  destruct (error_requests p) as [|e es]; [done|]. intros E%IH. cbn in E |- *. by rewrite E.
Qed.

(** A step of the turn makes no queue longer; while it is pressing it makes one
    shorter, or leaves that to a later step. *)
Lemma run_step_progress i pc p pc' p' :
  (0 < parallel)%nat -> proc_wf parallel p -> Forall is_write (key <$> committed_queue p) -> counts_inv pc p -> reads_out pc p ->
  run_step i pc p = (Ok pc', p') ->
  reads_out pc' p' /\ no_longer p p' /\
  (pressing pc p -> pressing pc' p' \/ (backlog p' < backlog p)%nat).
Proof.
  intros Hpar Hw Hcq [_ _ Hcnt] Hrd E. unfold Processor.run_step in E. unfold backlog, no_longer.
  destruct pc as [|c|k c e|k c e|c e|e|]; cbn [pressing] in *.
  - injection E as <- <-. split; [|by split]. by destruct (proc_shutdown_called p); intros s [].
  - injection E as <- <-. split; [|split; [done|by left]]. intros s Hs. cbn in Hs. lia.
  - case_decide as Hk; [|injection E as <- <-; split; [|by split; [|left]]].
    + unfold sm_bind in E. destruct (moveRequestToPendingQueue k p) as [[[]|] p1] eqn:Em; [|done]. injection E as <- <-.
      destruct (move_view _ _ _ _ Hw Em) as (_ & -> & _ & Hid & -> & _ & Hs). cbn [pressing]. rewrite Hid.
      split; [|by split; [|left]]. intros s Hr. cbn in Hr. specialize (Hs s). rewrite decide_False in Hs by lia.
      unfold no_leading_read. destruct Hs as [-> _]. by apply Hrd.
    + intros s _. apply Hrd. cbn. pose proof (getRunnerId_lt parallel s Hpar). lia.
  - unfold sm_bind in E. destruct (processReadRequests _ _ _ _) as [[[]|] p1] eqn:Er; [|done]. injection E as <- <-.
    destruct (processReadRequests_view _ _ _ _ _ _ _ _ Hw Hpar Er) as (_ & (_ & -> & -> & Hid & _) & _ & Hd & Hh). cbn [pressing].
    rewrite Hid. split; [|by split; [|left]]. intros s Hr. cbn in Hr. destruct (decide (runner s = k)) as [Hi|Hi]; [by apply Hh|].
    eapply no_leading_read_done; [apply Hrd; cbn; lia|apply Hd].
  - unfold sm_bind in E. destruct (processCommittedRequest _ _ _ _ _) as [[[]|] p1] eqn:Ec; [|done]. injection E as <- <-.
    pose proof (committed_shrinks _ _ _ _ _ _ Hw Hpar Ec) as Hle. cbn in Hcnt. split; [by intros s []|].
    destruct (committed_view _ _ _ _ _ _ _ _ _ Hw Hpar Ec Hcq) as (_ & (_ & Her & Hid & _) & _). rewrite Her.
    split; [done|]. intros [Hc He]. cbn [pressing]. rewrite Hid.
    destruct (committed_progress _ _ _ _ _ _ Hw Hpar Ec Hc) as [?|?]; [|by intros s; apply Hrd|by left|right; lia].
    intros Hq. rewrite Hq in Hcnt. cbn in Hcnt. lia.
  - unfold sm_bind in E. destruct (processErrorRequest _ _ _ _ _) as [[[]|] p1] eqn:Ee; [|done]. injection E as <- <-.
    destruct (error_view _ _ _ _ _ _ Hw Ee) as (_ & _ & -> & _). split; [by intros s []|]. unfold processErrorRequest in Ee.
    case_decide as Hid; [injection Ee as <-; split; [done|by intros []]|]. apply error_loop_shrinks in Ee. split; [split; [done|lia]|].
    intros [_ He]. right. assert (0 < e)%nat; [|lia]. rewrite He. destruct (decide (size (error_request_ids p) = 0%nat)) as [E0|]; [|lia].
    by apply size_empty_inv, leibniz_equiv in E0.
  - injection E as <- <-. split; [by intros s []|by split].
Qed.

(** ** Turns *)

(** The steps that are left of the turn. *)
Definition rest (pc : RunPc) : nat :=
  match pc with
  | RErrorSize _ => 2 * parallel + 4
  | RMove k _ _ => 2 * (parallel - k) + 3
  | RReads k _ _ => 2 * (parallel - k) + 2
  | RCommitted _ _ => 2
  | RErrors _ => 1
  | RWait | RReturned => 0
  end.

Lemma run_step_rest i pc p pc' p' n :
  pc_wf pc -> rest pc = S n -> run_step i pc p = (Ok pc', p') -> rest pc' = n /\ pc' <> RReturned.
Proof.
  unfold Processor.run_step. destruct pc as [|c|k c e|k c e|c e|e|]; cbn [rest pc_wf]; intros Hpc Hn E; try done.
  - injection E as <- <-. cbn. split; [lia|done].
  - case_decide as Hk; [|injection E as <- <-; cbn; split; [lia|done]].
    unfold sm_bind in E. destruct (moveRequestToPendingQueue k p) as [[[]|] p1]; [|done]. injection E as <- <-. cbn. split; [lia|done].
  - unfold sm_bind in E. destruct (processReadRequests _ _ _ _) as [[[]|] p1]; [|done]. injection E as <- <-. cbn. split; [lia|done].
  - unfold sm_bind in E. destruct (processCommittedRequest _ _ _ _ _) as [[[]|] p1]; [|done]. injection E as <- <-. cbn. split; [lia|done].
  - unfold sm_bind in E. destruct (processErrorRequest _ _ _ _ _) as [[[]|] p1]; [|done]. injection E as <- <-. cbn. split; [lia|done].
Qed.

Section from.
Context (srv : Server).
Context (Hpar : (0 < parallel)%nat).

(** The state after [evs]. *)
Record good (evs : list Event) (pc : RunPc) (p : RequestProcessor) : Prop := {
  g_run : proc_run (RWait, processor_init parallel srv) evs (pc, p);
  g_writes : Forall is_write (commits evs);
  g_reads : reads_out pc p
}.

Lemma good_step evs i pc p pc' p' :
  good evs pc p -> run_step i pc p = (Ok pc', p') -> good (evs ++ [EvRun i]) pc' p' /\ no_longer p p' /\
  (pressing pc p -> pressing pc' p' \/ (backlog p' < backlog p)%nat).
Proof.
  intros [Hr Hc Hrd] E. pose proof (log_order_reachable _ _ _ _ _ _ Hpar Hr Hc) as [Hw _ _ Hcq].
  destruct (run_step_invariants _ _ _ Hpar Hr Hc) as [_ Hcnt]. cbn [fst snd] in *.
  destruct (run_step_progress i pc p pc' p' Hpar Hw Hcq Hcnt Hrd E) as (Hrd' & Hle & Hlt).
  split; [|done]. split; [|by rewrite commits_snoc, app_nil_r|done]. eapply pr_snoc; [exact Hr|by apply ps_run].
Qed.

(** The rest of a turn comes back to the wait, with a shorter backlog. *)
Lemma turn_rest i n : forall evs pc p,
  good evs pc p -> rest pc = n -> pc <> RReturned ->
  match run_steps i n pc p with
  | (Ok pc', p') => pc' = RWait /\ good (evs ++ replicate n (EvRun i)) RWait p' /\
      no_longer p p' /\ (pressing pc p -> (backlog p' < backlog p)%nat)
  | (Fault f, p') => store_fault f p'
  end.
Proof.
  induction n as [|n IH]; intros evs pc p Hg Hn Hne; cbn [Processor.run_steps].
  { destruct pc; cbn in Hn; try done; try lia. cbn. rewrite app_nil_r. by split_and!. }
  pose proof Hg as [Hr Hc Hs]. pose proof (log_order_reachable _ _ _ _ _ _ Hpar Hr Hc) as [Hw _ _ Hcq]. cbn [snd] in *.
  destruct (run_step_invariants _ _ _ Hpar Hr Hc) as [Hpc Hcnt]. cbn [fst snd] in *.
  pose proof (run_step_result i pc p Hpar Hw Hcq Hpc Hcnt) as Hres. unfold sm_bind.
  destruct (run_step i pc p) as [[pc1|f] p1] eqn:E; [|done].
  destruct (run_step_rest _ _ _ _ _ _ Hpc Hn E) as [Hn1 Hne1]. destruct (good_step _ _ _ _ _ _ Hg E) as (Hg1 & Hle & Hlt).
  specialize (IH _ pc1 p1 Hg1 Hn1 Hne1).
  destruct (run_steps i n pc1 p1) as [[pc2|f] p2]; [|done]. destruct IH as (-> & Hg2 & Hle2 & Hlt2).
  rewrite <- app_assoc in Hg2. pose proof (no_longer_backlog _ _ Hle) as Hb1. pose proof (no_longer_backlog _ _ Hle2) as Hb2.
  split_and!; [done|done|by eapply no_longer_trans|]. intros H0. destruct (Hlt H0) as [H1|H1]; [specialize (Hlt2 H1)|]; lia.
Qed.

Lemma turn_progress i evs p : good evs RWait p ->
  match run_turn i p with
  | (Ok pc', p') => pc' = RWait /\ good (evs ++ replicate (2 * parallel + 5) (EvRun i)) RWait p' /\
      no_longer p p' /\ (committed_queue p <> [] -> (backlog p' < backlog p)%nat)
  | (Fault f, p') => store_fault f p'
  end.
Proof.
  intros Hg. unfold Processor.run_turn. rewrite Nat.add_succ_r. cbn [Processor.run_steps replicate].
  pose proof Hg as [Hr Hc _]. pose proof (lo_running _ _ _ (log_order_reachable _ _ _ _ _ _ Hpar Hr Hc)) as Hrun.
  assert (run_step i RWait p = (Ok (RErrorSize (length (committed_queue p))), p)) as E by (cbn; cbn in Hrun; by rewrite Hrun).
  unfold sm_bind. rewrite E. destruct (good_step _ _ _ _ _ _ Hg E) as (Hg1 & _).
  pose proof (turn_rest i (2 * parallel + 4) _ _ _ Hg1 eq_refl ltac:(done)) as Ht.
  destruct (run_steps i _ _ p) as [[pc'|f] p']; [|done]. destruct Ht as (-> & Hg' & Hle & Hlt). cbn in Hlt.
  rewrite <- app_assoc in Hg'. split_and!; [done|done|done|]. intros Hq. apply Hlt. destruct (committed_queue p); [done|cbn; lia].
Qed.

Lemma commits_runs evs i n : commits (evs ++ replicate n (EvRun i)) = commits evs.
Proof.
  induction n as [|n IHn]; [by rewrite app_nil_r|]. by rewrite replicate_S_end, app_assoc, commits_snoc, app_nil_r.
Qed.

Lemma turns_drain ins : forall evs p,
  good evs RWait p -> (committed_queue p <> [] -> (backlog p <= length ins)%nat) ->
  match run_turns sha1_base64 compat parallel ins p with
  | (Ok _, p') => committed_queue p' = [] /\ applied_writes p' = commits evs
  | (Fault f, p') => store_fault f p'
  end.
Proof.
  induction ins as [|i ins IH]; intros evs p Hg Hlen; cbn [run_turns].
  { assert (committed_queue p = []) as Eq.
    { destruct (committed_queue p) as [|r q] eqn:Eq; [done|]. specialize (Hlen ltac:(done)). unfold backlog in Hlen. rewrite Eq in Hlen. cbn in Hlen. lia. }
    split; [done|]. destruct Hg as [Hr Hc _]. pose proof (lo_writes _ _ _ (log_order_reachable _ _ _ _ _ _ Hpar Hr Hc)) as Hw. cbn in Hw.
    by rewrite Eq, app_nil_r in Hw. }
  pose proof (turn_progress i evs p Hg) as Ht. unfold sm_bind. destruct (run_turn i p) as [[pc1|f] p1]; [|done].
  destruct Ht as (-> & Hg1 & Hle & Hlt). specialize (IH _ p1 Hg1). rewrite commits_runs in IH. apply IH.
  intros Hq1. cbn in Hlen. destruct (decide (committed_queue p = [])) as [Hq|Hq]; [|specialize (Hlen Hq); specialize (Hlt Hq); lia].
  destruct Hle as [Hle _]. rewrite Hq in Hle. by destruct (committed_queue p1); [|cbn in Hle; lia].
Qed.

(** C7: nothing committed waits for ever. From any state of the processor before a
    turn, reached with whatever requests, errors and commits of writes the other
    threads reported, as many turns as there are committed requests and reported
    errors pass all committed requests to the store: no read before one of them
    keeps it back, and no failed request longer than until its error is dealt with.
    The loop itself does not fault; it stops only where the store faults on a
    request. *)
Theorem committed_requests_drain evs p ins :
  proc_run (RWait, processor_init parallel srv) evs (RWait, p) -> Forall is_write (commits evs) ->
  (length (committed_queue p) + length (error_requests p) <= length ins)%nat ->
  match run_turns sha1_base64 compat parallel ins p with
  | (Ok _, p') => committed_queue p' = [] /\ applied_writes p' = commits evs
  | (Fault f, p') => store_fault f p'
  end.
Proof. intros Hr Hc Hi. apply turns_drain; [split; [done|done|by intros s []]|done]. Qed.
End from.

(** In every interleaving a step of the processor's loop either completes or
    stops with a fault of the store on the request it was applying: the queues and
    maps it indexes exist, and it never takes a failed request from an empty
    list. *)
Theorem processor_faults_only_in_store srv evs pc p i :
  (0 < parallel)%nat -> proc_run (RWait, processor_init parallel srv) evs (pc, p) -> Forall is_write (commits evs) ->
  match run_step i pc p with
  | (Ok _, _) => True
  | (Fault f, p') => store_fault f p'
  end.
Proof.
  intros Hpar Hr Hc. pose proof (log_order_reachable _ _ _ _ _ _ Hpar Hr Hc) as [Hw _ _ Hcq].
  destruct (run_step_invariants _ _ _ Hpar Hr Hc) as [Hpc Hcnt]. cbn [fst snd] in *.
  pose proof (run_step_result i pc p Hpar Hw Hcq Hpc Hcnt) as Hres. by destruct (run_step i pc p) as [[pc1|f] p1].
Qed.
End theorems.
