(* ===== verification/ProcessorRuns.v ===== *)
(** * Runs of the request processor

    The interleavings of [Processor.v] as a function, and concrete runs: that the
    theorems apply, and what becomes of failed requests. *)

From S2P Require Import Prelude Coordination Store Processor ProcessorSteps ProcessorTheorems ProcessorProgress.
From S2P Require Import StoreTheorems.

Section runs.
Context `{IterOrder} (sha1_base64 : string -> string) (compat : bool) (parallel : nat).

Definition exec_event (st : RunPc * RequestProcessor) (ev : Event) : option (RunPc * RequestProcessor) :=
  let '(pc, p) := st in
  match ev with
  | EvPush r =>
      q ← requests_queue p !! getRunnerId parallel (session_id r);
      if Z.of_nat (length q) <? requests_capacity parallel then Some (pc, processor_push parallel r p) else None
  | EvCommit r => if Z.of_nat (length (committed_queue p)) <? committed_capacity then Some (pc, processor_commit r p) else None
  | EvError e => Some (pc, onError e p)
  | EvRun i =>
      match run_step sha1_base64 compat parallel i pc p with
      | (Ok pc', p') => Some (pc', p')
      | _ => None
      end
  end.

Definition exec (st : RunPc * RequestProcessor) (evs : list Event) : option (RunPc * RequestProcessor) :=
  fold_left (fun o ev => o ≫= fun st => exec_event st ev) evs (Some st).

Lemma exec_event_sound st ev st' : exec_event st ev = Some st' -> proc_step sha1_base64 compat parallel st ev st'.
Proof.
  destruct st as [pc p]. destruct ev as [r|r|e|i]; cbn; intros E.
  - destruct (requests_queue p !! _) as [q|] eqn:Eq; [|done]. cbn in E. destruct (Z.ltb_spec (Z.of_nat (length q)) (requests_capacity parallel)); [|done].
    injection E as <-. by eapply ps_push.
  - destruct (Z.ltb_spec (Z.of_nat (length (committed_queue p))) committed_capacity); [|done]. injection E as <-. by apply ps_commit.
  - injection E as <-. apply ps_error.
  - destruct (run_step _ _ _ _ _ _) as [[pc'|] p'] eqn:Er; [|done]. injection E as <-. by apply ps_run.
Qed.

Lemma exec_sound st evs : forall st', exec st evs = Some st' -> proc_run sha1_base64 compat parallel st evs st'.
Proof.
  induction evs as [|ev evs IH] using rev_ind; unfold exec; intros st' E; [injection E as <-; constructor|].
  rewrite fold_left_app in E. cbn in E. fold (exec st evs) in E. destruct (exec st evs) as [st1|] eqn:E1; [|done].
  eapply pr_snoc; [by apply IH|]. by apply exec_event_sound.
Qed.
End runs.

(** ** A session that writes and reads *)

Definition demo_of (x : Z) (b : RequestBody) : RequestForSession :=
  mkRequestForSession 1 (mkRequestHeader x false, b) 0 0 (-1) (-1).
Definition demo_create : RequestForSession := demo_of 2 (CreateRequest "/a" "x" false false open_acl false).
Definition demo_get : RequestForSession := demo_of 3 (GetRequest "/a").

Definition demo_local (s : Z) : bool := s =? 1.
Definition demo_inputs : Inputs := mkInputs (fun _ => 1000) (fun _ => true) demo_local 1000.
Definition demo_turn : list Event := replicate 7 (EvRun demo_inputs).
Definition demo_exec (evs : list Event) : option (RunPc * RequestProcessor) :=
  exec (fun _ => "h") false 1 (RWait, processor_init 1 demo_start) evs.

Definition demo_events : list Event := [EvPush demo_create; EvPush demo_get; EvCommit demo_create].

Lemma demo_session_ok n : session_ok 1 (demo_events ++ replicate n (EvRun demo_inputs)).
Proof.
  induction n as [|n IH]; [|rewrite replicate_S_end, app_assoc; by apply session_ok_snoc].
  rewrite app_nil_r. split.
  - intros r Hr _. repeat (apply elem_of_cons in Hr as [[= ->]|Hr]; [by apply (bool_decide_unpack _); vm_compute|]).
    apply elem_of_cons in Hr as [?|Hr]; [done|]. by apply elem_of_nil in Hr.
  - intros i Hi. repeat (apply elem_of_cons in Hi as [?|Hi]; [done|]). by apply elem_of_nil in Hi.
  - intros e He. repeat (apply elem_of_cons in He as [?|He]; [done|]). by apply elem_of_nil in He.
  - intros [|[|i]] [|[|j]] k k'; cbn; intros [= <-] [= <-]; done.
  - intros pre r post E _. unfold demo_events in E. destruct pre as [|? [|? [|? pre]]]; simplify_eq/=; try done.
    by destruct pre.
Qed.

Lemma writes_applied_in_log_order_witness :
  exists p, demo_exec (demo_events ++ demo_turn) = Some (RWait, p) /\
    applied_writes p ++ (key <$> committed_queue p) = commits (demo_events ++ demo_turn).
Proof.
  destruct (demo_exec (demo_events ++ demo_turn)) as [[pc p]|] eqn:E; [|by vm_compute in E].
  assert (pc = RWait) as -> by (vm_compute in E; congruence). exists p. split; [done|].
  eapply (writes_applied_in_log_order (fun _ => "h") false 1 demo_start); [lia|by apply exec_sound, E|].
  by apply (bool_decide_unpack _); vm_compute.
Defined.

Lemma session_requests_in_order_witness :
  exists p, demo_exec (demo_events ++ demo_turn) = Some (RWait, p) /\
    session_applied 1 p ++ (key <$> session_pending 1 1 p) ++ (key <$> queued 1 1 p) = sent 1 (demo_events ++ demo_turn).
Proof.
  destruct (demo_exec (demo_events ++ demo_turn)) as [[pc p]|] eqn:E; [|by vm_compute in E].
  assert (pc = RWait) as -> by (vm_compute in E; congruence). exists p. split; [done|].
  eapply (session_requests_in_order (fun _ => "h") false 1 demo_start); [lia|by apply exec_sound, E| |apply demo_session_ok].
  by apply (bool_decide_unpack _); vm_compute.
Defined.

(** A write that failed is pending before the committed one: the first turn deals
    with the error, the second applies the write. *)
Definition demo_failed : RequestForSession := demo_of 1 (CreateRequest "/b" "x" false false open_acl false).
Definition demo_error : ErrorRequest := mkErrorRequest false RC_CANCELLED 1 1 OpCreate.
Definition demo_blocked : list Event := [EvPush demo_failed; EvPush demo_create; EvError demo_error; EvCommit demo_create].

Lemma committed_requests_drain_witness :
  exists p p', demo_exec demo_blocked = Some (RWait, p) /\ (committed_queue p, error_requests p) = ([demo_create], [demo_error]) /\
    run_turns (fun _ => "h") false 1 [demo_inputs; demo_inputs] p = (Ok tt, p') /\
    committed_queue p' = [] /\ applied_writes p' = [key demo_create].
Proof.
  destruct (demo_exec demo_blocked) as [[pc p]|] eqn:E; [|by vm_compute in E].
  assert (pc = RWait) as -> by (vm_compute in E; congruence). exists p.
  assert ((committed_queue p, error_requests p) = ([demo_create], [demo_error])) as Hq.
  { assert ((fun st => (committed_queue st.2, error_requests st.2)) <$> demo_exec demo_blocked = Some ([demo_create], [demo_error])) as Ep
      by (vm_compute; reflexivity). rewrite E in Ep. cbn in Ep. congruence. }
  assert ((run_turns (fun _ => "h") false 1 [demo_inputs; demo_inputs] p).1 = Ok tt) as Hok
    by (vm_compute in E; injection E as <-; vm_compute; reflexivity).
  pose proof (committed_requests_drain (fun _ => "h") false 1 demo_start ltac:(lia) demo_blocked p [demo_inputs; demo_inputs]) as Ht.
  destruct (run_turns (fun _ => "h") false 1 [demo_inputs; demo_inputs] p) as [o p']. cbn in Hok. subst o. exists p'.
  split; [done|]. split; [done|]. split; [done|]. apply Ht.
  - by apply exec_sound, E.
  - by apply (bool_decide_unpack _); vm_compute.
  - injection Hq as -> ->. done.
Defined.

Lemma processor_faults_only_in_store_witness :
  match run_step (fun _ => "h") false 1 demo_inputs RWait (processor_init 1 demo_start) with
  | (Ok _, _) => True
  | (Fault f, p') => store_fault (fun _ => "h") false f p'
  end.
Proof. apply (processor_faults_only_in_store (fun _ => "h") false 1 demo_start []); [lia|constructor|by constructor]. Defined.

(** Both are passed to the store within two turns, and answered in the order in
    which they were sent. *)
Lemma demo_two_turns :
  exists p, demo_exec (demo_events ++ demo_turn ++ demo_turn) = Some (RWait, p) /\
    (key <$> applied p) = [key demo_create; key demo_get] /\ session_pending 1 1 p = [] /\
    ((fun r => (r.1, resp_xid r.2.1)) <$> drop (length demo_start.2) (proc_server p).2) = [(1, 2); (1, 3)].
Proof. eexists. split; [vm_compute; reflexivity|]. split_and!; vm_compute; reflexivity. Qed.

(** ** Failed requests *)

Definition auth_error : ErrorRequest := mkErrorRequest false RC_CANCELLED 1 AUTH_XID OpAuth.

(** Two Auth requests of a session that fail together have the same
    identifier, so that one error is counted: the first is answered, with the
    number 0 instead of that of Auth requests, and the second stays in the list
    over any number of turns, without an answer. *)
Theorem second_failed_auth_unanswered n :
  exists p, demo_exec ([EvError auth_error; EvError auth_error] ++ demo_turn) = Some (RWait, p) /\
    error_requests p = [auth_error] /\
    ((fun r => (r.1, resp_xid r.2.1, error r.2.1)) <$> drop (length demo_start.2) (proc_server p).2) = [(1, 0, ZCONNECTIONLOSS)] /\
    run_turns (fun _ => "h") false 1 (replicate n demo_inputs) p = (Ok tt, p).
Proof.
  eexists. split; [vm_compute; reflexivity|]. split; [vm_compute; reflexivity|]. split; [vm_compute; reflexivity|].
  induction n as [|n IH]; [done|]. cbn [replicate run_turns]. unfold sm_bind.
  match goal with |- context [run_turn ?a ?b ?c ?d ?p] => assert (run_turn a b c d p = (Ok RWait, p)) as -> by (vm_compute; reflexivity) end.
  exact IH.
Qed.

(** A write that is reported as failed and committed later, as after a timeout,
    is answered twice. *)
Theorem timed_out_write_answered_twice :
  exists p, demo_exec ([EvPush demo_create; EvError (mkErrorRequest true RC_TIMEOUT 1 2 OpCreate)] ++ demo_turn ++
                       [EvCommit demo_create] ++ demo_turn) = Some (RWait, p) /\
    ((fun r => (r.1, resp_xid r.2.1, error r.2.1)) <$> drop (length demo_start.2) (proc_server p).2) =
      [(1, 2, ZOPERATIONTIMEOUT); (1, 2, ZOK)].
Proof. eexists. split; vm_compute; reflexivity. Qed.

(** Nor does the order of the session hold for such a write: a read that was sent
    after it is passed to the store before it. *)
Theorem timed_out_write_overtaken :
  exists p, demo_exec ([EvPush demo_create; EvPush demo_get; EvError (mkErrorRequest true RC_TIMEOUT 1 2 OpCreate)] ++ demo_turn ++
                       demo_turn ++ [EvCommit demo_create] ++ demo_turn) = Some (RWait, p) /\
    session_applied 1 p = [key demo_get; key demo_create].
Proof. eexists. split; vm_compute; reflexivity. Qed.

(** The shutdown answers the requests in the queues, not the pending ones. *)
Theorem pending_unanswered_at_shutdown :
  exists p, demo_exec ([EvPush demo_create] ++ demo_turn ++ [EvPush demo_get]) = Some (RWait, p) /\
    session_pending 1 1 (processor_shutdown p) = [demo_create] /\
    ((fun r => (r.1, resp_xid r.2.1, error r.2.1)) <$> drop (length demo_start.2) (proc_server (processor_shutdown p)).2) =
      [(1, 3, ZSESSIONEXPIRED)].
Proof. eexists. split; [vm_compute; reflexivity|]. split; vm_compute; reflexivity. Qed.
