(* ===== verification/Wire.v ===== *)
(** * The wire format: integers, strings, vectors

    [src/src/ZooKeeper/ZooKeeperIO.h/.cpp] on top of the binary helpers of
    [src/src/Common/IO/ReadBuffer.h], [ReadHelpers.h] and [WriteHelpers.h]. A
    [WriteBuffer] is the list of bytes appended to it; a [ReadBuffer] over a
    message held in memory is the list of bytes not read yet, threaded by the
    [SM] monad. The host is little endian, as the code assumes. *)

From Stdlib Require Import Bool.
From S2P Require Import Prelude Coordination.

Abbreviation bytes := (list ascii).
Abbreviation Reader := (SM (list ascii)).

(** ** Bytes *)

Definition byte_of (x : Z) : ascii := ascii_of_N (Z.to_N (x mod 256)).
Definition of_byte (c : ascii) : Z := Z.of_N (N_of_ascii c).

(** The memory of an [n]-byte integer on a little-endian host. *)
Fixpoint le_bytes (n : nat) (x : Z) : bytes :=
  match n with
  | O => []
  | S n' => byte_of x :: le_bytes n' (x / 256)
  end.

Fixpoint le_value (bs : bytes) : Z :=
  match bs with
  | [] => 0
  | c :: bs' => of_byte c + 256 * le_value bs'
  end.

(** ** Reading raw bytes *)

(** [readStrict(to, n)]: takes what there is and throws when it is less than
    [n]. *)
Definition readStrict (n : nat) : Reader bytes := fun s =>
  if decide (n <= length s)%nat then (Ok (take n s), drop n s)
  else (Fault (Throw CANNOT_READ_ALL_DATA), []).

(** [read(to, n)]: as many bytes as there are, no more than [n]. *)
Definition read_at_most (n : nat) : Reader bytes := fun s => (Ok (take n s), drop n s).

(** [eof()] of a buffer that holds the whole message. *)
Definition eof : Reader bool := fun s => (Ok (bool_decide (s = [])), s).

(** [throw Exception(..., Error::e)] of namespace Coordination. *)
Definition throw_error {A} (e : Error) : Reader A := sm_fault (Throw (KEEPER_EXCEPTION (Error_code e))).

(** ** Integers: [std::byteswap] of the host's bytes *)

Definition write_int (n : nat) (x : Z) : bytes := rev (le_bytes n x).
Definition write_i32 : Z -> bytes := write_int 4.
Definition write_i64 : Z -> bytes := write_int 8.
Definition write_u64 : Z -> bytes := write_int 8.

(** Single bytes and the host-order integers of [writeIntBinary]. *)
Definition write_u8 : Z -> bytes := le_bytes 1.
Definition writeIntBinary_i64 : Z -> bytes := le_bytes 8.
Definition writeIntBinary_i32 : Z -> bytes := le_bytes 4.
Definition write_bool (b : bool) : bytes := write_u8 (if b then 1 else 0).

Definition read_i32 : Reader Z := (bs <- readStrict 4 ;; sm_ret (i32 (le_value (rev bs))))%sm.
Definition read_i64 : Reader Z := (bs <- readStrict 8 ;; sm_ret (i64 (le_value (rev bs))))%sm.
Definition read_u64 : Reader Z := (bs <- readStrict 8 ;; sm_ret (le_value (rev bs)))%sm.
Definition read_u8 : Reader Z := (bs <- readStrict 1 ;; sm_ret (le_value bs))%sm.
Definition readIntBinary_i64 : Reader Z := (bs <- readStrict 8 ;; sm_ret (i64 (le_value bs)))%sm.
Definition readIntBinary_i32 : Reader Z := (bs <- readStrict 4 ;; sm_ret (i32 (le_value bs)))%sm.

(** A [bool] is read as the byte it is stored in and tested against zero. *)
Definition read_bool : Reader bool := (x <- read_u8 ;; sm_ret (negb (x =? 0)))%sm.

Definition write_OpNum (op : OpNum) : bytes := write_i32 (OpNum_code op).
Definition read_OpNum : Reader OpNum := (raw_op_num <- read_i32 ;; sm_lift (getOpNum raw_op_num))%sm.

Definition write_Error (e : Error) : bytes := write_i32 (Error_code e).
Definition read_Error : Reader Error := (code <- read_i32 ;; sm_ret (Error_of_code code))%sm.

(** ** Strings and vectors *)

Definition MAX_STRING_OR_ARRAY_SIZE : Z := 2 ^ 28.

(** [int32_t(s.size())] then the characters. *)
Definition write_string (s : string) : bytes :=
  write_i32 (Z.of_nat (String.length s)) ++ list_ascii_of_string s.

(** The size and what [resize] and [in.read] leave in the string: the bytes
    that are there, then zero characters up to the size. *)
Definition read_string : Reader string :=
  (size <- read_i32 ;;
   if size =? -1 then sm_ret ""
   else if size <? 0 then throw_error ZMARSHALLINGERROR
   else if MAX_STRING_OR_ARRAY_SIZE <? size then throw_error ZMARSHALLINGERROR
   else
     bs <- read_at_most (Z.to_nat size) ;;
     sm_ret (string_of_list_ascii (bs ++ replicate (Z.to_nat size - length bs) zero)))%sm.

Definition write_vector {A} (write : A -> bytes) (arr : list A) : bytes :=
  write_i32 (Z.of_nat (length arr)) ++ (arr ≫= write).

Fixpoint read_elems {A} (read : Reader A) (n : nat) : Reader (list A) :=
  match n with
  | O => sm_ret []
  | S n' => (x <- read ;; xs <- read_elems read n' ;; sm_ret (x :: xs))%sm
  end.

Definition read_vector {A} (read : Reader A) : Reader (list A) :=
  (size <- read_i32 ;;
   if size <? 0 then throw_error ZMARSHALLINGERROR
   else if MAX_STRING_OR_ARRAY_SIZE <? size then throw_error ZMARSHALLINGERROR
   else read_elems read (Z.to_nat size))%sm.

(** ** Structures *)

Definition write_ACL (a : ACL) : bytes :=
  write_i32 (ACL_permissions a) ++ write_string (ACL_scheme a) ++ write_string (ACL_id a).

Definition read_ACL : Reader ACL :=
  (permissions <- read_i32 ;; scheme <- read_string ;; id <- read_string ;;
   sm_ret (mkACL permissions scheme id))%sm.

Definition write_AuthID (a : AuthID) : bytes :=
  write_string (AuthID_scheme a) ++ write_string (AuthID_id a).

Definition read_AuthID : Reader AuthID :=
  (scheme <- read_string ;; id <- read_string ;; sm_ret (mkAuthID scheme id))%sm.

Definition write_Stat (s : Stat) : bytes :=
  write_i64 (czxid s) ++ write_i64 (mzxid s) ++ write_i64 (ctime s) ++ write_i64 (mtime s) ++
  write_i32 (version s) ++ write_i32 (cversion s) ++ write_i32 (aversion s) ++
  write_i64 (ephemeralOwner s) ++ write_i32 (dataLength s) ++ write_i32 (numChildren s) ++
  write_i64 (pzxid s).

Definition read_Stat : Reader Stat :=
  (czxid' <- read_i64 ;; mzxid' <- read_i64 ;; ctime' <- read_i64 ;; mtime' <- read_i64 ;;
   version' <- read_i32 ;; cversion' <- read_i32 ;; aversion' <- read_i32 ;;
   ephemeralOwner' <- read_i64 ;; dataLength' <- read_i32 ;; numChildren' <- read_i32 ;;
   pzxid' <- read_i64 ;;
   sm_ret (mkStat czxid' mzxid' ctime' mtime' version' cversion' aversion' ephemeralOwner'
                  dataLength' numChildren' pzxid'))%sm.

(** ** Integers survive *)

Lemma of_byte_of x : of_byte (byte_of x) = x mod 256.
Proof.
  unfold of_byte, byte_of. pose proof (Z.mod_pos_bound x 256 eq_refl).
  rewrite N_ascii_embedding, Z2N.id; lia.
Qed.

Lemma of_byte_range c : 0 <= of_byte c < 256.
Proof. unfold of_byte. pose proof (N_ascii_bounded c). lia. Qed.

Lemma byte_of_of c : byte_of (of_byte c) = c.
Proof.
  unfold byte_of. pose proof (of_byte_range c). rewrite Z.mod_small by done.
  unfold of_byte. rewrite N2Z.id. apply ascii_N_embedding.
Qed.

Lemma length_le_bytes n x : length (le_bytes n x) = n.
Proof. revert x. induction n as [|n IH]; intros x; simpl; [done|]. by rewrite IH. Qed.

Lemma length_write_int n x : length (write_int n x) = n.
Proof. unfold write_int. by rewrite length_rev, length_le_bytes. Qed.

Lemma le_value_bytes n x : le_value (le_bytes n x) = x mod 256 ^ Z.of_nat n.
Proof.
  revert x. induction n as [|n IH]; intros x; simpl le_bytes; simpl le_value.
  { simpl. by rewrite Z.mod_1_r. }
  rewrite IH, of_byte_of, Nat2Z.inj_succ, Z.pow_succ_r by lia.
  rewrite Z.rem_mul_r by lia. lia.
Qed.

Lemma le_value_range bs : 0 <= le_value bs < 256 ^ Z.of_nat (length bs).
Proof.
  induction bs as [|c bs IH]; [done|]. cbn [le_value length]. pose proof (of_byte_range c).
  rewrite Nat2Z.inj_succ, Z.pow_succ_r by lia. lia.
Qed.

Lemma le_value_inj a b : length a = length b -> le_value a = le_value b -> a = b.
Proof.
  revert b. induction a as [|c a IH]; intros [|d b]; try done. intros [= Hl]. cbn [le_value]. intros E.
  pose proof (of_byte_range c). pose proof (of_byte_range d).
  assert (of_byte c = of_byte d) as Ecd by lia. f_equal; [|apply IH; [done|lia]].
  by rewrite <- (byte_of_of c), Ecd, byte_of_of.
Qed.

Lemma le_bytes_value bs : le_bytes (length bs) (le_value bs) = bs.
Proof.
  apply le_value_inj; [apply length_le_bytes|]. rewrite le_value_bytes. apply Z.mod_small, le_value_range.
Qed.

Lemma le_value_32 x : in_u32 x -> le_value (le_bytes 4 x) = x.
Proof. intros Hx. rewrite le_value_bytes. change (256 ^ Z.of_nat 4) with (2 ^ 32). by apply Z.mod_small. Qed.

(** A signed integer is determined by its residue. *)
Lemma wrap_s_mod w x : 0 < w -> wrap_s w (x mod 2 ^ w) = wrap_s w x.
Proof.
  intros Hw. unfold wrap_s. by rewrite Zplus_mod_idemp_l.
Qed.

(** ** Reading what was written *)

(** [read] reads back, from whatever stands behind it, what [write] wrote of a
    value that fits. *)
Class WireFormat {A} (write : A -> bytes) (read : Reader A) (fits : A -> Prop) : Prop :=
  read_write a rest : fits a -> read (write a ++ rest) = (Ok a, rest).

(** The step of every composite reader. *)
Lemma wire_bind {A B} {write : A -> bytes} {read fits} `{!WireFormat write read fits}
    (k : A -> Reader B) a rest :
  fits a -> sm_bind read k (write a ++ rest) = k a rest.
Proof. intros Ha. cbn [sm_bind]. by rewrite read_write. Qed.

Lemma readStrict_app bs rest : readStrict (length bs) (bs ++ rest) = (Ok bs, rest).
Proof.
  unfold readStrict. rewrite decide_True by (rewrite length_app; lia).
  by rewrite take_app_length, drop_app_length.
Qed.

(** One step of a read against the head of the buffer. *)
Ltac wire_step :=
  first
    [ rewrite wire_bind by (first [done | assumption | lia])
    | rewrite <- app_assoc; rewrite wire_bind by (first [done | assumption | lia]) ].
Ltac wire := repeat (cbn beta iota; wire_step); try done.

(** Integers of a fixed number of bytes. *)
Lemma wire_fixed n (enc : Z -> bytes) (dec : bytes -> Z) (fits : Z -> Prop) :
  (forall x, length (enc x) = n) -> (forall x, fits x -> dec (enc x) = x) ->
  WireFormat enc (bs <- readStrict n ;; sm_ret (dec bs))%sm fits.
Proof.
  intros Hn Hd x rest Hx. cbn [sm_bind]. rewrite <- (Hn x), readStrict_app.
  cbn [sm_ret]. by rewrite Hd.
Qed.

#[export] Instance wire_i32 : WireFormat write_i32 read_i32 in_i32.
Proof.
  apply wire_fixed; intros x; [apply length_write_int|intros Hx].
  unfold write_i32, write_int. rewrite rev_involutive, le_value_bytes.
  unfold i32. change (256 ^ Z.of_nat 4) with (2 ^ 32). rewrite wrap_s_mod by lia. by apply i32_id.
Qed.

(** Four bytes always are a number. *)
Lemma read_i32_any x rest : read_i32 (write_i32 x ++ rest) = (Ok (i32 x), rest).
Proof.
  unfold read_i32, write_i32. cbn [sm_bind]. rewrite <- (length_write_int 4 x) at 1. rewrite readStrict_app.
  unfold write_int. rewrite rev_involutive, le_value_bytes.
  unfold i32. change (256 ^ Z.of_nat 4) with (2 ^ 32). by rewrite wrap_s_mod by lia.
Qed.

Lemma le_value_i64 x : in_i64 x -> i64 (le_value (le_bytes 8 x)) = x.
Proof.
  intros Hx. rewrite le_value_bytes. unfold i64. change (256 ^ Z.of_nat 8) with (2 ^ 64).
  rewrite wrap_s_mod by lia. by apply i64_id.
Qed.

#[export] Instance wire_i64 : WireFormat write_i64 read_i64 in_i64.
Proof.
  apply wire_fixed; intros x; [apply length_write_int|intros Hx].
  unfold write_i64, write_int. rewrite rev_involutive. by apply le_value_i64.
Qed.

#[export] Instance wire_host_i64 : WireFormat writeIntBinary_i64 readIntBinary_i64 in_i64.
Proof. apply wire_fixed; intros x; [apply length_le_bytes|apply le_value_i64]. Qed.

#[export] Instance wire_u64 : WireFormat write_u64 read_u64 in_u64.
Proof.
  apply wire_fixed; intros x; [apply length_write_int|intros Hx].
  unfold write_u64, write_int. rewrite rev_involutive, le_value_bytes. by apply Z.mod_small.
Qed.

#[export] Instance wire_host_i32 : WireFormat writeIntBinary_i32 readIntBinary_i32 in_i32.
Proof.
  apply wire_fixed; intros x; [apply length_le_bytes|intros Hx].
  unfold writeIntBinary_i32. rewrite le_value_bytes. unfold i32. change (256 ^ Z.of_nat 4) with (2 ^ 32).
  rewrite wrap_s_mod by lia. by apply i32_id.
Qed.

#[export] Instance wire_u8 : WireFormat write_u8 read_u8 in_u8.
Proof.
  apply wire_fixed; intros x; [apply length_le_bytes|intros Hx].
  unfold write_u8. rewrite le_value_bytes. by apply Z.mod_small.
Qed.

#[export] Instance wire_bool : WireFormat write_bool read_bool (fun _ => True).
Proof.
  intros b rest _. unfold read_bool, write_bool.
  rewrite (wire_bind (write := write_u8)) by (by destruct b). by destruct b.
Qed.

#[export] Instance wire_OpNum : WireFormat write_OpNum read_OpNum (fun op => op <> OpUnspecified).
Proof.
  intros op rest Hop. unfold read_OpNum, write_OpNum.
  rewrite (wire_bind (write := write_i32)) by (by destruct op).
  cbn [sm_lift]. by rewrite getOpNum_code.
Qed.

(** A number held in [ZOTHER] is none of the enumerators'. *)
Definition error_fits (e : Error) : Prop := Error_of_code (Error_code e) = e /\ in_i32 (Error_code e).

#[export] Instance wire_Error : WireFormat write_Error read_Error error_fits.
Proof.
  intros e rest [He Hr]. unfold read_Error, write_Error.
  rewrite (wire_bind (write := write_i32)) by done. by rewrite He.
Qed.

(** Strings and vectors whose size the reader accepts. *)
Definition string_fits (s : string) : Prop := Z.of_nat (String.length s) <= MAX_STRING_OR_ARRAY_SIZE.
Definition vector_fits {A} (fits : A -> Prop) (l : list A) : Prop :=
  Z.of_nat (length l) <= MAX_STRING_OR_ARRAY_SIZE /\ Forall fits l.

Lemma length_list_ascii s : length (list_ascii_of_string s) = String.length s.
Proof. induction s as [|c s IH]; simpl; [done|]. by rewrite IH. Qed.

Lemma size_fits n : Z.of_nat n <= MAX_STRING_OR_ARRAY_SIZE -> in_i32 (Z.of_nat n).
Proof. unfold MAX_STRING_OR_ARRAY_SIZE, in_i32. lia. Qed.

#[export] Instance wire_string : WireFormat write_string read_string string_fits.
Proof.
  intros s rest Hs. unfold read_string, write_string. rewrite <- app_assoc.
  rewrite wire_bind by (by apply size_fits). cbn beta.
  rewrite (proj2 (Z.eqb_neq _ _)), (proj2 (Z.ltb_ge _ _)), (proj2 (Z.ltb_ge _ _)) by (done || lia).
  rewrite Nat2Z.id, <- length_list_ascii. cbn [sm_bind read_at_most sm_ret].
  by rewrite take_app_length, drop_app_length, Nat.sub_diag, app_nil_r, string_of_list_ascii_of_string.
Qed.

Lemma read_elems_write {A} {write : A -> bytes} {read fits} `{!WireFormat write read fits} l rest :
  Forall fits l -> read_elems read (length l) ((l ≫= write) ++ rest) = (Ok l, rest).
Proof.
  induction 1 as [|x l Hx Hl IH]; [done|]. rewrite bind_cons, <- app_assoc.
  cbn [length read_elems]. rewrite wire_bind by done. cbn [sm_bind]. by rewrite IH.
Qed.

#[export] Instance wire_vector {A} {write : A -> bytes} {read fits} `{!WireFormat write read fits} :
  WireFormat (write_vector write) (read_vector read) (vector_fits fits).
Proof.
  intros l rest [Hn Hl]. unfold read_vector, write_vector. rewrite <- app_assoc.
  rewrite wire_bind by (by apply size_fits). cbn beta.
  rewrite (proj2 (Z.ltb_ge _ _)), (proj2 (Z.ltb_ge _ _)) by (done || lia).
  rewrite Nat2Z.id. by apply read_elems_write.
Qed.

Definition ACL_fits (a : ACL) : Prop :=
  in_i32 (ACL_permissions a) /\ string_fits (ACL_scheme a) /\ string_fits (ACL_id a).
Definition AuthID_fits (a : AuthID) : Prop := string_fits (AuthID_scheme a) /\ string_fits (AuthID_id a).
Record Stat_fits (s : Stat) : Prop := {
  sf_czxid : in_i64 (czxid s);
  sf_mzxid : in_i64 (mzxid s);
  sf_ctime : in_i64 (ctime s);
  sf_mtime : in_i64 (mtime s);
  sf_version : in_i32 (version s);
  sf_cversion : in_i32 (cversion s);
  sf_aversion : in_i32 (aversion s);
  sf_ephemeralOwner : in_i64 (ephemeralOwner s);
  sf_dataLength : in_i32 (dataLength s);
  sf_numChildren : in_i32 (numChildren s);
  sf_pzxid : in_i64 (pzxid s)
}.

#[export] Instance wire_ACL : WireFormat write_ACL read_ACL ACL_fits.
Proof. intros a rest (? & ? & ?). unfold read_ACL, write_ACL. wire. by destruct a. Qed.

#[export] Instance wire_AuthID : WireFormat write_AuthID read_AuthID AuthID_fits.
Proof. intros a rest (? & ?). unfold read_AuthID, write_AuthID. wire. by destruct a. Qed.

#[export] Instance wire_Stat : WireFormat write_Stat read_Stat Stat_fits.
Proof. intros s rest []. unfold read_Stat, write_Stat. wire. by destruct s. Qed.

(** ** Reading consumes *)

(** A reader never puts bytes back. *)
Class Consumes {A} (read : Reader A) : Prop :=
  consumes s : (length (read s).2 <= length s)%nat.

#[export] Instance consumes_ret {A} (a : A) : Consumes (sm_ret a).
Proof. by intros s. Qed.

#[export] Instance consumes_fault {A} f : Consumes (@sm_fault bytes A f).
Proof. by intros s. Qed.

#[export] Instance consumes_lift {A} (m : outcome A) : Consumes (@sm_lift bytes A m).
Proof. by intros s. Qed.

#[export] Instance consumes_bind {A B} (m : Reader A) (k : A -> Reader B) :
  Consumes m -> (forall a, Consumes (k a)) -> Consumes (sm_bind m k).
Proof.
  intros Hm Hk s. cbn [sm_bind]. specialize (Hm s). destruct (m s) as [[a|f] s1]; simpl in *; [|done].
  specialize (Hk a s1). lia.
Qed.

#[export] Instance consumes_if {A} (b : bool) (m n : Reader A) :
  Consumes m -> Consumes n -> Consumes (if b then m else n).
Proof. by destruct b. Qed.

#[export] Instance consumes_strict n : Consumes (readStrict n).
Proof. intros s. unfold readStrict. case_decide; simpl; [rewrite length_drop|]; lia. Qed.

#[export] Instance consumes_at_most n : Consumes (read_at_most n).
Proof. intros s. simpl. rewrite length_drop. lia. Qed.

#[export] Instance consumes_eof : Consumes eof.
Proof. by intros s. Qed.

#[export] Instance consumes_elems {A} (read : Reader A) n : Consumes read -> Consumes (read_elems read n).
Proof. intros ?. induction n; simpl; apply _. Qed.

(** ** What a successful read yields *)

Class Yields {A} (read : Reader A) (P : A -> Prop) : Prop :=
  yields s a s' : read s = (Ok a, s') -> P a.

Lemma yields_ret {A} (a : A) (P : A -> Prop) : P a -> Yields (sm_ret a) P.
Proof. by intros HP s a' s' [= <- _]. Qed.

Lemma yields_fault {A} f (P : A -> Prop) : Yields (@sm_fault bytes A f) P.
Proof. intros s a s' E. discriminate E. Qed.

Lemma yields_bind {A B} (m : Reader A) (k : A -> Reader B) P Q :
  Yields m P -> (forall a, P a -> Yields (k a) Q) -> Yields (sm_bind m k) Q.
Proof. intros Hm Hk s b s' (a & s1 & Em & Ek)%sm_bind_ok. eapply Hk; [by eapply Hm|exact Ek]. Qed.

#[export] Instance yields_i32 : Yields read_i32 in_i32.
Proof. intros s x s' (bs & s1 & _ & [= <- _])%sm_bind_ok. apply i32_range. Qed.

#[export] Instance yields_i64 : Yields read_i64 in_i64.
Proof. intros s x s' (bs & s1 & _ & [= <- _])%sm_bind_ok. apply i64_range. Qed.

#[export] Instance yields_u8 : Yields read_u8 in_u8.
Proof.
  intros s x s' (bs & s1 & E & [= <- _])%sm_bind_ok. revert E. unfold readStrict.
  case_decide; [|done]. intros [= <- _]. destruct s as [|c s]; simpl; [by unfold in_u8|].
  pose proof (of_byte_range c). unfold in_u8. lia.
Qed.

#[export] Instance yields_bool : Yields read_bool (fun _ => True).
Proof. done. Qed.

#[export] Instance yields_string : Yields read_string string_fits.
Proof.
  unfold read_string. eapply yields_bind; [apply _|]. intros size _. unfold throw_error.
  destruct (size =? -1); [by apply yields_ret|]. destruct (Z.ltb_spec size 0); [apply yields_fault|].
  destruct (Z.ltb_spec MAX_STRING_OR_ARRAY_SIZE size); [apply yields_fault|].
  apply (yields_bind _ _ (fun bs => (length bs <= Z.to_nat size)%nat)).
  - intros s bs s' [= <- _]. rewrite length_take. lia.
  - intros bs Hbs. apply yields_ret. unfold string_fits.
    rewrite <- length_list_ascii, list_ascii_of_string_of_list_ascii, length_app, length_replicate. lia.
Qed.

Lemma yields_elems {A} (read : Reader A) P n :
  Yields read P -> Yields (read_elems read n) (fun l => length l = n /\ Forall P l).
Proof.
  intros Hr. induction n as [|n IH]; cbn [read_elems]; [by apply yields_ret|].
  eapply yields_bind; [exact Hr|]. intros x Hx. eapply yields_bind; [exact IH|].
  intros l [<- Hl]. apply yields_ret. by repeat constructor.
Qed.

#[export] Instance yields_vector {A} (read : Reader A) P :
  Yields read P -> Yields (read_vector read) (vector_fits P).
Proof.
  intros Hr. unfold read_vector. eapply yields_bind; [apply _|]. intros size _. unfold throw_error.
  destruct (Z.ltb_spec size 0); [apply yields_fault|].
  destruct (Z.ltb_spec MAX_STRING_OR_ARRAY_SIZE size); [apply yields_fault|].
  intros s l s' E. apply (yields_elems read P _ Hr) in E as [Hn Hl]. split; [lia|done].
Qed.

(** Follows a reader to the value it returns. *)
Ltac yields_go :=
  repeat first
    [ progress intros
    | apply yields_fault
    | apply yields_ret
    | eapply yields_bind; [apply _|] ].

#[export] Instance yields_ACL : Yields read_ACL ACL_fits.
Proof. unfold read_ACL. yields_go. by unfold ACL_fits; split_and!. Qed.
