(* ===== verification/WireRequests.v ===== *)
(** * Requests on the wire and in the log

    [writeImpl]/[readImpl] of the request classes, [ZooKeeperRequest::write] and
    [read] and the request factory ([src/src/ZooKeeper/ZooKeeperCommon.cpp]), and
    the log entry's format [serializeKeeperRequest]/[deserializeKeeperRequest]
    ([src/src/Service/KeeperUtils.cpp]). *)

From Stdlib Require Import Bool.
From S2P Require Import Prelude Coordination Wire.

(** ** Writing *)

(** The header of a transaction's part, and its footer. *)
Definition write_part_header (op : OpNum) (fin : bool) (err : Z) : bytes :=
  write_OpNum op ++ write_bool fin ++ write_i32 err.

Definition create_flags (is_ephemeral is_sequential : bool) : Z :=
  Z.lor (if is_ephemeral then 1 else 0) (if is_sequential then 2 else 0).

(** [writeImpl] of the request classes; [has_watch] is a field of the request. *)
Definition Sync_writeImpl (path : string) : bytes := write_string path.

Definition Auth_writeImpl (type : Z) (scheme data : string) : bytes :=
  write_i32 type ++ write_string scheme ++ write_string data.

Definition Create_writeImpl (path data : string) (is_ephemeral is_sequential : bool) (acls : list ACL) : bytes :=
  write_string path ++ write_string data ++ write_vector write_ACL acls ++
  write_i32 (create_flags is_ephemeral is_sequential).

Definition Remove_writeImpl (path : string) (version : Z) : bytes := write_string path ++ write_i32 version.

Definition Exists_writeImpl (path : string) (has_watch : bool) : bytes := write_string path ++ write_bool has_watch.

Definition Get_writeImpl (path : string) (has_watch : bool) : bytes := write_string path ++ write_bool has_watch.

Definition Set_writeImpl (path data : string) (version : Z) : bytes :=
  write_string path ++ write_string data ++ write_i32 version.

Definition List_writeImpl (path : string) (has_watch : bool) : bytes := write_string path ++ write_bool has_watch.

Definition FilteredList_writeImpl (path : string) (has_watch : bool) (list_request_type : Z) : bytes :=
  write_string path ++ write_bool has_watch ++ write_u8 list_request_type.

Definition SetACL_writeImpl (path : string) (acls : list ACL) (version : Z) : bytes :=
  write_string path ++ write_vector write_ACL acls ++ write_i32 version.

Definition GetACL_writeImpl (path : string) : bytes := write_string path.

Definition Check_writeImpl (path : string) (version : Z) : bytes := write_string path ++ write_i32 version.

Definition SetWatches_writeImpl (relative_zxid : Z) (data_watches exist_watches list_watches : list string) : bytes :=
  write_i64 relative_zxid ++ write_vector write_string data_watches ++
  write_vector write_string exist_watches ++ write_vector write_string list_watches.

Definition NewSession_writeImpl (internal_id session_timeout_ms server_id : Z) : bytes :=
  write_i64 internal_id ++ write_i32 session_timeout_ms ++ write_i32 server_id.

Definition UpdateSession_writeImpl (session_id session_timeout_ms server_id : Z) : bytes :=
  write_i64 session_id ++ write_i64 session_timeout_ms ++ write_i32 server_id.

(** The parts of a transaction, each written by [writeImpl], and the footer. *)
Definition Multi_writeImpl (writeImpl : bool -> RequestBody -> bytes) :=
  fix parts (rs : list (RequestHeader * RequestBody)) : bytes :=
    match rs with
    | [] => write_part_header OpError true (-1)
    | (h, b) :: rs' =>
        write_part_header (request_getOpNum b) false (-1) ++ writeImpl (has_watch h) b ++ parts rs'
    end.

(** The virtual call. *)
Fixpoint request_writeImpl (has_watch : bool) (r : RequestBody) : bytes :=
  match r with
  | HeartbeatRequest | CloseRequest => []
  | SetWatchesRequest relative_zxid data_watches exist_watches list_watches =>
      SetWatches_writeImpl relative_zxid data_watches exist_watches list_watches
  | SyncRequest path => Sync_writeImpl path
  | AuthRequest type scheme data => Auth_writeImpl type scheme data
  | CreateRequest path data is_ephemeral is_sequential acls _ =>
      Create_writeImpl path data is_ephemeral is_sequential acls
  | RemoveRequest path version => Remove_writeImpl path version
  | ExistsRequest path => Exists_writeImpl path has_watch
  | GetRequest path => Get_writeImpl path has_watch
  | SetRequest path data version => Set_writeImpl path data version
  | ListRequest path | SimpleListRequest path => List_writeImpl path has_watch
  | FilteredListRequest path list_request_type => FilteredList_writeImpl path has_watch list_request_type
  | CheckRequest path version _ => Check_writeImpl path version
  | SetACLRequest path acls version => SetACL_writeImpl path acls version
  | GetACLRequest path => GetACL_writeImpl path
  | MultiRequest _ rs => Multi_writeImpl request_writeImpl rs
  | NewSessionRequest internal_id session_timeout_ms server_id =>
      NewSession_writeImpl internal_id session_timeout_ms server_id
  | UpdateSessionRequest session_id session_timeout_ms server_id =>
      UpdateSession_writeImpl session_id session_timeout_ms server_id
  end.

(** [ZooKeeperRequest::write]: length, then the buffer with the xid, the
    operation and the rest. *)
Definition request_buf (r : ZooKeeperRequest) : bytes :=
  write_i32 (xid r.1) ++ write_OpNum (request_getOpNum r.2) ++ request_writeImpl (has_watch r.1) r.2.

Definition request_write (r : ZooKeeperRequest) : bytes :=
  write_i32 (Z.of_nat (length (request_buf r))) ++ request_buf r.

(** ** Reading *)

(** What a fresh request object of the factory holds after [readImpl]: its
    [has_watch] and its fields. *)
Definition Read_request : Type := bool * RequestBody.

Definition Sync_readImpl : Reader Read_request := (path <- read_string ;; sm_ret (false, SyncRequest path))%sm.

Definition Auth_readImpl : Reader Read_request :=
  (type <- read_i32 ;; scheme <- read_string ;; data <- read_string ;;
   sm_ret (false, AuthRequest type scheme data))%sm.

Definition Create_readImpl (not_exists : bool) : Reader Read_request :=
  (path <- read_string ;; data <- read_string ;; acls <- read_vector read_ACL ;;
   flags <- read_i32 ;;
   sm_ret (false, CreateRequest path data (Z.testbit flags 0) (Z.testbit flags 1) acls not_exists))%sm.

Definition Remove_readImpl : Reader Read_request :=
  (path <- read_string ;; version <- read_i32 ;; sm_ret (false, RemoveRequest path version))%sm.

Definition Exists_readImpl : Reader Read_request :=
  (path <- read_string ;; watch <- read_bool ;; sm_ret (watch, ExistsRequest path))%sm.

Definition Get_readImpl : Reader Read_request :=
  (path <- read_string ;; watch <- read_bool ;; sm_ret (watch, GetRequest path))%sm.

Definition Set_readImpl : Reader Read_request :=
  (path <- read_string ;; data <- read_string ;; version <- read_i32 ;;
   sm_ret (false, SetRequest path data version))%sm.

(** Also the one of [ZooKeeperSimpleListRequest], which inherits it. *)
Definition List_readImpl (make : string -> RequestBody) : Reader Read_request :=
  (path <- read_string ;; watch <- read_bool ;; sm_ret (watch, make path))%sm.

Definition FilteredList_readImpl : Reader Read_request :=
  (path <- read_string ;; watch <- read_bool ;; read_request_type <- read_u8 ;;
   sm_ret (watch, FilteredListRequest path read_request_type))%sm.

Definition SetACL_readImpl : Reader Read_request :=
  (path <- read_string ;; acls <- read_vector read_ACL ;; version <- read_i32 ;;
   sm_ret (false, SetACLRequest path acls version))%sm.

Definition GetACL_readImpl : Reader Read_request := (path <- read_string ;; sm_ret (false, GetACLRequest path))%sm.

Definition Check_readImpl (not_exists : bool) : Reader Read_request :=
  (path <- read_string ;; version <- read_i32 ;; sm_ret (false, CheckRequest path version not_exists))%sm.

Definition SetWatches_readImpl : Reader Read_request :=
  (relative_zxid <- read_i64 ;; data_watches <- read_vector read_string ;;
   exist_watches <- read_vector read_string ;; list_watches <- read_vector read_string ;;
   sm_ret (false, SetWatchesRequest relative_zxid data_watches exist_watches list_watches))%sm.

Definition NewSession_readImpl : Reader Read_request :=
  (internal_id <- read_i64 ;; session_timeout_ms <- read_i32 ;; server_id <- read_i32 ;;
   sm_ret (false, NewSessionRequest internal_id session_timeout_ms server_id))%sm.

Definition UpdateSession_readImpl : Reader Read_request :=
  (session_id <- read_i64 ;; session_timeout_ms <- read_i64 ;; server_id <- read_i32 ;;
   sm_ret (false, UpdateSessionRequest session_id session_timeout_ms server_id))%sm.

(** The factory's object for [op_num] and its [readImpl]; an operation that is
    not registered throws. The parts of a transaction are read by [parts]. *)
Definition read_registered (parts : Reader (list ZooKeeperRequest)) (op_num : OpNum) : Reader Read_request :=
  (match op_num with
   | OpHeartbeat => sm_ret (false, HeartbeatRequest)
   | OpSync => Sync_readImpl
   | OpAuth => Auth_readImpl
   | OpClose => sm_ret (false, CloseRequest)
   | OpCreate => Create_readImpl false
   | OpRemove => Remove_readImpl
   | OpExists => Exists_readImpl
   | OpGet => Get_readImpl
   | OpSet => Set_readImpl
   | OpSimpleList => List_readImpl SimpleListRequest
   | OpFilteredList => FilteredList_readImpl
   | OpList => List_readImpl ListRequest
   | OpCheck => Check_readImpl false
   | OpMulti => rs <- parts ;; sm_ret (false, MultiRequest OperationType_Write rs)
   | OpMultiRead => rs <- parts ;; sm_ret (false, MultiRequest OperationType_Read rs)
   | OpNewSession => NewSession_readImpl
   | OpUpdateSession => UpdateSession_readImpl
   | OpSetWatches => SetWatches_readImpl
   | OpGetACL => GetACL_readImpl
   | OpSetACL => SetACL_readImpl
   | OpCheckNotExists => Check_readImpl true
   | OpCreateIfNotExists => Create_readImpl true
   | OpUnspecified | OpError | OpOldNewSession => throw_error ZBADARGUMENTS
   end)%sm.

(** The loop of [ZooKeeperMultiRequest::readImpl]. Every round consumes at least
    the nine bytes of a header, so the number of bytes left bounds the rounds:
    with no fuel left there is nothing to read, and the first read throws. *)
Fixpoint multi_readImpl (fuel : nat) : Reader (list ZooKeeperRequest) :=
  match fuel with
  | O => sm_fault (Throw CANNOT_READ_ALL_DATA)
  | S fuel' =>
      (op_num <- read_OpNum ;; fin <- read_bool ;; err <- read_i32 ;;
       if fin : bool then
         if bool_decide (op_num <> OpError) then throw_error ZMARSHALLINGERROR
         else if bool_decide (err <> -1) then throw_error ZMARSHALLINGERROR
         else sm_ret []
       else
         r <- read_registered (multi_readImpl fuel') op_num ;;
         at_end <- eof ;;
         if at_end : bool then throw_error ZMARSHALLINGERROR
         else rs <- multi_readImpl fuel' ;; sm_ret ((mkRequestHeader 0 r.1, r.2) :: rs))%sm
  end.

(** [ZooKeeperRequestFactory::get(op_num)] and the object's [readImpl]. *)
Definition request_readImpl (op_num : OpNum) : Reader Read_request := fun s =>
  read_registered (multi_readImpl (length s)) op_num s.

(** [ZooKeeperRequest::read]. *)
Definition request_read : Reader ZooKeeperRequest :=
  (x <- read_i32 ;; op_num <- read_OpNum ;; r <- request_readImpl op_num ;;
   sm_ret (mkRequestHeader x r.1, r.2))%sm.

(** ** The entry of the Raft log *)

Definition serializeKeeperRequest (r : RequestForSession) : bytes :=
  writeIntBinary_i64 (session_id r) ++ request_write (request r) ++ write_i64 (process_time r).

(** The fields that are not in the entry keep their default member initialisers. *)
Definition deserializeKeeperRequest (data : bytes) : outcome RequestForSession :=
  ((session <- readIntBinary_i64 ;; _length <- read_i32 ;; r <- request_read ;;
    time <- read_i64 ;;
    sm_ret (mkRequestForSession session r 0 time (-1) (-1)))%sm data).1.

Create HintDb wire discriminated.
#[export] Hint Unfold Sync_writeImpl Auth_writeImpl Create_writeImpl Remove_writeImpl Exists_writeImpl
  Get_writeImpl Set_writeImpl List_writeImpl FilteredList_writeImpl SetACL_writeImpl GetACL_writeImpl
  Check_writeImpl SetWatches_writeImpl NewSession_writeImpl UpdateSession_writeImpl : wire.
#[export] Hint Unfold Sync_readImpl Auth_readImpl Create_readImpl Remove_readImpl Exists_readImpl
  Get_readImpl Set_readImpl List_readImpl FilteredList_readImpl SetACL_readImpl GetACL_readImpl
  Check_readImpl SetWatches_readImpl NewSession_readImpl UpdateSession_readImpl throw_error : wire.

(** ** Requests that fit the format *)

(** Only these carry [has_watch]. *)
Definition carries_watch (b : RequestBody) : bool :=
  match b with
  | ExistsRequest _ | GetRequest _ | ListRequest _ | SimpleListRequest _ | FilteredListRequest _ _ => true
  | _ => false
  end.

(** Every field is in the range of its type and of the size limit; a part of a
    transaction has no xid of its own, and the kind of a transaction is one of
    the two the operation numbers tell. *)
Fixpoint body_fits (watch : bool) (b : RequestBody) : Prop :=
  let parts :=
    fix parts (rs : list (RequestHeader * RequestBody)) : Prop :=
      match rs with
      | [] => True
      | (h, b') :: rs' => (xid h = 0 /\ body_fits (has_watch h) b') /\ parts rs'
      end in
  (carries_watch b = false -> watch = false) /\
  match b with
  | HeartbeatRequest | CloseRequest => True
  | SetWatchesRequest z d e l =>
      in_i64 z /\ vector_fits string_fits d /\ vector_fits string_fits e /\ vector_fits string_fits l
  | SyncRequest p | GetACLRequest p => string_fits p
  | AuthRequest t s d => in_i32 t /\ string_fits s /\ string_fits d
  | CreateRequest p d _ _ acls _ => string_fits p /\ string_fits d /\ vector_fits ACL_fits acls
  | RemoveRequest p v | CheckRequest p v _ => string_fits p /\ in_i32 v
  | ExistsRequest p | GetRequest p | ListRequest p | SimpleListRequest p => string_fits p
  | SetRequest p d v => string_fits p /\ string_fits d /\ in_i32 v
  | FilteredListRequest p t => string_fits p /\ in_u8 t
  | SetACLRequest p acls v => string_fits p /\ vector_fits ACL_fits acls /\ in_i32 v
  | MultiRequest t rs => t <> OperationType_Unspecified /\ parts rs
  | NewSessionRequest i t s => in_i64 i /\ in_i32 t /\ in_i32 s
  | UpdateSessionRequest i t s => in_i64 i /\ in_i64 t /\ in_i32 s
  end.

Definition request_fits (r : ZooKeeperRequest) : Prop :=
  in_i32 (xid r.1) /\ body_fits (has_watch r.1) r.2.

(** Induction on a request, through the parts of a transaction. *)
Lemma RequestBody_parts_ind (P : RequestBody -> Prop) :
  (forall b, (forall t rs, b <> MultiRequest t rs) -> P b) ->
  (forall t rs, Forall (fun r => P r.2) rs -> P (MultiRequest t rs)) ->
  forall b, P b.
Proof.
  intros Hflat Hmulti. fix IH 1. intros b. destruct b; try (apply Hflat; intros ? ?; discriminate).
  apply Hmulti. induction requests as [|r rs IHrs]; constructor; [apply IH|exact IHrs].
Qed.

(** ** The number of rounds *)

#[export] Instance consumes_string : Consumes read_string.
Proof. unfold read_string, throw_error. apply _. Qed.

#[export] Instance consumes_vector {A} (read : Reader A) : Consumes read -> Consumes (read_vector read).
Proof. intros ?. unfold read_vector, throw_error. apply _. Qed.

#[export] Instance consumes_ACL : Consumes read_ACL.
Proof. unfold read_ACL. apply _. Qed.

#[export] Instance consumes_registered parts op : Consumes parts -> Consumes (read_registered parts op).
Proof.
  intros ?. destruct op; simpl read_registered;
    autounfold with wire; apply _.
Qed.

#[export] Instance consumes_multi fuel : Consumes (multi_readImpl fuel).
Proof. induction fuel; cbn [multi_readImpl]; unfold throw_error; apply _. Qed.

(** A header takes bytes. *)
Lemma read_OpNum_less s op s' : read_OpNum s = (Ok op, s') -> (length s' < length s)%nat.
Proof.
  unfold read_OpNum, read_i32, readStrict. cbn [sm_bind]. case_decide; cbn [sm_ret sm_lift]; [|done].
  destruct (getOpNum _); [|done]. intros [= _ <-]. rewrite length_drop. lia.
Qed.

(** Any fuel that covers the bytes left gives the same result, so the fuel is
    no limit: the loop of the code ends, after at most that many rounds. *)
Lemma multi_readImpl_fuel f : forall g s, (length s <= f)%nat -> (length s <= g)%nat ->
  multi_readImpl f s = multi_readImpl g s.
Proof.
  induction f as [|f IH]; intros [|g] s Hf Hg; try done.
  1,2: assert (s = []) as -> by (destruct s; simpl in *; [done|lia]); done.
  cbn [multi_readImpl sm_bind]. destruct (read_OpNum s) as [[op|] s1] eqn:E1; [|done].
  apply read_OpNum_less in E1.
  pose proof (_ : Consumes read_bool) as C2. specialize (C2 s1). destruct (read_bool s1) as [[fin|] s2]; [|done].
  pose proof (_ : Consumes read_i32) as C3. specialize (C3 s2). destruct (read_i32 s2) as [[err|] s3]; [|done].
  simpl in C2, C3. destruct fin; [done|].
  assert (read_registered (multi_readImpl f) op s3 = read_registered (multi_readImpl g) op s3) as E.
  { destruct op; simpl read_registered; try done; cbn [sm_bind]; rewrite (IH g s3) by lia; done. }
  cbn [sm_bind]. rewrite <- E.
  pose proof (consumes_registered (multi_readImpl f) op _ s3) as C4.
  destruct (read_registered (multi_readImpl f) op s3) as [[r|] s4]; [|done]. simpl in C4.
  cbn [eof]. case_bool_decide; [done|]. cbn [sm_bind]. by rewrite (IH g s4) by lia.
Qed.

(** ** Round trips *)

Lemma create_flags_bits e s :
  in_i32 (create_flags e s) /\ Z.testbit (create_flags e s) 0 = e /\ Z.testbit (create_flags e s) 1 = s.
Proof. by destruct e, s. Qed.

Ltac wire_fits := first [done | assumption | lia | tauto | apply create_flags_bits].
Ltac wire_req :=
  repeat (cbn beta iota; rewrite ?sm_bind_assoc; first
    [ rewrite wire_bind by wire_fits
    | rewrite <- app_assoc; rewrite wire_bind by wire_fits ]).

(** A request that is not a transaction. *)
Lemma read_registered_flat parts watch b rest :
  (forall t rs, b <> MultiRequest t rs) -> body_fits watch b ->
  read_registered parts (request_getOpNum b) (request_writeImpl watch b ++ rest) = (Ok (watch, b), rest).
Proof.
  intros Hflat Hb. destruct b; cbn [body_fits carries_watch] in Hb; try (by destruct (Hflat _ _ eq_refl));
    destruct Hb as [Hw Hb]; try (rewrite Hw by done);
    try destruct not_exists; cbn [request_getOpNum read_registered request_writeImpl];
    autounfold with wire; try done;
    destruct_and?; wire_req; try done;
    destruct (create_flags_bits is_ephemeral is_sequential) as (_ & -> & ->); done.
Qed.

(** The parts of a transaction, as [writeImpl] writes them and as they fit. *)
Definition write_parts (rs : list ZooKeeperRequest) : bytes := request_writeImpl false (MultiRequest OperationType_Write rs).

Lemma write_parts_cons h b rs :
  write_parts ((h, b) :: rs) =
  write_part_header (request_getOpNum b) false (-1) ++ request_writeImpl (has_watch h) b ++ write_parts rs.
Proof. done. Qed.

Lemma body_fits_multi watch t rs :
  body_fits watch (MultiRequest t rs) <->
  watch = false /\ t <> OperationType_Unspecified /\
  Forall (fun r => xid r.1 = 0 /\ body_fits (has_watch r.1) r.2) rs.
Proof.
  cbn [body_fits carries_watch].
  transitivity (watch = false /\ t <> OperationType_Unspecified /\
    (fix parts (rs : list (RequestHeader * RequestBody)) : Prop :=
      match rs with
      | [] => True
      | (h, b') :: rs' => (xid h = 0 /\ body_fits (has_watch h) b') /\ parts rs'
      end) rs); [tauto|].
  assert (forall A B C D : Prop, (C <-> D) -> (A /\ B /\ C <-> A /\ B /\ D)) as Hc by tauto. apply Hc.
  induction rs as [|[h b] rs IH]; [by split|]. by rewrite Forall_cons, IH.
Qed.

Lemma request_getOpNum_sent b : request_getOpNum b <> OpUnspecified.
Proof. by destruct b as [| | | | |? ? ? ? ? []| | | | | | | |? ? []| | |[]| |]. Qed.

(** The loop reads the parts back, when each of them is read back. *)
Lemma multi_readImpl_parts rs :
  Forall (fun r => forall watch fuel rest, body_fits watch r.2 ->
    (length (request_writeImpl watch r.2 ++ rest) <= fuel)%nat ->
    read_registered (multi_readImpl fuel) (request_getOpNum r.2) (request_writeImpl watch r.2 ++ rest) =
    (Ok (watch, r.2), rest)) rs ->
  forall fuel rest, Forall (fun r => xid r.1 = 0 /\ body_fits (has_watch r.1) r.2) rs ->
    (length (write_parts rs ++ rest) <= fuel)%nat ->
    multi_readImpl fuel (write_parts rs ++ rest) = (Ok rs, rest).
Proof.
  induction 1 as [|[h b] rs Hr Hrs IH]; intros [|fuel] rest Hfits Hfuel.
  1,3: by exfalso; simpl in Hfuel; lia.
  { cbn [multi_readImpl]. unfold write_parts, write_part_header. cbn [request_writeImpl]. by wire_req. }
  apply Forall_cons in Hfits as [[Hx Hb] Hfits]. cbn [fst snd] in *.
  rewrite write_parts_cons in *. unfold write_part_header in *.
  rewrite !length_app in Hfuel. unfold write_OpNum, write_i32 in Hfuel. rewrite !length_write_int in Hfuel.
  cbn [multi_readImpl]. rewrite <- !app_assoc.
  rewrite wire_bind by apply request_getOpNum_sent. rewrite !wire_bind by done. cbn beta iota.
  cbn [sm_bind]. rewrite Hr by (done || (rewrite !length_app; lia)).
  cbn [eof sm_bind fst snd]. rewrite bool_decide_false by (by destruct rs as [|[] ?]).
  cbn [sm_bind]. rewrite IH by (done || (rewrite !length_app; lia)).
  cbn [sm_ret]. by destruct h as [x w]; simpl in Hx; subst x.
Qed.

(** [readImpl] of the factory's object reads what [writeImpl] wrote. *)
Lemma read_registered_write b : forall watch fuel rest, body_fits watch b ->
  (length (request_writeImpl watch b ++ rest) <= fuel)%nat ->
  read_registered (multi_readImpl fuel) (request_getOpNum b) (request_writeImpl watch b ++ rest) =
  (Ok (watch, b), rest).
Proof.
  induction b as [b Hflat|t rs IH] using RequestBody_parts_ind; intros watch fuel rest Hb Hfuel.
  { by apply read_registered_flat. }
  apply body_fits_multi in Hb as (-> & Ht & Hb).
  pose proof (multi_readImpl_parts rs IH fuel rest Hb Hfuel) as E. unfold write_parts in E.
  destruct t; [done|..]; cbn [request_getOpNum read_registered sm_bind];
    cbn [request_writeImpl] in *; by rewrite E.
Qed.

#[export] Instance wire_request_read :
  WireFormat request_buf request_read request_fits.
Proof.
  intros [[x w] b] rest [Hx Hb]. unfold request_read, request_buf. cbn [fst snd xid has_watch] in *.
  rewrite <- !app_assoc. rewrite wire_bind by done. rewrite wire_bind by apply request_getOpNum_sent.
  cbn [sm_bind]. unfold request_readImpl. by rewrite read_registered_write.
Qed.

(** What the reader makes always fits. *)
#[export] Instance yields_registered parts op :
  Yields parts (Forall (fun r => xid r.1 = 0 /\ body_fits (has_watch r.1) r.2)) ->
  Yields (read_registered parts op) (fun r => body_fits r.1 r.2).
Proof.
  intros Hp. destruct op; cbn [read_registered];
    autounfold with wire; yields_go;
    first [by apply body_fits_multi | by cbn [body_fits carries_watch fst snd]; split_and!].
Qed.

#[export] Instance yields_multi fuel :
  Yields (multi_readImpl fuel) (Forall (fun r => xid r.1 = 0 /\ body_fits (has_watch r.1) r.2)).
Proof.
  induction fuel as [|fuel IH]; cbn [multi_readImpl]; [apply yields_fault|].
  apply (yields_bind _ _ (fun _ => True)); [done|]. intros op _.
  eapply yields_bind; [apply _|]. intros fin _. eapply yields_bind; [apply _|]. intros err _.
  unfold throw_error. destruct fin; [repeat case_bool_decide; yields_go; constructor|].
  eapply yields_bind; [apply _|]. intros r Hr. apply (yields_bind _ _ (fun _ => True)); [done|].
  intros [] _; yields_go. by repeat constructor.
Qed.

Lemma request_read_fits s r s' : request_read s = (Ok r, s') -> request_fits r.
Proof.
  assert (Yields request_read request_fits) as Hy; [|by apply Hy].
  unfold request_read. eapply yields_bind; [apply _|]. intros x Hx.
  apply (yields_bind _ _ (fun _ => True)); [done|]. intros op _.
  apply (yields_bind _ _ (fun r => body_fits r.1 r.2)).
  - intros s1 r1 s2 E. by apply yields_registered in E; [|apply _].
  - intros r1 Hr1. apply yields_ret. by split.
Qed.

(** C13: the requests that [ZooKeeperRequest::read] can produce, from any bytes a
    client may send, are exactly the well-formed ones: every number within its C++
    type, every string and vector within the limit of the reader, flags and parts of
    transactions included, so that whatever was accepted can be written again. *)
Theorem read_yields_well_formed r :
  request_fits r <-> exists s s', request_read s = (Ok r, s').
Proof.
  split.
  - intros Hr. exists (request_buf r ++ []), []. by apply wire_request_read.
  - intros (s & s' & E). by eapply request_read_fits.
Qed.

(** A request survives the wire: [ZooKeeperRequest::read] reads back what
    [write] wrote behind the length, whatever follows it, for every request
    class, transactions and transactions inside transactions included. *)
Theorem request_roundtrip r rest :
  request_fits r ->
  exists len, (l <- read_i32 ;; r' <- request_read ;; sm_ret (l, r'))%sm (request_write r ++ rest) =
    (Ok (i32 len, r), rest) /\ len = Z.of_nat (length (request_write r)) - 4.
Proof.
  intros Hr. unfold request_write. eexists. rewrite <- app_assoc. split.
  - cbn [sm_bind]. rewrite read_i32_any. by rewrite read_write by done.
  - rewrite length_app. unfold write_i32. rewrite length_write_int. lia.
Qed.

Lemma deserialize_serialize r :
  request_fits (request r) -> in_i64 (session_id r) -> in_i64 (process_time r) ->
  deserializeKeeperRequest (serializeKeeperRequest r) =
    Ok (mkRequestForSession (session_id r) (request r) 0 (process_time r) (-1) (-1)).
Proof.
  intros Hr Hs Ht. unfold deserializeKeeperRequest, serializeKeeperRequest, request_write.
  rewrite <- (app_nil_r (write_i64 (process_time r))), <- !app_assoc.
  rewrite wire_bind by done. cbn [sm_bind]. rewrite read_i32_any, read_write by done. by rewrite read_write.
Qed.

(** C18: every replica applies the request the client sent: whatever bytes the
    server accepted as a request, the log entry made of it is read back as the
    same request of the same session at the same time. *)
Theorem log_entry_roundtrip message r rest session time created server client :
  request_read message = (Ok r, rest) -> in_i64 session -> in_i64 time ->
  deserializeKeeperRequest (serializeKeeperRequest (mkRequestForSession session r created time server client)) =
    Ok (mkRequestForSession session r 0 time (-1) (-1)).
Proof.
  intros Hr%request_read_fits Hs Ht. by apply deserialize_serialize.
Qed.

(** A transaction that creates an ephemeral node and reads it with a watch. *)
Definition sample_request : ZooKeeperRequest :=
  (mkRequestHeader 7 false,
   MultiRequest OperationType_Write
     [(mkRequestHeader 0 false, CreateRequest "/a" "x" true false [mkACL 31 "world" "anyone"] false);
      (mkRequestHeader 0 true, GetRequest "/a")]).

Lemma sample_request_fits : request_fits sample_request.
Proof.
  split; [by vm_compute|]. cbn. unfold vector_fits, string_fits, MAX_STRING_OR_ARRAY_SIZE.
  split_and!; try done; simpl; try lia. repeat constructor; unfold in_i32, string_fits, MAX_STRING_OR_ARRAY_SIZE; simpl; lia.
Qed.

Lemma request_roundtrip_witness :
  exists len, (l <- read_i32 ;; r' <- request_read ;; sm_ret (l, r'))%sm (request_write sample_request ++ []) =
    (Ok (i32 len, sample_request), []) /\ len = Z.of_nat (length (request_write sample_request)) - 4.
Proof. exact (request_roundtrip sample_request [] sample_request_fits). Defined.

Lemma log_entry_roundtrip_witness :
  deserializeKeeperRequest
    (serializeKeeperRequest (mkRequestForSession 5 sample_request 11 1700000000000 (-1) (-1))) =
    Ok (mkRequestForSession 5 sample_request 0 1700000000000 (-1) (-1)).
Proof.
  apply (log_entry_roundtrip (request_buf sample_request) sample_request [] 5 1700000000000 11 (-1) (-1));
    by vm_compute.
Defined.

(** A string cut off by the end of the message is accepted: [read] of a
    string takes the bytes that are there and fills the rest with zero
    characters, where every integer read throws. *)
Theorem short_string_padded n bs :
  (length bs < n)%nat -> Z.of_nat n <= MAX_STRING_OR_ARRAY_SIZE ->
  read_string (write_i32 (Z.of_nat n) ++ bs) =
    (Ok (string_of_list_ascii (bs ++ replicate (n - length bs) zero)), []) /\
  request_read (write_i32 1 ++ write_OpNum OpSync ++ write_i32 (Z.of_nat n) ++ bs) =
    (Ok (mkRequestHeader 1 false, SyncRequest (string_of_list_ascii (bs ++ replicate (n - length bs) zero))), []).
Proof.
  intros Hl Hn. assert (read_string (write_i32 (Z.of_nat n) ++ bs) =
    (Ok (string_of_list_ascii (bs ++ replicate (n - length bs) zero)), [])) as E.
  { unfold read_string. rewrite wire_bind by (by apply size_fits).
    rewrite (proj2 (Z.eqb_neq _ _)), (proj2 (Z.ltb_ge _ _)), (proj2 (Z.ltb_ge _ _)) by (done || lia).
    rewrite Nat2Z.id. cbn [sm_bind read_at_most sm_ret]. by rewrite take_ge, drop_ge by lia. }
  split; [exact E|]. unfold request_read. rewrite !wire_bind by done. cbn [sm_bind].
  unfold request_readImpl. cbn [read_registered]. unfold Sync_readImpl. cbn [sm_bind]. by rewrite E.
Qed.

Lemma short_string_padded_witness :
  read_string (write_i32 4 ++ ["/"%char; "a"%char]) =
    (Ok (String "/" (String "a" (String zero (String zero EmptyString)))), []).
Proof.
  apply (short_string_padded 4 ["/"%char; "a"%char]); [simpl; lia|].
  unfold MAX_STRING_OR_ARRAY_SIZE. lia.
Defined.
