(* ===== verification/Pipeline.v ===== *)
(** * From the connections to the processor

    The request threads of [KeeperDispatcher] ([src/src/Service/KeeperDispatcher.cpp]),
    [RequestAccumulator] ([RequestAccumulator.cpp]) and, as far as they see it,
    the Raft log: a request goes from the queue of its runner to the processor and,
    when it is a write, through a batch of the accumulator into the log, from which
    Raft commits it to the processor. Each step is one of a thread; they interleave
    in any order. *)

From S2P Require Import Prelude Coordination Store Processor Wire WireRequests.

(** ** A request thread *)

(** [TPopped]: a request was taken from the queue; [TRoute]: it was pushed to the
    processor, if at all. *)
Inductive RequestThread :=
| TIdle
| TPopped (r : RequestForSession)
| TRoute (r : RequestForSession).

(** Session requests and Auth requests are not pushed to the processor, nor those
    of sessions that are not local. *)
Definition to_processor (local : Z -> bool) (r : RequestForSession) : bool :=
  negb (isSessionRequest (request_getOpNum (request r).2) || bool_decide (request_getOpNum (request r).2 = OpAuth)) &&
  local (session_id r).

Inductive Route := ToAccumulator | ToForwarder | ToNobody.

(** [isLeaderAlive] is asked twice. *)
Definition route (alive alive_again leader : bool) (r : RequestForSession) : Route :=
  if negb (request_isReadRequest (request r).2) && alive then
    if leader then ToAccumulator else ToForwarder
  else if negb (request_isReadRequest (request r).2) && negb alive_again then ToAccumulator
  else ToNobody.

(** ** The accumulator *)

(** [ATake]: at the head of the loop; [AFlush]: the batch is passed to Raft;
    [AWait]: for the result, with whether Raft accepted the batch. *)
Inductive AccumulatorPc :=
| ATake
| AFlush
| AWait (accepted : bool).

Definition set_process_time (now : Z) (r : RequestForSession) : RequestForSession :=
  mkRequestForSession (session_id r) (request r) (create_time r) now (server_id r) (client_id r).

(** What is made of the result of a batch: an error for each request, or, for a
    request that was forwarded to this server, an answer to the one it came from. *)
Definition request_error (accepted : bool) (code : cmd_result_code) (r : RequestForSession) : ErrorRequest :=
  mkErrorRequest accepted code (session_id r) (xid (request r).1) (request_getOpNum (request r).2).

Definition result_errors (accepted : bool) (code : cmd_result_code) (batch : list RequestForSession) : list ErrorRequest :=
  if accepted && bool_decide (code = RC_OK) then []
  else request_error accepted code <$> filter (fun r => isForwardRequest r = false) batch.

Record ForwardResult := mkForwardResult {
  fr_request : RequestForSession;
  fr_accepted : bool;
  fr_code : cmd_result_code
}.

Definition forward_results (accepted : bool) (code : cmd_result_code) (batch : list RequestForSession) : list ForwardResult :=
  (fun r => mkForwardResult r accepted code) <$> filter (fun r => isForwardRequest r = true) batch.

(** ** State *)

(** [log] is the log of Raft on this server, [commit_index] the number of its
    entries that were committed. *)
Record Pipeline := mkPipeline {
  pl_queues : list (list RequestForSession);
  pl_threads : list RequestThread;
  pl_forward : list (list RequestForSession);
  pl_queue : list RequestForSession;
  pl_batch : list RequestForSession;
  pl_pc : AccumulatorPc;
  pl_results : list ForwardResult;
  pl_log : list bytes;
  commit_index : nat;
  pl_processor : RunPc * RequestProcessor
}.

Definition pl_set_requests (qs : list (list RequestForSession)) (ts : list RequestThread) (p : Pipeline) : Pipeline :=
  mkPipeline qs ts (pl_forward p) (pl_queue p) (pl_batch p) (pl_pc p) (pl_results p) (pl_log p) (commit_index p) (pl_processor p).
Definition pl_set_forward (f : list (list RequestForSession)) (p : Pipeline) : Pipeline :=
  mkPipeline (pl_queues p) (pl_threads p) f (pl_queue p) (pl_batch p) (pl_pc p) (pl_results p) (pl_log p) (commit_index p) (pl_processor p).
Definition pl_set_accumulator (q b : list RequestForSession) (pc : AccumulatorPc) (p : Pipeline) : Pipeline :=
  mkPipeline (pl_queues p) (pl_threads p) (pl_forward p) q b pc (pl_results p) (pl_log p) (commit_index p) (pl_processor p).
Definition pl_add_results (l : list ForwardResult) (p : Pipeline) : Pipeline :=
  mkPipeline (pl_queues p) (pl_threads p) (pl_forward p) (pl_queue p) (pl_batch p) (pl_pc p) (pl_results p ++ l) (pl_log p)
    (commit_index p) (pl_processor p).
Definition pl_append (l : list bytes) (p : Pipeline) : Pipeline :=
  mkPipeline (pl_queues p) (pl_threads p) (pl_forward p) (pl_queue p) (pl_batch p) (pl_pc p) (pl_results p) (pl_log p ++ l)
    (commit_index p) (pl_processor p).
Definition pl_advance (p : Pipeline) : Pipeline :=
  mkPipeline (pl_queues p) (pl_threads p) (pl_forward p) (pl_queue p) (pl_batch p) (pl_pc p) (pl_results p) (pl_log p)
    (S (commit_index p)) (pl_processor p).
Definition pl_set_processor (st : RunPc * RequestProcessor) (p : Pipeline) : Pipeline :=
  mkPipeline (pl_queues p) (pl_threads p) (pl_forward p) (pl_queue p) (pl_batch p) (pl_pc p) (pl_results p) (pl_log p)
    (commit_index p) st.

Section pipeline.
Context `{IterOrder} (sha1_base64 : string -> string) (compat : bool) (parallel : nat) (max_batch_size : Z).
Abbreviation proc_step := (proc_step sha1_base64 compat parallel).

Definition pipeline_init (srv : Server) : Pipeline :=
  mkPipeline (replicate parallel []) (replicate parallel TIdle) (replicate parallel []) [] [] ATake [] [] 0
    (RWait, processor_init parallel srv).

(** [RequestsQueue::push]: to the queue of the session's runner. *)
Definition enqueue (r : RequestForSession) (qs : list (list RequestForSession)) : list (list RequestForSession) :=
  alter (fun q => q ++ [r]) (getRunnerId parallel (session_id r)) qs.

Definition has_room (r : RequestForSession) (qs : list (list RequestForSession)) : Prop :=
  exists q, qs !! getRunnerId parallel (session_id r) = Some q /\ Z.of_nat (length q) < requests_capacity parallel.

Definition accumulator_capacity : Z := 20000.

(** ** Steps *)

Inductive PEvent :=
| PReceive (r : RequestForSession)                    (* pushRequest, pushForwardRequest, pushSessionRequest *)
| PPop (k : nat)                                      (* requestThread(k) takes a request *)
| PProcess (k : nat) (local : Z -> bool)              (* and pushes it to the processor *)
| PRoute (k : nat) (alive alive_again leader : bool)  (* and to the accumulator or the forwarder *)
| PTake (now : Z)                                     (* the accumulator takes a request *)
| PNone                                               (* or finds none *)
| PAppend (accepted : bool)                           (* pushRequestBatch *)
| PResult (code : cmd_result_code)                    (* waitResultAndHandleError *)
| PLog (data : bytes)                                 (* an entry of another leader *)
| PCommit                                             (* Raft commits the next entry *)
| PError (e : ErrorRequest)                           (* the forwarder reports an error *)
| PRun (i : Inputs).                                  (* a step of the processor's thread *)

(** Every error in turn is reported to the processor. *)
Inductive report_errors : list ErrorRequest -> RunPc * RequestProcessor -> RunPc * RequestProcessor -> Prop :=
| re_nil st : report_errors [] st st
| re_cons e es st st1 st2 : proc_step st (EvError e) st1 -> report_errors es st1 st2 -> report_errors (e :: es) st st2.

Inductive pl_step (p : Pipeline) : PEvent -> Pipeline -> Prop :=
| pl_receive r :
    has_room r (pl_queues p) ->
    pl_step p (PReceive r) (pl_set_requests (enqueue r (pl_queues p)) (pl_threads p) p)
| pl_pop k r q :
    pl_queues p !! k = Some (r :: q) -> pl_threads p !! k = Some TIdle ->
    pl_step p (PPop k) (pl_set_requests (<[k := q]> (pl_queues p)) (<[k := TPopped r]> (pl_threads p)) p)
| pl_process k local r :
    pl_threads p !! k = Some (TPopped r) -> to_processor local r = true ->
    forall st', proc_step (pl_processor p) (EvPush r) st' ->
    pl_step p (PProcess k local)
      (pl_set_processor st' (pl_set_requests (pl_queues p) (<[k := TRoute r]> (pl_threads p)) p))
| pl_skip k local r :
    pl_threads p !! k = Some (TPopped r) -> to_processor local r = false ->
    pl_step p (PProcess k local) (pl_set_requests (pl_queues p) (<[k := TRoute r]> (pl_threads p)) p)
| pl_accumulate k alive alive_again leader r :
    pl_threads p !! k = Some (TRoute r) -> route alive alive_again leader r = ToAccumulator ->
    Z.of_nat (length (pl_queue p)) < accumulator_capacity ->
    pl_step p (PRoute k alive alive_again leader)
      (pl_set_accumulator (pl_queue p ++ [r]) (pl_batch p) (pl_pc p)
         (pl_set_requests (pl_queues p) (<[k := TIdle]> (pl_threads p)) p))
| pl_to_forwarder k alive alive_again leader r :
    pl_threads p !! k = Some (TRoute r) -> route alive alive_again leader r = ToForwarder -> has_room r (pl_forward p) ->
    pl_step p (PRoute k alive alive_again leader)
      (pl_set_forward (enqueue r (pl_forward p)) (pl_set_requests (pl_queues p) (<[k := TIdle]> (pl_threads p)) p))
| pl_nobody k alive alive_again leader r :
    pl_threads p !! k = Some (TRoute r) -> route alive alive_again leader r = ToNobody ->
    pl_step p (PRoute k alive alive_again leader) (pl_set_requests (pl_queues p) (<[k := TIdle]> (pl_threads p)) p)
| pl_take now r q :
    pl_pc p = ATake -> pl_queue p = r :: q ->
    pl_step p (PTake now)
      (let batch := pl_batch p ++ [set_process_time now r] in
       pl_set_accumulator q batch (if max_batch_size <=? Z.of_nat (length batch) then AFlush else ATake) p)
| pl_none :
    pl_pc p = ATake -> pl_queue p = [] ->
    pl_step p PNone (pl_set_accumulator [] (pl_batch p) (match pl_batch p with [] => ATake | _ => AFlush end) p)
| pl_append_batch accepted :
    pl_pc p = AFlush ->
    pl_step p (PAppend accepted)
      (pl_append (if accepted then serializeKeeperRequest <$> pl_batch p else [])
         (pl_set_accumulator (pl_queue p) (pl_batch p) (AWait accepted) p))
| pl_result accepted code st' :
    pl_pc p = AWait accepted -> report_errors (result_errors accepted code (pl_batch p)) (pl_processor p) st' ->
    pl_step p (PResult code)
      (pl_add_results (forward_results accepted code (pl_batch p))
         (pl_set_processor st' (pl_set_accumulator (pl_queue p) [] ATake p)))
| pl_log_other data : pl_step p (PLog data) (pl_append [data] p)
| pl_commit data r st' :
    pl_log p !! commit_index p = Some data -> deserializeKeeperRequest data = Ok r ->
    proc_step (pl_processor p) (EvCommit r) st' ->
    pl_step p PCommit (pl_set_processor st' (pl_advance p))
| pl_error e st' :
    proc_step (pl_processor p) (EvError e) st' -> pl_step p (PError e) (pl_set_processor st' p)
| pl_run_step i st' :
    proc_step (pl_processor p) (EvRun i) st' -> pl_step p (PRun i) (pl_set_processor st' p).

Inductive pl_steps : Pipeline -> list PEvent -> Pipeline -> Prop :=
| pls_nil p : pl_steps p [] p
| pls_snoc p evs p1 ev p2 : pl_steps p evs p1 -> pl_step p1 ev p2 -> pl_steps p (evs ++ [ev]) p2.
End pipeline.
