(* ===== verification/PipelineTheorems.v ===== *)
(** * What the pipeline promises

    On a server that leads and whose log accepts its batches, what a session
    sends reaches the store in the order in which it came from the connection:
    through the queue of the runner, the processor, the batches of the accumulator
    and the log. *)

From S2P Require Import Prelude Coordination Store Processor ProcessorSteps ProcessorTheorems.
From S2P Require Import ProcessorRuns StoreTheorems Wire WireRequests Pipeline.

(** ** Routing *)

(** Every write has a way, unless a leader appears between the two questions:
    then nobody gets it, and it is not reported as failed. *)
Theorem write_lost_when_leader_appears r leader :
  is_write (key r) ->
  route false true leader r = ToNobody /\ forall alive, route alive alive leader r <> ToNobody.
Proof.
  unfold is_write, route. cbn. intros ->. split; [done|]. intros []; cbn; [by destruct leader|done].
Qed.

Section theorems.
Context `{IterOrder} (sha1_base64 : string -> string) (compat : bool) (parallel : nat) (max_batch_size : Z).
Abbreviation proc_step := (proc_step sha1_base64 compat parallel).
Abbreviation proc_run := (proc_run sha1_base64 compat parallel).
Abbreviation pl_step := (pl_step sha1_base64 compat parallel max_batch_size).
Abbreviation pl_steps := (pl_steps sha1_base64 compat parallel max_batch_size).
Abbreviation runner := (getRunnerId parallel).

(** ** A stable leader *)

Definition received (s : Z) (evs : list PEvent) : list (Z * ZooKeeperRequest) :=
  filter (fun k => k.1 = s) (omap (fun ev => match ev with PReceive r => Some (key r) | _ => None end) evs).

(** A request whose numbers are of their types, and whose fields can be sent. *)
Definition sendable (r : RequestForSession) : Prop := request_fits (request r) /\ in_i64 (session_id r).

Definition stable_event (s : Z) (ev : PEvent) : Prop :=
  match ev with
  | PReceive r => sendable r /\ (session_id r = s -> ordered (request r).2)
  | PProcess _ local => local s = true
  | PRoute _ alive _ leader => alive = true /\ leader = true
  | PTake now => in_i64 now
  | PAppend accepted => accepted = true
  | PResult code => code = RC_OK
  | PLog data => forall r, deserializeKeeperRequest data = Ok r -> is_write (key r) /\ ~ of_session s (key r)
  | PError e => err_session_id e <> s
  | PRun i => in_local i s = true
  | PPop _ | PNone | PCommit => True
  end.

Record stable_leader (s : Z) (evs : list PEvent) : Prop := {
  sl_events : Forall (stable_event s) evs;
  sl_xids : xids_distinct (received s evs)
}.

(** ** Where the requests are *)

Definition thread_request (t : RequestThread) : option RequestForSession :=
  match t with TIdle => None | TPopped r | TRoute r => Some r end.

Record pl_wf (p : Pipeline) : Prop := {
  pw_queues : length (pl_queues p) = parallel;
  pw_threads : length (pl_threads p) = parallel;
  pw_queue k q r : pl_queues p !! k = Some q -> r ∈ q -> runner (session_id r) = k /\ sendable r;
  pw_thread k t r : pl_threads p !! k = Some t -> thread_request t = Some r -> runner (session_id r) = k /\ sendable r;
  pw_accumulator : Forall (fun r => sendable r /\ is_write (key r)) (pl_batch p ++ pl_queue p);
  pw_times : Forall (fun r => in_i64 (process_time r)) (pl_batch p)
}.

(** What the queue of the dispatcher has of the session, and its request thread. *)
Definition received_queue (s : Z) (p : Pipeline) : list (Z * ZooKeeperRequest) :=
  key <$> filter (fun r => session_id r = s) (default [] (pl_queues p !! runner s)).

Definition popped (s : Z) (p : Pipeline) : list (Z * ZooKeeperRequest) :=
  match pl_threads p !! runner s with
  | Some (TPopped r) => if decide (session_id r = s) then [key r] else []
  | _ => []
  end.

Definition routing (s : Z) (p : Pipeline) : list (Z * ZooKeeperRequest) :=
  match pl_threads p !! runner s with
  | Some (TRoute r) => if decide (of_session s (key r) /\ is_write (key r)) then [key r] else []
  | _ => []
  end.

(** The batch, until it is in the log. *)
Definition batched (p : Pipeline) : list (Z * ZooKeeperRequest) :=
  match pl_pc p with AWait _ => [] | _ => key <$> pl_batch p end.

Definition entry_key (data : bytes) : option (Z * ZooKeeperRequest) :=
  match deserializeKeeperRequest data with Ok r => Some (key r) | Fault _ => None end.

(** What is or will be in the log. *)
Definition logged (p : Pipeline) : list (Z * ZooKeeperRequest) :=
  omap entry_key (pl_log p) ++ batched p ++ (key <$> pl_queue p).

Record pl_inv (srv : Server) (s : Z) (evs : list PEvent) (p : Pipeline) (pevs : list Event) : Prop := {
  pi_wf : pl_wf p;
  pi_run : proc_run (RWait, processor_init parallel srv) pevs (pl_processor p);
  pi_ok : session_ok s pevs;
  pi_received : sent s pevs ++ popped s p ++ received_queue s p = received s evs;
  pi_writes : filter is_write (sent s pevs) = filter (of_session s) (logged p) ++ routing s p;
  pi_commits : commits pevs = omap entry_key (take (commit_index p) (pl_log p));
  pi_log : Forall is_write (omap entry_key (pl_log p));
  pi_index : (commit_index p <= length (pl_log p))%nat;
  pi_accepted a : pl_pc p = AWait a -> a = true
}.

Lemma entry_key_serialize r : sendable r -> in_i64 (process_time r) -> entry_key (serializeKeeperRequest r) = Some (key r).
Proof. intros [Hr Hs] Ht. unfold entry_key. by rewrite deserialize_serialize. Qed.

Lemma received_snoc s evs ev :
  received s (evs ++ [ev]) =
  received s evs ++ match ev with PReceive r => if decide (session_id r = s) then [key r] else [] | _ => [] end.
Proof.
  unfold received. rewrite omap_app, filter_app. f_equal. destruct ev as [r| | | | | | | | | | |]; [|done..]. change (omap _ [PReceive r]) with [key r]. case_decide.
  - by rewrite filter_cons_True.
  - by rewrite filter_cons_False.
Qed.

Lemma xids_distinct_prefix l l' : xids_distinct (l ++ l') -> xids_distinct l.
Proof. intros Hx i j k k' Hi Hj. apply Hx; by apply lookup_app_l_Some. Qed.

Lemma stable_leader_snoc s evs ev : stable_leader s (evs ++ [ev]) -> stable_leader s evs /\ stable_event s ev.
Proof.
  intros [He Hx]. apply Forall_app in He as [He Hev]. apply Forall_cons in Hev as [Hev _]. split; [split; [done|]|done].
  rewrite received_snoc in Hx. by eapply xids_distinct_prefix.
Qed.

(** ** Steps *)

Lemma received_ordered s evs : Forall (stable_event s) evs -> Forall (fun k => ordered k.2.2) (received s evs).
Proof.
  intros He. apply Forall_forall. intros k. unfold received.
  intros [Hs (ev & Hin & Ek)%list_elem_of_omap]%list_elem_of_filter. rewrite Forall_forall in He. specialize (He ev Hin).
  destruct ev as [r| | | | | | | | | | |]; [|done..]. injection Ek as <-. by apply He.
Qed.

(** The thread of the session's runner, after the thread [k] changed. *)
Lemma thread_insert s k t p t0 :
  pl_threads p !! k = Some t0 ->
  <[k := t]> (pl_threads p) !! runner s = if decide (runner s = k) then Some t else pl_threads p !! runner s.
Proof.
  intros Hk. case_decide as E; [|by rewrite list_lookup_insert_ne]. rewrite E, list_lookup_insert_eq; [done|].
  by eapply lookup_lt_Some.
Qed.

Lemma runner_other s r : runner s <> runner (session_id r) -> session_id r <> s.
Proof. congruence. Qed.

Lemma pl_wf_thread p k t0 t qs :
  pl_wf p -> pl_threads p !! k = Some t0 -> length qs = parallel ->
  (forall j q r, qs !! j = Some q -> r ∈ q -> runner (session_id r) = j /\ sendable r) ->
  (forall r, thread_request t = Some r -> runner (session_id r) = k /\ sendable r) ->
  pl_wf (pl_set_requests qs (<[k := t]> (pl_threads p)) p).
Proof.
  intros [H1 H2 H3 H4 H5 H6] Hk Hl Hq Ht. split; cbn; try done; [by rewrite length_insert|].
  intros j t' r Hj. destruct (decide (k = j)) as [<-|Hne].
  - rewrite list_lookup_insert_eq in Hj by (by eapply lookup_lt_Some). injection Hj as <-. apply Ht.
  - rewrite list_lookup_insert_ne in Hj by done. by apply H4.
Qed.

Lemma pl_wf_processor st p : pl_wf p -> pl_wf (pl_set_processor st p).
Proof. intros [? ? ? ? ? ?]. by split. Qed.

Lemma pl_inv_receive srv s evs p pevs r :
  pl_inv srv s evs p pevs -> stable_event s (PReceive r) -> has_room parallel r (pl_queues p) ->
  pl_inv srv s (evs ++ [PReceive r]) (pl_set_requests (enqueue parallel r (pl_queues p)) (pl_threads p) p) pevs.
Proof.
  intros [Hw Hr Hok Hrec Hwr Hc Hl Hix Hacc] [Hs _] (q & Hq & _). split; try done.
  - destruct Hw as [H1 H2 H3 H4 H5 H6]. split; cbn; try done; [by unfold enqueue; rewrite length_alter|].
    intros k q' r' Hk Hin. unfold enqueue in Hk. destruct (decide (runner (session_id r) = k)) as [<-|Hne].
    + rewrite list_lookup_alter_eq, Hq in Hk. injection Hk as <-.
      apply elem_of_app in Hin as [Hin| ->%list_elem_of_singleton]; [by eapply H3|done].
    + rewrite list_lookup_alter_ne in Hk by done. by eapply H3.
  - rewrite received_snoc, <- Hrec, <- !app_assoc. f_equal. f_equal. unfold received_queue, enqueue. cbn.
    destruct (decide (runner (session_id r) = runner s)) as [E|E].
    + rewrite <- E, list_lookup_alter_eq, Hq. cbn. rewrite filter_app, fmap_app. f_equal.
      case_decide; [by rewrite filter_cons_True|by rewrite filter_cons_False].
    + rewrite list_lookup_alter_ne by done. by rewrite decide_False, app_nil_r by congruence.
Qed.

Lemma pl_inv_pop srv s evs p pevs k r q :
  pl_inv srv s evs p pevs -> pl_queues p !! k = Some (r :: q) -> pl_threads p !! k = Some TIdle ->
  pl_inv srv s (evs ++ [PPop k]) (pl_set_requests (<[k := q]> (pl_queues p)) (<[k := TPopped r]> (pl_threads p)) p) pevs.
Proof.
  intros [Hw Hr Hok Hrec Hwr Hc Hl Hix Hacc] Hq Ht. pose proof Hw as [H1 H2 H3 H4 H5 H6].
  assert (k < length (pl_queues p))%nat as Hlt by (by eapply lookup_lt_Some).
  destruct (H3 _ _ r Hq ltac:(by left)) as [Hrun Hsend]. split; try done.
  - eapply pl_wf_thread; [done|done|by rewrite length_insert| |by intros ? [= <-]].
    intros j q' r' Hj Hin. destruct (decide (k = j)) as [<-|Hne].
    + rewrite list_lookup_insert_eq in Hj by done. injection Hj as <-. eapply H3; [done|by right].
    + rewrite list_lookup_insert_ne in Hj by done. by eapply H3.
  - rewrite received_snoc, app_nil_r, <- Hrec. f_equal. unfold popped, received_queue. cbn.
    rewrite (thread_insert _ _ _ _ _ Ht). destruct (decide (runner s = k)) as [E|E].
    + subst k. rewrite <- E in *. rewrite Ht, list_lookup_insert_eq, Hq by done. cbn [from_option id].
      case_decide; [by rewrite filter_cons_True|by rewrite filter_cons_False].
    + by rewrite list_lookup_insert_ne.
  - rewrite Hwr. f_equal. unfold routing. cbn. rewrite (thread_insert _ _ _ _ _ Ht). case_decide as E; [|done]. by rewrite E, Ht.
Qed.

(** The request its thread holds is the next of the session. *)
Lemma popped_next srv s evs p pevs k r :
  pl_inv srv s evs p pevs -> Forall (stable_event s) evs -> pl_threads p !! k = Some (TPopped r) -> session_id r = s ->
  runner s = k /\ ordered (request r).2 /\ popped s p = [key r].
Proof.
  intros Hi He Ht Hs. destruct (pw_thread _ (pi_wf _ _ _ _ _ Hi) _ _ _ Ht eq_refl) as [Hk _]. rewrite Hs in Hk.
  assert (popped s p = [key r]) as Hp by (unfold popped; by rewrite Hk, Ht, decide_True). split; [done|]. split; [|done].
  pose proof (received_ordered s evs He) as Ho. rewrite <- (pi_received _ _ _ _ _ Hi), Hp in Ho.
  apply Forall_app in Ho as [_ Ho]. apply Forall_app in Ho as [Ho _]. by apply Forall_cons in Ho as [Ho _].
Qed.

Lemma pl_inv_process srv s evs p pevs k local r st' :
  pl_inv srv s evs p pevs -> stable_leader s evs -> pl_threads p !! k = Some (TPopped r) ->
  proc_step (pl_processor p) (EvPush r) st' ->
  pl_inv srv s (evs ++ [PProcess k local])
    (pl_set_processor st' (pl_set_requests (pl_queues p) (<[k := TRoute r]> (pl_threads p)) p)) (pevs ++ [EvPush r]).
Proof.
  intros Hi [He Hx] Ht Hst. pose proof Hi as [Hw Hr Hok Hrec Hwr Hc Hl Hix Hacc]. pose proof Hw as [H1 H2 H3 H4 H5 H6].
  destruct (H4 _ _ _ Ht eq_refl) as [Hk Hsend]. pose proof (popped_next _ _ _ _ _ _ _ Hi He Ht) as Hnext. split; try done.
  - apply pl_wf_processor. by eapply (pl_wf_thread p); [..|intros ? [= <-]].
  - by eapply pr_snoc.
  - apply session_ok_snoc; [done|]. intros Hs. destruct (Hnext Hs) as (_ & Ho & Hp). split; [done|].
    rewrite sent_snoc, decide_True by done. rewrite <- Hrec, Hp, app_assoc in Hx. by eapply xids_distinct_prefix.
  - rewrite received_snoc, sent_snoc, app_nil_r, <- Hrec, <- app_assoc. f_equal. rewrite app_assoc. f_equal. unfold popped. cbn.
    rewrite (thread_insert _ _ _ _ _ Ht). destruct (decide (runner s = k)) as [E|E].
    + by rewrite E, Ht, app_nil_r.
    + by rewrite decide_False by (intros Hs; apply E; by rewrite <- Hk, Hs).
  - rewrite sent_snoc, filter_app, Hwr. unfold routing. cbn. rewrite (thread_insert _ _ _ _ _ Ht), <- app_assoc. f_equal.
    destruct (decide (runner s = k)) as [E|E].
    + rewrite E, Ht. cbn [app]. destruct (decide (session_id r = s)) as [Hs|Hs].
      * destruct (Hnext Hs) as (_ & Ho & _). destruct (decide (is_write (key r))).
        -- by rewrite filter_cons_True, decide_True by (done || by repeat split).
        -- by rewrite filter_cons_False, decide_False by (done || by intros [_ ?]).
      * by rewrite decide_False by (by intros [[? _] _]).
    + rewrite decide_False by (intros Hs; apply E; by rewrite <- Hk, Hs). by rewrite app_nil_r.
  - by rewrite commits_snoc, app_nil_r.
Qed.

Lemma pl_inv_skip srv s evs p pevs k local r :
  pl_inv srv s evs p pevs -> stable_leader s evs -> local s = true -> pl_threads p !! k = Some (TPopped r) ->
  to_processor local r = false ->
  pl_inv srv s (evs ++ [PProcess k local]) (pl_set_requests (pl_queues p) (<[k := TRoute r]> (pl_threads p)) p) pevs.
Proof.
  intros Hi [He _] Hloc Ht Hto. pose proof Hi as [Hw Hr Hok Hrec Hwr Hc Hl Hix Hacc]. pose proof Hw as [H1 H2 H3 H4 H5 H6].
  destruct (H4 _ _ _ Ht eq_refl) as [Hk Hsend].
  assert (session_id r <> s) as Hne.
  { intros Hs. destruct (popped_next _ _ _ _ _ _ _ Hi He Ht Hs) as (_ & [Hse Hau] & _). unfold to_processor in Hto.
    by rewrite Hse, bool_decide_false, Hs, Hloc in Hto. }
  split; try done.
  - by eapply (pl_wf_thread p); [..|intros ? [= <-]].
  - rewrite received_snoc, app_nil_r, <- Hrec. f_equal. f_equal. unfold popped. cbn. rewrite (thread_insert _ _ _ _ _ Ht).
    destruct (decide (runner s = k)) as [E|E]; [|done]. by rewrite E, Ht, decide_False.
  - rewrite Hwr. f_equal. unfold routing. cbn. rewrite (thread_insert _ _ _ _ _ Ht).
    destruct (decide (runner s = k)) as [E|E]; [|done]. rewrite E, Ht, decide_False; [done|]. by intros [[? _] _].
Qed.

(** A request that leaves its thread. *)
Lemma routed srv s evs p pevs k r :
  pl_inv srv s evs p pevs -> pl_threads p !! k = Some (TRoute r) ->
  let p' := pl_set_requests (pl_queues p) (<[k := TIdle]> (pl_threads p)) p in
  pl_wf p' /\ popped s p' = popped s p /\ routing s p' = (if decide (of_session s (key r) /\ is_write (key r)) then [] else routing s p) /\
  (of_session s (key r) /\ is_write (key r) -> routing s p = [key r]).
Proof.
  intros Hi Ht p'. pose proof (pi_wf _ _ _ _ _ Hi) as Hw. pose proof Hw as [H1 H2 H3 H4 H5 H6].
  destruct (H4 _ _ _ Ht eq_refl) as [Hk Hsend]. split_and!.
  - by eapply (pl_wf_thread p).
  - unfold popped, p'. cbn. rewrite (thread_insert _ _ _ _ _ Ht). case_decide as E; [|done]. by rewrite E, Ht.
  - unfold routing, p'. cbn. rewrite (thread_insert _ _ _ _ _ Ht). destruct (decide (runner s = k)) as [E|E].
    + rewrite E, Ht. by case_decide.
    + rewrite decide_False; [done|]. intros [[Hs _] _]. apply E. by rewrite <- Hk, <- Hs.
  - intros [Hs Hwr]. unfold routing. replace (runner s) with k; [|by rewrite <- Hk, <- (proj1 Hs)]. by rewrite Ht, decide_True.
Qed.

Lemma pl_inv_accumulate srv s evs p pevs k ev r :
  pl_inv srv s evs p pevs -> pl_threads p !! k = Some (TRoute r) -> is_write (key r) ->
  (match ev with PReceive _ => False | _ => True end) ->
  pl_inv srv s (evs ++ [ev])
    (pl_set_accumulator (pl_queue p ++ [r]) (pl_batch p) (pl_pc p)
       (pl_set_requests (pl_queues p) (<[k := TIdle]> (pl_threads p)) p)) pevs.
Proof.
  intros Hi Ht Hwrite Hev. destruct (routed _ _ _ _ _ _ _ Hi Ht) as (Hw' & Hp & Hro & Hro1).
  destruct Hi as [Hw Hr Hok Hrec Hwr Hc Hl Hix Hacc]. split; try done.
  - destruct Hw' as [H1 H2 H3 H4 H5 H6]. split; try done. cbn. rewrite app_assoc. apply Forall_app. split; [done|].
    constructor; [|done]. split; [|done]. by eapply (pw_thread _ Hw).
  - rewrite received_snoc, <- Hrec. destruct ev; try done; by rewrite app_nil_r; f_equal; f_equal.
  - rewrite Hwr. change (routing s (pl_set_accumulator _ _ _ ?p')) with (routing s p'). rewrite Hro.
    unfold logged, batched. cbn. rewrite fmap_app, !filter_app, <- !app_assoc. f_equal. f_equal. f_equal. cbn [fmap list_fmap].
    destruct (decide (of_session s (key r))) as [Ho|Ho].
    + by rewrite filter_cons_True, decide_True, Hro1.
    + rewrite filter_cons_False, decide_False; [done| |done]. by intros [? _].
Qed.

Lemma pl_inv_nobody srv s evs p pevs k ev r :
  pl_inv srv s evs p pevs -> pl_threads p !! k = Some (TRoute r) -> ~ is_write (key r) ->
  (match ev with PReceive _ => False | _ => True end) ->
  pl_inv srv s (evs ++ [ev]) (pl_set_requests (pl_queues p) (<[k := TIdle]> (pl_threads p)) p) pevs.
Proof.
  intros Hi Ht Hwrite Hev. destruct (routed _ _ _ _ _ _ _ Hi Ht) as (Hw' & Hp & Hro & Hro1).
  destruct Hi as [Hw Hr Hok Hrec Hwr Hc Hl Hix Hacc]. split; try done.
  - rewrite received_snoc, <- Hrec. destruct ev; try done; by rewrite app_nil_r; f_equal; f_equal.
  - rewrite Hwr, Hro, decide_False; [done|]. by intros [_ ?].
Qed.

(** ** The accumulator and the log *)

Lemma pl_inv_take srv s evs p pevs now r q :
  pl_inv srv s evs p pevs -> in_i64 now -> pl_pc p = ATake -> pl_queue p = r :: q ->
  pl_inv srv s (evs ++ [PTake now])
    (let batch := pl_batch p ++ [set_process_time now r] in
     pl_set_accumulator q batch (if max_batch_size <=? Z.of_nat (length batch) then AFlush else ATake) p) pevs.
Proof.
  intros [Hw Hr Hok Hrec Hwr Hc Hl Hix Hacc] Hnow Hpc Hq. cbn zeta.
  set (pc := if max_batch_size <=? Z.of_nat (length (pl_batch p ++ [set_process_time now r])) then AFlush else ATake).
  assert (forall a, pc <> AWait a) as Hne by (intros a; unfold pc; by destruct (_ <=? _)). split; try done.
  - destruct Hw as [H1 H2 H3 H4 H5 H6]. rewrite Hq in H5. split; try done; cbn.
    + rewrite <- app_assoc. apply Forall_app in H5 as [H5 H7]. apply Forall_app. split; [done|]. by apply Forall_cons in H7 as [H7 H8]; constructor.
    + apply Forall_app. by split; [|constructor].
  - by rewrite received_snoc, app_nil_r, <- Hrec.
  - rewrite Hwr. unfold logged, batched. cbn [pl_pc pl_log pl_queue pl_batch pl_set_accumulator]. rewrite Hpc, Hq. do 2 f_equal.
    destruct pc; [| |by destruct (Hne accepted)]; rewrite fmap_app, <- app_assoc; done.
  - intros a Ha. by destruct (Hne a).
Qed.

Lemma pl_inv_none srv s evs p pevs :
  pl_inv srv s evs p pevs -> pl_pc p = ATake -> pl_queue p = [] ->
  pl_inv srv s (evs ++ [PNone]) (pl_set_accumulator [] (pl_batch p) (match pl_batch p with [] => ATake | _ => AFlush end) p) pevs.
Proof.
  intros [Hw Hr Hok Hrec Hwr Hc Hl Hix Hacc] Hpc Hq. split; try done.
  - destruct Hw as [H1 H2 H3 H4 H5 H6]. rewrite Hq in H5. by split.
  - by rewrite received_snoc, app_nil_r, <- Hrec.
  - rewrite Hwr. unfold logged, batched. cbn [pl_pc pl_log pl_queue pl_batch pl_set_accumulator]. rewrite Hpc, Hq.
    by destruct (pl_batch p).
  - intros a Ha. cbn in Ha. by destruct (pl_batch p).
Qed.

Lemma omap_entries rs :
  Forall (fun r => sendable r /\ is_write (key r)) rs -> Forall (fun r => in_i64 (process_time r)) rs ->
  omap entry_key (serializeKeeperRequest <$> rs) = key <$> rs.
Proof.
  induction 1 as [|r rs [Hs _] _ IH]; [done|]. intros [Ht Hts]%Forall_cons. cbn [fmap list_fmap].
  change (omap entry_key (?x :: ?l)) with (match entry_key x with Some k => k :: omap entry_key l | None => omap entry_key l end).
  by rewrite entry_key_serialize, IH.
Qed.

Lemma pl_inv_append srv s evs p pevs :
  pl_inv srv s evs p pevs -> pl_pc p = AFlush ->
  pl_inv srv s (evs ++ [PAppend true])
    (pl_append (serializeKeeperRequest <$> pl_batch p) (pl_set_accumulator (pl_queue p) (pl_batch p) (AWait true) p)) pevs.
Proof.
  intros [Hw Hr Hok Hrec Hwr Hc Hl Hix Hacc] Hpc. pose proof Hw as [H1 H2 H3 H4 H5 H6].
  apply Forall_app in H5 as [H5 H7]. pose proof (omap_entries _ H5 H6) as Hent. split; try done.
  - split; try done. by apply Forall_app.
  - by rewrite received_snoc, app_nil_r, <- Hrec.
  - rewrite Hwr. unfold logged, batched. cbn [pl_pc pl_log pl_queue pl_batch pl_set_accumulator pl_append].
    rewrite Hpc, omap_app, Hent, <- !app_assoc. done.
  - cbn. by rewrite take_app_le.
  - cbn. rewrite omap_app, Hent. apply Forall_app. split; [done|]. apply Forall_fmap. eapply Forall_impl; [exact H5|]. intros x [_ Hx]. exact Hx.
  - cbn. rewrite length_app. lia.
  - by intros a [= <-].
Qed.

Lemma pl_inv_result srv s evs p pevs a st' :
  pl_inv srv s evs p pevs -> pl_pc p = AWait a ->
  report_errors sha1_base64 compat parallel (result_errors a RC_OK (pl_batch p)) (pl_processor p) st' ->
  pl_inv srv s (evs ++ [PResult RC_OK])
    (pl_add_results (forward_results a RC_OK (pl_batch p)) (pl_set_processor st' (pl_set_accumulator (pl_queue p) [] ATake p))) pevs.
Proof.
  intros [Hw Hr Hok Hrec Hwr Hc Hl Hix Hacc] Hpc Hre. rewrite (Hacc a Hpc) in *. cbn in Hre. inversion Hre; subst. split; try done.
  - destruct Hw as [H1 H2 H3 H4 H5 H6]. apply Forall_app in H5 as [_ H5]. by split.
  - by rewrite received_snoc, app_nil_r, <- Hrec.
  - rewrite Hwr. unfold logged, batched. cbn. by rewrite Hpc.
Qed.

Lemma pl_inv_log srv s evs p pevs data :
  pl_inv srv s evs p pevs -> stable_event s (PLog data) -> pl_inv srv s (evs ++ [PLog data]) (pl_append [data] p) pevs.
Proof.
  intros [Hw Hr Hok Hrec Hwr Hc Hl Hix Hacc] Hev.
  assert (omap entry_key [data] = match entry_key data with Some k => [k] | None => [] end) as Hd
    by (cbn; by destruct (entry_key data)).
  assert (forall k, entry_key data = Some k -> is_write k /\ ~ of_session s k) as Hk.
  { intros k. unfold entry_key. cbn in Hev. destruct (deserializeKeeperRequest data) as [r|]; [|done]. intros [= <-]. by apply Hev. }
  split; try done.
  - by destruct Hw; split.
  - by rewrite received_snoc, app_nil_r, <- Hrec.
  - rewrite Hwr. unfold logged, batched. cbn [pl_pc pl_log pl_queue pl_batch pl_append]. rewrite omap_app, Hd, !filter_app.
    destruct (entry_key data) as [k|]; [|by rewrite app_nil_r]. destruct (Hk k eq_refl). by rewrite (filter_cons_False _ k), filter_nil, app_nil_r.
  - cbn. by rewrite take_app_le.
  - cbn [pl_log pl_append]. rewrite omap_app, Hd. apply Forall_app. split; [done|]. destruct (entry_key data) as [k|]; [|by apply Forall_nil].
    constructor; [|by apply Forall_nil]. by destruct (Hk k eq_refl).
  - cbn. rewrite length_app. lia.
Qed.

(** A step of the processor alone. *)
Lemma pl_inv_processor srv s evs p pevs ev pev st' :
  pl_inv srv s evs p pevs -> proc_step (pl_processor p) pev st' -> event_ok s pevs pev ->
  (match ev with PReceive _ => False | _ => True end) -> (match pev with EvPush _ | EvCommit _ => False | _ => True end) ->
  pl_inv srv s (evs ++ [ev]) (pl_set_processor st' p) (pevs ++ [pev]).
Proof.
  intros [Hw Hr Hok Hrec Hwr Hc Hl Hix Hacc] Hst Hev Hne Hne'. split; try done.
  - by apply pl_wf_processor.
  - by eapply pr_snoc.
  - by apply session_ok_snoc.
  - rewrite received_snoc, sent_snoc, <- Hrec. by destruct ev, pev; rewrite ?app_nil_r.
  - rewrite sent_snoc, filter_app. by destruct pev; rewrite ?app_nil_r.
  - rewrite commits_snoc. by destruct pev; rewrite ?app_nil_r.
Qed.

Lemma pl_inv_commit srv s evs p pevs data r st' :
  pl_inv srv s evs p pevs -> pl_log p !! commit_index p = Some data -> deserializeKeeperRequest data = Ok r ->
  proc_step (pl_processor p) (EvCommit r) st' ->
  pl_inv srv s (evs ++ [PCommit]) (pl_set_processor st' (pl_advance p)) (pevs ++ [EvCommit r]).
Proof.
  intros [Hw Hr Hok Hrec Hwr Hc Hl Hix Hacc] Hd Hde Hst.
  assert (commits pevs ++ [key r] = omap entry_key (take (S (commit_index p)) (pl_log p))) as Hc'.
  { rewrite (take_S_r _ _ _ Hd), omap_app, Hc. f_equal. cbn. unfold entry_key. by rewrite Hde. }
  split; try done.
  - apply pl_wf_processor. by destruct Hw; split.
  - by eapply pr_snoc.
  - apply session_ok_snoc; [done|]. intros _. rewrite Hc', Hwr. unfold logged.
    rewrite <- (take_drop (S (commit_index p)) (pl_log p)) at 2. rewrite omap_app, <- !app_assoc, filter_app, <- app_assoc. by eexists.
  - by rewrite received_snoc, sent_snoc, !app_nil_r, <- Hrec.
  - by rewrite sent_snoc, app_nil_r.
  - by rewrite commits_snoc.
  - cbn. by apply lookup_lt_Some in Hd.
Qed.

Lemma pl_inv_init srv s : (0 < parallel)%nat -> pl_inv srv s [] (pipeline_init parallel srv) [].
Proof.
  intros Hpar. split; try done.
  - split; cbn; try apply length_replicate; try by apply Forall_nil.
    + intros k q r Hk Hin. apply lookup_replicate in Hk as [-> _]. by apply elem_of_nil in Hin.
    + intros k t r Hk. by apply lookup_replicate in Hk as [-> _].
  - constructor.
  - split; try (intros ? Hin; by apply elem_of_nil in Hin).
    + intros i j k k' Hi. done.
    + intros pre r post E. by destruct pre.
  - unfold popped, received_queue. cbn. by rewrite !lookup_replicate_2 by by apply getRunnerId_lt.
  - unfold routing. cbn. by rewrite lookup_replicate_2 by by apply getRunnerId_lt.
Qed.

Lemma pl_inv_reachable srv s evs p :
  (0 < parallel)%nat -> pl_steps (pipeline_init parallel srv) evs p -> stable_leader s evs ->
  exists pevs, pl_inv srv s evs p pevs.
Proof.
  intros Hpar Hr. remember (pipeline_init parallel srv) as p0 eqn:E0. revert E0.
  induction Hr as [p|p evs p1 ev p2 Hr IH Hs]; intros -> Hsl; [eexists; by apply pl_inv_init|].
  destruct (stable_leader_snoc _ _ _ Hsl) as [Hsl1 Hev]. destruct (IH eq_refl Hsl1) as [pevs Hi].
  destruct Hs; cbn in Hev.
  - eexists. by apply pl_inv_receive.
  - eexists. by apply pl_inv_pop.
  - eexists. by apply pl_inv_process.
  - eexists. by apply pl_inv_skip.
  - destruct Hev as [-> ->]. eexists. apply pl_inv_accumulate; [done|done| |done].
    unfold is_write, route in *. cbn. by destruct (request_isReadRequest _).
  - destruct Hev as [-> ->]. unfold route in *. by destruct (request_isReadRequest _).
  - destruct Hev as [-> ->]. eexists. eapply pl_inv_nobody; [done|done| |done].
    unfold is_write, route in *. cbn. by destruct (request_isReadRequest _).
  - eexists. by apply pl_inv_take.
  - eexists. by apply pl_inv_none.
  - subst accepted. eexists. by apply pl_inv_append.
  - subst code. eexists. by eapply pl_inv_result.
  - eexists. by apply pl_inv_log.
  - eexists. by eapply pl_inv_commit.
  - exists (pevs ++ [EvError e]). by apply pl_inv_processor.
  - exists (pevs ++ [EvRun i]). by apply pl_inv_processor.
Qed.

(** C4: requests of a session reach the store in the order in which they came from
    its connection, reads and writes alike, on a server that leads throughout the
    run, when Raft takes every batch, no error is reported for the session, the
    session is local, its xids are distinct, it sends no Auth or session requests,
    the requests fit the protocol, and what other servers put into the log is not
    of the session. Over all interleavings of the request threads, the accumulator,
    Raft's commits and the processor: what was passed to the store, what is pending
    or queued in the processor, what its request thread holds and what waits in the
    queue of the dispatcher are together, in this order, all that the session
    sent. *)
Theorem pipeline_keeps_session_order srv s evs p :
  (0 < parallel)%nat -> pl_steps (pipeline_init parallel srv) evs p -> stable_leader s evs ->
  session_applied s (pl_processor p).2 ++ (key <$> session_pending parallel s (pl_processor p).2) ++
  (key <$> queued parallel s (pl_processor p).2) ++ popped s p ++ received_queue s p = received s evs.
Proof.
  intros Hpar Hr Hsl. destruct (pl_inv_reachable _ _ _ _ Hpar Hr Hsl) as [pevs [Hw Hpr Hok Hrec Hwr Hc Hl Hix Hacc]].
  assert (Forall is_write (commits pevs)) as Hcw.
  { rewrite Hc. rewrite <- (take_drop (commit_index p) (pl_log p)), omap_app in Hl. by apply Forall_app in Hl as [? _]. }
  pose proof (si_order _ _ _ _ _ (session_inv_reachable _ _ _ _ _ _ _ Hpar Hpr Hcw Hok)) as Ho. unfold session_order in Ho.
  by rewrite <- Hrec, <- Ho, <- !app_assoc.
Qed.

(** The accumulator never collects more than [max_batch_size] requests in a
    batch (one, if that is less), and passes no empty batch to Raft. *)
Theorem batches_bounded srv evs p :
  pl_steps (pipeline_init parallel srv) evs p ->
  Z.of_nat (length (pl_batch p)) <= Z.max 1 max_batch_size /\ (pl_pc p <> ATake -> pl_batch p <> []) /\
  (pl_pc p = ATake -> Z.of_nat (length (pl_batch p)) < Z.max 1 max_batch_size).
Proof.
  remember (pipeline_init parallel srv) as p0 eqn:E0. intros Hr. revert E0.
  induction Hr as [p|p evs p1 ev p2 Hr IH Hs]; intros ->; [cbn; split_and!; (done || lia)|].
  specialize (IH eq_refl) as (Hle & Hne & Hlt).
  destruct Hs as [| | | | | | |now r q Hpc _|Hpc _| | | | | |]; cbn; try (by split_and!).
  - rewrite length_app. cbn. specialize (Hlt Hpc). case_match eqn:E; split_and!; try lia; try done.
    + by intros _ [_ ?]%app_nil.
    + intros _. apply Z.leb_gt in E. lia.
  - specialize (Hlt Hpc). destruct (pl_batch p1); split_and!; try done; lia.
  - split_and!; [done| |done]. intros _. apply Hne. congruence.
  - split_and!; [lia|done|lia].
Qed.
End theorems.

(** ** A run *)

Section runs.
Context `{IterOrder} (sha1_base64 : string -> string) (compat : bool) (parallel : nat) (max_batch_size : Z).
Abbreviation exec_event := (exec_event sha1_base64 compat parallel).

Definition exec_processor (pev : Event) (p : Pipeline) : option Pipeline :=
  st ← exec_event (pl_processor p) pev; Some (pl_set_processor st p).

(** The steps of a stable leader, as a function. *)
Definition pl_exec_event (p : Pipeline) (ev : PEvent) : option Pipeline :=
  match ev with
  | PReceive r =>
      q ← pl_queues p !! getRunnerId parallel (session_id r);
      if Z.of_nat (length q) <? requests_capacity parallel
      then Some (pl_set_requests (enqueue parallel r (pl_queues p)) (pl_threads p) p) else None
  | PPop k =>
      match pl_queues p !! k, pl_threads p !! k with
      | Some (r :: q), Some TIdle =>
          Some (pl_set_requests (<[k := q]> (pl_queues p)) (<[k := TPopped r]> (pl_threads p)) p)
      | _, _ => None
      end
  | PProcess k local =>
      match pl_threads p !! k with
      | Some (TPopped r) =>
          let p1 := pl_set_requests (pl_queues p) (<[k := TRoute r]> (pl_threads p)) p in
          if to_processor local r then exec_processor (EvPush r) p1 else Some p1
      | _ => None
      end
  | PRoute k alive alive_again leader =>
      match pl_threads p !! k with
      | Some (TRoute r) =>
          let p1 := pl_set_requests (pl_queues p) (<[k := TIdle]> (pl_threads p)) p in
          match route alive alive_again leader r with
          | ToAccumulator =>
              if Z.of_nat (length (pl_queue p)) <? accumulator_capacity
              then Some (pl_set_accumulator (pl_queue p ++ [r]) (pl_batch p) (pl_pc p) p1) else None
          | ToForwarder => None
          | ToNobody => Some p1
          end
      | _ => None
      end
  | PTake now =>
      match pl_pc p, pl_queue p with
      | ATake, r :: q =>
          let batch := pl_batch p ++ [set_process_time now r] in
          Some (pl_set_accumulator q batch (if max_batch_size <=? Z.of_nat (length batch) then AFlush else ATake) p)
      | _, _ => None
      end
  | PNone =>
      match pl_pc p, pl_queue p with
      | ATake, [] => Some (pl_set_accumulator [] (pl_batch p) (match pl_batch p with [] => ATake | _ => AFlush end) p)
      | _, _ => None
      end
  | PAppend accepted =>
      match pl_pc p with
      | AFlush =>
          Some (pl_append (if accepted then serializeKeeperRequest <$> pl_batch p else [])
                  (pl_set_accumulator (pl_queue p) (pl_batch p) (AWait accepted) p))
      | _ => None
      end
  | PCommit =>
      data ← pl_log p !! commit_index p;
      match deserializeKeeperRequest data with
      | Ok r => exec_processor (EvCommit r) (pl_advance p)
      | Fault _ => None
      end
  | PRun i => exec_processor (EvRun i) p
  | _ => None
  end.

Lemma pl_exec_event_sound p ev p' :
  pl_exec_event p ev = Some p' -> pl_step sha1_base64 compat parallel max_batch_size p ev p'.
Proof.
  destruct ev as [r|k|k local|k a a' l|now| |acc|code|data| |e|i]; cbn [pl_exec_event]; intros E; try done.
  - destruct (pl_queues p !! _) as [q|] eqn:Eq; [|done]. cbn in E.
    destruct (Z.ltb_spec (Z.of_nat (length q)) (requests_capacity parallel)); [|done]. injection E as <-. apply pl_receive. by exists q.
  - repeat case_match; simplify_eq. by apply pl_pop.
  - destruct (pl_threads p !! k) as [[|r|r]|] eqn:Et; try done. destruct (to_processor local r) eqn:Er.
    + unfold exec_processor in E. destruct (exec_event _ _) as [st|] eqn:Es; [|done]. injection E as <-.
      apply exec_event_sound in Es. by eapply pl_process.
    + injection E as <-. by apply pl_skip.
  - destruct (pl_threads p !! k) as [[|r|r]|] eqn:Et; try done. destruct (route a a' l r) eqn:Er; [|done|].
    + destruct (Z.ltb_spec (Z.of_nat (length (pl_queue p))) accumulator_capacity); [|done]. injection E as <-. by apply pl_accumulate.
    + injection E as <-. by eapply pl_nobody.
  - destruct (pl_pc p) eqn:Epc; try done. destruct (pl_queue p) as [|r q] eqn:Eq; [done|]. injection E as <-. by apply pl_take.
  - destruct (pl_pc p) eqn:Epc; try done. destruct (pl_queue p) as [|r q] eqn:Eq; [|done]. injection E as <-. by apply pl_none.
  - destruct (pl_pc p) eqn:Epc; try done. injection E as <-. by apply pl_append_batch.
  - destruct (pl_log p !! commit_index p) as [data|] eqn:Ed; [|done]. cbn in E.
    destruct (deserializeKeeperRequest data) as [r|] eqn:Er; [|done].
    unfold exec_processor in E. destruct (exec_event _ _) as [st|] eqn:Es; [|done]. injection E as <-.
    apply exec_event_sound in Es. by eapply pl_commit.
  - unfold exec_processor in E. destruct (exec_event _ _) as [st|] eqn:Es; [|done]. injection E as <-.
    apply exec_event_sound in Es. by apply pl_run_step.
Qed.

Definition pl_exec (p : Pipeline) (evs : list PEvent) : option Pipeline :=
  fold_left (fun o ev => o ≫= fun p => pl_exec_event p ev) evs (Some p).

Lemma pl_exec_sound p evs : forall p', pl_exec p evs = Some p' -> pl_steps sha1_base64 compat parallel max_batch_size p evs p'.
Proof.
  induction evs as [|ev evs IH] using rev_ind; unfold pl_exec; intros p' E; [injection E as <-; constructor|].
  rewrite fold_left_app in E. cbn [fold_left] in E. fold (pl_exec p evs) in E. destruct (pl_exec p evs) as [p1|] eqn:E1; [|done].
  eapply pls_snoc; [by apply IH|]. by apply pl_exec_event_sound.
Qed.
End runs.

(** A write and a read of a session of this server, from the connection to the
    store. *)
Definition demo_pass : list PEvent := [PPop 0; PProcess 0 demo_local; PRoute 0 true true true].
Definition demo_pipeline : list PEvent :=
  [PReceive demo_create; PReceive demo_get] ++ demo_pass ++ [PTake 1000] ++ demo_pass ++
  [PNone; PAppend true; PCommit] ++ replicate 14 (PRun demo_inputs).

Lemma demo_sendable : sendable demo_create /\ sendable demo_get.
Proof.
  split; (split; [|by vm_compute]); (split; [by vm_compute|]); cbn; unfold vector_fits, string_fits, MAX_STRING_OR_ARRAY_SIZE;
    split_and!; try done; simpl; try lia; repeat constructor; unfold in_i32, string_fits, MAX_STRING_OR_ARRAY_SIZE; simpl; lia.
Qed.

Lemma demo_stable : stable_leader 1 demo_pipeline.
Proof.
  destruct demo_sendable as [Hc Hg]. split.
  - assert (Forall (stable_event 1) demo_pass) as Hp by (repeat constructor).
    assert (Forall (stable_event 1) (replicate 14 (PRun demo_inputs))) as Hr by (by apply Forall_replicate).
    unfold demo_pipeline. repeat (apply Forall_app; split); try done; repeat (constructor; try done).
  - intros [|[|i]] [|[|j]] k k'; cbn; intros [= <-] [= <-]; done.
Qed.

Lemma pipeline_keeps_session_order_witness :
  exists p, pl_exec (fun _ => "h") false 1 10 (pipeline_init 1 demo_start) demo_pipeline = Some p /\
    (key <$> applied (pl_processor p).2) = [key demo_create; key demo_get] /\
    session_applied 1 (pl_processor p).2 ++ (key <$> session_pending 1 1 (pl_processor p).2) ++
      (key <$> queued 1 1 (pl_processor p).2) ++ popped 1 1 p ++ received_queue 1 1 p = received 1 demo_pipeline.
Proof.
  destruct (pl_exec (fun _ => "h") false 1 10 (pipeline_init 1 demo_start) demo_pipeline) as [p|] eqn:E; [|by vm_compute in E].
  exists p. split; [done|]. split.
  - assert ((fun p => key <$> applied (pl_processor p).2) <$> pl_exec (fun _ => "h") false 1 10 (pipeline_init 1 demo_start) demo_pipeline
            = Some [key demo_create; key demo_get]) as Ek by (vm_compute; reflexivity).
    rewrite E in Ek. cbn [fmap option_fmap option_map] in Ek. congruence.
  - apply (pipeline_keeps_session_order (fun _ => "h") false 1 10 demo_start 1 demo_pipeline p); [lia|by apply pl_exec_sound|].
    apply demo_stable.
Defined.

Lemma batches_bounded_witness :
  Z.of_nat (length (pl_batch (pipeline_init 1 demo_start))) <= Z.max 1 10 /\
  (pl_pc (pipeline_init 1 demo_start) <> ATake -> pl_batch (pipeline_init 1 demo_start) <> []) /\
  (pl_pc (pipeline_init 1 demo_start) = ATake -> Z.of_nat (length (pl_batch (pipeline_init 1 demo_start))) < Z.max 1 10).
Proof. apply (batches_bounded (fun _ => "h") false 1 10 demo_start []). constructor. Defined.

Lemma write_lost_when_leader_appears_witness :
  route false true true demo_create = ToNobody /\ forall alive, route alive alive true demo_create <> ToNobody.
Proof. by apply write_lost_when_leader_appears. Defined.
