(* ===== verification/WireResponses.v ===== *)
(** * Responses on the wire

    [writeImpl]/[readImpl] of the response classes and the two ways a response
    is framed, [ZooKeeperResponse::write] and [writeNoCopy]
    ([src/src/ZooKeeper/ZooKeeperCommon.cpp], [ZooKeeperCommon.h]). *)

From Stdlib Require Import Bool.
From S2P Require Import Prelude Coordination Wire WireRequests.

(** [getOpNum()] of the response classes. *)
Definition response_getOpNum (b : ResponseBody) : OpNum :=
  match b with
  | HeartbeatResponse => OpHeartbeat
  | SetWatchesResponse => OpSetWatches
  | SyncResponse _ => OpSync
  | WatchResponse _ _ _ => OpUnspecified
  | AuthResponse => OpAuth
  | CloseResponse => OpClose
  | CreateResponse _ => OpCreate
  | RemoveResponse => OpRemove
  | ExistsResponse _ => OpExists
  | GetResponse _ _ => OpGet
  | SetResponse _ => OpSet
  | ListResponse _ _ => OpList
  | SimpleListResponse _ => OpSimpleList
  | CheckResponse => OpCheck
  | CheckNotExistsResponse => OpCheckNotExists
  | ErrorResponse => OpError
  | SetACLResponse _ => OpSetACL
  | GetACLResponse _ _ => OpGetACL
  | MultiWriteResponse _ => OpMulti
  | MultiReadResponse _ => OpMultiRead
  | NewSessionResponse _ _ _ _ => OpNewSession
  | UpdateSessionResponse _ _ _ => OpUpdateSession
  end.

(** ** Writing *)

(** The loop and the footer of [ZooKeeperMultiResponse::writeImpl], around the
    [writeImpl] of the parts. *)
Definition MultiResponse_writeImpl (writeImpl : ResponseHeader -> ResponseBody -> bytes) :=
  fix parts (rs : list (ResponseHeader * ResponseBody)) : bytes :=
    match rs with
    | [] => write_part_header OpError true (-1)
    | (h, b) :: rs' =>
        (write_OpNum (response_getOpNum b) ++ write_bool false ++ write_Error (error h)) ++
        (if bool_decide (error h = ZOK \/ response_getOpNum b = OpError) then writeImpl h b else []) ++
        parts rs'
    end.

(** [writeImpl] of the response classes. The list of names is a
    [CompactStrings], written like a vector of strings. *)
Definition SyncResponse_writeImpl (path : string) : bytes := write_string path.

Definition WatchResponse_writeImpl (type state : Z) (path : string) : bytes :=
  write_i32 type ++ write_i32 state ++ write_string path.

Definition CreateResponse_writeImpl (path_created : string) : bytes := write_string path_created.

Definition ExistsResponse_writeImpl (stat : Stat) : bytes := write_Stat stat.

Definition GetResponse_writeImpl (data : string) (stat : Stat) : bytes :=
  write_string data ++ write_Stat stat.

Definition SetResponse_writeImpl (stat : Stat) : bytes := write_Stat stat.

Definition ListResponse_writeImpl (names : list string) (stat : Stat) : bytes :=
  write_vector write_string names ++ write_Stat stat.

Definition SimpleListResponse_writeImpl (names : list string) : bytes := write_vector write_string names.

Definition SetACLResponse_writeImpl (stat : Stat) : bytes := write_Stat stat.

Definition GetACLResponse_writeImpl (acl : list ACL) (stat : Stat) : bytes :=
  write_vector write_ACL acl ++ write_Stat stat.

Definition ErrorResponse_writeImpl (error : Error) : bytes := write_Error error.

Definition NewSessionResponse_writeImpl (internal_id session_id server_id : Z) (success : bool) : bytes :=
  write_i64 internal_id ++ write_i64 session_id ++ write_i32 server_id ++ write_bool success.

Definition UpdateSessionResponse_writeImpl (session_id server_id : Z) (success : bool) : bytes :=
  write_i64 session_id ++ write_i32 server_id ++ write_bool success.

(** The virtual call. *)
Fixpoint response_writeImpl (h : ResponseHeader) (b : ResponseBody) : bytes :=
  match b with
  | HeartbeatResponse | SetWatchesResponse | AuthResponse | CloseResponse | RemoveResponse
  | CheckResponse | CheckNotExistsResponse => []
  | SyncResponse path => SyncResponse_writeImpl path
  | WatchResponse type state path => WatchResponse_writeImpl type state path
  | CreateResponse path_created => CreateResponse_writeImpl path_created
  | ExistsResponse stat => ExistsResponse_writeImpl stat
  | GetResponse data stat => GetResponse_writeImpl data stat
  | SetResponse stat => SetResponse_writeImpl stat
  | ListResponse names stat => ListResponse_writeImpl names stat
  | SimpleListResponse names => SimpleListResponse_writeImpl names
  | SetACLResponse stat => SetACLResponse_writeImpl stat
  | GetACLResponse acl stat => GetACLResponse_writeImpl acl stat
  | ErrorResponse => ErrorResponse_writeImpl (error h)
  | NewSessionResponse internal_id session_id server_id success => NewSessionResponse_writeImpl internal_id session_id server_id success
  | UpdateSessionResponse session_id server_id success => UpdateSessionResponse_writeImpl session_id server_id success
  | MultiWriteResponse rs | MultiReadResponse rs => MultiResponse_writeImpl response_writeImpl rs
  end.

(** The buffer [ZooKeeperResponse::write] fills before it knows the length. *)
Definition response_buf (r : ZooKeeperResponse) : bytes :=
  write_i32 (resp_xid r.1) ++ write_i64 (resp_zxid r.1) ++ write_Error (error r.1) ++
  (if bool_decide (error r.1 = ZOK) then response_writeImpl r.1 r.2 else []).

(** [write], with the override of the watch response, which skips bad ones. *)
Definition response_write (r : ZooKeeperResponse) (out : bytes) : bytes :=
  let framed := out ++ write_i32 (Z.of_nat (length (response_buf r))) ++ response_buf r in
  match r.2 with
  | WatchResponse _ _ _ => if bool_decide (error r.1 = ZOK) then framed else out
  | _ => framed
  end.

(** *** The buffer of [writeNoCopy]

    [WriteBufferFromOwnString], a [WriteBufferFromVector] over a string: what is
    before the cursor, the size of the string, and where the working buffer begins in
    it, which is where the cursor was when the string grew last. *)
Record VectorBuffer := mkVectorBuffer {
  written : bytes;
  vector_size : nat;
  buffer_begin : nat
}.

(** [initial_size] *)
Definition VectorBuffer_init : VectorBuffer := mkVectorBuffer [] 32 0.

Definition offset (b : VectorBuffer) : nat := length (written b) - buffer_begin b.
Definition available (b : VectorBuffer) : nat := vector_size b - length (written b).

(** [next] with [nextImpl], which doubles the string. *)
Definition vector_next (b : VectorBuffer) : VectorBuffer :=
  if decide (offset b = 0)%nat then b else mkVectorBuffer (written b) (2 * vector_size b) (length (written b)).

Definition nextIfAtEnd (b : VectorBuffer) : VectorBuffer := if decide (available b = 0)%nat then vector_next b else b.

(** The loop of [WriteBuffer::write(from, n)]; with an empty buffer it does not end. *)
Fixpoint vector_write_loop (fuel : nat) (from : bytes) (b : VectorBuffer) : outcome VectorBuffer :=
  match from with
  | [] => Ok b
  | _ =>
      match fuel with
      | O => Fault Deadlock
      | S fuel' =>
          let b1 := nextIfAtEnd b in
          let bytes_to_copy := Nat.min (available b1) (length from) in
          vector_write_loop fuel' (drop bytes_to_copy from)
            (mkVectorBuffer (written b1 ++ take bytes_to_copy from) (vector_size b1) (buffer_begin b1))
      end
  end.
Definition vector_write (from : bytes) (b : VectorBuffer) : outcome VectorBuffer := vector_write_loop (length from) from b.

(** [memcpy] into the middle of a string. *)
Definition overwrite (pos : nat) (patch data : bytes) : bytes :=
  take pos data ++ patch ++ drop (pos + length patch) data.

(** [writeNoCopy]: a zero length first, patched when the rest is written; it has
    no override for watch responses. The fields are written one by one, which is the
    same ([vector_write_app]). *)
Definition response_writeNoCopy (r : ZooKeeperResponse) (out : VectorBuffer) : outcome bytes :=
  let pre_size := offset out in
  out1 ← vector_write (write_i32 0) out;
  out2 ← vector_write (response_buf r) out1;
  let result := written out2 in
  Ok (overwrite pre_size (write_i32 (Z.of_nat (length result) - Z.of_nat pre_size - 4)) result).

(** ** Reading *)

Definition set_header_error (e : Error) (h : ResponseHeader) : ResponseHeader :=
  mkResponseHeader e (resp_xid h) (resp_zxid h) (request_created_time_ms h).

(** [ZooKeeperErrorResponse::readImpl]. *)
Definition ErrorResponse_readImpl (h : ResponseHeader) : Reader ZooKeeperResponse :=
  (read_error <- read_Error ;;
   if bool_decide (read_error <> error h) then throw_error ZMARSHALLINGERROR
   else sm_ret (h, ErrorResponse))%sm.

(** One round of [ZooKeeperMultiResponse::readImpl] for the expected part
    [(h1, b1)]: the error to merge and the part. *)
Definition read_response_part (readImpl : ResponseHeader -> ResponseBody -> Reader ZooKeeperResponse)
    (h1 : ResponseHeader) (b1 : ResponseBody) : Reader (Error * ZooKeeperResponse) :=
  (op_num <- read_OpNum ;; fin <- read_bool ;; op_error <- read_Error ;;
   if fin : bool then throw_error ZMARSHALLINGERROR
   else
     let is_error := bool_decide (op_num = OpError) in
     let h := if is_error then ResponseHeader0 else h1 in
     let h' := if bool_decide (op_error <> ZOK) then set_header_error op_error h else h in
     r <- (if bool_decide (op_error = ZOK \/ op_num = OpError)
           then if is_error then ErrorResponse_readImpl h' else readImpl h' b1
           else sm_ret (h', b1)) ;;
     sm_ret (op_error, r))%sm.

(** [if (error == ZOK && op_error != ZRUNTIMEINCONSISTENCY) error = op_error] for
    a part with an error. *)
Definition merge_error (h : ResponseHeader) (op_error : Error) : ResponseHeader :=
  if bool_decide (op_error <> ZOK /\ error h = ZOK /\ op_error <> ZRUNTIMEINCONSISTENCY)
  then set_header_error op_error h else h.

(** The loop and the footer. *)
Definition MultiResponse_readImpl (readImpl : ResponseHeader -> ResponseBody -> Reader ZooKeeperResponse) :=
  fix parts (h : ResponseHeader) (rs : list (ResponseHeader * ResponseBody)) :
      Reader (ResponseHeader * list ZooKeeperResponse) :=
    match rs with
    | [] =>
        (op_num <- read_OpNum ;; fin <- read_bool ;; error_read <- read_i32 ;;
         if negb fin then throw_error ZMARSHALLINGERROR
         else if bool_decide (op_num <> OpError) then throw_error ZMARSHALLINGERROR
         else if bool_decide (error_read <> -1) then throw_error ZMARSHALLINGERROR
         else sm_ret (h, []))%sm
    | (h1, b1) :: rs' =>
        (r <- read_response_part readImpl h1 b1 ;;
         res <- parts (merge_error h r.1) rs' ;;
         sm_ret (res.1, r.2 :: res.2))%sm
    end.

(** [readImpl] of the response classes that have fields of their own. *)
Definition SyncResponse_readImpl : Reader ResponseBody := (path <- read_string ;; sm_ret (SyncResponse path))%sm.

Definition WatchResponse_readImpl : Reader ResponseBody :=
  (type <- read_i32 ;; state <- read_i32 ;; path <- read_string ;;
   sm_ret (WatchResponse type state path))%sm.

Definition CreateResponse_readImpl : Reader ResponseBody := (path_created <- read_string ;; sm_ret (CreateResponse path_created))%sm.

Definition ExistsResponse_readImpl : Reader ResponseBody := (stat <- read_Stat ;; sm_ret (ExistsResponse stat))%sm.

Definition GetResponse_readImpl : Reader ResponseBody := (data <- read_string ;; stat <- read_Stat ;; sm_ret (GetResponse data stat))%sm.

Definition SetResponse_readImpl : Reader ResponseBody := (stat <- read_Stat ;; sm_ret (SetResponse stat))%sm.

Definition ListResponse_readImpl : Reader ResponseBody :=
  (names <- read_vector read_string ;; stat <- read_Stat ;;
   sm_ret (ListResponse names stat))%sm.

Definition SimpleListResponse_readImpl : Reader ResponseBody := (names <- read_vector read_string ;; sm_ret (SimpleListResponse names))%sm.

Definition SetACLResponse_readImpl : Reader ResponseBody := (stat <- read_Stat ;; sm_ret (SetACLResponse stat))%sm.

Definition GetACLResponse_readImpl : Reader ResponseBody := (acl <- read_vector read_ACL ;; stat <- read_Stat ;; sm_ret (GetACLResponse acl stat))%sm.

Definition NewSessionResponse_readImpl : Reader ResponseBody :=
  (internal_id <- read_i64 ;; session_id <- read_i64 ;; server_id <- read_i32 ;; success <- read_bool ;;
   sm_ret (NewSessionResponse internal_id session_id server_id success))%sm.

Definition UpdateSessionResponse_readImpl : Reader ResponseBody :=
  (session_id <- read_i64 ;; server_id <- read_i32 ;; success <- read_bool ;;
   sm_ret (UpdateSessionResponse session_id server_id success))%sm.

(** The virtual call: the object to fill is given with the fields it holds. *)
Fixpoint response_readImpl (h : ResponseHeader) (b : ResponseBody) : Reader ZooKeeperResponse :=
  (match b with
   | HeartbeatResponse | SetWatchesResponse | AuthResponse | RemoveResponse
   | CheckResponse | CheckNotExistsResponse => sm_ret (h, b)
   | CloseResponse => throw_error ZRUNTIMEINCONSISTENCY
   | ErrorResponse => ErrorResponse_readImpl h
   | SyncResponse _ => b' <- SyncResponse_readImpl ;; sm_ret (h, b')
   | WatchResponse _ _ _ => b' <- WatchResponse_readImpl ;; sm_ret (h, b')
   | CreateResponse _ => b' <- CreateResponse_readImpl ;; sm_ret (h, b')
   | ExistsResponse _ => b' <- ExistsResponse_readImpl ;; sm_ret (h, b')
   | GetResponse _ _ => b' <- GetResponse_readImpl ;; sm_ret (h, b')
   | SetResponse _ => b' <- SetResponse_readImpl ;; sm_ret (h, b')
   | ListResponse _ _ => b' <- ListResponse_readImpl ;; sm_ret (h, b')
   | SimpleListResponse _ => b' <- SimpleListResponse_readImpl ;; sm_ret (h, b')
   | SetACLResponse _ => b' <- SetACLResponse_readImpl ;; sm_ret (h, b')
   | GetACLResponse _ _ => b' <- GetACLResponse_readImpl ;; sm_ret (h, b')
   | NewSessionResponse _ _ _ _ => b' <- NewSessionResponse_readImpl ;; sm_ret (h, b')
   | UpdateSessionResponse _ _ _ => b' <- UpdateSessionResponse_readImpl ;; sm_ret (h, b')
   | MultiWriteResponse rs => res <- MultiResponse_readImpl response_readImpl h rs ;;
                              sm_ret (res.1, MultiWriteResponse res.2)
   | MultiReadResponse rs => res <- MultiResponse_readImpl response_readImpl h rs ;;
                             sm_ret (res.1, MultiReadResponse res.2)
   end)%sm.

#[export] Hint Unfold SyncResponse_writeImpl WatchResponse_writeImpl CreateResponse_writeImpl ExistsResponse_writeImpl GetResponse_writeImpl SetResponse_writeImpl ListResponse_writeImpl SimpleListResponse_writeImpl SetACLResponse_writeImpl GetACLResponse_writeImpl ErrorResponse_writeImpl NewSessionResponse_writeImpl UpdateSessionResponse_writeImpl
  SyncResponse_readImpl WatchResponse_readImpl CreateResponse_readImpl ExistsResponse_readImpl GetResponse_readImpl SetResponse_readImpl ListResponse_readImpl SimpleListResponse_readImpl SetACLResponse_readImpl GetACLResponse_readImpl NewSessionResponse_readImpl UpdateSessionResponse_readImpl : wire.

(** ** Framing *)

Lemma overwrite_middle a b c patch :
  length patch = length b -> overwrite (length a) patch (a ++ b ++ c) = a ++ patch ++ c.
Proof.
  intros Hl. unfold overwrite. rewrite take_app_length, Hl.
  rewrite <- length_app, (app_assoc a b c). by rewrite drop_app_length.
Qed.

(** The string is there and the cursor in it. *)
Record vector_wf (b : VectorBuffer) : Prop := {
  vw_cursor : (buffer_begin b <= length (written b) <= vector_size b)%nat;
  vw_room : (buffer_begin b < vector_size b)%nat
}.

Lemma vector_wf_init : vector_wf VectorBuffer_init.
Proof. split; cbn; lia. Qed.

Lemma next_room b : vector_wf b -> vector_wf (nextIfAtEnd b) /\ (0 < available (nextIfAtEnd b))%nat /\ written (nextIfAtEnd b) = written b.
Proof.
  intros [Hc Hr]. unfold nextIfAtEnd, vector_next, offset, available. repeat case_decide; cbn; (split; [split; cbn; lia|]); split; cbn; (done || lia).
Qed.

Lemma vector_write_loop_ok fuel : forall from b, vector_wf b -> (length from <= fuel)%nat ->
  exists b', vector_write_loop fuel from b = Ok b' /\ vector_wf b' /\ written b' = written b ++ from.
Proof.
  induction fuel as [|fuel IH]; intros [|c from] b Hb Hl; try (exists b; by rewrite app_nil_r); [cbn in Hl; lia|].
  cbn [vector_write_loop]. destruct (next_room b Hb) as ([Hc Hr] & Ha & Ew). set (b1 := nextIfAtEnd b) in *.
  set (n := Nat.min (available b1) (length (c :: from))) in *. assert (0 < n)%nat by (cbn [length] in *; lia).
  edestruct (IH (drop n (c :: from))) as (b' & E & Hb' & Ew').
  3:{ exists b'. split; [exact E|]. split; [done|]. rewrite Ew'. cbn [written]. by rewrite <- app_assoc, take_drop, Ew. }
  - split; cbn [buffer_begin written vector_size]; [|done]. rewrite length_app, length_take. unfold available in *. lia.
  - rewrite length_drop. cbn [length] in *. lia.
Qed.

(** A write ends and appends its bytes. *)
Lemma vector_write_ok from b : vector_wf b -> exists b', vector_write from b = Ok b' /\ vector_wf b' /\ written b' = written b ++ from.
Proof. intros Hb. by apply vector_write_loop_ok. Qed.

(** Two writes are one. *)
Lemma vector_write_app from from' b : vector_wf b ->
  exists b1 b2, vector_write from b = Ok b1 /\ vector_write from' b1 = Ok b2 /\ written b2 = written b ++ from ++ from'.
Proof.
  intros Hb. destruct (vector_write_ok from b Hb) as (b1 & E1 & Hb1 & Ew1).
  destruct (vector_write_ok from' b1 Hb1) as (b2 & E2 & _ & Ew2). exists b1, b2. by rewrite Ew2, Ew1, <- app_assoc.
Qed.

(** A notification of a failed watch. *)
Definition bad_watch (r : ZooKeeperResponse) : bool :=
  match r.2 with WatchResponse _ _ _ => bool_decide (error r.1 <> ZOK) | _ => false end.

(** The bytes of a response with their length before them. *)
Definition response_frame (r : ZooKeeperResponse) : bytes := write_i32 (Z.of_nat (length (response_buf r))) ++ response_buf r.

Lemma writeNoCopy_frame r out : vector_wf out -> buffer_begin out = 0%nat ->
  response_writeNoCopy r out = Ok (written out ++ response_frame r).
Proof.
  intros Hw Hb. unfold response_writeNoCopy, offset. rewrite Hb, Nat.sub_0_r.
  destruct (vector_write_app (write_i32 0) (response_buf r) out Hw) as (b1 & b2 & E1 & E2 & Ew). rewrite E1. cbn [mbind outcome_bind]. rewrite E2. cbn [mbind outcome_bind].
  rewrite Ew, overwrite_middle by (unfold write_i32; by rewrite !length_write_int). unfold response_frame. do 4 f_equal.
  rewrite !length_app. unfold write_i32. rewrite length_write_int. lia.
Qed.

(** C33: the framing without a copy is the framing. On a buffer that has not grown
    since it was made, as the one the connection makes for each response,
    [writeNoCopy] ends and appends what [write] appends, however often the buffer grows
    meanwhile; except for a watch response with an error, which [write] drops and
    [writeNoCopy] sends. *)
Theorem writeNoCopy_is_write r out :
  vector_wf out -> buffer_begin out = 0%nat ->
  if bad_watch r
  then response_write r (written out) = written out /\ response_writeNoCopy r out = Ok (written out ++ response_frame r)
  else response_writeNoCopy r out = Ok (response_write r (written out)).
Proof.
  intros Hw Hb. rewrite writeNoCopy_frame by done. unfold bad_watch, response_write, response_frame. cbv zeta.
  destruct r as [h []]; cbn [fst snd]; try done. by repeat case_bool_decide.
Qed.

(** The answer to a Set is longer than the 32 bytes the buffer starts with. *)
Lemma writeNoCopy_is_write_witness :
  let r := (ResponseHeader0, SetResponse Stat0) in
  response_writeNoCopy r VectorBuffer_init = Ok (response_write r []) /\ (32 < length (response_write r []))%nat.
Proof.
  intros r. split; [exact (writeNoCopy_is_write r VectorBuffer_init vector_wf_init eq_refl)|]. vm_compute. lia.
Defined.

(** On a buffer that has grown the length of the second response is written over
    the first one and stays zero in its place: the offset counts from where the buffer
    grew. *)
Lemma writeNoCopy_after_growth :
  let r := (ResponseHeader0, SetResponse Stat0) in
  exists bs, (out ← vector_write (response_frame r) VectorBuffer_init; response_writeNoCopy r out) = Ok bs /\
    take 4 (drop (length (response_frame r)) bs) = write_i32 0 /\ take (length (response_frame r)) bs <> response_frame r.
Proof. eexists. split; [vm_compute; reflexivity|]. split; [vm_compute; reflexivity|]. apply (bool_decide_unpack _). vm_compute. done. Qed.

(** ** Round trips *)

(** The class of the object to fill is the class of the response. *)
Definition same_class (p b : ResponseBody) : Prop :=
  match p, b with
  | HeartbeatResponse, HeartbeatResponse | SetWatchesResponse, SetWatchesResponse
  | AuthResponse, AuthResponse | RemoveResponse, RemoveResponse | CheckResponse, CheckResponse
  | CheckNotExistsResponse, CheckNotExistsResponse | SyncResponse _, SyncResponse _
  | WatchResponse _ _ _, WatchResponse _ _ _ | CreateResponse _, CreateResponse _
  | ExistsResponse _, ExistsResponse _ | GetResponse _ _, GetResponse _ _ | SetResponse _, SetResponse _
  | ListResponse _ _, ListResponse _ _ | SimpleListResponse _, SimpleListResponse _
  | SetACLResponse _, SetACLResponse _ | GetACLResponse _ _, GetACLResponse _ _
  | NewSessionResponse _ _ _ _, NewSessionResponse _ _ _ _
  | UpdateSessionResponse _ _ _, UpdateSessionResponse _ _ _ => True
  | _, _ => False
  end.

Definition response_fits (b : ResponseBody) : Prop :=
  match b with
  | SyncResponse p | CreateResponse p => string_fits p
  | WatchResponse t s p => in_i32 t /\ in_i32 s /\ string_fits p
  | ExistsResponse s | SetResponse s | SetACLResponse s => Stat_fits s
  | GetResponse d s => string_fits d /\ Stat_fits s
  | ListResponse l s => vector_fits string_fits l /\ Stat_fits s
  | SimpleListResponse l => vector_fits string_fits l
  | GetACLResponse l s => vector_fits ACL_fits l /\ Stat_fits s
  | NewSessionResponse a b c _ => in_i64 a /\ in_i64 b /\ in_i32 c
  | UpdateSessionResponse a b _ => in_i64 a /\ in_i32 b
  | _ => True
  end.

Lemma response_readImpl_flat h h' p b rest :
  same_class p b -> response_fits b ->
  response_readImpl h p (response_writeImpl h' b ++ rest) = (Ok (h, b), rest).
Proof.
  intros Hc Hf. destruct p, b; try done; cbn [response_readImpl response_writeImpl response_fits] in *;
    autounfold with wire; destruct_and?; wire_req; done.
Qed.

(** A part's answer [r] that a client expecting [p] can read: an error, or a
    response of the expected class. *)
Definition part_answers (p r : ZooKeeperResponse) : Prop :=
  error_fits (error r.1) /\
  (r.2 = ErrorResponse \/
   same_class p.2 r.2 /\ response_fits r.2 /\ response_getOpNum r.2 <> OpUnspecified).

(** What the client has of it: the error, and the body where there is one. *)
Definition received (p r : ZooKeeperResponse) : ZooKeeperResponse :=
  if bool_decide (response_getOpNum r.2 = OpError)
  then (set_header_error (error r.1) ResponseHeader0, ErrorResponse)
  else if bool_decide (error r.1 = ZOK) then (p.1, r.2)
  else (set_header_error (error r.1) p.1, p.2).

Lemma set_header_error_same h : set_header_error (error h) h = h.
Proof. by destruct h. Qed.

Lemma same_class_not_error p b : same_class p b -> b <> ErrorResponse /\ response_getOpNum b <> OpError.
Proof. by destruct p, b. Qed.

(** A part on its own. *)
Lemma read_response_part_write hp p hr r rest :
  part_answers (hp, p) (hr, r) ->
  read_response_part response_readImpl hp p
    (((write_OpNum (response_getOpNum r) ++ write_bool false ++ write_Error (error hr)) ++
      (if bool_decide (error hr = ZOK \/ response_getOpNum r = OpError) then response_writeImpl hr r else [])) ++ rest) =
  (Ok (error hr, received (hp, p) (hr, r)), rest).
Proof.
  intros [He Hr]. cbn [fst snd] in *. unfold read_response_part. rewrite <- !app_assoc.
  assert (response_getOpNum r <> OpUnspecified) as Hu by (destruct Hr as [->|(_ & _ & ?)]; done).
  rewrite !wire_bind by done. cbv beta zeta iota. cbn [sm_bind]. destruct Hr as [->|(Hc & Hf & _)].
  - cbn [response_getOpNum]. rewrite !(bool_decide_true (OpError = OpError)), bool_decide_true by auto.
    assert ((if bool_decide (error hr <> ZOK) then set_header_error (error hr) ResponseHeader0
             else ResponseHeader0) = set_header_error (error hr) ResponseHeader0) as ->.
    { case_bool_decide as Ez; [done|]. by rewrite Ez. }
    unfold ErrorResponse_readImpl, received. cbn [response_writeImpl]. unfold ErrorResponse_writeImpl.
    rewrite wire_bind by done. by rewrite bool_decide_false by (intros Hn; by apply Hn).
  - destruct (same_class_not_error _ _ Hc) as [Hne Hop].
    unfold received. cbn [fst snd]. rewrite !(bool_decide_false (response_getOpNum r = OpError)) by done.
    case_bool_decide as Ez.
    + destruct Ez as [Ez|]; [|done]. rewrite bool_decide_false by (intros ?; done).
      rewrite (response_readImpl_flat hp hr p r) by done. by rewrite bool_decide_true.
    + rewrite (bool_decide_true (error hr <> ZOK)) by tauto. cbn [sm_ret app]. by rewrite bool_decide_false by tauto.
Qed.

(** A client reads a transaction's answer back: from the responses its
    requests lead it to expect it gets every part's error and body, and as the
    error of the whole the first error that is not [ZRUNTIMEINCONSISTENCY]. *)
Theorem multi_response_roundtrip h h' ps rs rest :
  Forall2 part_answers ps rs ->
  response_readImpl h (MultiWriteResponse ps) (response_writeImpl h' (MultiWriteResponse rs) ++ rest) =
    (Ok (fold_left merge_error ((fun r => error r.1) <$> rs) h, MultiWriteResponse (zip_with received ps rs)), rest).
Proof.
  intros Hrs. cbn [response_readImpl response_writeImpl sm_bind].
  assert (forall h, MultiResponse_readImpl response_readImpl h ps (MultiResponse_writeImpl response_writeImpl rs ++ rest) =
    (Ok (fold_left merge_error ((fun r => error r.1) <$> rs) h, zip_with received ps rs), rest)) as E;
    [|by rewrite E].
  clear h h'. induction Hrs as [|[hp p] [hr r] ps rs Hr Hrs IH]; intros h.
  { cbn [MultiResponse_readImpl MultiResponse_writeImpl]. unfold write_part_header. by wire_req. }
  cbn [MultiResponse_readImpl MultiResponse_writeImpl sm_bind]. rewrite app_assoc, <- (app_assoc _ _ rest).
  rewrite read_response_part_write by done. cbn [fst snd]. by rewrite IH.
Qed.

(** A Create that succeeded before a Check that failed: both parts come back as
    errors, the Check's as the transaction's. *)
Lemma multi_response_roundtrip_witness :
  response_readImpl ResponseHeader0
    (MultiWriteResponse [(ResponseHeader0, CreateResponse ""); (ResponseHeader0, CheckResponse)])
    (response_writeImpl ResponseHeader0
       (MultiWriteResponse [(mkResponseHeader ZOK 0 0 0, ErrorResponse); (mkResponseHeader ZBADVERSION 0 0 0, ErrorResponse)])
     ++ []) =
  (Ok (mkResponseHeader ZBADVERSION 0 0 0,
       MultiWriteResponse [(mkResponseHeader ZOK 0 0 0, ErrorResponse); (mkResponseHeader ZBADVERSION 0 0 0, ErrorResponse)]), []).
Proof.
  apply (multi_response_roundtrip ResponseHeader0 ResponseHeader0
    [(ResponseHeader0, CreateResponse ""); (ResponseHeader0, CheckResponse)]
    [(mkResponseHeader ZOK 0 0 0, ErrorResponse); (mkResponseHeader ZBADVERSION 0 0 0, ErrorResponse)] []).
  repeat constructor; by vm_compute.
Defined.
