(* ===== verification/Framing.v ===== *)
(** * Messages on a connection

    How [ConnectionHandler] ([src/src/Service/ConnectionHandler.cpp]) cuts the
    bytes of a client's connection into messages, and puts its responses on it.
    The socket hands over bytes in pieces of any size, and takes what it is given
    in pieces of any size: each is an argument. Poco's [FIFOBuffer] is the list of
    the bytes it holds, with its capacity. *)

From S2P Require Import Prelude Coordination Wire WireResponses.

(** ** Receiving *)

Record Receiver := mkReceiver {
  req_header_buf : bytes;
  next_req_header_read_done : bool;
  body_len : Z;
  previous_req_body_read_done : bool;
  req_body_buf : bytes
}.

Definition receiver_init : Receiver := mkReceiver [] false 0 true [].

Definition CLIENT_HANDSHAKE_LENGTH : Z := 44.
Definition CLIENT_HANDSHAKE_LENGTH_WITH_READONLY : Z := 45.

Definition isHandShake (handshake_length : Z) : bool :=
  (handshake_length =? CLIENT_HANDSHAKE_LENGTH) || (handshake_length =? CLIENT_HANDSHAKE_LENGTH_WITH_READONLY).

(** The first part of a pass of the loop, with the bytes the socket has for the
    header: more of it is needed, it is a four-letter command, or the length of
    the body. *)
Inductive HeaderResult :=
| HMore (c : Receiver)
| HCommand (four_letter_cmd : Z) (c : Receiver)
| HBody (c : Receiver).

Definition header_value (buf : bytes) : Z := i32 (le_value (rev buf)).

Definition header_pass (handshake_done : bool) (chunk : bytes) (c : Receiver) : HeaderResult :=
  if next_req_header_read_done c then HBody c
  else
    let buf := if (length (req_header_buf c) <? 4)%nat then req_header_buf c ++ chunk else req_header_buf c in
    if (length buf <? 4)%nat
    then HMore (mkReceiver buf false (body_len c) (previous_req_body_read_done c) (req_body_buf c))
    else
      let header := header_value buf in
      if negb (isHandShake header) && negb handshake_done
      then HCommand header (mkReceiver [] false (body_len c) (previous_req_body_read_done c) (req_body_buf c))
      else HBody (mkReceiver [] true header (previous_req_body_read_done c) (req_body_buf c)).

(** The second part, with the bytes the socket has for the body: the message when
    it is complete. A buffer of a negative length cannot be allocated. *)
Definition body_pass (chunk : bytes) (c : Receiver) : outcome (option bytes * Receiver) :=
  if previous_req_body_read_done c && (body_len c <? 0) then Fault (Throw STD_BAD_ALLOC)
  else
    let buf := (if previous_req_body_read_done c then [] else req_body_buf c) ++ chunk in
    if Z.of_nat (length buf) <? body_len c
    then Ok (None, mkReceiver (req_header_buf c) true (body_len c) false buf)
    else Ok (Some buf, mkReceiver (req_header_buf c) false (body_len c) true buf).

(** What a pass makes of its bytes: nothing yet, a message, or a command. *)
Inductive Received :=
| RNothing
| RMessage (body : bytes)
| RCommand (four_letter_cmd : Z).

Definition receive_pass (handshake_done : bool) (header_chunk body_chunk : bytes) (c : Receiver)
    : outcome (Received * Receiver) :=
  match header_pass handshake_done header_chunk c with
  | HMore c1 => Ok (RNothing, c1)
  | HCommand cmd c1 => Ok (RCommand cmd, c1)
  | HBody c1 =>
      '(m, c2) ← body_pass body_chunk c1;
      Ok (match m with Some body => RMessage body | None => RNothing end, c2)
  end.

(** What the socket may hand over: no more than there is room for. The bytes the
    pass takes from the stream. *)
Definition header_room (c : Receiver) : nat := if next_req_header_read_done c then 0 else (4 - length (req_header_buf c)).

Definition body_room (handshake_done : bool) (header_chunk : bytes) (c : Receiver) : nat :=
  match header_pass handshake_done header_chunk c with
  | HBody c1 => Z.to_nat (body_len c1) - (if previous_req_body_read_done c1 then 0 else length (req_body_buf c1))
  | _ => 0
  end.

(** A run of passes of an established session: the bytes taken, the messages. *)
Inductive receives (handshake_done : bool) : Receiver -> bytes -> list bytes -> Receiver -> Prop :=
| rc_nil c : receives handshake_done c [] [] c
| rc_snoc c taken ms c1 chunk chunk' m c2 :
    receives handshake_done c taken ms c1 ->
    (length chunk <= header_room c1)%nat -> (length chunk' <= body_room handshake_done chunk c1)%nat ->
    receive_pass handshake_done chunk chunk' c1 = Ok (m, c2) ->
    receives handshake_done c (taken ++ chunk ++ chunk')
      (ms ++ match m with RMessage body => [body] | _ => [] end) c2.

(** How a client sends a message. *)
Definition frame (body : bytes) : bytes := write_i32 (Z.of_nat (length body)) ++ body.

(** ** Sending *)

Definition SENT_BUFFER_SIZE : Z := 16384.

(** [sent] is not in the code: what the socket took so far. *)
Record Sender := mkSender {
  responses : list ZooKeeperResponse;
  send_buf : bytes;
  out_buffer : option bytes;
  sent_bytes : bytes
}.

Definition copy_buffer_to_send (s : Sender) : Sender :=
  match out_buffer s with
  | None => s
  | Some out =>
      if Z.of_nat (length (send_buf s)) + Z.of_nat (length out) <=? SENT_BUFFER_SIZE
      then mkSender (responses s) (send_buf s ++ out) None (sent_bytes s)
      else
        let room := Z.to_nat (SENT_BUFFER_SIZE - Z.of_nat (length (send_buf s))) in
        mkSender (responses s) (send_buf s ++ take room out) (Some (drop room out)) (sent_bytes s)
  end.

(** [sendHandshake]; the number 42 stands for no protocol. *)
Definition SERVER_HANDSHAKE_LENGTH : Z := 36.
Definition PASSWORD_LENGTH : nat := 16.

Definition write_password : bytes := write_i32 (Z.of_nat PASSWORD_LENGTH) ++ replicate PASSWORD_LENGTH Ascii.zero.

Definition sendHandshake (session_timeout_ms : Z) (r : ZooKeeperResponse) : outcome (bool * bytes) :=
  '(success, sid) ←
    match r.2 with
    | NewSessionResponse _ session_id _ success => Ok (success, session_id)
    | UpdateSessionResponse session_id _ success => Ok (success, session_id)
    | _ => Fault (Throw LOGICAL_ERROR)
    end;
  let negotiated := if negb success && bool_decide (error r.1 = ZSESSIONEXPIRED) then -1 else i32 session_timeout_ms in
  Ok (success,
      write_i32 SERVER_HANDSHAKE_LENGTH ++ write_i32 (if success then 0 else 42) ++ write_i32 negotiated ++
      write_u64 (u64 sid) ++ write_password).

(** The answer that ends the connection. *)
Definition closes (r : ZooKeeperResponse) : bool :=
  bool_decide (resp_xid r.1 <> WATCH_XID) && bool_decide (response_getOpNum r.2 = OpClose).

Definition is_session_response (r : ZooKeeperResponse) : bool :=
  bool_decide (response_getOpNum r.2 = OpNewSession) || bool_decide (response_getOpNum r.2 = OpUpdateSession).

(** How the handler leaves [onSocketWritable]. *)
Inductive Writable :=
| WContinue (s : Sender)
| WDestroyed (s : Sender).

(** The loop over the responses, as often as there are responses. A handshake that
    failed is sent at once, and the connection closed. *)
Fixpoint send_loop (session_timeout_ms : Z) (n : nat) (s : Sender) : outcome Writable :=
  match n, responses s with
  | S n', r :: rs =>
      if Z.of_nat (length (send_buf s)) <? SENT_BUFFER_SIZE then
        let s1 := mkSender rs (send_buf s) (out_buffer s) (sent_bytes s) in
        if closes r then Ok (WDestroyed s1)
        else if is_session_response r then
          '(success, out) ← sendHandshake session_timeout_ms r;
          if success : bool
          then send_loop session_timeout_ms n' (copy_buffer_to_send (mkSender rs (send_buf s) (Some out) (sent_bytes s)))
          else Ok (WDestroyed (mkSender rs [] None (sent_bytes s ++ send_buf s ++ out)))
        else
          out ← response_writeNoCopy r VectorBuffer_init;
          send_loop session_timeout_ms n' (copy_buffer_to_send (mkSender rs (send_buf s) (Some out) (sent_bytes s)))
      else Ok (WContinue s)
  | _, _ => Ok (WContinue s)
  end.

(** [onSocketWritable]; the socket takes [n] bytes of the buffer. *)
Definition onSocketWritable (session_timeout_ms : Z) (n : nat) (s : Sender) : outcome Writable :=
  w ← send_loop session_timeout_ms (length (responses s)) (copy_buffer_to_send s);
  match w with
  | WDestroyed s1 => Ok (WDestroyed s1)
  | WContinue s1 =>
      Ok (WContinue (mkSender (responses s1) (drop n (send_buf s1)) (out_buffer s1) (sent_bytes s1 ++ take n (send_buf s1))))
  end.

(** [pushUserResponseToSendingQueue]: at the end of the queue. *)
Definition push_to_sending_queue (r : ZooKeeperResponse) (s : Sender) : Sender :=
  mkSender (responses s ++ [r]) (send_buf s) (out_buffer s) (sent_bytes s).
