(* ===== verification/FramingTheorems.v ===== *)
(** * What arrives is what was sent

    However the network cuts the stream, the messages a client sent are the
    messages the handler receives; and the responses are the bytes the client
    receives, in order, up to the end of the connection. *)

From S2P Require Import Prelude Coordination Wire WireResponses Framing.

(** ** Receiving *)

(** What was taken from the stream since the last message. *)
Definition partial (c : Receiver) : bytes :=
  if next_req_header_read_done c
  then write_i32 (body_len c) ++ (if previous_req_body_read_done c then [] else req_body_buf c)
  else req_header_buf c.

(** Between passes a header is incomplete, or a body. *)
Definition receiver_wf (c : Receiver) : Prop :=
  if next_req_header_read_done c
  then previous_req_body_read_done c = false /\ req_header_buf c = [] /\ in_i32 (body_len c) /\ Z.of_nat (length (req_body_buf c)) < body_len c
  else previous_req_body_read_done c = true /\ (length (req_header_buf c) < 4)%nat.

Lemma header_value_write buf : length buf = 4%nat -> write_i32 (header_value buf) = buf.
Proof.
  intros Hl. unfold write_i32, write_int, header_value. rewrite <- (rev_involutive buf) at 2. f_equal.
  rewrite <- (le_bytes_value (rev buf)), length_rev, Hl. apply le_value_inj; [by rewrite !length_le_bytes|].
  rewrite !le_value_bytes. unfold i32. change (256 ^ Z.of_nat 4) with (2 ^ 32). unfold wrap_s.
  rewrite Zminus_mod_idemp_l, Z.add_simpl_r. by rewrite Zmod_mod.
Qed.

(** The first part of a pass leaves the bytes where [partial] sees them. *)
Lemma header_pass_view c chunk :
  receiver_wf c -> (length chunk <= header_room c)%nat ->
  match header_pass true chunk c with
  | HMore c1 => receiver_wf c1 /\ partial c1 = partial c ++ chunk
  | HCommand _ _ => False
  | HBody c1 => next_req_header_read_done c1 = true /\ req_header_buf c1 = [] /\ in_i32 (body_len c1) /\
      partial c1 = partial c ++ chunk /\
      (previous_req_body_read_done c1 = false -> Z.of_nat (length (req_body_buf c1)) < body_len c1)
  end.
Proof.
  unfold receiver_wf, header_room, header_pass, partial. destruct (next_req_header_read_done c) eqn:Eh.
  - intros (Hp & Hh & Hb & Hl) Hc. assert (chunk = []) as -> by (apply nil_length_inv; lia). by rewrite Eh, app_nil_r.
  - intros (Hp & Hl) Hc. rewrite (proj2 (Nat.ltb_lt _ _) Hl). destruct (Nat.ltb_spec (length (req_header_buf c ++ chunk)) 4) as [Hlt|Hge].
    + cbn. by rewrite Hp.
    + rewrite andb_false_r. cbn [next_req_header_read_done previous_req_body_read_done req_header_buf body_len req_body_buf]. rewrite Hp. split_and!; try done; [apply i32_range|].
      rewrite app_nil_r. apply header_value_write. rewrite length_app in *. lia.
Qed.

Lemma body_pass_view c chunk m c2 :
  next_req_header_read_done c = true -> req_header_buf c = [] -> in_i32 (body_len c) ->
  (previous_req_body_read_done c = false -> Z.of_nat (length (req_body_buf c)) < body_len c) ->
  (length chunk <= Z.to_nat (body_len c) - (if previous_req_body_read_done c then 0 else length (req_body_buf c)))%nat ->
  body_pass chunk c = Ok (m, c2) ->
  receiver_wf c2 /\
  partial c ++ chunk = match m with Some body => frame body ++ partial c2 | None => partial c2 end.
Proof.
  intros Hd Hh Hb Hlt Hc. unfold body_pass. destruct (previous_req_body_read_done c && (body_len c <? 0)) eqn:En; [done|].
  set (old := if previous_req_body_read_done c then [] else req_body_buf c).
  assert (length (if previous_req_body_read_done c then [] else req_body_buf c) =
          if previous_req_body_read_done c then 0 else length (req_body_buf c))%nat as Hold by (by destruct (previous_req_body_read_done c)).
  fold old in Hold. rewrite <- Hold in Hc.
  assert (partial c ++ chunk = write_i32 (body_len c) ++ old ++ chunk) as Hp by (unfold partial; rewrite Hd, <- app_assoc; done).
  assert (Z.of_nat (length (old ++ chunk)) <= body_len c) as Hle.
  { rewrite length_app. clearbody old. unfold in_i32 in Hb.
    destruct (previous_req_body_read_done c); cbn [andb] in En; [apply Z.ltb_ge in En|specialize (Hlt eq_refl)]; lia. }
  destruct (Z.ltb_spec (Z.of_nat (length (old ++ chunk))) (body_len c)) as [Hl|Hl]; intros [= <- <-]; rewrite Hp; (split; [|]).
  - unfold receiver_wf. cbn. by split_and!.
  - done.
  - unfold receiver_wf. cbn. rewrite Hh. split; [done|cbn; lia].
  - unfold partial, frame. cbn [next_req_header_read_done req_header_buf]. rewrite Hh, app_nil_r. replace (Z.of_nat (length (old ++ chunk))) with (body_len c) by lia. done.
Qed.

Lemma receives_view taken ms c :
  receives true receiver_init taken ms c -> receiver_wf c /\ taken = concat (frame <$> ms) ++ partial c.
Proof.
  remember receiver_init as c0 eqn:E0. intros Hr. revert E0.
  induction Hr as [c|c taken ms c1 chunk chunk' m c2 Hr IH Hc Hc' E]; intros ->; [split; [split; [done|cbn; lia]|done]|].
  destruct (IH eq_refl) as [Hw ->]. unfold receive_pass in E. unfold body_room in Hc'.
  pose proof (header_pass_view c1 chunk Hw Hc) as Hv. destruct (header_pass true chunk c1) as [c1'|cmd c1'|c1']; [|done|].
  - injection E as <- <-. destruct Hv as [Hw1 Hp]. assert (chunk' = []) as -> by (apply nil_length_inv; lia).
    by rewrite !app_nil_r, <- app_assoc, Hp.
  - destruct Hv as (Hd & Hh & Hb & Hp & Hlt). destruct (body_pass chunk' c1') as [[mb c2']|] eqn:Eb; [|done].
    injection E as <- <-. destruct (body_pass_view _ _ _ _ Hd Hh Hb Hlt Hc' Eb) as [Hw2 Hp2]. split; [done|].
    rewrite <- app_assoc, (app_assoc (partial c1)), <- Hp, Hp2. destruct mb; [|by rewrite app_nil_r].
    rewrite fmap_app, concat_app. cbn. by rewrite app_nil_r, <- app_assoc.
Qed.

(** Frames can be told apart. *)
Lemma write_i32_app_inj x y a b :
  in_i32 x -> in_i32 y -> write_i32 x ++ a = write_i32 y ++ b -> x = y /\ a = b.
Proof.
  intros Hx Hy E. apply app_inj_1 in E as [E ->]; [|unfold write_i32; by rewrite !length_write_int]. split; [|done].
  pose proof (read_i32_any x []) as Ex. rewrite E, read_i32_any in Ex. injection Ex as Ex. by rewrite !i32_id in Ex.
Qed.

Definition short (body : bytes) : Prop := Z.of_nat (length body) < 2 ^ 31.

Lemma frame_app_inj m m' a b : short m -> short m' -> frame m ++ a = frame m' ++ b -> m = m' /\ a = b.
Proof.
  unfold short, frame. intros Hm Hm' E. rewrite <- !app_assoc in E. apply write_i32_app_inj in E as [El E]; [|unfold in_i32; lia..].
  apply app_inj_1 in E; [done|lia].
Qed.

(** An incomplete message is no message, and does not begin with one. *)
Lemma partial_not_frame c m rest : receiver_wf c -> short m -> partial c <> frame m ++ rest.
Proof.
  unfold receiver_wf, partial, short. destruct (next_req_header_read_done c).
  - intros (-> & _ & Hb & Hl) Hm E. unfold frame in E. rewrite <- app_assoc in E.
    apply write_i32_app_inj in E as [El E]; [|done|unfold in_i32; lia]. rewrite E, length_app in Hl. lia.
  - intros (_ & Hl) Hm E. apply (f_equal length) in E. unfold frame, write_i32 in E. rewrite !length_app, length_write_int in E. lia.
Qed.

Lemma frames_unique ms : forall ms' c,
  receiver_wf c -> Forall short ms -> Forall short ms' -> concat (frame <$> ms) ++ partial c = concat (frame <$> ms') ->
  ms = ms' /\ partial c = [].
Proof.
  induction ms as [|m ms IH]; intros [|m' ms'] c Hw Hs Hs'; cbn [fmap list_fmap concat].
  - done.
  - apply Forall_cons in Hs' as [Hm' _]. intros E. by destruct (partial_not_frame c m' (concat (frame <$> ms')) Hw Hm').
  - intros E%(f_equal length). unfold frame, write_i32 in E. rewrite !length_app, length_write_int in E. cbn in E. lia.
  - apply Forall_cons in Hs as [Hm Hs], Hs' as [Hm' Hs']. rewrite <- app_assoc. intros E.
    apply frame_app_inj in E as [-> E]; [|done..]. destruct (IH ms' c Hw Hs Hs' E) as [-> Hp]. done.
Qed.

Lemma receives_short taken ms c : receives true receiver_init taken ms c -> Forall short ms.
Proof.
  remember receiver_init as c0 eqn:E0. intros Hr. revert E0.
  induction Hr as [c|c taken ms c1 chunk chunk' m c2 Hr IH Hc Hc' E]; intros ->; [by apply Forall_nil|].
  apply Forall_app. split; [by apply IH|]. destruct (receives_view _ _ _ Hr) as [Hw _]. unfold receive_pass in E. unfold body_room in Hc'.
  pose proof (header_pass_view c1 chunk Hw Hc) as Hv. destruct (header_pass true chunk c1) as [c1'|cmd c1'|c1']; [|done|].
  { injection E as <- <-. by apply Forall_nil. }
  destruct Hv as (Hd & Hh & Hb & Hp & Hlt). unfold body_pass in E.
  destruct (previous_req_body_read_done c1' && (body_len c1' <? 0)) eqn:En; [done|].
  case_match; simplify_eq/=; [by apply Forall_nil|]. constructor; [|by apply Forall_nil]. unfold short. rewrite length_app.
  unfold in_i32 in Hb. destruct (previous_req_body_read_done c1'); cbn in *; [apply Z.ltb_ge in En|specialize (Hlt eq_refl)]; lia.
Qed.

(** C28: whatever pieces the network cuts the stream into, the messages the handler
    receives are the messages the client sent: when the bytes of [ms] have
    arrived, exactly [ms] were received, in order, and the handler is ready for
    the next header. *)
Theorem messages_survive_chunking ms taken received c :
  receives true receiver_init taken received c -> taken = concat (frame <$> ms) -> Forall short ms ->
  received = ms /\ next_req_header_read_done c = false /\ req_header_buf c = [].
Proof.
  intros Hr -> Hs. destruct (receives_view _ _ _ Hr) as [Hw E].
  destruct (frames_unique received ms c Hw (receives_short _ _ _ Hr) Hs (eq_sym E)) as [-> Hp]. split; [done|].
  unfold partial in Hp. destruct (next_req_header_read_done c); [|done].
  apply app_nil in Hp as [Hp _]. apply (f_equal length) in Hp. unfold write_i32 in Hp. by rewrite length_write_int in Hp.
Qed.

(** ** Sending *)

Section sending.
Context (session_timeout_ms : Z).

(** The bytes of a response. *)
Definition wire_of (r : ZooKeeperResponse) : bytes :=
  if is_session_response r
  then match sendHandshake session_timeout_ms r with Ok (_, out) => out | Fault _ => [] end
  else response_frame r.

(** All that the sender was given: sent, buffered, and not yet serialised. *)
Definition all_bytes (s : Sender) : bytes :=
  sent_bytes s ++ send_buf s ++ default [] (out_buffer s) ++ concat (wire_of <$> responses s).

Definition sender_wf (s : Sender) : Prop := Z.of_nat (length (send_buf s)) <= SENT_BUFFER_SIZE.

(** What does not fit stays only when the buffer is full. *)
Definition copied (s : Sender) : Prop := out_buffer s = None \/ Z.of_nat (length (send_buf s)) = SENT_BUFFER_SIZE.

Lemma copy_view s :
  sender_wf s ->
  let s' := copy_buffer_to_send s in
  sender_wf s' /\ copied s' /\ all_bytes s' = all_bytes s /\ responses s' = responses s.
Proof.
  unfold sender_wf, copied, copy_buffer_to_send, all_bytes. intros Hw. destruct (out_buffer s) as [out|] eqn:Eo; [|by rewrite Eo; auto].
  destruct (Z.leb_spec (Z.of_nat (length (send_buf s)) + Z.of_nat (length out)) SENT_BUFFER_SIZE) as [Hle|Hgt]; cbn.
  - rewrite length_app, <- app_assoc. split_and!; [lia|by left|done|done].
  - set (room := Z.to_nat _). rewrite length_app, length_take. split_and!; [lia|right; lia| |done].
    rewrite <- (take_drop room out) at 3. by rewrite <- !app_assoc.
Qed.

Lemma send_loop_view n : forall s s',
  sender_wf s -> copied s -> send_loop session_timeout_ms n s = Ok (WContinue s') ->
  sender_wf s' /\ all_bytes s' = all_bytes s.
Proof.
  induction n as [|n IH]; intros s s' Hw Hc; cbn [send_loop]; [by intros [= <-]|].
  destruct (responses s) as [|r rs] eqn:Er; [by intros [= <-]|].
  destruct (Z.ltb_spec (Z.of_nat (length (send_buf s))) SENT_BUFFER_SIZE) as [Hlt|]; [|by intros [= <-]].
  destruct Hc as [Ho|Hfull]; [|lia]. destruct (closes r); [done|].
  assert (forall out, wire_of r = out ->
    let s1 := copy_buffer_to_send (mkSender rs (send_buf s) (Some out) (sent_bytes s)) in
    send_loop session_timeout_ms n s1 = Ok (WContinue s') -> sender_wf s' /\ all_bytes s' = all_bytes s) as Hgo.
  { intros out Hout s1 E. destruct (copy_view (mkSender rs (send_buf s) (Some out) (sent_bytes s)) Hw) as (Hw1 & Hc1 & Ha1 & _).
    destruct (IH _ _ Hw1 Hc1 E) as [Hw2 Ha2]. split; [done|]. rewrite Ha2, Ha1. unfold all_bytes. cbn. by rewrite Ho, Er, <- Hout. }
  unfold wire_of in Hgo. destruct (is_session_response r).
  - destruct (sendHandshake session_timeout_ms r) as [[success out]|]; [|done]. cbn. destruct success; [by apply Hgo|done].
  - rewrite writeNoCopy_frame by (done || apply vector_wf_init). by apply Hgo.
Qed.

(** The handler's life: responses are pushed, and the socket is writable. *)
Inductive sends : Sender -> list ZooKeeperResponse -> Sender -> Prop :=
| sd_init : sends (mkSender [] [] None []) [] (mkSender [] [] None [])
| sd_push s rs s1 r : sends s rs s1 -> sends s (rs ++ [r]) (push_to_sending_queue r s1)
| sd_writable s rs s1 n s2 :
    sends s rs s1 -> onSocketWritable session_timeout_ms n s1 = Ok (WContinue s2) -> sends s rs s2.

(** C29: while the connection lives, what the client has received is the beginning
    of the bytes of the responses, in the order in which they were pushed, however
    the socket cuts them: what was sent, what is in the buffers and what is not yet
    serialised are together exactly these bytes, and the buffer stays within its
    size. *)
Theorem responses_sent_in_order s rs s' :
  sends s rs s' ->
  all_bytes s' = concat (wire_of <$> rs) /\ Z.of_nat (length (send_buf s')) <= SENT_BUFFER_SIZE /\
  sent_bytes s' `prefix_of` concat (wire_of <$> rs).
Proof.
  intros Hs. enough (all_bytes s' = concat (wire_of <$> rs) /\ sender_wf s') as [Ha Hw].
  { split_and!; [done|done|]. rewrite <- Ha. by eexists. }
  induction Hs as [|s rs s1 r _ [Ha Hw]|s rs s1 n s2 _ [Ha Hw] E].
  - split; [done|]. unfold sender_wf, SENT_BUFFER_SIZE. cbn. lia.
  - split; [|done]. unfold all_bytes in *. cbn. rewrite !fmap_app, !concat_app, <- Ha. cbn. by rewrite <- !app_assoc.
  - unfold onSocketWritable in E. destruct (send_loop _ _ _) as [[s3|s3]|] eqn:El; [|done..]. injection E as <-.
    destruct (copy_view s1 Hw) as (Hw1 & Hc1 & Ha1 & _). destruct (send_loop_view _ _ _ Hw1 Hc1 El) as [Hw3 Ha3].
    split.
    + rewrite <- Ha, <- Ha1, <- Ha3. unfold all_bytes. cbn. rewrite <- (take_drop n (send_buf s3)) at 3. by rewrite <- !app_assoc.
    + unfold sender_wf in *. cbn. rewrite length_drop. lia.
Qed.
End sending.

(** The answers to a Set and to a heartbeat: the socket takes ten bytes, and then
    sixty. *)
Definition demo_set : ZooKeeperResponse := (mkResponseHeader ZOK 7 100 0, SetResponse Stat0).
Definition demo_heartbeat : ZooKeeperResponse := (mkResponseHeader ZOK 8 100 0, HeartbeatResponse).
Definition demo_answers : list ZooKeeperResponse := [demo_set; demo_heartbeat].

Definition demo_write (n : nat) (s : Sender) : Sender :=
  match onSocketWritable 30000 n s with Ok (WContinue s') => s' | _ => s end.
Definition demo_pushed : Sender := push_to_sending_queue demo_set (mkSender [] [] None []).
Definition demo_pushed_again : Sender := push_to_sending_queue demo_heartbeat (demo_write 10 demo_pushed).
Definition demo_sent : Sender := demo_write 60 demo_pushed_again.

Lemma demo_sends : sends 30000 (mkSender [] [] None []) demo_answers demo_sent.
Proof.
  assert (onSocketWritable 30000 10 demo_pushed = Ok (WContinue (demo_write 10 demo_pushed))) as E1 by (vm_compute; reflexivity).
  assert (onSocketWritable 30000 60 demo_pushed_again = Ok (WContinue demo_sent)) as E2 by (vm_compute; reflexivity).
  pose proof (sd_push 30000 _ [] _ demo_set (sd_init 30000)) as H1.
  pose proof (sd_writable 30000 _ _ _ 10 _ H1 E1) as H2. pose proof (sd_push 30000 _ _ _ demo_heartbeat H2) as H3.
  exact (sd_writable 30000 _ _ _ 60 _ H3 E2).
Qed.

Lemma responses_sent_in_order_witness :
  sent_bytes demo_sent = take 70 (concat (response_frame <$> demo_answers)) /\
  all_bytes 30000 demo_sent = concat (wire_of 30000 <$> demo_answers) /\ Z.of_nat (length (send_buf demo_sent)) <= SENT_BUFFER_SIZE /\
  sent_bytes demo_sent `prefix_of` concat (wire_of 30000 <$> demo_answers).
Proof.
  split; [vm_compute; reflexivity|]. exact (responses_sent_in_order 30000 (mkSender [] [] None []) demo_answers demo_sent demo_sends).
Defined.

(** A Close that is answered before the buffer was sent loses the answers
    before it: the connection is destroyed with the response to a Set written to
    the buffer and never given to the socket. *)
Theorem close_loses_buffered_responses n :
  let set_response := (mkResponseHeader ZOK 7 100 0, SetResponse Stat0) in
  let close_response := (mkResponseHeader ZOK 8 101 0, CloseResponse) in
  exists s, onSocketWritable 30000 n (mkSender [set_response; close_response] [] None []) = Ok (WDestroyed s) /\
    send_buf s = response_frame set_response /\ sent_bytes s = [].
Proof. eexists. split; [vm_compute; reflexivity|]. split; [vm_compute; reflexivity|done]. Qed.

(** Two messages, the second cut in the header and in the body. *)
Definition demo_stream : bytes :=
  ((([] ++ write_i32 1 ++ ["x"%char]) ++ take 3 (write_i32 2) ++ []) ++ drop 3 (write_i32 2) ++ ["y"%char]) ++ [] ++ ["z"%char].

Lemma demo_receives :
  receives true receiver_init demo_stream ["x"%char :: []; ["y"%char; "z"%char]] (mkReceiver [] false 2 true ["y"%char; "z"%char]).
Proof.
  refine (rc_snoc true _ _ [["x"%char]] (mkReceiver [] true 2 false ["y"%char]) _ _ (RMessage ["y"%char; "z"%char]) _ _ _ _ _);
    [|by vm_compute; lia..|by vm_compute].
  refine (rc_snoc true _ _ [["x"%char]] (mkReceiver (take 3 (write_i32 2)) false 1 true ["x"%char]) _ _ RNothing _ _ _ _ _);
    [|by vm_compute; lia..|by vm_compute].
  refine (rc_snoc true _ _ [["x"%char]] (mkReceiver [] false 1 true ["x"%char]) _ _ RNothing _ _ _ _ _);
    [|by vm_compute; lia..|by vm_compute].
  refine (rc_snoc true _ _ [] receiver_init _ _ (RMessage ["x"%char]) _ _ _ _ _);
    [apply rc_nil|by vm_compute; lia..|by vm_compute].
Qed.

Lemma messages_survive_chunking_witness :
  [["x"%char]; ["y"%char; "z"%char]] = [["x"%char]; ["y"%char; "z"%char]] /\
  next_req_header_read_done (mkReceiver [] false 2 true ["y"%char; "z"%char]) = false /\
  req_header_buf (mkReceiver [] false 2 true ["y"%char; "z"%char]) = [].
Proof.
  apply (messages_survive_chunking [["x"%char]; ["y"%char; "z"%char]] demo_stream); [apply demo_receives|by vm_compute|].
  by repeat constructor.
Defined.
