(* ===== verification/Connections.v ===== *)
(** * Connections and their callbacks

    The handshake of [ConnectionHandler] ([src/src/Service/ConnectionHandler.cpp])
    with both its sides, that of the client being [src/src/ZooKeeper/ZooKeeperImpl.cpp],
    and the callbacks by which [KeeperDispatcher] ([KeeperDispatcher.cpp]) finds the
    connection of a response. A callback is the number of the connection it
    captured; a connection that was deleted is not in the map of connections, and
    calling it is undefined.

    The threads of the reactors and the response thread interleave: what runs under
    one lock of [response_callbacks_mutex] is one step, so that [destroyMe], which
    reads its atomics and takes the lock twice, is many steps, and the response to a
    Close two. [receiveHandshake] takes the lock once, to register its callback; the
    rest of what it does is seen by its own thread only, and it is one step. *)

From S2P Require Import Prelude Coordination Processor Wire WireRequests WireResponses Framing.

(** ** The handshake *)

Definition NEW_SESSION_XID : Z := -256.
Definition UPDATE_SESSION_XID : Z := -512.

(** [Timespan(0, getUInt(...) * 1000)], in microseconds. *)
Definition timespan_of_config (ms : Z) : Z := u32 (ms * 1000).

Definition read_password : Reader unit :=
  (size <- read_i32 ;;
   if bool_decide (size <> Z.of_nat PASSWORD_LENGTH) then throw_error ZMARSHALLINGERROR
   else read_at_most PASSWORD_LENGTH ;;; sm_ret tt)%sm.

(** [timeout_ms * 1000] is a product of [int]s. *)
Definition negotiate (min_session_timeout max_session_timeout timeout_ms : Z) : outcome Z :=
  if decide (in_i32 (timeout_ms * 1000))
  then Ok (Z.max min_session_timeout (Z.min (timeout_ms * 1000) max_session_timeout))
  else Fault UndefinedBehaviour.

(** The message of [receiveHandshake]: the timeout of the session in milliseconds,
    the timeout of the connection in microseconds, and the session to take up. *)
Definition read_handshake (min_session_timeout max_session_timeout last_zxid session_timeout handshake_req_len : Z)
    : Reader (Z * Z * Z) :=
  ((if negb (isHandShake handshake_req_len) then sm_fault (Throw UNEXPECTED_PACKET_FROM_CLIENT) else sm_ret tt) ;;;
   protocol_version <- read_i32 ;;
   (if bool_decide (protocol_version <> 0) then sm_fault (Throw UNEXPECTED_PACKET_FROM_CLIENT) else sm_ret tt) ;;;
   last_zxid_seen <- read_i64 ;;
   timeout_ms <- read_i32 ;;
   timeouts <- sm_lift (if bool_decide (timeout_ms <> 0)
                        then t ← negotiate min_session_timeout max_session_timeout timeout_ms; Ok (i32 (t / 1000), t)
                        else Ok (timeout_ms, session_timeout)) ;;
   (if last_zxid <? last_zxid_seen then sm_fault (Throw UNEXPECTED_PACKET_FROM_CLIENT) else sm_ret tt) ;;;
   previous_session_id <- read_i64 ;;
   read_password ;;;
   (if handshake_req_len =? CLIENT_HANDSHAKE_LENGTH_WITH_READONLY then read_bool ;;; sm_ret tt else sm_ret tt) ;;;
   sm_ret (timeouts.1, timeouts.2, previous_session_id))%sm.

(** The client's [sendHandshake], which never takes up a session, and
    [receiveHandshake], of which the timeout and the session are kept. *)
Definition client_sendHandshake (timeout_ms : Z) : bytes :=
  write_i32 44 ++ write_i32 0 ++ write_i64 0 ++ write_i32 timeout_ms ++ write_i64 0 ++ write_password.

Definition client_receiveHandshake : Reader (Z * Z) :=
  (handshake_length <- read_i32 ;;
   if bool_decide (handshake_length <> SERVER_HANDSHAKE_LENGTH) then throw_error ZMARSHALLINGERROR
   else
     protocol_version_read <- read_i32 ;;
     if bool_decide (protocol_version_read <> 0) then throw_error ZMARSHALLINGERROR
     else timeout <- read_i32 ;; session_id <- read_i64 ;; read_password ;;; sm_ret (timeout, session_id))%sm.

(** ** State *)

Record Connection := mkConnection {
  conn_session_id : Z;
  conn_internal_id : Z;
  handshake_done : bool;
  conn_session_timeout : Z;
  conn_responses : list ZooKeeperResponse
}.

Definition conn_init (session_timeout : Z) : Connection := mkConnection 0 0 false session_timeout [].

(** Where a call of [destroyMe] is: before [if (session_id)]; before the argument
    of [unregisterUserResponseCallBack] is read, and at the call; before
    [if (!handshake_done)]; before the argument of
    [unRegisterSessionResponseCallback] is read, in one of the branches, and at the
    call; before [delete this]. *)
Inductive DestroyPoint :=
| DSession | DUserArgument | DUser (session : Z)
| DHandshake | DSessionArgument (done : bool) | DSessionCallback (id : Z)
| DDelete.

(** The callbacks of [KeeperDispatcher], the connections that live, and the
    requests pushed to the queue of the dispatcher, in order; the connections that
    are in [destroyMe], and the session whose callback the response thread is about
    to remove. *)
Record Front := mkFront {
  user_response_callbacks : gmap Z nat;
  session_response_callbacks : gmap Z nat;
  live : gmap nat Connection;
  new_session_internal_id_counter : Z;
  pushed : list RequestForSession;
  destroying : gmap nat DestroyPoint;
  closing : option Z
}.

Definition front_init (my_id : Z) : Front := mkFront ∅ ∅ ∅ my_id [] ∅ None.

Definition set_user (m : gmap Z nat) (f : Front) : Front :=
  mkFront m (session_response_callbacks f) (live f) (new_session_internal_id_counter f) (pushed f) (destroying f) (closing f).
Definition set_session (m : gmap Z nat) (f : Front) : Front :=
  mkFront (user_response_callbacks f) m (live f) (new_session_internal_id_counter f) (pushed f) (destroying f) (closing f).
Definition set_live (m : gmap nat Connection) (f : Front) : Front :=
  mkFront (user_response_callbacks f) (session_response_callbacks f) m (new_session_internal_id_counter f) (pushed f)
    (destroying f) (closing f).
Definition set_destroying (m : gmap nat DestroyPoint) (f : Front) : Front :=
  mkFront (user_response_callbacks f) (session_response_callbacks f) (live f) (new_session_internal_id_counter f) (pushed f)
    m (closing f).
Definition set_closing (o : option Z) (f : Front) : Front :=
  mkFront (user_response_callbacks f) (session_response_callbacks f) (live f) (new_session_internal_id_counter f) (pushed f)
    (destroying f) o.

Abbreviation FrontM := (SM Front).

(** ** The dispatcher's operations *)

Definition registerSessionResponseCallback (id : Z) (c : nat) : FrontM unit := fun f =>
  match session_response_callbacks f !! id with
  | Some _ => (Fault (Throw LOGICAL_ERROR), f)
  | None => (Ok tt, set_session (<[id := c]> (session_response_callbacks f)) f)
  end.

Definition unRegisterSessionResponseCallback (id : Z) (f : Front) : Front :=
  set_session (delete id (session_response_callbacks f)) f.

(** [try_emplace]: a callback that is there stays. *)
Definition registerUserResponseCallBack (session : Z) (c : nat) (is_reconnected : bool) : FrontM unit := fun f =>
  if session =? 0 then (Fault (Throw LOGICAL_ERROR), f)
  else
    match user_response_callbacks f !! session with
    | Some _ => (if is_reconnected then Ok tt else Fault (Throw LOGICAL_ERROR), f)
    | None => (Ok tt, set_user (<[session := c]> (user_response_callbacks f)) f)
    end.

Definition unregisterUserResponseCallBack (session : Z) (f : Front) : Front :=
  set_user (delete session (user_response_callbacks f)) f.

Definition isLocalSession (f : Front) (session : Z) : bool := bool_decide (is_Some (user_response_callbacks f !! session)).

(** [filterLocalSessions] *)
Definition filterLocalSessions (f : Front) (m : gmap Z Z) : gmap Z Z :=
  filter (fun p => is_Some (user_response_callbacks f !! p.1)) m.

Definition push_request (r : RequestForSession) (f : Front) : Front :=
  mkFront (user_response_callbacks f) (session_response_callbacks f) (live f) (new_session_internal_id_counter f) (pushed f ++ [r])
    (destroying f) (closing f).

(** [room] is false when the queue stays full for the operation timeout. *)
Definition pushSessionRequest (room : bool) (now : Z) (r : ZooKeeperRequest) (internal_id : Z) : FrontM unit := fun f =>
  if room then (Ok tt, push_request (mkRequestForSession internal_id r now 0 (-1) (-1)) f)
  else (Fault (Throw TIMEOUT_EXCEEDED), f).

Definition pushRequest (room : bool) (now : Z) (r : ZooKeeperRequest) (session : Z) : FrontM bool := fun f =>
  if negb (isLocalSession f session) then (Ok false, f)
  else if bool_decide (request_getOpNum r.2 = OpClose) || room
  then (Ok true, push_request (mkRequestForSession session r now 0 (-1) (-1)) f)
  else (Fault (Throw TIMEOUT_EXCEEDED), f).

Definition pushForwardRequest (room : bool) (now server client : Z) (r : RequestForSession) : FrontM unit := fun f =>
  if bool_decide (request_getOpNum (request r).2 = OpClose) || room
  then (Ok tt, push_request (mkRequestForSession (session_id r) (request r) now (process_time r) server client) f)
  else (Fault (Throw TIMEOUT_EXCEEDED), f).

(** One round of [deadSessionCleanThread] on a leader: a Close for every dead
    session. *)
Definition CLOSE_XID : Z := 0x7FFFFFFF.

Definition close_dead_sessions (now : Z) (dead_sessions : list Z) (f : Front) : Front :=
  foldl (fun f session =>
           push_request (mkRequestForSession session (mkRequestHeader CLOSE_XID false, CloseRequest) now 0 (-1) (-1)) f)
    f dead_sessions.

(** ** The handler's operations *)

(** Access to a connection that was deleted. *)
Definition this (c : nat) : FrontM Connection := fun f =>
  match live f !! c with Some k => (Ok k, f) | None => (Fault UndefinedBehaviour, f) end.

Definition update (c : nat) (k : Connection) (f : Front) : Front := set_live (<[c := k]> (live f)) f.

Section handler.
Context (my_id cluster_node_count : Z).
Context (min_session_timeout max_session_timeout : Z).

(** [getAndAddInternalId] *)
Definition getAndAddInternalId : FrontM Z := fun f =>
  (Ok (new_session_internal_id_counter f),
   mkFront (user_response_callbacks f) (session_response_callbacks f) (live f)
     (i64 (new_session_internal_id_counter f + cluster_node_count)) (pushed f) (destroying f) (closing f)).

Definition receiveHandshake (room : bool) (now last_zxid handshake_req_len : Z) (message : bytes) (c : nat) : FrontM unit :=
  (k <- this c ;;
   h <- sm_lift (read_handshake min_session_timeout max_session_timeout last_zxid (conn_session_timeout k)
                   handshake_req_len message).1 ;;
   let '(timeout_ms, timeout, previous_session_id) := h in
   sm_modify (update c (mkConnection (conn_session_id k) (conn_internal_id k) (handshake_done k) timeout (conn_responses k))) ;;;
   id <- (if previous_session_id =? 0 then getAndAddInternalId else sm_ret previous_session_id) ;;
   registerSessionResponseCallback id c ;;;
   sm_modify (update c (mkConnection (conn_session_id k) id (handshake_done k) timeout (conn_responses k))) ;;;
   pushSessionRequest room now
     (if previous_session_id =? 0
      then (mkRequestHeader NEW_SESSION_XID false, NewSessionRequest id timeout_ms my_id)
      else (mkRequestHeader UPDATE_SESSION_XID false, UpdateSessionRequest id timeout_ms my_id)) id)%sm.

(** [receiveRequest] after the request is read. *)
Definition receiveRequest (room : bool) (now : Z) (r : ZooKeeperRequest) (c : nat) : FrontM unit :=
  (k <- this c ;;
   ok <- pushRequest room now r (conn_session_id k) ;;
   if ok : bool then sm_ret tt else sm_fault (Throw TIMEOUT_EXCEEDED))%sm.

(** At the end of the queue of the connection. *)
Definition push_response_to (c : nat) (r : ZooKeeperResponse) : FrontM unit :=
  (k <- this c ;;
   sm_modify (update c (mkConnection (conn_session_id k) (conn_internal_id k) (handshake_done k) (conn_session_timeout k)
                          (conn_responses k ++ [r]))))%sm.

(** What a session response names: the identifier of its callback, the session,
    whether it succeeded, and whether the session was taken up. *)
Definition session_response (r : ResponseBody) : option (Z * Z * bool * bool) :=
  match r with
  | NewSessionResponse internal_id session_id _ success => Some (internal_id, session_id, success, false)
  | UpdateSessionResponse session_id _ success => Some (session_id, session_id, success, true)
  | _ => None
  end.

Definition sendSessionResponseToClient (r : ZooKeeperResponse) (c : nat) : FrontM unit :=
  (k <- this c ;;
   match session_response r.2 with
   | None => sm_fault (Throw LOGICAL_ERROR)
   | Some (id, sid, success, is_reconnected) =>
       (if success : bool then
          sm_modify (update c (mkConnection sid (conn_internal_id k) true (conn_session_timeout k) (conn_responses k))) ;;;
          sm_modify (unRegisterSessionResponseCallback id) ;;;
          registerUserResponseCallBack sid c is_reconnected
        else sm_ret tt) ;;;
       push_response_to c r
   end)%sm.

(** The lock is given back before the callback of a closed session is removed. *)
Definition invokeResponseCallBack (session : Z) (r : ZooKeeperResponse) : FrontM unit := fun f =>
  if isSessionRequest (response_getOpNum r.2) then
    match session_response_callbacks f !! session with
    | None => (Ok tt, f)
    | Some c => sendSessionResponseToClient r c f
    end
  else
    match user_response_callbacks f !! session with
    | None => (Ok tt, f)
    | Some c =>
        (push_response_to c r ;;;
         sm_modify (if closes r then set_closing (Some session) else id))%sm f
    end.

Definition unregister_closed (f : Front) : Front :=
  match closing f with
  | Some session => set_closing None (unregisterUserResponseCallBack session f)
  | None => f
  end.

(** What [destroyMe] does at a point: what it changes, and the point it goes to,
    if the connection is still there. *)
Definition destroyMe_at (c : nat) (k : Connection) (p : DestroyPoint) : option DestroyPoint * (Front -> Front) :=
  match p with
  | DSession => (Some (if conn_session_id k =? 0 then DHandshake else DUserArgument), id)
  | DUserArgument => (Some (DUser (conn_session_id k)), id)
  | DUser session => (Some DHandshake, unregisterUserResponseCallBack session)
  | DHandshake => (Some (DSessionArgument (handshake_done k)), id)
  | DSessionArgument done => (Some (DSessionCallback (if done then conn_session_id k else conn_internal_id k)), id)
  | DSessionCallback id => (Some DDelete, unRegisterSessionResponseCallback id)
  | DDelete => (None, fun f => set_live (delete c (live f)) f)
  end.

Definition destroyMe_step (c : nat) : FrontM unit := fun f =>
  match destroying f !! c with
  | None => (Ok tt, f)
  | Some p =>
      (k <- this c ;;
       let '(next, act) := destroyMe_at c k p in
       sm_modify act ;;; sm_modify (fun f => set_destroying (partial_alter (fun _ => next) c (destroying f)) f))%sm f
  end.

Definition destroyMe (c : nat) (f : Front) : Front := set_destroying (<[c := DSession]> (destroying f)) f.

(** ** Steps *)

Inductive FEvent :=
| FAccept (c : nat)                                                   (* a new connection *)
| FHandshake (c : nat) (room : bool) (now last_zxid len : Z) (message : bytes)
| FRequest (c : nat) (room : bool) (now : Z) (r : ZooKeeperRequest)
| FResponse (session : Z) (r : ZooKeeperResponse)                     (* responseThread *)
| FClosed                                                             (* responseThread, after the response to a Close *)
| FDestroy (c : nat)                                                  (* closed, or an error *)
| FStep (c : nat).                                                    (* the next step of destroyMe *)

(** [catch (...)] around a message and around a response; the connection is
    destroyed for the first, and the second is logged. *)
Definition or_destroy (c : nat) (m : FrontM unit) : FrontM unit := fun f =>
  match m f with
  | (Fault (Throw _), f1) => (Ok tt, destroyMe c f1)
  | res => res
  end.

Definition or_log (m : FrontM unit) : FrontM unit := fun f =>
  match m f with
  | (Fault (Throw _), f1) => (Ok tt, f1)
  | res => res
  end.

(** The reactor calls a connection only while it lives. *)
Definition front_event (ev : FEvent) : FrontM unit :=
  match ev with
  | FAccept c => sm_modify (update c (conn_init (30000 * 1000)))
  | FHandshake c room now last_zxid len message => or_destroy c (receiveHandshake room now last_zxid len message c)
  | FRequest c room now r => or_destroy c (receiveRequest room now r c)
  | FResponse session r => or_log (invokeResponseCallBack session r)
  | FClosed => sm_modify unregister_closed
  | FDestroy c => sm_modify (destroyMe c)
  | FStep c => destroyMe_step c
  end.

Fixpoint front_events (evs : list FEvent) : FrontM unit :=
  match evs with
  | [] => sm_ret tt
  | ev :: evs' => (front_event ev ;;; front_events evs')%sm
  end.

(** When the threads make an event: a connection is new when it is accepted, it
    lives and is not being destroyed when its reactor calls it, the response thread
    takes a response when it is done with the last one, and the identifier of a
    session response is the one its callback is registered with. *)
Definition event_enabled (ev : FEvent) (f : Front) : Prop :=
  match ev with
  | FAccept c => live f !! c = None
  | FHandshake c _ _ _ _ _ => destroying f !! c = None /\ exists k, live f !! c = Some k /\ handshake_done k = false
  | FRequest c _ _ _ => destroying f !! c = None /\ exists k, live f !! c = Some k /\ handshake_done k = true
  | FDestroy c => destroying f !! c = None /\ is_Some (live f !! c)
  | FStep c => is_Some (destroying f !! c)
  | FClosed => is_Some (closing f)
  | FResponse session r => closing f = None /\
      forall id sid success re, session_response r.2 = Some (id, sid, success, re) -> id = session
  end.
End handler.
