(* ===== verification/ConnectionsTheorems.v ===== *)
(** * What the connections promise

    A client and a server agree on the handshake; a response reaches a connection
    that lives, as long as a client waits for the answer to its handshake. What
    happens to one that does not, to one that closes its connection while the
    handshake is being answered, and to a session that is taken up while its old
    connection is open. *)

From S2P Require Import Prelude Coordination Processor Wire WireRequests WireResponses Framing Connections.

(** ** The handshake *)

Lemma read_write_password rest : read_password (write_password ++ rest) = (Ok tt, rest).
Proof.
  unfold read_password, write_password. cbn [sm_bind]. rewrite <- app_assoc. unfold sm_bind at 1.
  rewrite read_i32_any. change (i32 (Z.of_nat PASSWORD_LENGTH)) with (Z.of_nat PASSWORD_LENGTH). rewrite bool_decide_false by (by intros []).
  done.
Qed.

(** The server reads from the handshake of the client that it wants a new
    session, and negotiates its timeout: the one it asked for, within the limits
    of the configuration. *)
Theorem handshake_roundtrip min max last_zxid current timeout_ms :
  in_i32 (timeout_ms * 1000) -> timeout_ms <> 0 -> 0 <= last_zxid ->
  (len <- read_i32 ;; read_handshake min max last_zxid current len)%sm (client_sendHandshake timeout_ms) =
    (Ok (i32 (Z.max min (Z.min (timeout_ms * 1000) max) / 1000), Z.max min (Z.min (timeout_ms * 1000) max), 0), []).
Proof.
  intros Ht Hne Hz. assert (in_i32 timeout_ms) as Ht' by (unfold in_i32 in *; lia).
  unfold client_sendHandshake. cbn [sm_bind]. rewrite (read_write (write := write_i32)) by done. unfold read_handshake.
  cbn [isHandShake negb sm_bind sm_ret Z.eqb orb CLIENT_HANDSHAKE_LENGTH].
  change (isHandShake 44) with true. cbn [negb sm_ret sm_bind].
  rewrite (read_write (write := write_i32)) by done. rewrite bool_decide_false by (by intros []). cbn [sm_ret sm_bind].
  rewrite (read_write (write := write_i64)) by done. rewrite (read_write (write := write_i32)) by done.
  rewrite bool_decide_true by done. unfold negotiate. rewrite decide_True by done. cbn [sm_lift mbind outcome_bind].
  rewrite (proj2 (Z.ltb_ge last_zxid 0)) by done. cbn [sm_ret sm_bind].
  rewrite (read_write (write := write_i64)) by done. rewrite <- (app_nil_r write_password), read_write_password. done.
Qed.

Lemma handshake_roundtrip_witness :
  (len <- read_i32 ;; read_handshake 1000000 3600000000 0 30000000 len)%sm (client_sendHandshake 500) =
    (Ok (1000, 1000000, 0), []).
Proof. apply (handshake_roundtrip 1000000 3600000000 0 30000000 500); [by vm_compute|done|done]. Defined.

(** The answer to a handshake is understood by the client: when the session was
    established it reads the negotiated timeout and its session, and otherwise it
    gives up. *)
Theorem handshake_answer_roundtrip timeout_ms h internal_id session server success rest :
  in_i32 timeout_ms -> in_i64 session -> 0 <= session ->
  exists out, sendHandshake timeout_ms (h, NewSessionResponse internal_id session server success) = Ok (success, out) /\
    client_receiveHandshake (out ++ rest) =
      if success then (Ok (timeout_ms, session), rest)
      else ((Fault (Throw (KEEPER_EXCEPTION (Error_code ZMARSHALLINGERROR))),
             (client_receiveHandshake (out ++ rest)).2)).
Proof.
  intros Ht Hs Hpos. eexists. split; [reflexivity|]. unfold client_receiveHandshake. rewrite <- !app_assoc.
  rewrite wire_bind by done. rewrite bool_decide_false by (by intros []). destruct success; cbn [negb andb].
  - rewrite wire_bind by done. rewrite bool_decide_false by (by intros []). rewrite (i32_id _ Ht). rewrite wire_bind by done.
    assert (write_u64 (u64 session) = write_i64 session) as -> by (rewrite u64_id; [done|unfold in_i64, in_u64 in *; lia]).
    rewrite wire_bind by done. cbn [sm_bind]. by rewrite read_write_password.
  - rewrite wire_bind by done. by rewrite bool_decide_true by done.
Qed.

Lemma handshake_answer_roundtrip_witness :
  exists out, sendHandshake 1000 (ResponseHeader0, NewSessionResponse 1 7 1 true) = Ok (true, out) /\
    client_receiveHandshake (out ++ []) = (Ok (1000, 7), []).
Proof. apply (handshake_answer_roundtrip 1000 ResponseHeader0 1 7 1 true []); by vm_compute. Defined.

(** A client that asks for a timeout of more than 2147483 milliseconds makes the
    server overflow an [int]: the result is undefined. *)
Theorem long_timeout_overflows min max timeout_ms :
  2147483 < timeout_ms -> negotiate min max timeout_ms = Fault UndefinedBehaviour.
Proof. intros Ht. unfold negotiate. rewrite decide_False; [done|]. unfold in_i32. lia. Qed.

Lemma long_timeout_overflows_witness : negotiate 1000000 3600000000 3600000 = Fault UndefinedBehaviour.
Proof. by apply long_timeout_overflows. Defined.

(** ** Callbacks *)

Section callbacks.
Context (my_id cluster_node_count min_session_timeout max_session_timeout : Z).
Abbreviation front_event := (front_event my_id cluster_node_count min_session_timeout max_session_timeout).

(** A connection that is being destroyed may have a callback until the point at
    which [destroyMe] removes it. *)
Definition before_user (p : option DestroyPoint) (s : Z) : Prop :=
  match p with
  | None | Some DSession | Some DUserArgument => True
  | Some (DUser s') => s' = s
  | _ => False
  end.

Definition before_session (p : option DestroyPoint) (id : Z) : Prop :=
  match p with
  | Some (DSessionArgument done) => done = false
  | Some (DSessionCallback id') => id' = id
  | Some DDelete => False
  | _ => True
  end.

(** Callbacks are of connections that live, and know them by their identifiers. *)
Record callbacks_live (f : Front) : Prop := {
  cl_user s c : user_response_callbacks f !! s = Some c ->
    exists k, live f !! c = Some k /\ conn_session_id k = s /\ s <> 0 /\ handshake_done k = true /\ before_user (destroying f !! c) s;
  cl_session id c : session_response_callbacks f !! id = Some c ->
    exists k, live f !! c = Some k /\ conn_internal_id k = id /\ handshake_done k = false /\ before_session (destroying f !! c) id;
  cl_destroying c : is_Some (destroying f !! c) -> is_Some (live f !! c)
}.

(** The client waits for the answer before it sends another handshake, and does
    not close the connection so late that the answer comes while it is destroyed. *)
Definition one_handshake (ev : FEvent) (f : Front) : Prop :=
  match ev with
  | FHandshake c _ _ _ _ _ => forall id, session_response_callbacks f !! id <> Some c
  | FResponse session r => isSessionRequest (response_getOpNum r.2) = true ->
      forall c, session_response_callbacks f !! session = Some c -> destroying f !! c = None
  | _ => True
  end.

Lemma front_init_live id : callbacks_live (front_init id).
Proof. split; [intros ? ? E|intros ? ? E|intros ? [? E]]; cbn in E; by rewrite lookup_empty in E. Qed.

Lemma is_Some_insert {A} (m : gmap nat A) c k c' : is_Some (m !! c') -> is_Some (<[c := k]> m !! c').
Proof. intros H. destruct (decide (c = c')) as [<-|]; [rewrite lookup_insert_eq; by eexists|by rewrite lookup_insert_ne]. Qed.

(** A connection that keeps its identifiers. *)
Lemma update_live c k k' f :
  callbacks_live f -> live f !! c = Some k -> conn_session_id k' = conn_session_id k ->
  conn_internal_id k' = conn_internal_id k -> handshake_done k' = handshake_done k -> callbacks_live (update c k' f).
Proof.
  intros [Hu Hs Hd] Hc E1 E2 E3. split; cbn.
  - intros s c' (k0 & Hl & H1 & H2 & H3 & H4)%Hu. destruct (decide (c = c')) as [<-|Hne].
    + exists k'. rewrite lookup_insert_eq. rewrite Hc in Hl. injection Hl as ->. split_and!; congruence.
    + exists k0. by rewrite lookup_insert_ne.
  - intros i c' (k0 & Hl & H1 & H2 & H3)%Hs. destruct (decide (c = c')) as [<-|Hne].
    + exists k'. rewrite lookup_insert_eq. rewrite Hc in Hl. injection Hl as ->. split_and!; congruence.
    + exists k0. by rewrite lookup_insert_ne.
  - intros c' H%Hd. by apply is_Some_insert.
Qed.

(** Only what is not of the callbacks changes. *)
Lemma same_callbacks f f' :
  user_response_callbacks f' = user_response_callbacks f -> session_response_callbacks f' = session_response_callbacks f ->
  live f' = live f -> destroying f' = destroying f -> callbacks_live f -> callbacks_live f'.
Proof. intros E1 E2 E3 E4 [Hu Hs Hd]. split; intros ?; rewrite ?E1, ?E2, ?E3, ?E4; auto. Qed.

(** Removing a callback. *)
Lemma unregister_user_live s f : callbacks_live f -> callbacks_live (unregisterUserResponseCallBack s f).
Proof. intros [Hu Hs Hd]. split; cbn; [|done..]. intros s' c' [_ E]%lookup_delete_Some. by apply Hu. Qed.

Lemma unregister_session_live id f : callbacks_live f -> callbacks_live (unRegisterSessionResponseCallback id f).
Proof. intros [Hu Hs Hd]. split; cbn; [done| |done]. intros s' c' [_ E]%lookup_delete_Some. by apply Hs. Qed.

(** [destroyMe] goes from one point to the next. *)
Lemma move_live c k p f :
  callbacks_live f -> live f !! c = Some k ->
  (forall s, user_response_callbacks f !! s = Some c -> before_user (Some p) s) ->
  (forall id, session_response_callbacks f !! id = Some c -> before_session (Some p) id) ->
  callbacks_live (set_destroying (<[c := p]> (destroying f)) f).
Proof.
  intros [Hu Hs Hd] Hc Hbu Hbs. split; cbn.
  - intros s c' E. destruct (Hu _ _ E) as (k0 & Hl & H1 & H2 & H3 & H4). exists k0. split_and!; try done.
    destruct (decide (c = c')) as [<-|Hne]; [rewrite lookup_insert_eq; by apply Hbu|by rewrite lookup_insert_ne].
  - intros i c' E. destruct (Hs _ _ E) as (k0 & Hl & H1 & H2 & H3). exists k0. split_and!; try done.
    destruct (decide (c = c')) as [<-|Hne]; [rewrite lookup_insert_eq; by apply Hbs|by rewrite lookup_insert_ne].
  - intros c' H. destruct (decide (c = c')) as [<-|Hne]; [by rewrite Hc|]. rewrite lookup_insert_ne in H by done. by apply Hd.
Qed.

Lemma destroy_live c k f : callbacks_live f -> live f !! c = Some k -> callbacks_live (destroyMe c f).
Proof. intros Hl Hc. by eapply move_live. Qed.

(** The last step, of a connection that has no callback left. *)
Lemma delete_live c f :
  callbacks_live f -> destroying f !! c = Some DDelete ->
  callbacks_live (set_destroying (delete c (destroying f)) (set_live (delete c (live f)) f)).
Proof.
  intros [Hu Hs Hd] Hp. split; cbn.
  - intros s c' E. destruct (Hu _ _ E) as (k0 & Hl & H1 & H2 & H3 & H4). assert (c <> c') as Hne by (intros <-; by rewrite Hp in H4).
    exists k0. by rewrite !lookup_delete_ne.
  - intros i c' E. destruct (Hs _ _ E) as (k0 & Hl & H1 & H2 & H3). assert (c <> c') as Hne by (intros <-; by rewrite Hp in H3).
    exists k0. by rewrite !lookup_delete_ne.
  - intros c' [p [Hne E]%lookup_delete_Some]. rewrite lookup_delete_ne by done. apply Hd. by exists p.
Qed.

Lemma step_at c k p f :
  destroying f !! c = Some p -> live f !! c = Some k ->
  destroyMe_step c f = let '(next, act) := destroyMe_at c k p in
    (Ok tt, set_destroying (partial_alter (fun _ => next) c (destroying (act f))) (act f)).
Proof. intros Hp Hk. unfold destroyMe_step, sm_bind, this. rewrite Hp, Hk. by destruct (destroyMe_at c k p). Qed.

(** Every step of [destroyMe] runs, and keeps the callbacks live. *)
Lemma destroy_step_live c f :
  callbacks_live f -> exists f', destroyMe_step c f = (Ok tt, f') /\ callbacks_live f'.
Proof.
  intros Hl. unfold destroyMe_step. destruct (destroying f !! c) as [p|] eqn:Hp; [|by eexists].
  destruct (cl_destroying _ Hl c) as [k Hk]; [by rewrite Hp|]. unfold sm_bind at 1, this. rewrite Hk.
  assert (forall s, user_response_callbacks f !! s = Some c -> s = conn_session_id k /\ s <> 0 /\ before_user (Some p) s) as Hu.
  { intros s E. destruct (cl_user _ Hl _ _ E) as (k0 & Hk0 & H1 & H2 & H3 & H4). rewrite Hp in H4.
    assert (k0 = k) as -> by congruence. done. }
  assert (forall id, session_response_callbacks f !! id = Some c ->
    id = conn_internal_id k /\ handshake_done k = false /\ before_session (Some p) id) as Hs.
  { intros id E. destruct (cl_session _ Hl _ _ E) as (k0 & Hk0 & H1 & H2 & H3). rewrite Hp in H3.
    assert (k0 = k) as -> by congruence. done. }
  destruct p as [| |s| |d|i|]; cbn [destroyMe_at before_user before_session] in *; eexists; (split; [reflexivity|]).
  - apply (move_live c k); [done|done| |by destruct (conn_session_id k =? 0)]. intros s E. destruct (Hu s E) as (-> & Hne & _).
    by rewrite (proj2 (Z.eqb_neq _ _) Hne).
  - apply (move_live c k); [done|done| |done]. intros s E. by destruct (Hu s E) as (-> & _).
  - apply (move_live c k); [by apply unregister_user_live|done| |done]. intros s' E. cbn in E. apply lookup_delete_Some in E as [Hne E].
    by destruct (Hu s' E) as (_ & _ & ->).
  - apply (move_live c k); [done|done|by intros s (_ & _ & [])%Hu|]. intros i E. by destruct (Hs i E) as (_ & -> & _).
  - apply (move_live c k); [done|done|by intros s (_ & _ & [])%Hu|]. intros i E. by destruct (Hs i E) as (-> & _ & ->).
  - apply (move_live c k); [by apply unregister_session_live|done|by intros s (_ & _ & [])%Hu|]. intros i' E.
    cbn in E. apply lookup_delete_Some in E as [Hne E]. by destruct (Hs i' E) as (_ & _ & ->).
  - exact (delete_live c f Hl Hp).
Qed.

Lemma register_live c k id f :
  callbacks_live f -> live f !! c = Some k -> conn_internal_id k = id -> handshake_done k = false -> destroying f !! c = None ->
  callbacks_live (set_session (<[id := c]> (session_response_callbacks f)) f).
Proof.
  intros [Hu Hs Hd] Hc Hid Hh Hp. split; cbn; [done| |done]. intros i c'. destruct (decide (id = i)) as [<-|Hne].
  - rewrite lookup_insert_eq. intros [= <-]. exists k. by rewrite Hp.
  - rewrite lookup_insert_ne by done. apply Hs.
Qed.

(** A connection without callbacks may change at will. *)
Lemma update_free c k f :
  callbacks_live f -> (forall s, user_response_callbacks f !! s <> Some c) ->
  (forall id, session_response_callbacks f !! id <> Some c) -> callbacks_live (update c k f).
Proof.
  intros [Hu Hs Hd] Hnu Hns. split; cbn.
  - intros s c' E. destruct (Hu _ _ E) as (k0 & Hl & H1 & H2 & H3). exists k0. rewrite lookup_insert_ne; [done|].
    intros <-. by destruct (Hnu s).
  - intros i c' E. destruct (Hs _ _ E) as (k0 & Hl & H1 & H2). exists k0. rewrite lookup_insert_ne; [done|].
    intros <-. by destruct (Hns i).
  - intros c' H%Hd. by apply is_Some_insert.
Qed.

Lemma no_user_callback c k f :
  callbacks_live f -> live f !! c = Some k -> handshake_done k = false -> forall s, user_response_callbacks f !! s <> Some c.
Proof. intros [Hu _] Hc Hd s E. destruct (Hu _ _ E) as (k0 & Hl & _ & _ & Hd0 & _). congruence. Qed.

Lemma handshake_live room now last_zxid len message c k f o f' :
  callbacks_live f -> live f !! c = Some k -> handshake_done k = false -> destroying f !! c = None ->
  (forall id, session_response_callbacks f !! id <> Some c) ->
  receiveHandshake my_id cluster_node_count min_session_timeout max_session_timeout room now last_zxid len message c f = (o, f') ->
  callbacks_live f' /\ is_Some (live f' !! c).
Proof.
  intros Hl Hc Hd Hp Hns. pose proof (no_user_callback c k f Hl Hc Hd) as Hnu. unfold receiveHandshake, sm_bind at 1, this. rewrite Hc.
  unfold sm_bind at 1, sm_lift. destruct (read_handshake _ _ _ _ _ _).1 as [[[timeout_ms timeout] previous]|fl].
  2:{ intros [= <- <-]. by split. }
  unfold sm_bind at 1, sm_modify. set (k1 := mkConnection _ _ _ timeout _). set (f1 := update c k1 f).
  assert (callbacks_live f1) as Hl1 by by apply update_free.
  unfold sm_bind at 1.
  assert (exists id f2, (if previous =? 0 then getAndAddInternalId cluster_node_count else sm_ret previous) f1 = (Ok id, f2) /\
    callbacks_live f2 /\ live f2 = live f1 /\ destroying f2 = destroying f /\ user_response_callbacks f2 = user_response_callbacks f /\
    session_response_callbacks f2 = session_response_callbacks f) as (id & f2 & -> & Hl2 & El2 & Ed2 & Eu2 & Es2).
  { destruct (previous =? 0); eexists _, _; (split; [reflexivity|]); split_and!; try done. by apply (same_callbacks f1). }
  unfold sm_bind at 1, registerSessionResponseCallback. destruct (session_response_callbacks f2 !! id) eqn:Ereg.
  { intros [= <- <-]. split; [done|]. rewrite El2. cbn. rewrite lookup_insert_eq. by eexists. }
  unfold sm_bind. set (f3 := set_session _ f2). set (k2 := mkConnection _ id _ _ _).
  assert (callbacks_live (update c k2 f3)) as Hl3.
  { change (update c k2 f3) with (set_session (<[id := c]> (session_response_callbacks (update c k2 f2))) (update c k2 f2)).
    apply (register_live c k2); [|cbn; by rewrite lookup_insert_eq|done|done|cbn; by rewrite Ed2].
    apply update_free; [done|by rewrite Eu2|by rewrite Es2]. }
  unfold pushSessionRequest. destruct room; intros [= <- <-]; (split; [done || by apply (same_callbacks (update c k2 f3))|cbn; rewrite lookup_insert_eq; by eexists]).
Qed.

(** The connection of a session response that succeeds, when it is not being
    destroyed: its identifiers change while it has no callback, and then it is
    registered as the connection of the session. *)
Lemma establish_live c k k1 id f :
  callbacks_live f -> live f !! c = Some k -> handshake_done k = false -> session_response_callbacks f !! id = Some c ->
  callbacks_live (unRegisterSessionResponseCallback id (update c k1 f)).
Proof.
  intros Hl Hk Hd Ec.
  change (callbacks_live (update c k1 (unRegisterSessionResponseCallback id f))).
  apply update_free; [by apply unregister_session_live|exact (no_user_callback c k f Hl Hk Hd)|].
  intros i E. cbn in E. apply lookup_delete_Some in E as [Hne E].
  destruct (cl_session _ Hl _ _ E) as (k0 & Hk0 & Hi & _). destruct (cl_session _ Hl _ _ Ec) as (k2 & Hk2 & Hi2 & _). congruence.
Qed.

Lemma register_user_live c k sid f :
  callbacks_live f -> live f !! c = Some k -> conn_session_id k = sid -> sid <> 0 -> handshake_done k = true ->
  destroying f !! c = None -> callbacks_live (set_user (<[sid := c]> (user_response_callbacks f)) f).
Proof.
  intros [Hu Hs Hd] Hc Hid Hne Hh Hp. split; cbn; [|done..]. intros s c'. destruct (decide (sid = s)) as [<-|Hns].
  - rewrite lookup_insert_eq. intros [= <-]. exists k. by rewrite Hp.
  - rewrite lookup_insert_ne by done. apply Hu.
Qed.

Definition queued (r : ZooKeeperResponse) (k : Connection) : Connection :=
  mkConnection (conn_session_id k) (conn_internal_id k) (handshake_done k) (conn_session_timeout k) (conn_responses k ++ [r]).

Lemma push_response_live c k r f :
  live f !! c = Some k -> push_response_to c r f = (Ok tt, update c (queued r k) f) /\
  (callbacks_live f -> callbacks_live (update c (queued r k) f)).
Proof.
  intros Hk. unfold push_response_to, sm_bind, this. rewrite Hk. split; [done|]. intros Hl. by eapply update_live.
Qed.

Definition no_fault (o : outcome unit) : Prop := o = Ok tt \/ exists e, o = Fault (Throw e).

(** A session response never faults, and keeps the callbacks live unless the
    connection is being destroyed. *)
Lemma session_response_live session c k r f :
  callbacks_live f -> event_enabled (FResponse session r) f -> session_response_callbacks f !! session = Some c ->
  live f !! c = Some k -> handshake_done k = false ->
  exists o f', sendSessionResponseToClient r c f = (o, f') /\ no_fault o /\ (destroying f !! c = None -> callbacks_live f').
Proof.
  intros Hl [_ Hev] Ec Hk Hd. unfold sendSessionResponseToClient, sm_bind at 1, this. rewrite Hk.
  destruct (session_response r.2) as [[[[id sid] success] re]|] eqn:Er.
  2:{ eexists _, _. split; [reflexivity|]. split; [right; by eexists|done]. }
  pose proof (Hev _ _ _ _ eq_refl) as ->. destruct success.
  2:{ destruct (push_response_live c k r f Hk) as [E Hp]. exists (Ok tt), (update c (queued r k) f). unfold sm_bind at 1, sm_ret.
      split; [done|]. split; [by left|auto]. }
  set (k1 := mkConnection sid _ _ _ _). unfold sm_bind at 1, sm_modify at 1. unfold sm_bind at 1, sm_bind at 1, sm_modify at 1.
  pose proof (establish_live c k k1 session f Hl Hk Hd Ec) as Hl2. set (f2 := unRegisterSessionResponseCallback session _) in *.
  assert (live f2 !! c = Some k1) as Hk1 by (cbn; by rewrite lookup_insert_eq).
  unfold registerUserResponseCallBack. destruct (Z.eqb_spec sid 0) as [H0|H0].
  { eexists _, _. split; [reflexivity|]. split; [right; by eexists|done]. }
  destruct (user_response_callbacks f2 !! sid) eqn:Eu.
  - destruct re; [|eexists _, _; split; [reflexivity|]; split; [right; by eexists|done]].
    destruct (push_response_live c k1 r f2 Hk1) as [E Hp]. rewrite E. eexists _, _. split; [done|]. split; [by left|auto].
  - set (f3 := set_user _ _). destruct (push_response_live c k1 r f3 Hk1) as [E Hp]. rewrite E. eexists _, _. split; [done|].
    split; [by left|]. intros Hn. apply Hp. by apply (register_user_live c k1).
Qed.

(** What a response does to the connection its callback knows. *)
Lemma response_live session r f :
  callbacks_live f -> event_enabled (FResponse session r) f ->
  exists o f', invokeResponseCallBack session r f = (o, f') /\ no_fault o /\ (one_handshake (FResponse session r) f -> callbacks_live f').
Proof.
  intros Hl Hev. unfold invokeResponseCallBack. cbn [one_handshake]. destruct (isSessionRequest _) eqn:Eop.
  - destruct (session_response_callbacks f !! session) as [c|] eqn:Ec; [|eexists _, _; split; [reflexivity|]; split; [by left|done]].
    destruct (cl_session _ Hl _ _ Ec) as (k & Hk & Hid & Hd & _).
    destruct (session_response_live session c k r f Hl Hev Ec Hk Hd) as (o & f' & E & Ho & Hf). exists o, f'. split_and!; [done..|].
    intros H. by apply Hf, H.
  - destruct (user_response_callbacks f !! session) as [c|] eqn:Ec; [|eexists _, _; split; [reflexivity|]; split; [by left|done]].
    destruct (cl_user _ Hl _ _ Ec) as (k & Hk & _). destruct (push_response_live c k r f Hk) as [E Hp]. unfold sm_bind at 1. rewrite E.
    eexists _, _. split; [reflexivity|]. split; [by left|]. intros _. destruct (closes r); [|by apply Hp].
    by apply (same_callbacks (update c (queued r k) f)); auto.
Qed.

Lemma event_live ev f f' :
  callbacks_live f -> event_enabled ev f -> one_handshake ev f -> front_event ev f = (Ok tt, f') -> callbacks_live f'.
Proof.
  intros Hl Hev Hone. destruct ev as [c|c room now last_zxid len message|c room now r|session r| |c|c]; cbn [Connections.front_event].
  - intros [= <-]. cbn in Hev. apply update_free; [done|..].
    + intros s E. destruct (cl_user _ Hl _ _ E) as (k & Hk & _). congruence.
    + intros i E. destruct (cl_session _ Hl _ _ E) as (k & Hk & _). congruence.
  - destruct Hev as (Hp & k & Hk & Hd). unfold or_destroy. destruct (receiveHandshake _ _ _ _ _ _ _ _ _ _ _) as [o f1] eqn:E.
    destruct (handshake_live _ _ _ _ _ _ _ _ _ _ Hl Hk Hd Hp Hone E) as [Hl1 [k1 Hk1]].
    destruct o as [[]|[]]; try done; intros [= <-]; [done|]. by apply (destroy_live c k1).
  - destruct Hev as (Hp & k & Hk & Hd). unfold or_destroy, receiveRequest, sm_bind, this, pushRequest. rewrite Hk.
    destruct (negb (isLocalSession f (conn_session_id k))); cbn [sm_fault].
    { intros [= <-]. by apply (destroy_live c k). }
    destruct (bool_decide _ || room); cbn [sm_ret]; intros [= <-]; [by apply (same_callbacks f)|by apply (destroy_live c k)].
  - destruct (response_live session r f Hl Hev) as (o & f1 & E & Ho & Hl1). unfold or_log. rewrite E.
    destruct Ho as [->|[e ->]]; intros [= <-]; auto.
  - intros [= <-]. unfold unregister_closed. destruct (closing f); [|done]. cbn.
    by apply (same_callbacks (unregisterUserResponseCallBack z f)), unregister_user_live.
  - destruct Hev as (_ & k & Hk). intros [= <-]. by apply (destroy_live c k).
  - destruct (destroy_step_live c f Hl) as (f1 & -> & Hl1). by intros [= <-].
Qed.

(** A run of the threads of the server in which clients wait for the answer to
    their handshake. *)
Inductive front_run : Front -> list FEvent -> Front -> Prop :=
| fr_nil f : front_run f [] f
| fr_snoc f evs f1 ev f2 :
    front_run f evs f1 -> event_enabled ev f1 -> one_handshake ev f1 -> front_event ev f1 = (Ok tt, f2) ->
    front_run f (evs ++ [ev]) f2.

Lemma front_run_live evs f : front_run (front_init my_id) evs f -> callbacks_live f.
Proof.
  remember (front_init my_id) as f0 eqn:E0. intros Hr. revert E0.
  induction Hr as [f|f evs f1 ev f2 Hr IH He Ho E]; intros ->; [apply front_init_live|]. eapply event_live; [by apply IH|done..].
Qed.

(** C30: as long as clients wait for the answer to their handshake and no answer
    to a handshake comes while its connection is being destroyed, the response
    thread never calls a connection that was deleted, however the steps of the
    reactors, of [destroyMe] and of the response thread interleave; and a response
    to a session that is local is queued at a connection that lives and serves the
    session. *)
Theorem responses_reach_live_connections evs f session r :
  front_run (front_init my_id) evs f -> event_enabled (FResponse session r) f ->
  (exists f', front_event (FResponse session r) f = (Ok tt, f')) /\
  (isLocalSession f session = true -> isSessionRequest (response_getOpNum r.2) = false ->
   exists c k f', user_response_callbacks f !! session = Some c /\ live f !! c = Some k /\
     conn_session_id k = session /\ handshake_done k = true /\
     front_event (FResponse session r) f = (Ok tt, f') /\
     conn_responses <$> live f' !! c = Some (conn_responses k ++ [r])).
Proof.
  intros Hr Hev. pose proof (front_run_live _ _ Hr) as Hl. split.
  - destruct (response_live session r f Hl Hev) as (o & f1 & E & Ho & _). exists f1. cbn. unfold or_log. rewrite E.
    by destruct Ho as [->|[e ->]].
  - intros [c Hc]%bool_decide_eq_true Hop. destruct (cl_user _ Hl _ _ Hc) as (k & Hk & Hs & _ & Hd & _).
    eexists c, k, _. split_and!; [done..| |].
    + cbn. unfold or_log, invokeResponseCallBack. rewrite Hop, Hc. unfold sm_bind at 1.
      destruct (push_response_live c k r f Hk) as [-> _]. reflexivity.
    + destruct (closes r); cbn; by rewrite lookup_insert_eq.
Qed.

(** The rest of [destroyMe] after it looked at the session, with nothing between
    its steps: it does not remove the callback of a session. *)
Lemma finish_destroy c k f :
  destroying f !! c = Some DHandshake -> live f !! c = Some k ->
  exists f', front_events my_id cluster_node_count min_session_timeout max_session_timeout (replicate 4 (FStep c)) f = (Ok tt, f') /\
    live f' = delete c (live f) /\ user_response_callbacks f' = user_response_callbacks f.
Proof.
  intros Hp Hk. cbn [replicate front_events Connections.front_event]. unfold sm_bind.
  do 4 (erewrite step_at; [|cbn; by rewrite ?lookup_partial_alter_eq|done]; cbn [destroyMe_at id]).
  eexists. by split.
Qed.

(** C40: a client that closes its connection while its handshake is being
    answered can make the server use a connection after it was deleted. When
    [destroyMe] has seen that there is no session, and the answer comes before it
    looks whether the handshake is done, the callback of the new session stays
    registered, and the next response to the session calls the deleted connection. *)
Theorem destroy_races_with_handshake c k id h sid server f :
  live f !! c = Some k -> conn_session_id k = 0 -> session_response_callbacks f !! id = Some c ->
  sid <> 0 -> user_response_callbacks f !! sid = None ->
  exists f', front_events my_id cluster_node_count min_session_timeout max_session_timeout
      ([FDestroy c; FStep c; FResponse id (h, NewSessionResponse id sid server true)] ++ replicate 4 (FStep c)) f = (Ok tt, f') /\
    live f' !! c = None /\ user_response_callbacks f' !! sid = Some c /\
    forall r, isSessionRequest (response_getOpNum r.2) = false -> (front_event (FResponse sid r) f').1 = Fault UndefinedBehaviour.
Proof.
  intros Hk Hs0 Hid Hsid Hu.
  set (k1 := mkConnection sid (conn_internal_id k) true (conn_session_timeout k) (conn_responses k)).
  set (r := (h, NewSessionResponse id sid server true)).
  set (f1 := set_destroying (<[c := DHandshake]> (destroying (destroyMe c f))) (destroyMe c f)).
  set (f2 := update c (queued r k1) (set_user (<[sid := c]> (user_response_callbacks f))
               (unRegisterSessionResponseCallback id (update c k1 f1)))).
  assert (front_event (FStep c) (destroyMe c f) = (Ok tt, f1)) as E1.
  { cbn. erewrite step_at; [|cbn; by rewrite lookup_insert_eq|done]. cbn. by rewrite Hs0. }
  assert (front_event (FResponse id r) f1 = (Ok tt, f2)) as E2.
  { cbn. unfold or_log, invokeResponseCallBack. cbn. rewrite Hid. unfold sendSessionResponseToClient, this, sm_bind at 1. cbn. rewrite Hk.
    unfold registerUserResponseCallBack, sm_bind, sm_modify. rewrite (proj2 (Z.eqb_neq _ _) Hsid). cbn. rewrite Hu.
    change (isSessionRequest OpNewSession) with true. cbn iota. edestruct (push_response_live c k1 r) as [-> _]; [|reflexivity].
    cbn. by rewrite lookup_insert_eq. }
  destruct (finish_destroy c (queued r k1) f2) as (f3 & E3 & El & Eu); [cbn; by rewrite lookup_insert_eq..|].
  exists f3. split_and!.
  - cbn [app front_events]. unfold sm_bind at 1. change (front_event (FDestroy c) f) with (Ok tt, destroyMe c f). cbv iota beta.
    unfold sm_bind at 1. rewrite E1. unfold sm_bind at 1. by rewrite E2.
  - by rewrite El, lookup_delete_eq.
  - rewrite Eu. cbn. by rewrite lookup_insert_eq.
  - intros r' Hop. cbn. unfold or_log, invokeResponseCallBack. rewrite Hop, Eu. cbn. rewrite lookup_insert_eq.
    unfold push_response_to, sm_bind, this. by rewrite El, lookup_delete_eq.
Qed.
End callbacks.

(** ** Runs *)

Definition demo_handshake (previous : Z) : bytes :=
  write_i32 0 ++ write_i64 0 ++ write_i32 10000 ++ write_i64 previous ++ write_password.
Definition demo_front : list FEvent -> Front -> outcome unit * Front := front_events 1 3 1000000 3600000000.
Definition demo_connect (c : nat) (previous : Z) : FEvent := FHandshake c true 5 0 44 (demo_handshake previous).
Definition demo_destroy (c : nat) : list FEvent := FDestroy c :: replicate 7 (FStep c).
Definition demo_established (session : Z) : ZooKeeperResponse := (ResponseHeader0, NewSessionResponse 1 session 1 true).

(** A client that sends a second handshake without waiting for the answer to
    the first, and closes the connection, makes the response thread use a
    connection after it was deleted: only the callback of the second handshake is
    removed with it. *)
Theorem second_handshake_leaves_dangling_callback :
  exists f, demo_front ([FAccept 1; demo_connect 1 0; demo_connect 1 0] ++ demo_destroy 1) (front_init 1) = (Ok tt, f) /\
    live f = ∅ /\ session_response_callbacks f = {[1 := 1%nat]} /\
    (invokeResponseCallBack 1 (demo_established 7) f).1 = Fault UndefinedBehaviour.
Proof. eexists. split; [vm_compute; reflexivity|]. split_and!; vm_compute; reflexivity. Qed.

(** A client that takes up its session while its old connection is still open
    is told that it succeeded, but the callback stays with the old connection: its
    responses go there, and when that connection is closed the session is not local
    and the next request of the new one ends it. *)
Theorem taken_up_session_loses_connection :
  let first := [FAccept 1; demo_connect 1 0; FResponse 1 (demo_established 7)] in
  let second := [FAccept 2; demo_connect 2 7; FResponse 7 (ResponseHeader0, UpdateSessionResponse 7 1 true)] in
  exists f f1, demo_front (first ++ second) (front_init 1) = (Ok tt, f) /\ user_response_callbacks f = {[7 := 1%nat]} /\
    (exists k, live f !! 2%nat = Some k /\ conn_session_id k = 7 /\ handshake_done k = true) /\
    demo_front (demo_destroy 1 ++ [FRequest 2 true 5 (mkRequestHeader 1 false, HeartbeatRequest)] ++ replicate 7 (FStep 2)) f = (Ok tt, f1) /\
    live f1 = ∅.
Proof.
  eexists _, _. split; [vm_compute; reflexivity|]. split; [vm_compute; reflexivity|].
  split; [eexists; split; [vm_compute; reflexivity|split; reflexivity]|]. split; vm_compute; reflexivity.
Qed.

(** A connection with a session that is closed: [destroyMe] has read the session
    and not yet removed its callback. *)
Definition demo_closing : list FEvent := [FAccept 1; demo_connect 1 0; FResponse 1 (demo_established 7); FDestroy 1; FStep 1; FStep 1].
Definition demo_point (n : nat) : Front := (demo_front (take n demo_closing) (front_init 1)).2.

Lemma demo_closing_run : front_run 1 3 1000000 3600000000 (front_init 1) demo_closing (demo_point 6).
Proof.
  apply (fr_snoc _ _ _ _ _ (take 5 demo_closing) (demo_point 5)); [|vm_compute; by eexists|done|vm_compute; reflexivity].
  apply (fr_snoc _ _ _ _ _ (take 4 demo_closing) (demo_point 4)); [|vm_compute; by eexists|done|vm_compute; reflexivity].
  apply (fr_snoc _ _ _ _ _ (take 3 demo_closing) (demo_point 3)); [|by split; vm_compute; [|eexists]|done|vm_compute; reflexivity].
  apply (fr_snoc _ _ _ _ _ (take 2 demo_closing) (demo_point 2)); [| | |vm_compute; reflexivity].
  - apply (fr_snoc _ _ _ _ _ (take 1 demo_closing) (demo_point 1)); [| | |vm_compute; reflexivity].
    + apply (fr_snoc _ _ _ _ _ [] (front_init 1)); [constructor|done|done|vm_compute; reflexivity].
    + split; [done|]. eexists. by split; [vm_compute; reflexivity|].
    + intros id. change (session_response_callbacks (demo_point 1)) with (∅ : gmap Z nat). by rewrite lookup_empty.
  - split; [done|]. by intros id sid success re [= <- <- <- <-].
  - intros _ c. vm_compute. by intros [= <-].
Qed.

Lemma responses_reach_live_connections_witness :
  exists c k f', user_response_callbacks (demo_point 6) !! 7 = Some c /\ live (demo_point 6) !! c = Some k /\
    conn_session_id k = 7 /\ handshake_done k = true /\
    front_event 1 3 1000000 3600000000 (FResponse 7 (ResponseHeader0, HeartbeatResponse)) (demo_point 6) = (Ok tt, f') /\
    conn_responses <$> live f' !! c = Some (conn_responses k ++ [(ResponseHeader0, HeartbeatResponse)]).
Proof.
  apply (responses_reach_live_connections 1 3 1000000 3600000000 demo_closing _ _ _ demo_closing_run); [|reflexivity..].
  split; [reflexivity|]. by intros ? ? ? ?.
Defined.

Lemma destroy_races_with_handshake_witness :
  exists f', demo_front ([FDestroy 1; FStep 1; FResponse 1 (demo_established 7)] ++ replicate 4 (FStep 1)) (demo_point 2) = (Ok tt, f') /\
    live f' !! 1%nat = None /\ user_response_callbacks f' !! 7 = Some 1%nat /\
    (front_event 1 3 1000000 3600000000 (FResponse 7 (ResponseHeader0, HeartbeatResponse)) f').1 = Fault UndefinedBehaviour.
Proof.
  edestruct (destroy_races_with_handshake 1 3 1000000 3600000000 1 (mkConnection 0 1 false 10000000 []) 1 ResponseHeader0 7 1 (demo_point 2))
    as (f' & E & Hl & Hu & Hr); [vm_compute; reflexivity|reflexivity|vm_compute; reflexivity|discriminate|vm_compute; reflexivity|].
  exists f'. split; [exact E|]. split; [exact Hl|]. split; [exact Hu|]. by apply Hr.
Defined.
