(* ===== verification/Client.v ===== *)
(** * The client

    [ZooKeeper] of [src/src/ZooKeeper/ZooKeeperImpl.h/.cpp], the client library,
    with the chroot helpers of [IKeeper.cpp] and the constructor of a transaction
    of [ZooKeeperCommon.cpp]. The users' threads, the sending thread, the
    receiving thread and whoever runs [finalize] take steps in any order; a step
    is what one of them does while it holds a mutex, or between two reads of what
    another one writes. *)

From S2P Require Import Prelude Coordination Paths Wire WireRequests WireResponses.
From S2P Require Import Sessions Connections.

(** ** Chroot *)

Definition is_slash (c : ascii) : bool := bool_decide (c = "/"%char).

Definition starts_with_slash (path : string) : bool :=
  match path with String c _ => is_slash c | EmptyString => false end.

(** [addRootPath] of a path *)
Definition add_root (root_path path : string) : outcome string :=
  if negb (starts_with_slash path) then Fault (Throw (KEEPER_EXCEPTION (Error_code ZBADARGUMENTS)))
  else if bool_decide (root_path = "") then Ok path
  else if bool_decide (String.length path = 1%nat) then Ok root_path
  else Ok (String.append root_path path).

(** [removeRootPath] of a path *)
Definition remove_root (root_path path : string) : outcome string :=
  if bool_decide (root_path = "") then Ok path
  else if (String.length path <=? String.length root_path)%nat
  then Fault (Throw (KEEPER_EXCEPTION (Error_code ZDATAINCONSISTENCY)))
  else Ok (str_drop (String.length root_path) path).

(** [addRootPath] of the request classes: those without one do nothing. *)
Fixpoint addRootPath (root : string) (r : RequestBody) : outcome RequestBody :=
  match r with
  | CreateRequest path data e s acls ne => p ← add_root root path; Ok (CreateRequest p data e s acls ne)
  | RemoveRequest path v => p ← add_root root path; Ok (RemoveRequest p v)
  | ExistsRequest path => p ← add_root root path; Ok (ExistsRequest p)
  | GetRequest path => p ← add_root root path; Ok (GetRequest p)
  | SetRequest path data v => p ← add_root root path; Ok (SetRequest p data v)
  | ListRequest path => p ← add_root root path; Ok (ListRequest p)
  | SimpleListRequest path => p ← add_root root path; Ok (SimpleListRequest p)
  | FilteredListRequest path t => p ← add_root root path; Ok (FilteredListRequest p t)
  | CheckRequest path v ne => p ← add_root root path; Ok (CheckRequest p v ne)
  | SetACLRequest path acls v => p ← add_root root path; Ok (SetACLRequest p acls v)
  | GetACLRequest path => p ← add_root root path; Ok (GetACLRequest p)
  | MultiRequest t rs =>
      rs' ← (fix go (rs : list (RequestHeader * RequestBody)) : outcome (list (RequestHeader * RequestBody)) :=
               match rs with
               | [] => Ok []
               | (h, r) :: rs => r' ← addRootPath root r; rs' ← go rs; Ok ((h, r') :: rs')
               end) rs;
      Ok (MultiRequest t rs')
  | _ => Ok r
  end.

(** [removeRootPath] of the response classes *)
Fixpoint removeRootPath (root : string) (b : ResponseBody) : outcome ResponseBody :=
  let go := fix go (rs : list (ResponseHeader * ResponseBody)) : outcome (list (ResponseHeader * ResponseBody)) :=
    match rs with
    | [] => Ok []
    | (h, b) :: rs => b' ← removeRootPath root b; rs' ← go rs; Ok ((h, b') :: rs')
    end in
  match b with
  | CreateResponse path_created => p ← remove_root root path_created; Ok (CreateResponse p)
  | WatchResponse type state path => p ← remove_root root path; Ok (WatchResponse type state p)
  | MultiWriteResponse rs => rs' ← go rs; Ok (MultiWriteResponse rs')
  | MultiReadResponse rs => rs' ← go rs; Ok (MultiReadResponse rs')
  | _ => Ok b
  end.

(** ** Calls of the user *)

(** The methods of [IKeeper]. *)
Inductive ApiCall :=
| ApiCreate (path data : string) (is_ephemeral is_sequential : bool) (acls : list ACL)
| ApiRemove (path : string) (version : Z)
| ApiExists (path : string)
| ApiGet (path : string)
| ApiSet (path data : string) (version : Z)
| ApiList (path : string)
| ApiCheck (path : string) (version : Z)
| ApiMulti (requests : list RequestBody).

Definition or_default (default_acls acls : list ACL) : list ACL :=
  match acls with [] => default_acls | _ => acls end.

(** [ZooKeeperMultiRequest(generic_requests, default_acls)]. [checkOperationType]
    is an [assert], which a release build leaves out, and an assignment: the kind
    of the transaction is that of its last request. *)
Definition multi_part (default_acls : list ACL) (r : RequestBody) : outcome (OperationType * RequestBody) :=
  match r with
  | CreateRequest path data e s acls ne =>
      Ok (OperationType_Write, CreateRequest path data e s (or_default default_acls acls) ne)
  | RemoveRequest _ _ | SetRequest _ _ _ => Ok (OperationType_Write, r)
  | CheckRequest _ _ _ | GetRequest _ | ExistsRequest _ | SimpleListRequest _ => Ok (OperationType_Read, r)
  | _ => Fault (Throw (KEEPER_EXCEPTION (Error_code ZBADARGUMENTS)))
  end.

Fixpoint multi_parts (default_acls : list ACL) (t : OperationType) (rs : list RequestBody)
    : outcome (OperationType * list ZooKeeperRequest) :=
  match rs with
  | [] => Ok (t, [])
  | r :: rs' =>
      '(t', r') ← multi_part default_acls r;
      '(t'', parts) ← multi_parts default_acls t' rs';
      Ok (t'', (mkRequestHeader 0 false, r') :: parts)
  end.

Definition make_multi (default_acls : list ACL) (rs : list RequestBody) : outcome RequestBody :=
  '(t, parts) ← multi_parts default_acls OperationType_Unspecified rs; Ok (MultiRequest t parts).

Definition api_request (default_acls : list ACL) (call : ApiCall) : outcome RequestBody :=
  match call with
  | ApiCreate path data e s acls => Ok (CreateRequest path data e s (or_default default_acls acls) false)
  | ApiRemove path v => Ok (RemoveRequest path v)
  | ApiExists path => Ok (ExistsRequest path)
  | ApiGet path => Ok (GetRequest path)
  | ApiSet path data v => Ok (SetRequest path data v)
  | ApiList path => Ok (ListRequest path)
  | ApiCheck path v => Ok (CheckRequest path v false)
  | ApiMulti rs => make_multi default_acls rs
  end.

(** The methods that take a watch pass it on; the others have none. *)
Definition api_watch (call : ApiCall) (watch : option nat) : option nat :=
  match call with ApiExists _ | ApiGet _ | ApiList _ => watch | _ => None end.

(** ** State *)

(** A callback and a watch are the number the user gave them. [probably_sent] is a
    field of the request, which [operations] shares with the sending thread. *)
Record RequestInfo := mkRequestInfo {
  info_request : ZooKeeperRequest;
  probably_sent : bool;
  callback : option nat;
  watch : option nat
}.

Definition info_xid (i : RequestInfo) : Z := xid (info_request i).1.

(** What the user sees: a method returned or threw, a callback was called by the
    receiving thread or by [finalize], a watch was called; with the xid of the
    request. *)
Inductive Note :=
| Returned (callback : nat) (x : Z) (watch : option nat)
| Threw (callback : nat)
| Called (callback : nat) (x : Z) (response : ZooKeeperResponse)
| Failed (callback : nat) (x : Z) (response : ZooKeeperResponse)
| Fired (watch : nat) (response : ZooKeeperResponse).

Inductive SendPc :=
| SLoop                       (* while (!expired) *)
| SWait                       (* tryPop, or the heartbeat *)
| SPopped (i : RequestInfo)   (* before operations_mutex *)
| SRegistered (i : RequestInfo)
| SMarked (i : RequestInfo)   (* request->write *)
| SFinalize                   (* in finalize(true, false) *)
| SExited.

Inductive ReceivePc :=
| RcLoop                      (* while (!expired) *)
| RcPoll
| RcFinalize                  (* in finalize(false, true) *)
| RcExited.

(** Who runs [finalize]. *)
Inductive Finalizer := ByUser | BySender | ByReceiver.

Inductive FinalizePc :=
| FClose
| FJoinSend
| FExpire
| FShutdown
| FJoinReceive
| FOperations
| FWatches
| FDrain
| FDone.

#[export] Instance SendPc_is_exited_dec pc : Decision (pc = SExited).
Proof. destruct pc; first [by left|by right]. Defined.
#[export] Instance ReceivePc_eq_dec : EqDecision ReceivePc.
Proof. solve_decision. Defined.
#[export] Instance Finalizer_eq_dec : EqDecision Finalizer.
Proof. solve_decision. Defined.
#[export] Instance FinalizePc_eq_dec : EqDecision FinalizePc.
Proof. solve_decision. Defined.

(** [finalizing] is [finalization_started], with who started it and where it is;
    [written] are the requests whose bytes were passed to the socket, and [input]
    the bytes that arrived from it and were not read yet. *)
Record Client := mkClient {
  next_xid : Z;
  last_received_xid : Z;
  expired : bool;
  finalizing : option (Finalizer * FinalizePc);
  requests_queue : list RequestInfo;
  operations : gmap Z RequestInfo;
  watches : gmap string (list nat);
  written : list ZooKeeperRequest;
  input : bytes;
  notes : list Note;
  send_thread : SendPc;
  receive_thread : ReceivePc
}.

Abbreviation ClientM := (SM Client).

Definition client_init : Client := mkClient 1 0 false None [] ∅ ∅ [] [] [] SLoop RcLoop.

Definition set_next_xid x c := mkClient x (last_received_xid c) (expired c) (finalizing c) (requests_queue c) (operations c) (watches c)
  (written c) (input c) (notes c) (send_thread c) (receive_thread c).
Definition set_last_received x c := mkClient (next_xid c) x (expired c) (finalizing c) (requests_queue c) (operations c) (watches c)
  (written c) (input c) (notes c) (send_thread c) (receive_thread c).
Definition set_expired c := mkClient (next_xid c) (last_received_xid c) true (finalizing c) (requests_queue c) (operations c) (watches c)
  (written c) (input c) (notes c) (send_thread c) (receive_thread c).
Definition set_finalizing f c := mkClient (next_xid c) (last_received_xid c) (expired c) f (requests_queue c) (operations c) (watches c)
  (written c) (input c) (notes c) (send_thread c) (receive_thread c).
Definition set_queue q c := mkClient (next_xid c) (last_received_xid c) (expired c) (finalizing c) q (operations c) (watches c)
  (written c) (input c) (notes c) (send_thread c) (receive_thread c).
Definition set_operations m c := mkClient (next_xid c) (last_received_xid c) (expired c) (finalizing c) (requests_queue c) m (watches c)
  (written c) (input c) (notes c) (send_thread c) (receive_thread c).
Definition set_watches w c := mkClient (next_xid c) (last_received_xid c) (expired c) (finalizing c) (requests_queue c) (operations c) w
  (written c) (input c) (notes c) (send_thread c) (receive_thread c).
Definition add_written r c := mkClient (next_xid c) (last_received_xid c) (expired c) (finalizing c) (requests_queue c) (operations c)
  (watches c) (written c ++ [r]) (input c) (notes c) (send_thread c) (receive_thread c).
Definition set_input bs c := mkClient (next_xid c) (last_received_xid c) (expired c) (finalizing c) (requests_queue c) (operations c)
  (watches c) (written c) bs (notes c) (send_thread c) (receive_thread c).
Definition add_notes l c := mkClient (next_xid c) (last_received_xid c) (expired c) (finalizing c) (requests_queue c) (operations c)
  (watches c) (written c) (input c) (notes c ++ l) (send_thread c) (receive_thread c).
Definition set_send pc c := mkClient (next_xid c) (last_received_xid c) (expired c) (finalizing c) (requests_queue c) (operations c)
  (watches c) (written c) (input c) (notes c) pc (receive_thread c).
Definition set_receive pc c := mkClient (next_xid c) (last_received_xid c) (expired c) (finalizing c) (requests_queue c) (operations c)
  (watches c) (written c) (input c) (notes c) (send_thread c) pc.

(** ** Finalization *)

(** [finalize(error_send, error_receive)] up to the first thing it waits for; the
    flags are those of the one who calls it. The threads leave their loop. *)
Definition start_finalize (who : Finalizer) (c : Client) : Client :=
  match finalizing c with
  | Some _ =>
      match who with ByUser => c | BySender => set_send SExited c | ByReceiver => set_receive RcExited c end
  | None =>
      match who with
      | ByUser => set_finalizing (Some (ByUser, FClose)) c
      | BySender => set_send SFinalize (set_finalizing (Some (BySender, FExpire)) c)
      | ByReceiver => set_receive RcFinalize (set_finalizing (Some (ByReceiver, FClose)) c)
      end
  end.

(** [requests_queue{1}] *)
Definition queue_capacity : nat := 1.

Definition close_info : RequestInfo := mkRequestInfo (mkRequestHeader CLOSE_XID false, CloseRequest) false None None.

(** The answer [finalize] gives to an operation, and to a request in the queue. *)
Definition lost_response (i : RequestInfo) : ZooKeeperResponse :=
  set_error (if probably_sent i then ZCONNECTIONLOSS else ZSESSIONEXPIRED) (makeResponse (info_request i).1 (info_request i).2).

Definition expired_response (i : RequestInfo) : ZooKeeperResponse :=
  set_error ZSESSIONEXPIRED (makeResponse (info_request i).1 (info_request i).2).

(** [WatchResponse] with [SESSION], [EXPIRED_SESSION] and [ZSESSIONEXPIRED] *)
Definition session_expired_event : ZooKeeperResponse := set_error ZSESSIONEXPIRED (ResponseHeader0, WatchResponse (-1) (-112) "").

Definition fail_operation (i : RequestInfo) : list Note :=
  match callback i with Some n => [Failed n (info_xid i) (lost_response i)] | None => [] end.

Definition fail_queued (i : RequestInfo) : list Note :=
  match callback i with Some n => [Failed n (info_xid i) (expired_response i)] | None => [] end ++
  match watch i with Some w => [Fired w session_expired_event] | None => [] end.

Section client.
Context `{IterOrder} (root_path : string) (default_acls : list ACL) (throws : nat -> bool).

(** In the order of the xids; the watches in some order of the paths. *)
Definition all_operations (m : gmap Z RequestInfo) : list RequestInfo := omap (fun x => m !! x) (sorted_keys m).
Definition all_watches (m : gmap string (list nat)) : list nat := iter_str (dom m) ≫= (fun path => default [] (m !! path)).

(** A step of [finalize]; [None] while it waits. The caller goes on after it. *)
Definition finalize_step (c : Client) : option Client :=
  match finalizing c with
  | None => None
  | Some (who, pc) =>
      let goto pc' c := Some (set_finalizing (Some (who, pc')) c) in
      match pc with
      | FClose =>
          if (length (requests_queue c) <? queue_capacity)%nat
          then goto FJoinSend (set_queue (requests_queue c ++ [close_info]) c)
          else goto FJoinSend (set_expired c)
      | FJoinSend => if decide (send_thread c = SExited) then goto FExpire c else None
      | FExpire => goto FShutdown (set_expired c)
      | FShutdown => goto (if decide (who = ByReceiver) then FOperations else FJoinReceive) c
      | FJoinReceive => if decide (receive_thread c = RcExited) then goto FOperations c else None
      | FOperations => goto FWatches (set_operations ∅ (add_notes (all_operations (operations c) ≫= fail_operation) c))
      | FWatches =>
          goto FDrain (set_watches ∅ (add_notes ((fun w => Fired w session_expired_event) <$> all_watches (watches c)) c))
      | FDrain =>
          goto FDone
            (match who with ByUser => id | BySender => set_send SExited | ByReceiver => set_receive RcExited end
               (set_queue [] (add_notes (requests_queue c ≫= fail_queued) c)))
      | FDone => None
      end
  end.

(** ** Users *)

(** [pushRequest]: the requests of the methods have no xid yet. [push_request_mutex]
    is held; when the queue stays full until the timeout, [tryPush] fails. *)
Definition pushRequest (i : RequestInfo) : ClientM Z := fun c =>
  let failed e c := (Fault (Throw (KEEPER_EXCEPTION (Error_code e))), start_finalize ByUser c) in
  let x := next_xid c in
  let c1 := set_next_xid (i32 (x + 1)) c in
  if bool_decide (x = CLOSE_XID) then failed ZSESSIONEXPIRED c1
  else if x <? 0 then failed ZSESSIONEXPIRED c1
  else if expired c1 then failed ZSESSIONEXPIRED c1
  else if (length (requests_queue c1) <? queue_capacity)%nat
  then
    let '(h, b) := info_request i in
    (Ok x, set_queue (requests_queue c1 ++ [mkRequestInfo (mkRequestHeader x (has_watch h), b) false (callback i) (watch i)]) c1)
  else failed ZOPERATIONTIMEOUT c1.

Definition api_call (call : ApiCall) (cb : nat) (w : option nat) (c : Client) : Client :=
  match api_request default_acls call with
  | Fault _ => add_notes [Threw cb] c
  | Ok b =>
      match pushRequest (mkRequestInfo (mkRequestHeader 0 false, b) false (Some cb) (api_watch call w)) c with
      | (Ok x, c') => add_notes [Returned cb x (api_watch call w)] c'
      | (Fault _, c') => add_notes [Threw cb] c'
      end
  end.

(** ** The sending thread *)

(** The request of [i] was changed: [operations] has the same object. *)
Definition update_request (i : RequestInfo) (c : Client) : Client :=
  set_operations (alter (fun _ => i) (info_xid i) (operations c)) c.

(** [operations\[xid\] = info], and [has_watch]. *)
Definition register (i : RequestInfo) (c : Client) : Client :=
  let c1 := if bool_decide (info_xid i = CLOSE_XID) then c else set_operations (<[info_xid i := i]> (operations c)) c in
  match watch i with
  | None => set_send (SRegistered i) c1
  | Some _ =>
      let i' := mkRequestInfo (mkRequestHeader (info_xid i) true, (info_request i).2) (probably_sent i) (callback i) (watch i) in
      set_send (SRegistered i') (update_request i' c1)
  end.

(** [addRootPath] and [probably_sent = true]; an exception ends the thread. *)
Definition mark_sent (i : RequestInfo) (c : Client) : Client :=
  match addRootPath root_path (info_request i).2 with
  | Fault _ => start_finalize BySender c
  | Ok b =>
      let i' := mkRequestInfo ((info_request i).1, b) true (callback i) (watch i) in
      set_send (SMarked i') (update_request i' c)
  end.

(** [ok]: whether the socket took the bytes. *)
Definition write_request (ok : bool) (i : RequestInfo) (c : Client) : Client :=
  let c1 := add_written (info_request i) c in
  if ok then set_send (if bool_decide (info_xid i = CLOSE_XID) then SExited else SLoop) c1 else start_finalize BySender c1.

Definition heartbeat : ZooKeeperRequest := (mkRequestHeader (-2) false, HeartbeatRequest).

(** A step of [sendThread]; [beat]: it is time for a heartbeat. *)
Definition send_step (beat ok : bool) (c : Client) : option Client :=
  match send_thread c with
  | SLoop => Some (set_send (if expired c then SExited else SWait) c)
  | SWait =>
      if beat then
        let c1 := add_written heartbeat c in Some (if ok then set_send SLoop c1 else start_finalize BySender c1)
      else
        match requests_queue c with
        | [] => Some (set_send SLoop c)
        | i :: q => Some (set_send (SPopped i) (set_queue q c))
        end
  | SPopped i => Some (register i c)
  | SRegistered i => Some (if expired c then set_send SExited c else mark_sent i c)
  | SMarked i => Some (write_request ok i c)
  | SFinalize | SExited => None
  end.

(** ** The receiving thread *)

(** What a response is for: a heartbeat, a watch, or an operation, which leaves
    [operations]. *)
Inductive Expected :=
| ExpectPing
| ExpectWatch
| ExpectOperation (i : RequestInfo).

Definition PING_XID : Z := -2.

Definition expect (x : Z) (err : Error) : ClientM Expected := fun c =>
  let throw e c := (Fault (Throw (KEEPER_EXCEPTION (Error_code e))), c) in
  if bool_decide (x = PING_XID) then
    if bool_decide (err = ZOK) then (Ok ExpectPing, c) else throw ZRUNTIMEINCONSISTENCY c
  else if bool_decide (x = WATCH_XID) then (Ok ExpectWatch, c)
  else if negb (bool_decide (x = last_received_xid c + 1)) then throw ZCONNECTIONLOSS c
  else
    let c1 := set_last_received (i32 (last_received_xid c + 1)) c in
    match operations c1 !! x with
    | None => throw ZRUNTIMEINCONSISTENCY c1
    | Some i => (Ok (ExpectOperation i), set_operations (delete x (operations c1)) c1)
    end.

Definition empty_response (ex : Expected) : ZooKeeperResponse :=
  match ex with
  | ExpectPing => (ResponseHeader0, HeartbeatResponse)
  | ExpectWatch => (ResponseHeader0, WatchResponse 0 0 "")
  | ExpectOperation i => makeResponse (info_request i).1 (info_request i).2
  end.

(** The body, when the header has no error. *)
Definition read_body (err : Error) (ex : Expected) : Reader ZooKeeperResponse :=
  (if bool_decide (err = ZOK) then
     r <- response_readImpl (empty_response ex).1 (empty_response ex).2 ;;
     b <- sm_lift (removeRootPath root_path r.2) ;;
     sm_ret (r.1, b)
   else sm_ret (set_error err (empty_response ex)))%sm.

(** Whether the watch of the request is set, and for which path. *)
Definition wants_watch (i : RequestInfo) (r : ZooKeeperResponse) : bool :=
  bool_decide (error r.1 = ZOK) ||
  bool_decide (request_getOpNum (info_request i).2 = OpExists) && bool_decide (error r.1 = ZNONODE).

Definition set_watch (ex : Expected) (r : ZooKeeperResponse) : ClientM unit := fun c =>
  match ex with
  | ExpectOperation i =>
      match watch i with
      | Some w =>
          if wants_watch i r then
            match remove_root root_path (request_getPath (info_request i).2) with
            | Ok path => (Ok tt, set_watches (<[path := default [] (watches c !! path) ++ [w]]> (watches c)) c)
            | Fault f => (Fault f, c)
            end
          else (Ok tt, c)
      | None => (Ok tt, c)
      end
  | _ => (Ok tt, c)
  end.

(** Watches are called in turn, until one throws. *)
Fixpoint fire_until (ws : list nat) (r : ZooKeeperResponse) : list Note * bool :=
  match ws with
  | [] => ([], true)
  | w :: ws' => if throws w then ([Fired w r], false) else let '(l, ok) := fire_until ws' r in (Fired w r :: l, ok)
  end.

(** [request_info.callback] of the response. *)
Definition call_back (ex : Expected) (r : ZooKeeperResponse) : ClientM unit := fun c =>
  match ex with
  | ExpectPing => (Ok tt, c)
  | ExpectWatch =>
      match r.2 with
      | WatchResponse _ _ path =>
          match watches c !! path with
          | None => (Ok tt, c)
          | Some ws =>
              match fire_until ws r with
              | (l, true) => (Ok tt, set_watches (delete path (watches c)) (add_notes l c))
              | (l, false) => (Fault (Throw LOGICAL_ERROR), add_notes l c)
              end
          end
      | _ => (Fault UndefinedBehaviour, c)
      end
  | ExpectOperation i =>
      match callback i with
      | None => (Ok tt, c)
      | Some n => (if throws n then Fault (Throw LOGICAL_ERROR) else Ok tt, add_notes [Called n (info_xid i) r] c)
      end
  end.

(** A reader of the connection's input. *)
Definition from_input {A} (m : Reader A) : ClientM A := fun c => let '(r, rest) := m (input c) in (r, set_input rest c).

(** The [try] of [receiveEvent]: [before] bytes were there after the length. *)
Definition read_response (len before : Z) (err : Error) (ex : Expected) : ClientM ZooKeeperResponse :=
  (r <- from_input (read_body err ex) ;;
   set_watch ex r ;;;
   after <- sm_get (fun c => Z.of_nat (length (input c))) ;;
   if bool_decide (len = i32 (before - after)) then sm_ret r
   else sm_fault (Throw (KEEPER_EXCEPTION (Error_code ZMARSHALLINGERROR))))%sm.

(** With its [catch]. When the response cannot be read, its fields are not
    specified: the callback gets an empty one with the error. *)
Definition deliver (len before : Z) (err : Error) (ex : Expected) : ClientM unit := fun c =>
  match read_response len before err ex c with
  | (Ok r, c') => call_back ex r c'
  | (Fault (Throw e), c') => (Fault (Throw e), (call_back ex (set_error ZCONNECTIONLOSS (empty_response ex)) c').2)
  | (Fault f, c') => (Fault f, c')
  end.

Definition receiveEvent : ClientM unit :=
  (len <- from_input read_i32 ;;
   before <- sm_get (fun c => Z.of_nat (length (input c))) ;;
   header <- from_input (x <- read_i32 ;; zxid <- read_i64 ;; err <- read_Error ;; sm_ret (x, err)) ;;
   ex <- expect header.1 header.2 ;;
   deliver len before header.2 ex)%sm.

(** What [receiveThread] finds: its deadline has passed, [poll] is true, or it is
    false, when it may go on or throw. *)
Inductive Poll := PollDeadline | PollReady | PollNothing (throws : bool).

Definition receive_step (p : Poll) (c : Client) : option Client :=
  match receive_thread c with
  | RcLoop => Some (set_receive (if expired c then RcExited else RcPoll) c)
  | RcPoll =>
      match p with
      | PollDeadline | PollNothing true => Some (start_finalize ByReceiver c)
      | PollNothing false => Some (set_receive RcLoop c)
      | PollReady =>
          if expired c then Some (set_receive RcExited c)
          else
            match receiveEvent c with
            | (Ok _, c') => Some (set_receive RcLoop c')
            | (Fault (Throw _), c') => Some (start_finalize ByReceiver c')
            | (Fault _, _) => None
            end
      end
  | RcFinalize | RcExited => None
  end.

(** ** Runs *)

Inductive CEvent :=
| CCall (call : ApiCall) (callback : nat) (watch : option nat)
| CUserFinalize                (* finalize() and the destructor *)
| CSend (beat ok : bool)
| CReceive (p : Poll)
| CFinalize
| CInput (bs : bytes).         (* bytes arrive *)

Definition client_step (ev : CEvent) (c : Client) : option Client :=
  match ev with
  | CCall call cb w => Some (api_call call cb w c)
  | CUserFinalize => Some (start_finalize ByUser c)
  | CSend beat ok => send_step beat ok c
  | CReceive p => receive_step p c
  | CFinalize => finalize_step c
  | CInput bs => Some (set_input (input c ++ bs) c)
  end.

Fixpoint client_run (evs : list CEvent) (c : Client) : option Client :=
  match evs with
  | [] => Some c
  | ev :: evs' => c' ← client_step ev c; client_run evs' c'
  end.
End client.
