(* ===== verification/ClientTheorems.v ===== *)
(** * What the client promises its user

    Over all interleavings of the users, the two threads and [finalize] of
    [Client]: a callback is called exactly once, an operation whose bytes may have
    reached the server is not reported as not done, and [finalize] ends. *)

From S2P Require Import Prelude Coordination Paths Wire WireRequests WireResponses.
From S2P Require Import Sessions Connections Client.

(** ** What was promised and what was kept *)

(** A request of the user: its callback and its xid. *)
Definition tag (i : RequestInfo) : option (nat * Z) := (fun n => (n, info_xid i)) <$> callback i.

Definition returned (l : list Note) : list (nat * Z) :=
  omap (fun n => match n with Returned cb x _ => Some (cb, x) | _ => None end) l.
Definition told (l : list Note) : list (nat * Z) :=
  omap (fun n => match n with Called cb x _ | Failed cb x _ => Some (cb, x) | _ => None end) l.

(** The requests that wait: in the queue, and between the queue and [operations]. *)
Definition held (c : Client) : list RequestInfo :=
  match send_thread c with SPopped i => [i] | _ => [] end ++ requests_queue c.

Definition registered (c : Client) : list RequestInfo := (map_to_list (operations c)).*2.

Definition written_xids (c : Client) : list Z := (fun r => xid r.1) <$> written c.

Definition send_quiet (c : Client) : Prop := send_thread c = SExited \/ send_thread c = SFinalize.
Definition receive_quiet (c : Client) : Prop := receive_thread c = RcExited \/ receive_thread c = RcFinalize.

(** A request of the user that was not written yet, or the request to close. *)
Definition fresh (c : Client) (i : RequestInfo) : Prop :=
  i = close_info \/
  (1 <= info_xid i < next_xid c /\ operations c !! info_xid i = None /\ probably_sent i = false /\ info_xid i ∉ written_xids c).

(** The xids of the requests of the user. *)
Definition user_xids (l : list RequestInfo) : list Z := filter (fun x => x <> CLOSE_XID) (info_xid <$> l).

(** A request the sending thread works on, which [operations] may have lost to an
    answer. *)
Definition in_work (c : Client) (i : RequestInfo) : Prop :=
  (1 <= info_xid i < next_xid c \/ info_xid i = CLOSE_XID) /\
  (forall j, operations c !! info_xid i = Some j -> j = i) /\ info_xid i ∉ user_xids (held c).

(** The stages of [finalize]. *)
Definition stage (pc : FinalizePc) : nat :=
  match pc with
  | FClose => 0 | FJoinSend => 1 | FExpire => 2 | FShutdown => 3 | FJoinReceive => 4
  | FOperations => 5 | FWatches => 6 | FDrain => 7 | FDone => 8
  end.

Definition failed (l : list Note) : list (nat * Z * ZooKeeperResponse) :=
  omap (fun n => match n with Failed cb x r => Some (cb, x, r) | _ => None end) l.

Definition finalize_inv (c : Client) : Prop :=
  match finalizing c with
  | None => expired c = false /\ failed (notes c) = [] /\ ~ send_quiet c /\ ~ receive_quiet c
  | Some (who, pc) =>
      (who = BySender -> send_quiet c) /\ (who = ByReceiver -> receive_quiet c) /\
      ((2 <= stage pc)%nat -> send_quiet c) /\ ((3 <= stage pc)%nat -> expired c = true) /\
      ((5 <= stage pc)%nat -> receive_quiet c) /\ ((6 <= stage pc)%nat -> operations c = ∅) /\
      ((8 <= stage pc)%nat -> requests_queue c = []) /\ ((stage pc < 6)%nat -> failed (notes c) = [])
  end.

(** After [n] events. *)
Record client_inv (n : nat) (c : Client) : Prop := {
  ci_next : 1 <= next_xid c <= 1 + Z.of_nat n /\ next_xid c <= CLOSE_XID;
  ci_told : returned (notes c) ≡ₚ told (notes c) ++ omap tag (held c) ++ omap tag (registered c);
  ci_unique : NoDup (returned (notes c)).*2 /\ Forall (fun p => p.2 < next_xid c) (returned (notes c));
  ci_held : Forall (fresh c) (held c);
  ci_nodup : NoDup (user_xids (held c));
  ci_operations : map_Forall (fun x i => info_xid i = x /\ 1 <= x < next_xid c /\
    (probably_sent i = false -> x ∉ written_xids c)) (operations c);
  ci_work : match send_thread c with
            | SRegistered i => in_work c i
            | SMarked i => in_work c i /\ probably_sent i = true
            | _ => True
            end;
  ci_written : Forall (fun x => x < next_xid c \/ x = CLOSE_XID) (written_xids c);
  ci_failed : forall cb x r, (cb, x, r) ∈ failed (notes c) -> 1 <= x /\ (error r.1 = ZSESSIONEXPIRED -> x ∉ written_xids c);
  ci_finalize : finalize_inv c
}.

(** ** Notes *)

Lemma returned_app l l' : returned (l ++ l') = returned l ++ returned l'.
Proof. apply omap_app. Qed.
Lemma told_app l l' : told (l ++ l') = told l ++ told l'.
Proof. apply omap_app. Qed.
Lemma failed_app l l' : failed (l ++ l') = failed l ++ failed l'.
Proof. apply omap_app. Qed.

Create Rewrite HintDb notes.
#[export] Hint Rewrite returned_app told_app failed_app app_nil_r : notes.

Arguments returned : simpl never.
Arguments told : simpl never.
Arguments failed : simpl never.
Arguments held : simpl never.
Arguments registered : simpl never.
Arguments written_xids : simpl never.

Lemma client_inv_init : client_inv 0 client_init.
Proof.
  split; cbn; [done|done|split; constructor|done|constructor| |done|done| |].
  - by intros x i Hx%lookup_empty_Some.
  - intros ??? Hin%elem_of_nil. done.
  - split_and!; [done|done|by intros []|by intros []].
Qed.

(** ** Steps that move the threads only *)

Definition work_ok (c : Client) : Prop :=
  match send_thread c with
  | SRegistered i => in_work c i
  | SMarked i => in_work c i /\ probably_sent i = true
  | _ => True
  end.

Lemma client_inv_frame n c c' :
  client_inv n c -> next_xid c' = next_xid c ->
  returned (notes c') = returned (notes c) -> told (notes c') = told (notes c) -> failed (notes c') = failed (notes c) ->
  held c' = held c -> operations c' = operations c -> written c' = written c -> work_ok c' -> finalize_inv c' ->
  client_inv n c'.
Proof.
  intros [Hx Ht Hun Hh Hn Ho Hw Hwr Hf Hfin] Ex En1 En2 En3 Eh Eo Ew Hw' Hf'.
  split; unfold registered, written_xids; rewrite ?Ex, ?En1, ?En2, ?En3, ?Eh, ?Eo, ?Ew; try done.
  eapply Forall_impl; [done|]. intros i. unfold fresh, written_xids. by rewrite Ex, Eo, Ew.
Qed.

(** The sending thread holds no request that is not registered. *)
Definition no_popped (c : Client) : Prop := match send_thread c with SPopped _ => False | _ => True end.

Lemma start_finalize_inv n who c :
  client_inv n c -> (who = BySender -> no_popped c) -> client_inv n (start_finalize who c).
Proof.
  intros Hc Hs. pose proof (ci_finalize _ _ Hc) as Hfin. unfold finalize_inv in Hfin.
  assert (who = BySender -> held c = requests_queue c) as Eh.
  { intros E. specialize (Hs E). unfold no_popped, held in *. by destruct (send_thread c). }
  unfold start_finalize, send_quiet, receive_quiet in *.
  destruct (finalizing c) as [[w pc]|] eqn:Ef, who; try done; eapply (client_inv_frame n c _ Hc); try done;
    try (symmetry; by apply Eh); try apply (ci_work _ _ Hc); unfold finalize_inv, send_quiet, receive_quiet; cbn; rewrite ?Ef; try naive_solver lia.
Qed.

(** ** A step of [finalize] *)

Lemma omap_tag_close q : omap tag (q ++ [close_info]) = omap tag q.
Proof. rewrite omap_app. cbn. by rewrite app_nil_r. Qed.

Lemma registered_empty c : operations c = ∅ -> registered c = [].
Proof. intros E. unfold registered. by rewrite E, map_to_list_empty. Qed.

Lemma held_quiet c : send_quiet c -> held c = requests_queue c.
Proof. unfold held. by intros [->| ->]. Qed.

Lemma omap_lookup_fst (m : gmap Z RequestInfo) l :
  (forall p, p ∈ l -> m !! p.1 = Some p.2) -> omap (fun x => m !! x) l.*1 = l.*2.
Proof.
  induction l as [|[x i] l IH]; intros Hl; [done|]. cbn. pose proof (Hl (x, i) ltac:(by left)) as E. cbn in E. rewrite E. f_equal.
  apply IH. intros p Hp. apply Hl. by right.
Qed.

Lemma all_operations_perm (m : gmap Z RequestInfo) : all_operations m ≡ₚ (map_to_list m).*2.
Proof.
  unfold all_operations. rewrite <- (omap_lookup_fst m (map_to_list m)) by (by intros [x i] Hp%elem_of_map_to_list).
  apply omap_Permutation. rewrite sorted_keys_perm. apply NoDup_Permutation; [apply NoDup_elements|apply NoDup_fst_map_to_list|].
  intros x. rewrite elem_of_elements, elem_of_dom, list_elem_of_fmap. split.
  - intros [i Hi]. exists (x, i). split; [done|]. by apply elem_of_map_to_list.
  - intros ([x' i] & -> & Hi%elem_of_map_to_list). by exists i.
Qed.

Lemma told_fail_operations l : told (l ≫= fail_operation) = omap tag l.
Proof.
  induction l as [|i l IH]; [done|]. rewrite bind_cons, told_app, IH. unfold fail_operation, tag. cbn.
  by destruct (callback i).
Qed.

Lemma told_fail_queued l : told (l ≫= fail_queued) = omap tag l.
Proof.
  induction l as [|i l IH]; [done|]. rewrite bind_cons, told_app, IH. unfold fail_queued, tag. rewrite told_app. cbn.
  by destruct (callback i), (watch i).
Qed.

Lemma returned_fail_operations l : returned (l ≫= fail_operation) = [].
Proof. induction l as [|i l IH]; [done|]. rewrite bind_cons, returned_app, IH. unfold fail_operation. by destruct (callback i). Qed.

Lemma returned_fail_queued l : returned (l ≫= fail_queued) = [].
Proof.
  induction l as [|i l IH]; [done|]. rewrite bind_cons, returned_app, IH. unfold fail_queued. rewrite returned_app.
  by destruct (callback i), (watch i).
Qed.

(** What [finalize] reports of an operation, and of a request in the queue. *)
Lemma elem_of_failed_operations cb x r l : (cb, x, r) ∈ failed (l ≫= fail_operation) ->
  exists i, i ∈ l /\ callback i = Some cb /\ x = info_xid i /\ (error r.1 = ZSESSIONEXPIRED -> probably_sent i = false).
Proof.
  induction l as [|i l IH]; [by intros ?%elem_of_nil|]. rewrite bind_cons, failed_app, elem_of_app. intros [Hi|Hi].
  - unfold fail_operation in Hi. destruct (callback i) as [n|] eqn:E; [|by apply elem_of_nil in Hi].
    apply list_elem_of_singleton in Hi as [= -> -> ->]. exists i. split_and!; [by left|done|done|].
    cbn. by destruct (probably_sent i).
  - destruct (IH Hi) as (j & Hj & ?). exists j. split; [by right|done].
Qed.

Lemma elem_of_failed_queued cb x r l : (cb, x, r) ∈ failed (l ≫= fail_queued) ->
  exists i, i ∈ l /\ callback i = Some cb /\ x = info_xid i.
Proof.
  induction l as [|i l IH]; [by intros ?%elem_of_nil|]. rewrite bind_cons, failed_app, elem_of_app. intros [Hi|Hi].
  - unfold fail_queued in Hi. rewrite failed_app in Hi. exists i. split; [by left|].
    destruct (callback i) as [n|], (watch i); cbn in Hi;
      first [by apply elem_of_nil in Hi | apply list_elem_of_singleton in Hi as [= -> -> ->]; done].
  - destruct (IH Hi) as (j & Hj & ?). exists j. split; [by right|done].
Qed.

(** Requests leave [operations] and the queue by being reported. *)
Lemma fail_operations_inv n c :
  client_inv n c -> send_quiet c -> receive_quiet c -> expired c = true -> forall who,
  finalizing c = Some (who, FOperations) ->
  client_inv n (set_finalizing (Some (who, FWatches))
    (set_operations ∅ (add_notes (all_operations (operations c) ≫= fail_operation) c))).
Proof.
  intros [Hx Ht Hun Hh Hn Ho Hw Hwr Hf Hfin] Hsq Hrq Hexp who Efin.
  assert (work_ok c) as Hwk by (unfold work_ok; by destruct Hsq as [->| ->]).
  split; cbn; try done.
  - autorewrite with notes. rewrite told_fail_operations, returned_fail_operations, app_nil_r.
    rewrite Ht, (omap_Permutation _ _ _ (all_operations_perm (operations c))).
    rewrite <- app_assoc. apply Permutation_app_head, Permutation_app_comm.
  - autorewrite with notes. by rewrite returned_fail_operations, app_nil_r.
  - eapply Forall_impl; [exact Hh|]. intros i [->|(?&?&?&?)]; [by left|by right].
  - by destruct Hsq as [->| ->].
  - intros cb x r. rewrite failed_app, elem_of_app. intros [Hin|(i & Hi & Hcb & -> & Hs)%elem_of_failed_operations]; [by eapply Hf|].
    rewrite all_operations_perm in Hi. apply list_elem_of_fmap in Hi as ([x i'] & -> & Hi%elem_of_map_to_list).
    specialize (Ho x i' Hi) as (Ex & Hr & Hp). cbn in *. rewrite Ex. split; [lia|auto].
  - unfold finalize_inv. cbn. split_and!; try done; lia.
Qed.

Lemma drain_inv n c who pc f :
  client_inv n c -> finalizing c = Some (who, pc) -> (7 <= stage pc)%nat ->
  (f = id \/ f = set_send SExited \/ f = set_receive RcExited) ->
  client_inv n (set_finalizing (Some (who, FDone)) (f (set_queue [] (add_notes (requests_queue c ≫= fail_queued) c)))).
Proof.
  intros [Hx Ht Hun Hh Hn Ho Hw Hwr Hf Hfin] Efin Hpc Hff.
  unfold finalize_inv in Hfin. rewrite Efin in Hfin. destruct Hfin as (_&_&H1&H2&H3&H4&H5&H6).
  specialize (H1 ltac:(lia)) as Hsq. specialize (H2 ltac:(lia)). specialize (H3 ltac:(lia)) as Hrq. specialize (H4 ltac:(lia)).
  rewrite (held_quiet c Hsq) in *.
  set (c0 := set_queue [] (add_notes (requests_queue c ≫= fail_queued) c)).
  assert (forall c', next_xid c' = next_xid c -> notes c' = notes c0 -> requests_queue c' = [] -> operations c' = ∅ ->
    written c' = written c -> send_quiet c' -> receive_quiet c' -> expired c' = true ->
    finalizing c' = Some (who, FDone) -> client_inv n c') as Hgen.
  { intros c' E1 E2 E3 E4 E5 Hs' Hr' E6 E7. split.
    - by rewrite E1.
    - rewrite E2. unfold c0. cbn. autorewrite with notes. rewrite told_fail_queued, returned_fail_queued, app_nil_r.
      rewrite (held_quiet c' Hs'), E3, (registered_empty c'), Ht, (registered_empty c) by done. cbn. by rewrite !app_nil_r.
    - rewrite E1, E2. unfold c0. cbn. autorewrite with notes. by rewrite returned_fail_queued, app_nil_r.
    - by rewrite (held_quiet c' Hs'), E3.
    - rewrite (held_quiet c' Hs'), E3. constructor.
    - rewrite E4. apply map_Forall_empty.
    - by destruct Hs' as [->| ->].
    - unfold written_xids. by rewrite E1, E5.
    - intros cb x r. unfold written_xids. rewrite E2, E5. unfold c0. cbn. rewrite failed_app, elem_of_app.
      intros [Hin|(i & Hi & Hcb & ->)%elem_of_failed_queued]; [by eapply Hf|].
      rewrite Forall_forall in Hh. destruct (Hh i Hi) as [->|(?&?&?&?)]; [done|]. split; [lia|done].
    - unfold finalize_inv. rewrite E7. cbn. split_and!; try done; lia. }
  destruct Hff as [->|[->| ->]]; apply Hgen; try done; unfold send_quiet, receive_quiet in *; cbn; auto.
Qed.

(** A request joins the end of the queue. *)
Lemma held_snoc c q i : requests_queue c = q -> held (set_queue (q ++ [i]) c) = held c ++ [i].
Proof. intros <-. unfold held. cbn. by rewrite app_assoc. Qed.

Lemma user_xids_app l l' : user_xids (l ++ l') = user_xids l ++ user_xids l'.
Proof. unfold user_xids. by rewrite fmap_app, filter_app. Qed.

Lemma push_close_inv n c who :
  client_inv n c -> finalizing c = Some (who, FClose) ->
  client_inv n (set_finalizing (Some (who, FJoinSend)) (set_queue (requests_queue c ++ [close_info]) c)).
Proof.
  intros [Hx Ht Hun Hh Hn Ho Hw Hwr Hf Hfin] Efin. pose proof (held_snoc c _ close_info eq_refl) as Eh.
  unfold finalize_inv in Hfin. rewrite Efin in Hfin. cbn in Hfin. set (c' := set_finalizing _ _).
  assert (held c' = held c ++ [close_info]) as Eh' by exact Eh.
  assert (user_xids (held c') = user_xids (held c)) as Eu by (rewrite Eh', user_xids_app; apply app_nil_r).
  split; try done.
  - rewrite Eh', omap_tag_close. exact Ht.
  - rewrite Eh'. apply Forall_app. split; [exact Hh|]. apply Forall_singleton. by left.
  - by rewrite Eu.
  - change (send_thread c') with (send_thread c). unfold in_work. by rewrite Eu.
  - unfold finalize_inv. cbn. naive_solver lia.
Qed.

Lemma notes_of_fired ws r : let l := (fun w => Fired w r) <$> ws in returned l = [] /\ told l = [] /\ failed l = [].
Proof. induction ws as [|w ws IH]; [done|]. exact IH. Qed.

Section steps.
Context `{IterOrder} (root_path : string) (default_acls : list ACL) (throws : nat -> bool).

Lemma finalize_step_inv n c c' : client_inv n c -> finalize_step c = Some c' -> client_inv n c'.
Proof.
  intros Hc. pose proof (ci_finalize _ _ Hc) as Hfin. unfold finalize_step, finalize_inv in *.
  destruct (finalizing c) as [[who pc]|] eqn:Efin; [|done].
  assert (forall pc' c1, client_inv n c -> c1 = c \/ c1 = set_expired c ->
    finalize_inv (set_finalizing (Some (who, pc')) c1) -> client_inv n (set_finalizing (Some (who, pc')) c1)) as Hmove.
  { intros pc' c1 _ Hc1 Hf1. apply (client_inv_frame n c); try done; destruct Hc1 as [->| ->]; try done; apply (ci_work _ _ Hc). }
  destruct pc; cbn in Hfin.
  - case_match; intros [= <-]; [by apply push_close_inv|]. apply Hmove; auto. unfold finalize_inv. cbn. naive_solver lia.
  - case_decide as Hs; intros [= <-]. apply Hmove; auto. unfold finalize_inv, send_quiet in *. cbn. naive_solver lia.
  - intros [= <-]. apply Hmove; auto. unfold finalize_inv. cbn. naive_solver lia.
  - intros [= <-]. apply Hmove; auto. unfold finalize_inv. cbn. case_decide; cbn; naive_solver lia.
  - case_decide as Hs; intros [= <-]. apply Hmove; auto. unfold finalize_inv, receive_quiet in *. cbn. naive_solver lia.
  - intros [= <-]. apply fail_operations_inv; naive_solver lia.
  - intros [= <-]. pose proof (notes_of_fired (all_watches (watches c)) session_expired_event) as (E1 & E2 & E3).
    apply (client_inv_frame n c); try done; cbn; autorewrite with notes; rewrite ?E1, ?E2, ?E3, ?app_nil_r; try done;
      [apply (ci_work _ _ Hc)|]. unfold finalize_inv. cbn. naive_solver lia.
  - intros [= <-]. eapply drain_inv; [done|exact Efin|cbn; lia|]. destruct who; auto.
  - done.
Qed.

Lemma client_inv_weaken n c : client_inv n c -> client_inv (S n) c.
Proof. intros []. split; try done. lia. Qed.

Lemma fresh_bound n c i : client_inv n c -> fresh c i -> info_xid i <> CLOSE_XID -> 1 <= info_xid i < next_xid c.
Proof. intros Hc [->|(?&?)] Hne; [done|lia]. Qed.

Lemma user_xids_bound n c x : client_inv n c -> x ∈ user_xids (held c) -> 1 <= x < next_xid c.
Proof.
  intros Hc [Hne Hx]%list_elem_of_filter. apply list_elem_of_fmap in Hx as (i & -> & Hi).
  eapply fresh_bound; [done| |done]. pose proof (ci_held _ _ Hc) as Hh. rewrite Forall_forall in Hh. auto.
Qed.

(** A request is accepted. *)
Lemma push_inv n c b h cb w :
  client_inv n c -> 1 + Z.of_nat n < CLOSE_XID -> expired c = false ->
  let x := next_xid c in
  client_inv (S n) (add_notes [Returned cb x w]
    (set_queue (requests_queue c ++ [mkRequestInfo (mkRequestHeader x h, b) false (Some cb) w]) (set_next_xid (i32 (x + 1)) c))).
Proof.
  intros Hc Hn Hexp x. pose proof Hc as [Hx Ht Hun Hh Hnd Ho Hw Hwr Hf Hfin]. set (i := mkRequestInfo _ _ _ _).
  assert (i32 (x + 1) = x + 1) as Ex. { apply i32_id. unfold CLOSE_XID in *. unfold in_i32. subst x. lia. }
  set (c' := add_notes _ _).
  assert (held c' = held c ++ [i]) as Eh by (unfold held; cbn; by rewrite app_assoc).
  assert (next_xid c' = x + 1) as Enx by exact Ex.
  assert (user_xids (held c') = user_xids (held c) ++ [x]) as Eu.
  { rewrite Eh, user_xids_app. f_equal. unfold user_xids, i. cbn. rewrite decide_True; [done|]. unfold info_xid. cbn.
    unfold CLOSE_XID in *. subst x. lia. }
  assert (x ∉ written_xids c) as Hnw.
  { rewrite Forall_forall in Hwr. intros [?| ?]%Hwr; [lia|]. unfold CLOSE_XID in *. subst x. lia. }
  split.
  - rewrite Enx. subst x. lia.
  - change (notes c') with (notes c ++ [Returned cb x w]). autorewrite with notes. rewrite Ht, Eh, omap_app.
    change (registered c') with (registered c). cbn. rewrite <- !app_assoc. apply Permutation_app_head, Permutation_app_head.
    apply Permutation_app_comm.
  - change (notes c') with (notes c ++ [Returned cb x w]). rewrite returned_app, fmap_app, Enx. split.
    + apply NoDup_app. split_and!; [apply Hun| |apply NoDup_singleton]. intros y Hy ->%list_elem_of_singleton.
      apply list_elem_of_fmap in Hy as (p & Ep & Hp). destruct Hun as [_ Hlt]. rewrite Forall_forall in Hlt.
      specialize (Hlt p Hp). cbn beta in Hlt. rewrite <- Ep in Hlt. subst x. cbn in Hlt. lia.
    + apply Forall_app. split; [|apply Forall_cons; split; [subst x; cbn; lia|done]]. eapply Forall_impl; [apply Hun|]. cbn. subst x. lia.
  - rewrite Eh. apply Forall_app. split.
    + eapply Forall_impl; [exact Hh|]. intros j [->|(?&?&?&?)]; [by left|right]. rewrite Enx. split_and!; try done; subst x; lia.
    + apply Forall_singleton. right. rewrite Enx. split_and!; try done; cbn; [subst x; lia|lia|].
      destruct (operations c !! x) as [j|] eqn:Ej; [|done]. destruct (Ho x j Ej) as (?&?&?). subst x. lia.
  - rewrite Eu. apply NoDup_app. split_and!; [done| |apply NoDup_singleton].
    intros y Hy%(user_xids_bound n c _ Hc) ->%list_elem_of_singleton. subst x. lia.
  - rewrite Enx. eapply map_Forall_impl; [exact Ho|]. cbn. intros y j (?&?&?). split_and!; try done; subst x; lia.
  - change (send_thread c') with (send_thread c). destruct (send_thread c); try done; unfold in_work in *; rewrite Eu, Enx;
      change (operations c') with (operations c); rewrite not_elem_of_app, list_elem_of_singleton; subst x;
      unfold CLOSE_XID in *; naive_solver lia.
  - rewrite Enx. eapply Forall_impl; [exact Hwr|]. cbn. subst x. lia.
  - change (notes c') with (notes c ++ [Returned cb x w]). autorewrite with notes. exact Hf.
  - unfold finalize_inv in *. change (finalizing c') with (finalizing c). destruct (finalizing c) as [[who pc]|].
    + change (notes c') with (notes c ++ [Returned cb x w]). autorewrite with notes. cbn. rewrite Hexp in *. naive_solver lia.
    + change (notes c') with (notes c ++ [Returned cb x w]). by autorewrite with notes.
Qed.

Lemma next_xid_inv n c : client_inv n c -> 1 + Z.of_nat n < CLOSE_XID ->
  client_inv (S n) (set_next_xid (i32 (next_xid c + 1)) c).
Proof.
  intros [Hx Ht Hun Hh Hnd Ho Hw Hwr Hf Hfin] Hn. set (c' := set_next_xid _ _).
  assert (next_xid c' = next_xid c + 1) as Ex. { apply i32_id. unfold CLOSE_XID in *. unfold in_i32. lia. }
  split; try done.
  - rewrite Ex. lia.
  - rewrite Ex. split; [apply Hun|]. eapply Forall_impl; [apply Hun|]. cbn. lia.
  - eapply Forall_impl; [exact Hh|]. intros j [->|(?&?&?&?)]; [by left|right]. rewrite Ex. split_and!; try done; lia.
  - rewrite Ex. eapply map_Forall_impl; [exact Ho|]. cbn. intros y j (?&?&?). split_and!; try done; lia.
  - change (send_thread c') with (send_thread c). unfold in_work in *. rewrite Ex. change (held c') with (held c).
    change (operations c') with (operations c). destruct (send_thread c); try done; naive_solver lia.
  - rewrite Ex. eapply Forall_impl; [exact Hwr|]. cbn. lia.
Qed.

Lemma add_threw_inv n c cb : client_inv n c -> client_inv n (add_notes [Threw cb] c).
Proof.
  intros Hc. apply (client_inv_frame n c); try done; cbn; autorewrite with notes; try done; [apply (ci_work _ _ Hc)|].
  pose proof (ci_finalize _ _ Hc) as Hf. unfold finalize_inv in *. cbn. by autorewrite with notes.
Qed.

Lemma api_call_inv n call cb w c :
  client_inv n c -> 1 + Z.of_nat n < CLOSE_XID -> client_inv (S n) (api_call default_acls call cb w c).
Proof.
  intros Hc Hn. unfold api_call. destruct (api_request default_acls call) as [b|f]; [|by apply add_threw_inv, client_inv_weaken].
  pose proof (ci_next _ _ Hc). unfold pushRequest. cbn [callback watch info_request].
  rewrite bool_decide_false by lia. rewrite (proj2 (Z.ltb_ge _ 0)) by lia.
  assert (client_inv (S n) (start_finalize ByUser (set_next_xid (i32 (next_xid c + 1)) c))) as Hfail
    by (by apply start_finalize_inv; [apply next_xid_inv|]).
  change (expired (set_next_xid _ c)) with (expired c). change (requests_queue (set_next_xid _ c)) with (requests_queue c).
  destruct (expired c) eqn:Eexp; [by apply add_threw_inv|].
  destruct (_ <? _)%nat; [|by apply add_threw_inv]. cbn [has_watch]. by apply push_inv.
Qed.

(** ** The sending thread *)

Lemma set_send_inv n c pc :
  client_inv n c -> no_popped c -> (forall i, pc <> SPopped i) -> work_ok (set_send pc c) ->
  (send_quiet c -> send_quiet (set_send pc c)) -> (send_quiet (set_send pc c) -> finalizing c <> None \/ send_quiet c) ->
  client_inv n (set_send pc c).
Proof.
  intros Hc Hp Hpc Hw Hq Hq'. apply (client_inv_frame n c); try done.
  - unfold held, no_popped in *. cbn. destruct pc; try (exfalso; by eapply Hpc); by destruct (send_thread c).
  - pose proof (ci_finalize _ _ Hc) as Hf. unfold finalize_inv in *. cbn. destruct (finalizing c) as [[who fpc]|]; naive_solver.
Qed.

Lemma add_written_inv n c r :
  client_inv n c -> let y := xid r.1 in
  (y < next_xid c \/ y = CLOSE_XID) -> y ∉ user_xids (held c) ->
  (forall i, operations c !! y = Some i -> probably_sent i = true) -> y < 1 \/ failed (notes c) = [] ->
  client_inv n (add_written r c).
Proof.
  intros [Hx Ht Hun Hh Hnd Ho Hw Hwr Hf Hfin] y Hy Hyh Hyo Hyf. set (c' := add_written r c).
  assert (written_xids c' = written_xids c ++ [y]) as Ew by (unfold written_xids; cbn; by rewrite fmap_app).
  split; try done.
  - rewrite Forall_forall in Hh |- *. intros j Hj. destruct (Hh j Hj) as [->|(Hj1&Hj2&Hj3&Hj4)]; [by left|right].
    split; [exact Hj1|]. split; [exact Hj2|]. split; [exact Hj3|].
    rewrite Ew, not_elem_of_app, list_elem_of_singleton. split; [done|]. intros <-. destruct Hyh.
    apply list_elem_of_filter. split; [lia|by apply list_elem_of_fmap_2].
  - intros z j Hj. destruct (Ho z j Hj) as (Hz1&Hz2&Hz). split; [exact Hz1|]. split; [exact Hz2|].
    intros Hs. rewrite Ew, not_elem_of_app, list_elem_of_singleton. split; [auto|]. intros ->. by rewrite (Hyo j Hj) in Hs.
  - rewrite Ew. apply Forall_app. split; [exact Hwr|]. by apply Forall_singleton.
  - intros cb x q Hin. destruct (Hf cb x q Hin) as [? Hq]. split; [done|]. intros He.
    rewrite Ew, not_elem_of_app, list_elem_of_singleton. split; [auto|]. destruct Hyf as [?|Ef]; [lia|].
    change (notes c') with (notes c) in Hin. rewrite Ef in Hin. by apply elem_of_nil in Hin.
Qed.

(** While the sending thread works, [finalize] has not passed it. *)
Lemma finalize_inv_active c c' :
  finalize_inv c -> ~ send_quiet c -> ~ send_quiet c' -> finalizing c' = finalizing c -> expired c' = expired c ->
  failed (notes c') = failed (notes c) -> receive_thread c' = receive_thread c -> finalize_inv c'.
Proof.
  unfold finalize_inv. intros Hf Hq Hq' -> -> -> Er. assert (receive_quiet c' <-> receive_quiet c) as Hr by (unfold receive_quiet; by rewrite Er).
  destruct (finalizing c) as [[who pc]|]; [|naive_solver]. destruct Hf as (F1&F2&F3&F4&F5&F6&F7&F8).
  assert (stage pc < 2)%nat as Hst. { destruct (decide (2 <= stage pc)%nat) as [E|E]; [by destruct (Hq (F3 E))|lia]. }
  split_and!; try (intros; lia); naive_solver.
Qed.

(** ** Tags of the operations *)

Definition tags (m : gmap Z RequestInfo) : list (nat * Z) := omap tag (map_to_list m).*2.

Lemma tags_insert x i m : m !! x = None -> tags (<[x := i]> m) ≡ₚ option_list (tag i) ++ tags m.
Proof.
  intros Hx. unfold tags. rewrite map_to_list_insert by done. cbn. by destruct (tag i).
Qed.

Lemma tags_delete x i m : m !! x = Some i -> tags m ≡ₚ option_list (tag i) ++ tags (delete x m).
Proof. intros Hx. rewrite <- (insert_delete_id m x i Hx) at 1. apply tags_insert, lookup_delete_eq. Qed.

Lemma tags_alter x i i' m :
  (forall j, m !! x = Some j -> j = i) -> tag i' = tag i -> tags (alter (fun _ => i') x m) ≡ₚ tags m.
Proof.
  intros Hx Et. destruct (m !! x) as [j|] eqn:E.
  - rewrite (Hx j eq_refl) in E. rewrite (tags_delete x i' (alter _ x m)) by (by rewrite lookup_alter_eq, E).
    rewrite delete_alter_eq, Et. symmetry. by apply tags_delete.
  - by rewrite alter_id by (by rewrite E).
Qed.

(** The entry of a request in [operations] is the request. *)
Lemma update_request_inv n c i i' :
  client_inv n c -> in_work c i -> info_xid i' = info_xid i -> callback i' = callback i ->
  (probably_sent i' = false -> probably_sent i = false) -> no_popped c -> ~ send_quiet c ->
  forall pc, (pc = SRegistered i' \/ pc = SMarked i' /\ probably_sent i' = true) ->
  client_inv n (set_send pc (update_request i' c)).
Proof.
  intros Hc (Hb & Hi & Hni) Ex Ec Hs Hp Hq pc Hpc. destruct Hc as [Hx Ht Hun Hh Hnd Ho Hw Hwr Hf Hfin].
  set (c' := set_send pc (update_request i' c)).
  assert (operations c' = alter (fun _ => i') (info_xid i) (operations c)) as Eo by (unfold c', update_request; cbn; by rewrite Ex).
  assert (held c' = held c) as Eh by (unfold held, no_popped in *; cbn; destruct Hpc as [->|[-> _]]; by destruct (send_thread c)).
  assert (in_work c' i') as Hw'.
  { unfold in_work. rewrite Ex, Eo, Eh. split; [exact Hb|]. split; [|exact Hni]. intros j. rewrite lookup_alter_eq.
    destruct (operations c !! info_xid i); [by intros [= <-]|done]. }
  split; try done.
  - rewrite Eh. change (notes c') with (notes c). rewrite Ht. do 2 f_equiv. change (omap tag (registered ?c)) with (tags (operations c)).
    rewrite Eo. symmetry. apply (tags_alter _ i); [done|]. unfold tag. by rewrite Ec, Ex.
  - rewrite Eh. eapply Forall_impl; [exact Hh|]. intros j [->|(Hj1&Hj2&Hj3&Hj4)]; [by left|right].
    split; [exact Hj1|]. split; [rewrite Eo; by apply lookup_alter_None|done].
  - by rewrite Eh.
  - rewrite Eo. intros z j. rewrite lookup_alter_Some. intros [(<- & k & Hk & ->)|[Hne Hj]]; [|by apply Ho].
    destruct (Ho _ _ Hk) as (?&?&?). split; [done|]. split; [done|]. rewrite (Hi k Hk) in *. auto.
  - cbn. by destruct Hpc as [->|[-> ?]].
  - eapply (finalize_inv_active c); try done. unfold send_quiet. by destruct Hpc as [->|[-> _]]; intros [].
Qed.

(** A request of the user enters [operations]. *)
Lemma register_user n c i q :
  client_inv n c -> send_thread c = SPopped i -> requests_queue c = q -> info_xid i <> CLOSE_XID ->
  client_inv n (set_send (SRegistered i) (set_operations (<[info_xid i := i]> (operations c)) c)).
Proof.
  intros [Hx Ht Hun Hh Hnd Ho Hw Hwr Hf Hfin] Es Eq Hne. set (c' := set_send _ _).
  assert (held c = i :: q) as Ehc by (unfold held; by rewrite Es, Eq).
  assert (held c' = q) as Eh by (unfold held; cbn; done).
  rewrite Ehc in *. apply Forall_cons in Hh as [[->|(Hi1&Hi2&Hi3&Hi4)] Hh]; [done|].
  unfold user_xids in Hnd. rewrite fmap_cons, filter_cons_True in Hnd by done. apply NoDup_cons in Hnd as [Hni Hnd].
  split; try done.
  - rewrite Eh. change (notes c') with (notes c). rewrite Ht. change (omap tag (registered ?c)) with (tags (operations c)). cbn [operations c' set_send set_operations].
    rewrite tags_insert by done. change (tags (operations c)) with (omap tag (registered c)).
    f_equiv. cbn [omap list_omap]. destruct (tag i); cbn; [|done]. by rewrite Permutation_middle.
  - rewrite Eh. rewrite Forall_forall in Hh |- *. intros j Hj. destruct (Hh j Hj) as [->|(Hj1&Hj2&Hj3&Hj4)]; [by left|right].
    split; [exact Hj1|]. split; [|done]. cbn. rewrite lookup_insert_ne; [done|]. intros E. destruct Hni.
    apply list_elem_of_filter. split; [done|]. rewrite E. by apply list_elem_of_fmap_2.
  - by rewrite Eh.
  - cbn. apply map_Forall_insert_2; [|exact Ho]. done.
  - cbn. unfold in_work. rewrite Eh. split; [by left|]. split; [|done]. intros j. cbn. rewrite lookup_insert_eq. by intros [= <-].
  - eapply (finalize_inv_active c); try done; unfold send_quiet; rewrite ?Es; by intros [].
Qed.

Lemma register_close n c q :
  client_inv n c -> send_thread c = SPopped close_info -> requests_queue c = q -> client_inv n (set_send (SRegistered close_info) c).
Proof.
  intros [Hx Ht Hun Hh Hnd Ho Hw Hwr Hf Hfin] Es Eq. set (c' := set_send _ _).
  assert (held c = close_info :: q) as Ehc by (unfold held; by rewrite Es, Eq).
  assert (held c' = q) as Eh by (unfold held; cbn; done).
  rewrite Ehc in *. apply Forall_cons in Hh as [_ Hh]. split; try done; rewrite ?Eh; try done.
  - cbn. unfold in_work. rewrite Eh. split; [by right|]. split; [|by intros [? _]%list_elem_of_filter].
    intros j Hj. destruct (Ho _ _ Hj) as (?&?&?). cbn in *. lia.
  - eapply (finalize_inv_active c); try done; unfold send_quiet; rewrite ?Es; by intros [].
Qed.

Lemma register_inv n c i : client_inv n c -> send_thread c = SPopped i -> client_inv n (register i c).
Proof.
  intros Hc Es. unfold register. case_bool_decide as Hx.
  - assert (i = close_info) as ->.
    { pose proof (ci_held _ _ Hc) as Hh. unfold held in Hh. rewrite Es in Hh. apply Forall_cons in Hh as [[->|(?&_)] _]; [done|].
      pose proof (ci_next _ _ Hc). lia. }
    by eapply register_close.
  - pose proof (register_user n c i _ Hc Es eq_refl Hx) as Hr.
    destruct (watch i) as [w|]; [|exact Hr].
    apply (update_request_inv n (set_send (SRegistered i) (set_operations (<[info_xid i := i]> (operations c)) c)) i
             (mkRequestInfo (mkRequestHeader (info_xid i) true, (info_request i).2) (probably_sent i) (callback i) (Some w))); try done.
    + apply (ci_work _ _ Hr).
    + by intros [].
    + by left.
Qed.

Lemma mark_sent_inv n c i : client_inv n c -> send_thread c = SRegistered i -> client_inv n (mark_sent root_path i c).
Proof.
  intros Hc Es. pose proof (ci_work _ _ Hc) as Hw. rewrite Es in Hw. unfold mark_sent.
  assert (no_popped c) as Hp by (unfold no_popped; by rewrite Es).
  destruct (addRootPath _ _) as [b|f]; [|by apply start_finalize_inv].
  apply (update_request_inv n c i); try done; [unfold send_quiet; rewrite Es; by intros []|]. by right.
Qed.

(** Nothing was reported while the sending thread works. *)
Lemma active_not_failed n c : client_inv n c -> ~ send_quiet c -> failed (notes c) = [].
Proof.
  intros Hc Hq. pose proof (ci_finalize _ _ Hc) as Hf. unfold finalize_inv in Hf. destruct (finalizing c) as [[who pc]|]; [|by apply Hf].
  destruct Hf as (F1&F2&F3&F4&F5&F6&F7&F8). apply F8. destruct (decide (2 <= stage pc)%nat) as [E|E]; [by destruct (Hq (F3 E))|lia].
Qed.

Lemma leave_loop_inv n c : client_inv n c -> no_popped c -> ~ send_quiet c -> finalizing c <> None -> client_inv n (set_send SExited c).
Proof. intros Hc Hp Hq Hf. apply set_send_inv; try done. by left. Qed.

(** A request to close in the hands of the sending thread was put there by
    [finalize]. *)
Definition close_only_finalizing (c : Client) : Prop :=
  finalizing c = None ->
  Forall (fun i => info_xid i <> CLOSE_XID) (held c) /\
  match send_thread c with SRegistered i | SMarked i => info_xid i <> CLOSE_XID | _ => True end.

Lemma write_request_inv n c ok i :
  client_inv n c -> close_only_finalizing c -> send_thread c = SMarked i -> client_inv n (write_request ok i c).
Proof.
  intros Hc Hcl Es. pose proof (ci_work _ _ Hc) as Hw. rewrite Es in Hw. destruct Hw as [(Hb & Hi & Hni) Hps].
  assert (no_popped c) as Hp by (unfold no_popped; by rewrite Es).
  assert (~ send_quiet c) as Hq by (unfold send_quiet; rewrite Es; by intros []).
  assert (client_inv n (add_written (info_request i) c)) as Hwr.
  { apply add_written_inv; try done; [unfold info_xid in *; lia| |right; by eapply active_not_failed].
    intros j Hj. by rewrite (Hi j Hj). }
  unfold write_request. destruct ok; [|by apply start_finalize_inv].
  case_bool_decide as Hx.
  - apply leave_loop_inv; try done. cbn. intros E. specialize (Hcl E) as [_ Hcl]. by rewrite Es in Hcl.
  - apply set_send_inv; try done. by intros [].
Qed.

Lemma send_step_inv n beat ok c c' :
  client_inv n c -> close_only_finalizing c -> send_step root_path beat ok c = Some c' -> client_inv n c'.
Proof.
  intros Hc Hcl. unfold send_step. pose proof (ci_finalize _ _ Hc) as Hf.
  assert (expired c = true -> finalizing c <> None) as Hexp.
  { intros Ee E. unfold finalize_inv in Hf. rewrite E, Ee in Hf. by destruct Hf. }
  destruct (send_thread c) eqn:Es; try done.
  all: assert (~ send_quiet c) as Hq by (unfold send_quiet; rewrite Es; by intros []).
  all: assert (no_popped c \/ exists i, send_thread c = SPopped i) as Hp by (unfold no_popped; rewrite Es; naive_solver).
  all: destruct Hp as [Hp|[? ?]]; [|try congruence].
  - intros [= <-]. destruct (expired c) eqn:Ee; [apply leave_loop_inv; auto|]. apply set_send_inv; try done. by intros [].
  - destruct beat.
    + assert (client_inv n (add_written heartbeat c)) as Hb.
      { apply add_written_inv; try done; cbn; [pose proof (ci_next _ _ Hc); lia| | |by left].
        - intros Hin%(user_xids_bound n c _ Hc). lia.
        - intros i Hi. destruct (ci_operations _ _ Hc _ _ Hi) as (?&?&?). lia. }
      intros [= <-]. destruct ok; [|by apply start_finalize_inv]. apply set_send_inv; try done. by intros [].
    + destruct (requests_queue c) as [|i q] eqn:Eq; intros [= <-].
      * apply set_send_inv; try done. by intros [].
      * apply (client_inv_frame n c); try done; [unfold held; cbn; by rewrite Es, Eq|].
        eapply (finalize_inv_active c); try done. by intros [].
  - unfold no_popped in Hp. by rewrite Es in Hp.
  - intros [= <-]. by apply register_inv.
  - intros [= <-]. destruct (expired c) eqn:Ee; [apply leave_loop_inv; auto|by apply mark_sent_inv].
  - intros [= <-]. by apply write_request_inv.
Qed.

(** ** The receiving thread *)

(** What an event may change, but for the notes. *)
Record same_but_input (c c' : Client) : Prop := {
  sb_next : next_xid c' = next_xid c;
  sb_expired : expired c' = expired c;
  sb_finalizing : finalizing c' = finalizing c;
  sb_queue : requests_queue c' = requests_queue c;
  sb_written : written c' = written c;
  sb_send : send_thread c' = send_thread c;
  sb_receive : receive_thread c' = receive_thread c
}.

#[local] Instance same_refl : Reflexive same_but_input.
Proof. by split. Qed.
#[local] Instance same_trans : Transitive same_but_input.
Proof. intros c1 c2 c3 [] []. split; congruence. Qed.

(** Watches are called, and at most one callback: that of the operation taken. *)
Definition notes_for (ex : option RequestInfo) (l : list Note) : Prop :=
  returned l = [] /\ failed l = [] /\ told l = option_list (ex ≫= tag).

Definition taken (ex : Expected) : option RequestInfo := match ex with ExpectOperation i => Some i | _ => None end.

Lemma fire_until_notes ws r : notes_for None (fire_until throws ws r).1.
Proof.
  induction ws as [|w ws IH]; [done|]. cbn. destruct (throws w); [done|]. by destruct (fire_until throws ws r).
Qed.

Lemma call_back_effect ex r c res c' : call_back throws ex r c = (res, c') ->
  same_but_input c c' /\ operations c' = operations c /\ exists l, notes c' = notes c ++ l /\ notes_for (taken ex) l.
Proof.
  assert (forall c, same_but_input c c /\ operations c = operations c /\
    exists l, notes c = notes c ++ l /\ notes_for None l) as Hid by (intros c0; split_and!; try done; exists []; by rewrite app_nil_r).
  unfold call_back. destruct ex as [| |i]; cbn [taken].
  - intros [= _ <-]. apply Hid.
  - destruct r.2; try (intros [= _ <-]; apply Hid). destruct (watches c !! path) as [ws|]; [|intros [= _ <-]; apply Hid].
    pose proof (fire_until_notes ws r) as Hl. destruct (fire_until throws ws r) as [l []]; intros [= _ <-];
      (split; [done|]; split; [done|]; by exists l).
  - unfold notes_for. cbn. unfold tag. destruct (callback i) as [n|]; [|intros [= _ <-]; apply Hid].
    intros [= _ <-]. split; [done|]. split; [done|]. by eexists.
Qed.

Lemma from_input_effect {A} (m : Reader A) c res c' : from_input m c = (res, c') -> c' = set_input (input c') c.
Proof. unfold from_input. destruct (m (input c)). by intros [= _ <-]. Qed.

Lemma set_watch_effect ex r c res c' : set_watch root_path ex r c = (res, c') -> c' = set_watches (watches c') c.
Proof.
  unfold set_watch. destruct ex as [| |i]; [by intros [= _ <-]; destruct c..|]. destruct (watch i); [|by intros [= _ <-]; destruct c].
  destruct (wants_watch i r); [|by intros [= _ <-]; destruct c]. destruct (remove_root _ _); intros [= _ <-]; by destruct c.
Qed.

Definition event_effect (c c' : Client) : Prop :=
  same_but_input c c' /\ exists ex l, notes c' = notes c ++ l /\ notes_for ex l /\
  match ex with
  | None => operations c' = operations c
  | Some i => exists x, operations c !! x = Some i /\ operations c' = delete x (operations c)
  end.

Lemma expect_effect x err c res c' : expect x err c = (res, c') ->
  same_but_input c c' /\ notes c' = notes c /\
  match res with
  | Ok (ExpectOperation i) => operations c !! x = Some i /\ operations c' = delete x (operations c)
  | _ => operations c' = operations c
  end.
Proof.
  unfold expect. case_bool_decide; [case_bool_decide; by intros [= <- <-]|]. case_bool_decide; [by intros [= <- <-]|].
  destruct (negb _); [by intros [= <- <-]|]. cbn. destruct (operations c !! x) eqn:E; by intros [= <- <-].
Qed.

Lemma read_response_effect len before err ex c res c' : read_response root_path len before err ex c = (res, c') ->
  same_but_input c c' /\ notes c' = notes c /\ operations c' = operations c.
Proof.
  unfold read_response. cbn [sm_bind sm_get].
  destruct (from_input _ c) as [[r|f] c1] eqn:E1; apply from_input_effect in E1; [|intros [= _ <-]; by rewrite E1].
  destruct (set_watch root_path ex r c1) as [[[]|f] c2] eqn:E2; apply set_watch_effect in E2; [|intros [= _ <-]; by rewrite E2, E1].
  case_bool_decide; intros [= _ <-]; by rewrite E2, E1.
Qed.

Lemma deliver_effect len before err ex c res c' :
  deliver root_path throws len before err ex c = (res, c') -> (forall f, res = Fault f -> exists e, f = Throw e) ->
  same_but_input c c' /\ operations c' = operations c /\ exists l, notes c' = notes c ++ l /\ notes_for (taken ex) l.
Proof.
  unfold deliver. destruct (read_response _ _ _ _ _ c) as [r1 c1] eqn:E1. apply read_response_effect in E1 as (Hs & Hn & Ho).
  assert (forall r res2 c2, call_back throws ex r c1 = (res2, c2) ->
    same_but_input c c2 /\ operations c2 = operations c /\ exists l, notes c2 = notes c ++ l /\ notes_for (taken ex) l) as Hcb.
  { intros r res2 c2 (Hs2 & Ho2 & l & Hl & Hf)%call_back_effect. split; [by transitivity c1|]. split; [congruence|].
    exists l. by rewrite Hl, Hn. }
  destruct r1 as [r|[e| | |]]; intros E Hthrow; [by eapply Hcb| |by injection E as <- <-; destruct (Hthrow _ eq_refl)..].
  destruct (call_back throws ex _ c1) as [r2 c2] eqn:Ec. injection E as <- <-. by eapply Hcb.
Qed.

Lemma receiveEvent_effect c res c' :
  receiveEvent root_path throws c = (res, c') -> (forall f, res = Fault f -> exists e, f = Throw e) -> event_effect c c'.
Proof.
  intros E Hthrow. unfold receiveEvent in E. cbn [sm_bind sm_get] in E.
  assert (forall c1, same_but_input c c1 -> notes c1 = notes c -> operations c1 = operations c -> event_effect c c1) as Hnone.
  { intros c1 Hs Hn Ho. split; [done|]. exists None, []. by rewrite app_nil_r. }
  destruct (from_input read_i32 c) as [[len|f] c1] eqn:E1; apply from_input_effect in E1;
    [|injection E as _ <-; rewrite E1; by apply Hnone].
  match type of E with context [from_input ?m c1] => destruct (from_input m c1) as [[hd|f] c2] eqn:E2 end;
    apply from_input_effect in E2; [|injection E as _ <-; rewrite E2, E1; by apply Hnone].
  destruct (expect hd.1 hd.2 c2) as [[ex|f] c3] eqn:E3; apply expect_effect in E3 as (Hs3 & Hn3 & Ho3).
  2:{ injection E as _ <-. apply Hnone; [transitivity c2; [by rewrite E2, E1|done]|by rewrite Hn3, E2, E1|by rewrite Ho3, E2, E1]. }
  apply deliver_effect in E as (Hs & Ho & l & Hl & Hfor); [|done].
  split; [transitivity c2; [by rewrite E2, E1|by transitivity c3]|]. exists (taken ex), l. rewrite Hl, Hn3. split; [by rewrite E2, E1|].
  split; [done|]. assert (operations c2 = operations c) as Ho2 by (by rewrite E2, E1). rewrite <- Ho2.
  destruct ex as [| |i]; cbn [taken]; [congruence|congruence|]. exists hd.1. split; [apply Ho3|]. rewrite Ho. apply Ho3.
Qed.

Lemma event_operations c c' ex :
  match ex with
  | None => operations c' = operations c
  | Some i => exists x, operations c !! x = Some i /\ operations c' = delete x (operations c)
  end ->
  operations c' ⊆ operations c /\ tags (operations c) ≡ₚ option_list (ex ≫= tag) ++ tags (operations c').
Proof.
  destruct ex as [i|]; [intros (x & Hx & ->)|by intros ->]. split; [apply delete_subseteq|]. by apply tags_delete.
Qed.

Lemma event_inv n c c' : client_inv n c -> receive_thread c = RcPoll -> event_effect c c' -> client_inv n c'.
Proof.
  intros [Hx Ht Hun Hh Hnd Ho Hw Hwr Hf Hfin] Er ([E1 E2 E3 E4 E5 E6 E7] & ex & l & El & (L1 & L2 & L3) & [Hsub Htags]%event_operations).
  assert (held c' = held c) as Eh by (unfold held; by rewrite E6, E4).
  assert (written_xids c' = written_xids c) as Ew by (unfold written_xids; by rewrite E5).
  split; rewrite ?E1, ?Eh, ?Ew, ?El, ?E6; autorewrite with notes; rewrite ?L1, ?L2, ?L3, ?app_nil_r; try done.
  - change (omap tag (registered ?c)) with (tags (operations c)) in *. rewrite Ht, Htags, <- !app_assoc.
    apply Permutation_app_head. rewrite !app_assoc. apply Permutation_app_tail, Permutation_app_comm.
  - eapply Forall_impl; [exact Hh|]. intros j [->|(Hj1&Hj2&Hj3&Hj4)]; [by left|right]. rewrite E1, Ew. split_and!; try done; [lia..|].
    by eapply lookup_weaken_None.
  - intros x j Hj. apply Ho. by eapply lookup_weaken.
  - assert (forall i, in_work c i -> in_work c' i) as Hwi.
    { intros i (W1&W2&W3). unfold in_work. rewrite Eh, E1. split; [done|]. split; [|done]. intros j Hj. apply W2. by eapply lookup_weaken. }
    destruct (send_thread c); try done; [by apply Hwi|]. destruct Hw. auto.
  - unfold finalize_inv in *. rewrite E3, E2, E4, El. autorewrite with notes. rewrite L2, app_nil_r.
    unfold send_quiet, receive_quiet in *. rewrite E6, E7, Er in *.
    destruct (finalizing c) as [[who pc]|]; [|done]. destruct Hfin as (F1&F2&F3&F4&F5&F6&F7&F8).
    assert (stage pc < 5)%nat by (destruct (decide (5 <= stage pc)%nat) as [E|E]; [by destruct (F5 E)|lia]).
    split_and!; try done. lia.
Qed.

Lemma set_receive_inv n c pc :
  client_inv n c -> receive_thread c = RcLoop \/ receive_thread c = RcPoll ->
  (pc = RcExited -> finalizing c <> None) -> pc <> RcFinalize -> client_inv n (set_receive pc c).
Proof.
  intros Hc Hr Hpc Hpf. apply (client_inv_frame n c); try done; [apply (ci_work _ _ Hc)|].
  pose proof (ci_finalize _ _ Hc) as Hf. unfold finalize_inv in *. cbn.
  assert (~ receive_quiet c) as Hq by (intros [E|E]; rewrite E in Hr; by destruct Hr).
  destruct (finalizing c) as [[who fpc]|].
  - destruct Hf as (F1&F2&F3&F4&F5&F6&F7&F8). split_and!; try done; intros E; by destruct Hq; auto.
  - destruct Hf as (F1&F2&F3&F4). split_and!; try done. intros [E|E]; cbn in E; [by apply Hpc in E|done].
Qed.

Lemma receive_step_inv n p c c' : client_inv n c -> receive_step root_path throws p c = Some c' -> client_inv n c'.
Proof.
  intros Hc. unfold receive_step.
  assert (expired c = true -> finalizing c <> None) as Hexp.
  { intros Ee E. pose proof (ci_finalize _ _ Hc) as Hf. unfold finalize_inv in Hf. rewrite E, Ee in Hf. by destruct Hf. }
  destruct (receive_thread c) eqn:Er; try done.
  - intros [= <-]. destruct (expired c); apply set_receive_inv; auto.
  - destruct p as [| |[]]; [intros [= <-]; by apply start_finalize_inv| |intros [= <-]; by apply start_finalize_inv|
      intros [= <-]; apply set_receive_inv; auto].
    destruct (expired c) eqn:Ee; [intros [= <-]; apply set_receive_inv; auto|].
    destruct (receiveEvent root_path throws c) as [res c1] eqn:E.
    assert ((forall f, res = Fault f -> exists e, f = Throw e) -> client_inv n c1 /\ receive_thread c1 = RcPoll) as Hev.
    { intros Hthrow. pose proof (receiveEvent_effect _ _ _ E Hthrow) as He. split; [by eapply event_inv|].
      destruct He as [[_ _ _ _ _ _ ->] _]. done. }
    destruct res as [[]|[e| | |]]; try done; (destruct Hev as [Hc1 Hr1]; [naive_solver|]); intros [= <-].
    + apply set_receive_inv; auto.
    + by apply start_finalize_inv.
Qed.

(** ** Runs *)

Abbreviation client_step := (client_step root_path default_acls throws).
Abbreviation client_run := (client_run root_path default_acls throws).

Lemma start_finalize_some who c : finalizing (start_finalize who c) <> None.
Proof. unfold start_finalize. destruct (finalizing c) eqn:E, who; cbn; by rewrite ?E. Qed.

Lemma close_only_send beat ok c c' :
  close_only_finalizing c -> send_step root_path beat ok c = Some c' -> close_only_finalizing c'.
Proof.
  intros Hc E Hn. unfold send_step in E.
  assert (forall c0, finalizing (start_finalize BySender c0) = None -> False) as Hsf by (intros c0 Hc0; by destruct (start_finalize_some BySender c0)).
  destruct (send_thread c) as [| |i|i|i| |] eqn:Es; try done; unfold close_only_finalizing, held in Hc; rewrite Es in Hc.
  - injection E as <-. specialize (Hc Hn). unfold held. cbn. by destruct (expired c).
  - destruct beat; [injection E as <-; destruct ok; [|by apply Hsf in Hn]; by specialize (Hc Hn)|].
    destruct (requests_queue c) as [|j q] eqn:Eq; injection E as <-; specialize (Hc Hn) as [Hc _]; unfold held; cbn; by rewrite ?Eq.
  - injection E as <-. unfold register in *. specialize (Hc ltac:(by destruct (watch i), (bool_decide _))) as [[Hi Hq]%Forall_cons _].
    unfold held. rewrite bool_decide_false by done. by destruct (watch i).
  - injection E as <-. destruct (expired c); [by specialize (Hc Hn) as [? _]|]. unfold mark_sent in *.
    destruct (addRootPath _ _); [|by apply Hsf in Hn]. by specialize (Hc Hn).
  - injection E as <-. unfold write_request in *. destruct ok; [|by apply Hsf in Hn]. specialize (Hc Hn) as [Hq Hi].
    unfold held. cbn. by rewrite bool_decide_false.
Qed.

Lemma close_only_step n ev c c' :
  client_inv n c -> 1 + Z.of_nat n < CLOSE_XID -> close_only_finalizing c -> client_step ev c = Some c' -> close_only_finalizing c'.
Proof.
  intros Hinv Hn Hc. pose proof (ci_next _ _ Hinv) as Hx.
  assert (forall who c0, finalizing (start_finalize who c0) = None -> False) as Hsf by (intros who c0 Hc0; by destruct (start_finalize_some who c0)).
  destruct ev as [call cb w| |beat ok|p| |bs]; cbn [Client.client_step].
  - intros [= <-] En. unfold api_call in *. destruct (api_request _ _) as [b|f]; [|exact (Hc En)]. unfold pushRequest in *.
    cbn [callback watch info_request] in *. rewrite bool_decide_false in * by lia. rewrite (proj2 (Z.ltb_ge _ 0)) in * by lia.
    cbn [expired set_next_xid] in *. destruct (expired c); [by apply Hsf in En|].
    destruct (_ <? _)%nat; [|by apply Hsf in En]. specialize (Hc En) as [Hh Hs]. split; [|exact Hs].
    unfold held in *. cbn. rewrite app_assoc. apply Forall_app. split; [done|]. apply Forall_cons. split; [|done]. unfold info_xid. cbn. lia.
  - intros [= <-] En. by apply Hsf in En.
  - by apply close_only_send.
  - unfold receive_step. intros E En. destruct (receive_thread c); try done; [injection E as <-; exact (Hc En)|].
    destruct p as [| |[]]; try (injection E as <-; first [by apply Hsf in En|exact (Hc En)]).
    destruct (expired c); [injection E as <-; exact (Hc En)|].
    destruct (receiveEvent root_path throws c) as [res c1] eqn:Er. destruct res as [[]|[]]; try done; injection E as <-; [|by apply Hsf in En].
    apply receiveEvent_effect in Er as [[_ _ E3 E4 _ E6 _] _]; [|done]. cbn in En. rewrite E3 in En. specialize (Hc En).
    unfold held in *. cbn. by rewrite E6, E4.
  - unfold finalize_step. destruct (finalizing c) as [[who pc]|] eqn:Ef; [|done]. intros E En. exfalso. revert E En.
    destruct pc; repeat case_match; try done; intros [= <-]; done.
  - intros [= <-] En. exact (Hc En).
Qed.

Lemma client_step_inv n ev c c' :
  client_inv n c -> 1 + Z.of_nat n < CLOSE_XID -> close_only_finalizing c -> client_step ev c = Some c' -> client_inv (S n) c'.
Proof.
  intros Hc Hn Hcl. destruct ev as [call cb w| |beat ok|p| |bs]; cbn [Client.client_step].
  - intros [= <-]. by apply api_call_inv.
  - intros [= <-]. by apply client_inv_weaken, start_finalize_inv.
  - intros E. by eapply client_inv_weaken, send_step_inv.
  - intros E. by eapply client_inv_weaken, receive_step_inv.
  - intros E. by eapply client_inv_weaken, finalize_step_inv.
  - intros [= <-]. apply client_inv_weaken, (client_inv_frame n c); try done; [apply (ci_work _ _ Hc)|apply (ci_finalize _ _ Hc)].
Qed.

Lemma client_run_inv evs : forall n c c',
  client_inv n c -> close_only_finalizing c -> 1 + Z.of_nat (n + length evs) <= CLOSE_XID -> client_run evs c = Some c' ->
  client_inv (n + length evs) c' /\ close_only_finalizing c'.
Proof.
  induction evs as [|ev evs IH]; intros n c c' Hc Hcl Hn; cbn [Client.client_run length] in *.
  - intros [= <-]. by rewrite Nat.add_0_r.
  - destruct (client_step ev c) as [c1|] eqn:E; [|done]. cbn. rewrite Nat.add_succ_r, <- Nat.add_succ_l in *.
    apply IH; [eapply client_step_inv; [done| |done..]; lia|eapply close_only_step; [done| |done..]; lia|done].
Qed.

Lemma client_reachable evs c : Z.of_nat (length evs) < CLOSE_XID -> client_run evs client_init = Some c -> client_inv (length evs) c.
Proof.
  intros Hn E. apply (client_run_inv evs 0 client_init c); [apply client_inv_init| |cbn; lia|done].
  intros _. by split.
Qed.

Lemma callbacks_settled evs c who :
  Z.of_nat (length evs) < CLOSE_XID -> client_run evs client_init = Some c -> finalizing c = Some (who, FDone) ->
  told (notes c) ≡ₚ returned (notes c).
Proof.
  intros Hn E Ef. destruct (client_reachable evs c Hn E) as [Hx Ht Hun Hh Hnd Ho Hw Hwr Hf Hfin].
  unfold finalize_inv in Hfin. rewrite Ef in Hfin. destruct Hfin as (_&_&F3&_&_&F6&F7&_). cbn in *.
  rewrite Ht, held_quiet, F7 by (apply F3; lia) || lia. rewrite registered_empty by (apply F6; lia). cbn. by rewrite app_nil_r.
Qed.

Lemma client_run_app evs evs' c : client_run (evs ++ evs') c = client_run evs c ≫= client_run evs'.
Proof. revert c. induction evs as [|ev evs IH]; intros c; [done|]. cbn [Client.client_run app]. destruct (client_step ev c); [|done]. apply IH. Qed.

(** C8: over all interleavings of the users with the sending thread, the receiving
    thread and [finalize], whatever the server answers and wherever the network
    fails: of the requests whose method returned, each has been told to its
    callback or waits, and when [finalize] is done each has been told, exactly
    once. *)
Theorem callbacks_called_once evs c :
  Z.of_nat (length evs) < CLOSE_XID -> client_run evs client_init = Some c ->
  NoDup (returned (notes c)).*2 /\ told (notes c) ⊆+ returned (notes c) /\
  (forall who, finalizing c = Some (who, FDone) -> told (notes c) ≡ₚ returned (notes c)).
Proof.
  intros Hn E. destruct (client_reachable evs c Hn E) as [Hx Ht Hun Hh Hnd Ho Hw Hwr Hf Hfin].
  split; [apply Hun|]. split; [rewrite Ht; apply submseteq_inserts_r; reflexivity|].
  intros who Ef. by eapply callbacks_settled.
Qed.

(** C10: when a callback is told by [finalize] that the session expired, which the
    user may take for not done, no byte of its request was passed to the socket. *)
Theorem expired_means_not_sent evs c cb x r :
  Z.of_nat (length evs) < CLOSE_XID -> client_run evs client_init = Some c ->
  Failed cb x r ∈ notes c -> error r.1 = ZSESSIONEXPIRED -> x ∉ written_xids c.
Proof.
  intros Hn E Hin He. destruct (client_reachable evs c Hn E) as [Hx Ht Hun Hh Hnd Ho Hw Hwr Hf Hfin].
  apply (Hf cb x r); [|done]. apply list_elem_of_omap. by exists (Failed cb x r).
Qed.

(** ** The end of [finalize] *)

(** The request to close is in the queue, or the sending thread has it. *)
Definition close_comes (c : Client) : Prop :=
  requests_queue c = [close_info] \/
  match send_thread c with SPopped i | SRegistered i | SMarked i => info_xid i = CLOSE_XID | _ => False end.

Definition live_inv (c : Client) : Prop :=
  (length (requests_queue c) <= queue_capacity)%nat /\
  match finalizing c with
  | None => send_thread c <> SFinalize /\ receive_thread c <> RcFinalize
  | Some (who, pc) =>
      (who = BySender -> (pc = FDone \/ send_thread c = SFinalize) /\ (2 <= stage pc)%nat) /\
      (send_thread c = SFinalize -> who = BySender) /\
      (who = ByReceiver -> (pc = FDone \/ receive_thread c = RcFinalize) /\ pc <> FJoinReceive) /\
      (receive_thread c = RcFinalize -> who = ByReceiver) /\
      (pc = FJoinSend -> expired c = false -> send_thread c <> SExited -> close_comes c)
  end.

Lemma start_finalize_live who c :
  live_inv c -> (who = BySender -> send_thread c <> SFinalize) -> (who = ByReceiver -> receive_thread c <> RcFinalize) ->
  live_inv (start_finalize who c).
Proof.
  intros [Hq Hl] Hs Hr. unfold start_finalize, live_inv. destruct (finalizing c) as [[w pc]|] eqn:Ef, who; cbn; rewrite ?Ef; split; try done;
    destruct_and?; split_and!; try done; try naive_solver lia.
Qed.

(** A step that leaves [finalize] where it is. *)
Lemma live_frame c c' :
  live_inv c -> finalizing c' = finalizing c -> (length (requests_queue c') <= queue_capacity)%nat ->
  (send_thread c' = SFinalize <-> send_thread c = SFinalize) -> (receive_thread c' = RcFinalize <-> receive_thread c = RcFinalize) ->
  expired c' = expired c -> (forall who, finalizing c = Some (who, FJoinSend) -> expired c = false -> send_thread c' <> SExited ->
    send_thread c <> SExited /\ (close_comes c -> close_comes c')) ->
  live_inv c'.
Proof.
  intros [Hq Hl] Ef Hq' Es Er Ee Hc. split; [done|]. rewrite Ef. destruct (finalizing c) as [[who pc]|]; [|by rewrite Es, Er].
  rewrite Es, Er, Ee. destruct Hl as (L1&L2&L3&L4&L5). split_and!; try done. intros -> He Hs. destruct (Hc who eq_refl He Hs). auto.
Qed.

Lemma finalize_step_live c c' : live_inv c -> finalize_step c = Some c' -> live_inv c'.
Proof.
  intros [Hq Hl]. unfold finalize_step, live_inv. destruct (finalizing c) as [[who pc]|] eqn:Efin; [|done].
  destruct Hl as (L1&L2&L3&L4&L5).
  assert (pc <> FDone -> who = BySender -> send_thread c = SFinalize) as M1 by (intros Hd E; by destruct (L1 E) as [[?|?] _]).
  assert (pc <> FDone -> who = ByReceiver -> receive_thread c = RcFinalize) as M3 by (intros Hd E; by destruct (L3 E) as [[?|?] _]).
  assert (who = BySender -> (2 <= stage pc)%nat) as M2 by (intros E; by apply L1).
  destruct pc; try done; try specialize (M1 ltac:(done)); try specialize (M3 ltac:(done)); cbn [stage] in M2.
  - destruct (requests_queue c) as [|i q] eqn:Eq; cbn; intros [= <-]; cbn; rewrite ?Eq; (split; [done|]);
      split_and!; try done; (intros E; specialize (M2 E); lia) || (intros; by left) || (intros E; split; [by right; apply M3|done]).
  - case_decide as Hs; intros [= <-]; cbn. split; [done|].
    split_and!; try done; intros E; split; solve [right; by apply M1|lia|right; by apply M3|done].
  - intros [= <-]; cbn. split; [done|]. split_and!; try done; intros E; split; solve [right; by apply M1|lia|right; by apply M3|done].
  - intros [= <-]; cbn. split; [done|]. case_decide; cbn; split_and!; try done; intros E;
      split; solve [right; by apply M1|lia|right; by apply M3|done].
  - case_decide as Hs; intros [= <-]; cbn. split; [done|].
    split_and!; try done; intros E; split; solve [right; by apply M1|lia|right; by apply M3|done].
  - intros [= <-]; cbn. split; [done|]. split_and!; try done; intros E; split; solve [right; by apply M1|lia|right; by apply M3|done].
  - intros [= <-]; cbn. split; [done|]. split_and!; try done; intros E; split; solve [right; by apply M1|lia|right; by apply M3|done].
  - intros [= <-]. destruct who; cbn; (split; [unfold queue_capacity; lia|]); split_and!; try done; intros E; try (split; [by left|lia || done]).
Qed.

Lemma send_step_live beat ok c c' : live_inv c -> send_step root_path beat ok c = Some c' -> live_inv c'.
Proof.
  intros Hl. unfold send_step. destruct (send_thread c) as [| |i|i|i| |] eqn:Es; try done.
  - intros [= <-]. apply (live_frame c); try done; cbn; rewrite ?Es; [apply Hl|by destruct (expired c)|].
    intros who Ef -> _. split; [done|]. unfold close_comes. cbn. rewrite Es. naive_solver.
  - destruct beat; [|destruct (requests_queue c) as [|j q] eqn:Eq].
    + intros [= <-]. destruct ok.
      * apply (live_frame c); try done; cbn; rewrite ?Es; [apply Hl|done|]. intros who Ef _ _. split; [done|]. unfold close_comes. cbn. by rewrite Es.
      * apply start_finalize_live; [exact Hl|cbn; intros _; by rewrite Es|done].
    + intros [= <-]. apply (live_frame c); try done; cbn; rewrite ?Es; [apply Hl|done|]. intros who Ef _ _. split; [done|].
      unfold close_comes. cbn. by rewrite Es.
    + intros [= <-]. apply (live_frame c); try done; cbn; rewrite ?Es; [destruct Hl as [Hl _]; rewrite Eq in Hl; cbn in Hl; lia|done|].
      intros who Ef _ _. split; [done|]. unfold close_comes. cbn. rewrite Es, Eq. intros [[= -> ->]|[]]. by right.
  - intros [= <-]. unfold register. assert (forall i' c1, info_xid i' = info_xid i -> requests_queue c1 = requests_queue c -> finalizing c1 = finalizing c ->
      expired c1 = expired c -> receive_thread c1 = receive_thread c -> live_inv (set_send (SRegistered i') c1)) as Hg.
    { intros i' c1 Ei Eq Ef Ee Er. apply (live_frame c); try done; cbn; rewrite ?Es, ?Eq, ?Er; [apply Hl|done..|].
      intros who _ _ _. split; [done|]. unfold close_comes. cbn. by rewrite Es, Eq, Ei. }
    destruct (watch i), (bool_decide _); by apply Hg.
  - intros [= <-]. destruct (expired c) eqn:Ee.
    + apply (live_frame c); try done; cbn; rewrite ?Es; [apply Hl|done].
    + unfold mark_sent. destruct (addRootPath _ _) as [b|f]; [|by apply start_finalize_live; rewrite ?Es].
      apply (live_frame c); try done; cbn; rewrite ?Es; [apply Hl|done|]. intros who _ _ _. split; [done|]. unfold close_comes. cbn. by rewrite Es.
  - intros [= <-]. unfold write_request. destruct ok; [|apply start_finalize_live; [exact Hl|cbn; intros _; by rewrite Es|done]].
    case_bool_decide as Hx; apply (live_frame c); try done; cbn; rewrite ?Es; try apply Hl; try done.
    intros who _ _ _. split; [done|]. unfold close_comes. cbn. rewrite Es. naive_solver.
Qed.

Lemma receive_step_live p c c' : live_inv c -> receive_step root_path throws p c = Some c' -> live_inv c'.
Proof.
  intros Hl. unfold receive_step. destruct (receive_thread c) eqn:Er; try done.
  - intros [= <-]. apply (live_frame c); try done; cbn; rewrite ?Er; [apply Hl|by destruct (expired c)].
  - assert (forall pc, pc <> RcFinalize -> live_inv (set_receive pc c)) as Hset.
    { intros pc Hpc. apply (live_frame c); try done; cbn; rewrite ?Er; [apply Hl|done]. }
    destruct p as [| |[]]; try (intros [= <-]; by first [apply Hset|apply start_finalize_live; rewrite ?Er]).
    destruct (expired c) eqn:Ee; [intros [= <-]; by apply Hset|]. destruct (receiveEvent root_path throws c) as [res c1] eqn:E.
    assert ((forall f, res = Fault f -> exists e, f = Throw e) -> forall pc, pc <> RcFinalize -> live_inv (set_receive pc c1)) as Hev.
    { intros Hthrow pc Hpc. destruct (receiveEvent_effect _ _ _ E Hthrow) as [[_ E2 E3 E4 _ E6 E7] _].
      apply (live_frame c); try done; cbn; rewrite ?E6, ?E4, ?Er; [apply Hl|done..|]. intros who Ef _ Hs. split; [done|].
      unfold close_comes. cbn. by rewrite E4, E6. }
    destruct res as [[]|[e| | |]]; try done; (specialize (Hev ltac:(naive_solver))); intros [= <-]; [by apply Hev|].
    destruct (receiveEvent_effect _ _ _ E ltac:(naive_solver)) as [[_ _ _ _ _ _ E7] _]. rewrite Er in E7.
    apply start_finalize_live; [|done|by rewrite E7].
    replace c1 with (set_receive RcPoll c1); [by apply Hev|]. destruct c1; cbn in *. by subst.
Qed.

Lemma api_call_live call cb w c : live_inv c -> live_inv (api_call default_acls call cb w c).
Proof.
  intros Hl. unfold api_call.
  assert (forall c0 l, live_inv c0 -> live_inv (add_notes l c0)) as Hnotes by (intros c0 l H0; exact H0).
  destruct (api_request _ _) as [b|f]; [|by apply Hnotes]. unfold pushRequest. cbn [callback watch info_request].
  assert (live_inv (add_notes [Threw cb] (start_finalize ByUser (set_next_xid (i32 (next_xid c + 1)) c)))) as Hfail
    by (by apply Hnotes, start_finalize_live).
  case_bool_decide; [done|]. destruct (_ <? 0); [done|]. cbn [expired set_next_xid]. destruct (expired c) eqn:Ee; [done|].
  destruct (_ <? _)%nat eqn:Eq; [|done]. apply Nat.ltb_lt in Eq. apply Hnotes. apply (live_frame c); try done.
  - cbn in *. rewrite length_app. cbn. unfold queue_capacity in *. lia.
  - intros who _ _ Hs. split; [done|]. intros [E|E]; [cbn in Eq; rewrite E in Eq; cbn in Eq; unfold queue_capacity in Eq; lia|by right].
Qed.

Lemma client_step_live ev c c' : live_inv c -> client_step ev c = Some c' -> live_inv c'.
Proof.
  intros Hl. destruct ev as [call cb w| |beat ok|p| |bs]; cbn [Client.client_step].
  - intros [= <-]. by apply api_call_live.
  - intros [= <-]. by apply start_finalize_live.
  - by apply send_step_live.
  - by apply receive_step_live.
  - by apply finalize_step_live.
  - by intros [= <-].
Qed.

Lemma client_run_live evs : forall c c', live_inv c -> client_run evs c = Some c' -> live_inv c'.
Proof.
  induction evs as [|ev evs IH]; intros c c' Hl; cbn [Client.client_run]; [by intros [= <-]|].
  destruct (client_step ev c) as [c1|] eqn:E; [|done]. cbn. apply IH. by eapply client_step_live.
Qed.

(** ** Progress *)

(** The steps the sending thread takes until it exits, when [expired] is set or the
    request to close comes. *)
Definition send_left (c : Client) : nat :=
  if expired c then match send_thread c with SLoop => 1 | SWait => 4 | SPopped _ => 3 | SRegistered _ | SMarked _ => 2 | _ => 0 end
  else
    let after i := if bool_decide (info_xid i = CLOSE_XID) then O else 5%nat in
    match send_thread c with
    | SLoop => 5 | SWait => 4 | SPopped i => 3 + after i | SRegistered i => 2 + after i | SMarked i => 1 + after i | _ => 0
    end.

Definition receive_left (c : Client) : nat := match receive_thread c with RcLoop => 1 | RcPoll => 2 | _ => 0 end.

Definition finalize_left (pc : FinalizePc) (c : Client) : nat :=
  (8 - stage pc) + match pc with FClose => 8 | FJoinSend => send_left c | _ => 0 end +
  match pc with FClose | FJoinSend | FExpire | FShutdown | FJoinReceive => receive_left c | _ => 0 end.

Lemma send_left_bound c : (send_left c <= 8)%nat.
Proof. unfold send_left. repeat case_match; lia. Qed.

Lemma start_finalize_again who c : finalizing c <> None ->
  start_finalize who c = match who with ByUser => c | BySender => set_send SExited c | ByReceiver => set_receive RcExited c end.
Proof. unfold start_finalize. by destruct (finalizing c). Qed.

Lemma send_progress c :
  finalizing c <> None -> (expired c = true \/ close_comes c) -> send_thread c <> SExited -> send_thread c <> SFinalize ->
  exists c', send_step root_path false true c = Some c' /\ (send_left c' < send_left c)%nat /\
    finalizing c' = finalizing c /\ receive_thread c' = receive_thread c /\ expired c' = expired c.
Proof.
  intros Hf Hc He Hs. unfold send_step, send_left, close_comes in *. destruct (send_thread c) as [| |i|i|i| |] eqn:Es; try done.
  - eexists. split; [done|]. cbn. destruct (expired c); cbn; split; try done; lia.
  - destruct (requests_queue c) as [|j q] eqn:Eq; eexists; (split; [done|]); cbn.
    + destruct (expired c); [split; [lia|done]|]. by destruct Hc as [?|[?|[]]].
    + destruct (expired c); [split; [lia|done]|]. destruct Hc as [?|[[= -> ->]|[]]]; [done|]. rewrite bool_decide_true by done. split; [lia|done].
  - exists (register i c). split; [done|]. unfold register.
    assert (forall i' c1, info_xid i' = info_xid i -> expired c1 = expired c -> finalizing c1 = finalizing c -> receive_thread c1 = receive_thread c ->
      let c' := set_send (SRegistered i') c1 in (send_left c' < send_left c)%nat /\
      finalizing c' = finalizing c /\ receive_thread c' = receive_thread c /\ expired c' = expired c) as Hg.
    { intros i' c1 Ei Ee Ef Er. split; [|done]. unfold send_left. cbn. rewrite Ee, Es, Ei. destruct (expired c); lia. }
    unfold send_left in Hg. rewrite Es in Hg. destruct (watch i), (bool_decide (info_xid i = CLOSE_XID)); by apply Hg.
  - eexists. split; [done|]. destruct (expired c) eqn:Ee; cbn; rewrite ?Ee; [split; [lia|done]|]. unfold mark_sent.
    destruct (addRootPath _ _) as [b|f]; [|rewrite start_finalize_again by done; cbn; rewrite Ee; split; [lia|done]].
    cbn. rewrite Ee. unfold info_xid. cbn. split; [lia|done].
  - eexists. split; [done|]. unfold write_request. case_bool_decide as Hx; cbn; destruct (expired c); cbn; split; try done; lia.
Qed.

(** The steps the threads take by themselves. *)
Definition by_itself (ev : CEvent) : Prop := ev = CSend false true \/ ev = CReceive (PollNothing false) \/ ev = CFinalize.

Definition drive_inv (who : Finalizer) (pc : FinalizePc) (c : Client) : Prop :=
  live_inv c /\ finalizing c = Some (who, pc) /\ ((3 <= stage pc)%nat -> expired c = true).

Lemma receive_progress c : expired c = true -> receive_thread c <> RcExited -> receive_thread c <> RcFinalize ->
  exists c', receive_step root_path throws (PollNothing false) c = Some c' /\ (receive_left c' < receive_left c)%nat /\
    finalizing c' = finalizing c /\ expired c' = true.
Proof.
  intros He H1 H2. unfold receive_step, receive_left. destruct (receive_thread c) eqn:Er; try done; rewrite ?He; eexists; (split; [done|]); cbn; split; try done; lia.
Qed.

Lemma finalize_moves who pc c : drive_inv who pc c -> pc <> FDone ->
  (pc = FJoinSend -> send_thread c = SExited) -> (pc = FJoinReceive -> receive_thread c = RcExited) ->
  exists pc' c', finalize_step c = Some c' /\ drive_inv who pc' c' /\ (finalize_left pc' c' < finalize_left pc c)%nat.
Proof.
  intros (Hl & Hf & He) Hd H1 H2.
  assert (exists pc' c', finalize_step c = Some c' /\ finalizing c' = Some (who, pc') /\ ((3 <= stage pc')%nat -> expired c' = true) /\
    (finalize_left pc' c' < finalize_left pc c)%nat) as (pc' & c' & E & Hf' & He' & Hlt).
  { unfold finalize_step. rewrite Hf. destruct pc; try done; try rewrite decide_True by auto; cbn [stage] in He.
    - destruct (_ <? _)%nat; do 2 eexists; (split; [done|]); (split; [done|]); (split; [cbn; lia|]);
        unfold finalize_left; match goal with |- context [send_left ?c0] => pose proof (send_left_bound c0) end;
        unfold receive_left; cbn -[send_left] in *; lia.
    - do 2 eexists. split; [done|]. split; [done|]. split; [cbn; lia|]. unfold finalize_left, receive_left. cbn. lia.
    - do 2 eexists. split; [done|]. split; [done|]. split; [done|]. unfold finalize_left, receive_left. cbn. lia.
    - do 2 eexists. split; [done|]. split; [done|]. split; [intros _; apply He; lia|].
      unfold finalize_left, receive_left. case_decide; cbn; lia.
    - do 2 eexists. split; [done|]. split; [done|]. split; [intros _; apply He; lia|]. unfold finalize_left, receive_left. cbn. lia.
    - do 2 eexists. split; [done|]. split; [done|]. split; [intros _; apply He; lia|]. unfold finalize_left. cbn. lia.
    - do 2 eexists. split; [done|]. split; [done|]. split; [intros _; apply He; lia|]. unfold finalize_left. cbn. lia.
    - do 2 eexists. split; [done|]. split; [done|]. split; [intros _; destruct who; apply He; lia|]. unfold finalize_left. cbn. lia. }
  exists pc', c'. split; [done|]. split; [|done]. split; [by eapply finalize_step_live|done].
Qed.

Lemma finalize_progress who pc c : drive_inv who pc c -> pc <> FDone ->
  exists ev pc' c', by_itself ev /\ client_step ev c = Some c' /\ drive_inv who pc' c' /\ (finalize_left pc' c' < finalize_left pc c)%nat.
Proof.
  intros Hdr Hd. pose proof Hdr as (Hl & Hf & He). pose proof Hl as [_ L]. rewrite Hf in L. destruct L as (L1&L2&L3&L4&L5).
  destruct (decide (pc = FJoinSend /\ send_thread c <> SExited)) as [[-> Hs]|Hs].
  { destruct (send_progress c) as (c' & E & Hlt & Ef & Er & Ee); [by rewrite Hf| |done| |].
    - destruct (expired c); [by left|right; auto].
    - intros Hs'. destruct (L1 (L2 Hs')) as [_ Hst]. cbn in Hst. lia.
    - exists (CSend false true), FJoinSend, c'. split; [by left|]. split; [done|]. split.
      + split; [by eapply send_step_live|]. split; [by rewrite Ef|]. cbn. lia.
      + unfold finalize_left, receive_left. rewrite Er. lia. }
  destruct (decide (pc = FJoinReceive /\ receive_thread c <> RcExited)) as [[-> Hr]|Hr].
  { destruct (receive_progress c) as (c' & E & Hlt & Ef & Ee); [apply He; cbn; lia|done| |].
    - intros Hr'. by destruct (L3 (L4 Hr')) as [_ ?].
    - exists (CReceive (PollNothing false)), FJoinReceive, c'. split; [by right; left|]. split; [done|]. split.
      + split; [by eapply receive_step_live|]. by rewrite Ef.
      + unfold finalize_left. lia. }
  destruct (finalize_moves who pc c) as (pc' & c' & E & Hdr' & Hlt); try done.
  - intros ->. destruct (decide (send_thread c = SExited)); [done|]. by destruct Hs.
  - intros ->. destruct (decide (receive_thread c = RcExited)); [done|]. by destruct Hr.
  - exists CFinalize, pc', c'. split; [by right; right|]. done.
Qed.

Lemma finalize_ends n : forall who pc c, drive_inv who pc c -> (finalize_left pc c <= n)%nat ->
  exists evs c', (length evs <= n)%nat /\ Forall by_itself evs /\ client_run evs c = Some c' /\ finalizing c' = Some (who, FDone).
Proof.
  induction n as [|n IH]; intros who pc c Hdr Hn; (destruct (decide (pc = FDone)) as [->|Hd];
    [exists [], c; split; [cbn; lia|]; split; [done|]; split; [done|apply Hdr]|]);
    destruct (finalize_progress who pc c Hdr Hd) as (ev & pc' & c' & Hev & E & Hdr' & Hlt); [lia|].
  destruct (IH who pc' c' Hdr') as (evs & c2 & Hlen & Hall & Hrun & Hdone); [lia|].
  exists (ev :: evs), c2. split; [cbn; lia|]. split; [by constructor|]. split; [|done]. cbn [Client.client_run]. rewrite E. done.
Qed.

(** C9: [finalize] does not deadlock: wherever it stands, whoever called it and
    whatever happened before, at most 18 steps of the sending thread, the receiving
    thread and itself, with no user, server or network taking part, bring it to its
    end, and then every callback has been told. *)
Theorem finalize_can_finish evs c who pc :
  Z.of_nat (length evs) + 18 < CLOSE_XID -> client_run evs client_init = Some c -> finalizing c = Some (who, pc) ->
  exists evs' c', (length evs' <= 18)%nat /\ Forall by_itself evs' /\ client_run evs' c = Some c' /\
    finalizing c' = Some (who, FDone) /\ told (notes c') ≡ₚ returned (notes c').
Proof.
  intros Hn E Hf. pose proof (client_reachable evs c ltac:(lia) E) as Hinv.
  assert (drive_inv who pc c) as Hdr.
  { split; [eapply (client_run_live evs client_init); [|done]; split; [cbn; unfold queue_capacity; lia|done]|]. split; [done|].
    pose proof (ci_finalize _ _ Hinv) as Hfin. unfold finalize_inv in Hfin. rewrite Hf in Hfin. by destruct Hfin as (_&_&_&?&_). }
  destruct (finalize_ends 18 who pc c Hdr) as (evs' & c' & Hlen & Hall & Hrun & Hdone).
  { unfold finalize_left, receive_left. pose proof (send_left_bound c). destruct pc; cbn -[send_left]; repeat case_match; lia. }
  exists evs', c'. do 4 (split; [done|]). apply (callbacks_settled (evs ++ evs') c' who); [rewrite length_app; lia| |done].
  rewrite client_run_app, E. done.
Qed.
End steps.
