(* ===== verification/ClientRuns.v ===== *)
(** * Answers and events at the client

    What [receiveEvent] of [Client] makes of the bytes the server's
    [ZooKeeperResponse::write] of [WireResponses] produced, and runs of the client
    that show what its user meets. *)

From S2P Require Import Prelude Coordination Paths Wire WireRequests WireResponses.
From S2P Require Import Sessions Connections Client ClientTheorems.

(** ** Paths under the root *)

Lemma str_drop_append s t : str_drop (String.length s) (String.append s t) = t.
Proof. induction s as [|a s IH]; [by destruct t|done]. Qed.

Lemma length_append s t : String.length (String.append s t) = (String.length s + String.length t)%nat.
Proof. induction s as [|a s IH]; [done|]. simpl. f_equal. exact IH. Qed.

(** The path a request goes out with is the one the answer comes back with, but
    for the root itself. *)
Lemma root_roundtrip root path p :
  add_root root path = Ok p -> root = "" \/ path <> "/" -> remove_root root p = Ok path.
Proof.
  unfold add_root, remove_root. destruct (starts_with_slash path) eqn:Es; [cbn [negb]|done].
  case_bool_decide as Hr; [by intros [= <-]|]. intros E [?|Hp]; [done|].
  destruct path as [|a path]; [done|]. destruct path as [|a' path]; [unfold starts_with_slash, is_slash in Es; cbn in Es|].
  - apply bool_decide_eq_true in Es. by subst a.
  - cbn in E. injection E as <-. rewrite length_append. cbn [String.length].
    rewrite (proj2 (Nat.leb_gt _ _)) by lia. by rewrite str_drop_append.
Qed.

(** ** Delivery *)

Section delivery.
Context (root_path : string) (throws : nat -> bool).

(** What the callback is given. *)
Definition answered (ex : Expected) (err : Error) (b : ResponseBody) : ZooKeeperResponse :=
  if bool_decide (err = ZOK) then ((empty_response ex).1, b) else set_error err (empty_response ex).

Lemma read_body_written ex h b b' rest :
  same_class (empty_response ex).2 b -> response_fits b -> removeRootPath root_path b = Ok b' ->
  read_body root_path (error h) ex ((if bool_decide (error h = ZOK) then response_writeImpl h b else []) ++ rest) =
    (Ok (answered ex (error h) b'), rest).
Proof.
  intros Hc Hf Hr. unfold read_body, answered. case_bool_decide; [|done]. cbn [sm_bind].
  rewrite (response_readImpl_flat _ h _ b) by done. unfold sm_lift. cbn. by rewrite Hr.
Qed.

Lemma deliver_written ex h b b' c c1 rest before :
  same_class (empty_response ex).2 b -> response_fits b -> removeRootPath root_path b = Ok b' ->
  input c = (if bool_decide (error h = ZOK) then response_writeImpl h b else []) ++ rest ->
  in_i32 (before - Z.of_nat (length rest)) ->
  set_watch root_path ex (answered ex (error h) b') (set_input rest c) = (Ok tt, c1) ->
  deliver root_path throws (before - Z.of_nat (length rest)) before (error h) ex c =
    call_back throws ex (answered ex (error h) b') c1.
Proof.
  intros Hc Hf Hr Hi Hb Hw. unfold deliver, read_response. cbn [sm_bind].
  unfold from_input. rewrite Hi, (read_body_written ex h b b' rest) by done. rewrite Hw. cbn [sm_get].
  pose proof (set_watch_effect _ _ _ _ _ _ Hw) as ->. cbn [input set_watches set_input].
  rewrite bool_decide_true by (by rewrite i32_id). done.
Qed.

Lemma read_header_written h b rest :
  in_i32 (resp_xid h) -> in_i64 (resp_zxid h) -> error_fits (error h) ->
  (x <- read_i32 ;; zxid <- read_i64 ;; err <- read_Error ;; sm_ret (x, err))%sm (response_buf (h, b) ++ rest) =
    (Ok (resp_xid h, error h), (if bool_decide (error h = ZOK) then response_writeImpl h b else []) ++ rest).
Proof. intros Hx Hz He. unfold response_buf. cbn [fst snd]. rewrite <- !app_assoc. by wire. Qed.

Lemma receiveEvent_written ex h b b' c c1 c2 rest :
  in_i32 (resp_xid h) -> in_i64 (resp_zxid h) -> error_fits (error h) ->
  same_class (empty_response ex).2 b -> response_fits b -> removeRootPath root_path b = Ok b' ->
  in_i32 (Z.of_nat (length (response_buf (h, b)))) ->
  input c = write_i32 (Z.of_nat (length (response_buf (h, b)))) ++ response_buf (h, b) ++ rest ->
  expect (resp_xid h) (error h) (set_input ((if bool_decide (error h = ZOK) then response_writeImpl h b else []) ++ rest) c) = (Ok ex, c1) ->
  set_watch root_path ex (answered ex (error h) b') (set_input rest c1) = (Ok tt, c2) ->
  receiveEvent root_path throws c = call_back throws ex (answered ex (error h) b') c2.
Proof.
  intros Hx Hz He Hc Hf Hr Hl Hi Hex Hw. unfold receiveEvent. cbn [sm_bind]. unfold from_input at 1.
  rewrite Hi, read_write by done. cbn [sm_get]. unfold from_input at 1. cbn [input set_input].
  rewrite read_header_written by done. cbn [fst snd].
  match goal with |- context [expect _ _ ?c0] => change c0 with (set_input ((if bool_decide (error h = ZOK) then response_writeImpl h b else []) ++ rest) c) end.
  rewrite Hex. replace (Z.of_nat (length (response_buf (h, b)))) with (Z.of_nat (length (response_buf (h, b) ++ rest)) - Z.of_nat (length rest)) by (rewrite length_app; lia).
  apply (deliver_written ex h b b'); try done.
  - pose proof (expect_effect _ _ _ _ _ Hex) as _. unfold expect in Hex. repeat case_match; simplify_eq; done.
  - rewrite length_app. by replace (_ - _) with (Z.of_nat (length (response_buf (h, b)))) by lia.
Qed.

(** The watches after the answer [r] to [i], whose path is [path] for the user. *)
Definition watched (i : RequestInfo) (path : string) (r : ZooKeeperResponse) (m : gmap string (list nat)) : gmap string (list nat) :=
  match watch i with
  | Some w => if wants_watch i r then <[path := default [] (m !! path) ++ [w]]> m else m
  | None => m
  end.

Lemma set_watch_watched i path r c :
  (forall w, watch i = Some w -> remove_root root_path (request_getPath (info_request i).2) = Ok path) ->
  set_watch root_path (ExpectOperation i) r c = (Ok tt, set_watches (watched i path r (watches c)) c).
Proof.
  intros Hp. unfold set_watch, watched. destruct (watch i) as [w|]; [|by destruct c].
  destruct (wants_watch i r); [|by destruct c]. by rewrite (Hp w).
Qed.

Lemma same_class_written h p b : same_class p b -> (forall t s q, p <> WatchResponse t s q) ->
  response_write (h, b) [] = write_i32 (Z.of_nat (length (response_buf (h, b)))) ++ response_buf (h, b).
Proof. intros Hc Hp. unfold response_write. destruct b; try done. destruct p; try done. exfalso; by eapply Hp. Qed.

Lemma makeResponse_no_watch h r t s q : (makeResponse h r).2 <> WatchResponse t s q.
Proof. destruct r; try done; cbn; by case_match. Qed.

Lemma expect_operation x err i c :
  0 <= last_received_xid c < CLOSE_XID -> x = last_received_xid c + 1 -> operations c !! x = Some i ->
  expect x err c = (Ok (ExpectOperation i), set_operations (delete x (operations c)) (set_last_received x c)).
Proof.
  intros Hx Ex Hop. unfold expect, PING_XID, WATCH_XID. rewrite !bool_decide_false by lia. rewrite bool_decide_true by done. cbn [negb].
  rewrite i32_id, <- Ex by (unfold in_i32, CLOSE_XID in *; lia). cbn [operations set_last_received]. by rewrite Hop.
Qed.

(** C11: the answer the server writes to the operation the client waits for reaches
    its callback: the callback gets the error, or the body with the chroot removed
    from its paths; the operation is no longer waited for, the watch of the request
    is set where the answer allows it, and the bytes after the answer are left.
    This is so when the paths of the body and, where there is a watch, of the
    request are below the chroot and the callback does not throw. *)
Theorem answer_reaches_callback c i n h b b' path rest :
  receive_thread c = RcPoll -> expired c = false ->
  0 <= last_received_xid c < CLOSE_XID -> resp_xid h = last_received_xid c + 1 -> in_i64 (resp_zxid h) -> error_fits (error h) ->
  operations c !! resp_xid h = Some i -> callback i = Some n -> throws n = false ->
  same_class (makeResponse (info_request i).1 (info_request i).2).2 b -> response_fits b -> removeRootPath root_path b = Ok b' ->
  (forall w, watch i = Some w -> remove_root root_path (request_getPath (info_request i).2) = Ok path) ->
  in_i32 (Z.of_nat (length (response_buf (h, b)))) -> input c = response_write (h, b) [] ++ rest ->
  let r := answered (ExpectOperation i) (error h) b' in
  receive_step root_path throws PollReady c =
    Some (set_receive RcLoop (add_notes [Called n (info_xid i) r] (set_watches (watched i path r (watches c))
      (set_operations (delete (resp_xid h) (operations c)) (set_last_received (resp_xid h) (set_input rest c)))))).
Proof.
  intros Hrt He Hx Ex Hz Herr Hop Hcb Hth Hc Hf Hr Hw Hl Hi r. unfold receive_step. rewrite Hrt, He.
  rewrite (same_class_written h _ b Hc (makeResponse_no_watch _ _)), <- app_assoc in Hi.
  erewrite (receiveEvent_written (ExpectOperation i) h b b'); try done.
  - unfold call_back. rewrite Hcb, Hth. done.
  - unfold in_i32. unfold CLOSE_XID in Hx. lia.
  - by apply expect_operation.
  - by rewrite (set_watch_watched i path).
Qed.

Lemma fire_all ws r : Forall (fun w => throws w = false) ws -> fire_until throws ws r = ((fun w => Fired w r) <$> ws, true).
Proof. induction 1 as [|w ws Hw _ IH]; [done|]. cbn. by rewrite Hw, IH. Qed.

(** The event the server writes for a path reaches the watches of this path:
    each is called once, in the order they were set, and they are gone; where there
    are none nothing happens. *)
Theorem event_fires_watches c h type state full path rest :
  receive_thread c = RcPoll -> expired c = false ->
  resp_xid h = WATCH_XID -> in_i64 (resp_zxid h) -> error h = ZOK ->
  response_fits (WatchResponse type state full) -> remove_root root_path full = Ok path ->
  Forall (fun w => throws w = false) (default [] (watches c !! path)) ->
  in_i32 (Z.of_nat (length (response_buf (h, WatchResponse type state full)))) ->
  input c = response_write (h, WatchResponse type state full) [] ++ rest ->
  let r := (ResponseHeader0, WatchResponse type state path) in
  receive_step root_path throws PollReady c =
    Some (set_receive RcLoop (set_watches (delete path (watches c))
      (add_notes ((fun w => Fired w r) <$> default [] (watches c !! path)) (set_input rest c)))).
Proof.
  intros Hrt He Ex Hz Herr Hf Hr Hth Hl Hi r. unfold receive_step. rewrite Hrt, He.
  unfold response_write in Hi. cbn [snd fst] in Hi. rewrite Herr, bool_decide_true, <- app_assoc in Hi by done.
  rewrite (receiveEvent_written ExpectWatch h (WatchResponse type state full) (WatchResponse type state path) c
    (set_input (response_writeImpl h (WatchResponse type state full) ++ rest) c) (set_input rest c) rest); try done.
  - unfold answered. rewrite Herr, bool_decide_true by done. unfold call_back. cbn -[fire_until].
    destruct (watches c !! path) as [ws|] eqn:Ew; [by rewrite fire_all|].
    rewrite delete_id by done. cbn. unfold set_watches, add_notes, set_receive. cbn. by rewrite app_nil_r.
  - by rewrite Ex.
  - by rewrite Herr.
  - cbn. by rewrite Hr.
  - rewrite Ex, Herr. done.
Qed.
End delivery.

(** ** Runs *)

(** The sending thread takes a request from the queue to the socket. *)
Definition demo_send : list CEvent := replicate 5 (CSend false true).

(** The server answers, and the receiving thread takes the answer. *)
Definition demo_answer (r : ZooKeeperResponse) : list CEvent :=
  [CInput (response_write r []); CReceive (PollNothing false); CReceive PollReady].

(** The user closes the session. *)
Definition demo_close : list CEvent :=
  [CUserFinalize; CFinalize] ++ demo_send ++ [CFinalize; CFinalize; CFinalize; CReceive PollDeadline] ++ replicate 4 CFinalize.

Definition demo_header (x : Z) : ResponseHeader := mkResponseHeader ZOK x 7 0.

Abbreviation demo_run root throws evs := (client_run root [] throws evs client_init).

(** The first request is answered, the second is on its way, the third waits in the
    queue when the connection breaks. *)
Definition demo_broken : list CEvent :=
  [CCall (ApiGet "/a") 1 (Some 10%nat)] ++ demo_send ++ demo_answer (demo_header 1, GetResponse "x" Stat0) ++
  [CCall (ApiSet "/a" "y" (-1)) 2 None] ++ demo_send ++ [CCall (ApiExists "/b") 3 None] ++
  [CReceive PollDeadline; CReceive PollDeadline].
Definition demo_settle : list CEvent := [CFinalize; CSend false true] ++ replicate 6 CFinalize.

Definition told_of (o : option Client) : option (list (nat * Z * Error)) :=
  (fun c => omap (fun n => match n with Called cb x r | Failed cb x r => Some (cb, x, error r.1) | _ => None end) (notes c)) <$> o.
Definition fired_of (o : option Client) : option (list nat) :=
  (fun c => omap (fun n => match n with Fired w _ => Some w | _ => None end) (notes c)) <$> o.

Lemma demo_told : told_of (demo_run "" (fun _ => false) (demo_broken ++ demo_settle)) =
  Some [(1%nat, 1, ZOK); (2%nat, 2, ZCONNECTIONLOSS); (3%nat, 3, ZSESSIONEXPIRED)].
Proof. vm_compute. reflexivity. Qed.

(** A run and what is to be shown of its end. *)
Lemma demo_run_some root throws evs (P : Client -> Prop) :
  match demo_run root throws evs with Some c => P c | None => False end -> exists c, demo_run root throws evs = Some c /\ P c.
Proof. destruct (demo_run root throws evs) as [c|]; [|done]. by exists c. Qed.

Lemma callbacks_called_once_witness :
  exists c, demo_run "" (fun _ => false) (demo_broken ++ demo_settle) = Some c /\ length (returned (notes c)) = 3%nat /\
    NoDup (returned (notes c)).*2 /\ told (notes c) ⊆+ returned (notes c) /\
    (forall who, finalizing c = Some (who, FDone) -> told (notes c) ≡ₚ returned (notes c)).
Proof.
  destruct (demo_run_some "" (fun _ => false) (demo_broken ++ demo_settle) (fun c => length (returned (notes c)) = 3%nat)) as (c & E & Hn);
    [by vm_compute|].
  exists c. split; [exact E|]. split; [exact Hn|]. apply (callbacks_called_once "" [] (fun _ => false) (demo_broken ++ demo_settle) c); [by vm_compute|exact E].
Defined.

Lemma expired_means_not_sent_witness :
  exists c r, demo_run "" (fun _ => false) (demo_broken ++ demo_settle) = Some c /\ Failed 3 3 r ∈ notes c /\
    error r.1 = ZSESSIONEXPIRED /\ 3 ∉ written_xids c.
Proof.
  set (r := set_error ZSESSIONEXPIRED (ResponseHeader0, ExistsResponse Stat0)).
  destruct (demo_run_some "" (fun _ => false) (demo_broken ++ demo_settle) (fun c => notes c !! 6%nat = Some (Failed 3 3 r))) as (c & E & Hn);
    [vm_compute; reflexivity|].
  exists c, r. split; [exact E|]. split; [eapply list_elem_of_lookup_2; exact Hn|]. split; [done|].
  apply (expired_means_not_sent "" [] (fun _ => false) (demo_broken ++ demo_settle) c 3 3 r); [by vm_compute|exact E|eapply list_elem_of_lookup_2; exact Hn|done].
Defined.

Lemma finalize_can_finish_witness :
  exists c, demo_run "" (fun _ => false) demo_broken = Some c /\ finalizing c = Some (ByReceiver, FClose) /\
  exists evs' c', (length evs' <= 18)%nat /\ Forall by_itself evs' /\ client_run "" [] (fun _ => false) evs' c = Some c' /\
    finalizing c' = Some (ByReceiver, FDone) /\ told (notes c') ≡ₚ returned (notes c').
Proof.
  destruct (demo_run_some "" (fun _ => false) demo_broken (fun c => finalizing c = Some (ByReceiver, FClose))) as (c & E & Hf); [by vm_compute|].
  exists c. split; [exact E|]. split; [exact Hf|]. apply (finalize_can_finish "" [] (fun _ => false) demo_broken c ByReceiver FClose); [by vm_compute|exact E|exact Hf].
Defined.

(** A client with the chroot [/r] that waits for the children of [/a], with a watch. *)
Definition demo_waiting (bs : bytes) (m : gmap string (list nat)) : Client :=
  mkClient 2 0 false None [] {[1 := mkRequestInfo (mkRequestHeader 1 true, ListRequest "/r/a") true (Some 1%nat) (Some 10%nat)]}
    m [] bs [] SLoop RcPoll.

Lemma demo_list_fits : response_fits (ListResponse ["x"] Stat0).
Proof.
  cbn. unfold vector_fits, string_fits, MAX_STRING_OR_ARRAY_SIZE. split; [|by vm_compute]. split; [simpl; lia|].
  repeat constructor; simpl; lia.
Qed.

Lemma demo_event_fits : response_fits (WatchResponse 3 3 "/r/a").
Proof. cbn. unfold string_fits, MAX_STRING_OR_ARRAY_SIZE. split_and!; [done|done|simpl; lia]. Qed.

Lemma answer_reaches_callback_witness :
  let b := ListResponse ["x"] Stat0 in let r := (ResponseHeader0, b) in
  let c := demo_waiting (response_write (demo_header 1, b) [] ++ ["!"%char]) ∅ in
  receive_step "/r" (fun _ => false) PollReady c =
    Some (set_receive RcLoop (add_notes [Called 1 1 r] (set_watches {["/a" := [10%nat]]}
      (set_operations (delete 1 (operations c)) (set_last_received 1 (set_input ["!"%char] c)))))).
Proof.
  intros b r c. etransitivity.
  - apply (answer_reaches_callback "/r" (fun _ => false) c
      (mkRequestInfo (mkRequestHeader 1 true, ListRequest "/r/a") true (Some 1%nat) (Some 10%nat)) 1 (demo_header 1) b b "/a" ["!"%char]);
      try exact demo_list_fits; try (vm_compute; reflexivity).
    + cbn. unfold CLOSE_XID. lia.
    + by vm_compute.
    + by vm_compute.
    + by vm_compute.
  - vm_compute. reflexivity.
Defined.

Lemma event_fires_watches_witness :
  let b := WatchResponse 3 3 "/r/a" in let r := (ResponseHeader0, WatchResponse 3 3 "/a") in
  let c := demo_waiting (response_write (demo_header (-1), b) [] ++ ["!"%char]) {["/a" := [10%nat; 11%nat]]} in
  receive_step "/r" (fun _ => false) PollReady c =
    Some (set_receive RcLoop (set_watches (delete "/a" (watches c)) (add_notes [Fired 10 r; Fired 11 r] (set_input ["!"%char] c)))).
Proof.
  intros b r c. etransitivity.
  - apply (event_fires_watches "/r" (fun _ => false) c (demo_header (-1)) 3 3 "/r/a" "/a" ["!"%char]);
      try exact demo_event_fits; try (vm_compute; reflexivity).
    + by vm_compute.
    + vm_compute. repeat constructor.
    + by vm_compute.
  - vm_compute. reflexivity.
Defined.

(** ** What the user of a chroot, or of a watch, meets *)

(** A client with a chroot cannot watch its root: the path sent is the chroot
    itself, [removeRootPath] refuses it when the server has answered, the callback
    is told that the connection is lost and the session ends. *)
Theorem chroot_root_watch_ends_session :
  told_of (demo_run "/r" (fun _ => false) ([CCall (ApiList "/") 1 (Some 10%nat)] ++ demo_send ++ demo_answer (demo_header 1, ListResponse [] Stat0)))
    = Some [(1%nat, 1, ZCONNECTIONLOSS)] /\
  finalizing <$> demo_run "/r" (fun _ => false) ([CCall (ApiList "/") 1 (Some 10%nat)] ++ demo_send ++ demo_answer (demo_header 1, ListResponse [] Stat0))
    = Some (Some (ByReceiver, FClose)) /\
  told_of (demo_run "/r" (fun _ => false) ([CCall (ApiList "/") 1 None] ++ demo_send ++ demo_answer (demo_header 1, ListResponse [] Stat0)))
    = Some [(1%nat, 1, ZOK)].
Proof. vm_compute. by split_and!. Qed.

(** At its end [finalize] calls the watches that are set and those in the queue, but not
    the watch of a request that waits for its answer: its callback is told, its
    watch never is. *)
Theorem unanswered_watch_dropped :
  let evs := [CCall (ApiGet "/a") 1 (Some 10%nat)] ++ demo_send ++ demo_close in
  told_of (demo_run "" (fun _ => false) evs) = Some [(1%nat, 1, ZCONNECTIONLOSS)] /\
  fired_of (demo_run "" (fun _ => false) evs) = Some [] /\
  finalizing <$> demo_run "" (fun _ => false) evs = Some (Some (ByUser, FDone)).
Proof. vm_compute. by split_and!. Qed.

(** A watch that throws is not forgotten: the receiving thread ends the session
    and [finalize] calls it, and the other watches of its path, a second time. *)
Theorem throwing_watch_called_twice :
  let evs := [CCall (ApiGet "/a") 1 (Some 10%nat)] ++ demo_send ++ demo_answer (demo_header 1, GetResponse "x" Stat0) ++
    [CCall (ApiGet "/a") 2 (Some 11%nat)] ++ demo_send ++ demo_answer (demo_header 2, GetResponse "x" Stat0) ++
    demo_answer (demo_header (-1), WatchResponse 3 3 "/a") in
  fired_of (demo_run "" (fun w => (w =? 11)%nat) (evs ++ [CFinalize] ++ demo_send ++ replicate 6 CFinalize)) = Some [10; 11; 10; 11]%nat /\
  fired_of (demo_run "" (fun _ => false) (evs ++ demo_close)) = Some [10; 11]%nat.
Proof. vm_compute. by split. Qed.

(** A path without a leading slash is found out by the sending thread, not by
    the method: the method returns, and the session ends for every user. *)
Theorem bad_path_ends_session :
  let evs := [CCall (ApiGet "a") 1 None] ++ take 4 demo_send in
  finalizing <$> demo_run "" (fun _ => false) evs = Some (Some (BySender, FExpire)) /\
  (returned ∘ notes) <$> demo_run "" (fun _ => false) evs = Some [(1%nat, 1)] /\
  written <$> demo_run "" (fun _ => false) evs = Some [].
Proof. vm_compute. by split_and!. Qed.
