(* ===== verification/ClientServer.v ===== *)
(** * The client's transactions on the server

    The constructor of a transaction of [Client] joined to the pipeline of the
    server: which way a transaction goes, and what is left of it. *)

From S2P Require Import Prelude Coordination DataTree Store Processor ProcessorSteps ProcessorTheorems.
From S2P Require Import ProcessorRuns StoreTheorems Wire WireRequests Pipeline PipelineTheorems Client.

(** The kind of a transaction is that of its last request. *)
Lemma multi_parts_kind acls r rs t t' parts :
  multi_parts acls t (rs ++ [r]) = Ok (t', parts) -> exists r', multi_part acls r = Ok (t', r').
Proof.
  revert t parts. induction rs as [|r0 rs IH]; intros t parts; cbn [app multi_parts].
  - destruct (multi_part acls r) as [[t1 r1]|f]; [|done]. intros [= <- _]. by exists r1.
  - destruct (multi_part acls r0) as [[t1 r1]|f]; [|done]. cbn.
    destruct (multi_parts acls t1 (rs ++ [r])) as [[t2 p2]|f] eqn:E; [|done]. intros [= <- _]. by eapply IH.
Qed.

(** A transaction that the client ends with a check is a read for the server,
    whatever it writes: every thread passes it to nobody but the processor of this
    server, and it never reaches the log. *)
Theorem transaction_with_check_is_read acls rs path v ne b :
  make_multi acls (rs ++ [CheckRequest path v ne]) = Ok b ->
  request_isReadRequest b = true /\
  forall s h alive alive_again leader a c d e, route alive alive_again leader (mkRequestForSession s (h, b) a c d e) = ToNobody.
Proof.
  unfold make_multi. destruct (multi_parts _ _ _) as [[t parts]|f] eqn:E; [|done]. intros [= <-].
  apply multi_parts_kind in E as [r' [= <- <-]]. split; [done|]. intros s h [] [] [] a c d e; done.
Qed.

Definition demo_transaction : list RequestBody := [SetRequest "/a" "y" (-1); CheckRequest "/a" (-1) false].

Lemma transaction_with_check_is_read_witness :
  exists b, make_multi [] demo_transaction = Ok b /\ request_isReadRequest b = true /\
  forall s h alive alive_again leader a c d e, route alive alive_again leader (mkRequestForSession s (h, b) a c d e) = ToNobody.
Proof.
  eexists. split; [reflexivity|].
  apply (transaction_with_check_is_read [] [SetRequest "/a" "y" (-1)] "/a" (-1) false). reflexivity.
Defined.

Definition demo_run (b : RequestBody) : list PEvent :=
  [PReceive demo_create] ++ demo_pass ++ [PTake 1000; PNone; PAppend true; PCommit] ++ replicate 14 (PRun demo_inputs) ++
  [PReceive (demo_of 3 b)] ++ demo_pass ++ replicate 14 (PRun demo_inputs).

(** What becomes of [/a] and of the log, after it was created through the log and
    [b] was sent. *)
Definition demo_outcome (b : RequestBody) : option (option string * nat) :=
  (fun p => (data <$> data_tree (proc_server (pl_processor p).2).1 !! "/a", length (pl_log p))) <$>
  pl_exec (fun _ => "h") false 1 10 (pipeline_init 1 demo_start) (demo_run b).

(** A write and then a check change the store and are in no log; the same requests the
    other way round wait for the log. *)
Lemma demo_transaction_outcome :
  (b ← make_multi [] demo_transaction; Ok (demo_outcome b)) = Ok (Some (Some "y", 1%nat)) /\
  (b ← make_multi [] (rev demo_transaction); Ok (demo_outcome b)) = Ok (Some (Some "x", 1%nat)).
Proof. vm_compute. by split. Qed.

(** ** What leaves a server *)

Section leaving.
Context `{IterOrder} (sha1_base64 : string -> string) (compat : bool) (parallel : nat) (max_batch_size : Z).
Abbreviation pl_steps := (pl_steps sha1_base64 compat parallel max_batch_size).

(** An entry of the log: of another leader, or of a write of this server. *)
Definition entry_of (evs : list PEvent) (d : bytes) : Prop :=
  PLog d ∈ evs \/ exists r, d = serializeKeeperRequest r /\ is_write (key r).

(** What this server hands to Raft or to the leader. *)
Record leaves_writes (evs : list PEvent) (p : Pipeline) : Prop := {
  lw_accumulator : Forall (fun r => is_write (key r)) (pl_batch p ++ pl_queue p);
  lw_forward : Forall (Forall (fun r => is_write (key r))) (pl_forward p);
  lw_log : Forall (entry_of evs) (pl_log p)
}.

Lemma leaves_writes_mono evs ev p p' :
  leaves_writes evs p -> pl_batch p' ++ pl_queue p' = pl_batch p ++ pl_queue p -> pl_forward p' = pl_forward p ->
  (pl_log p' = pl_log p \/ exists l, pl_log p' = pl_log p ++ l /\ Forall (entry_of (evs ++ [ev])) l) ->
  leaves_writes (evs ++ [ev]) p'.
Proof.
  intros [Ha Hf Hl] Ea Ef El. assert (Forall (entry_of (evs ++ [ev])) (pl_log p)) as Hl'.
  { eapply Forall_impl; [exact Hl|]. intros d [Hd|Hd]; [left; by apply elem_of_app; left|by right]. }
  split; [by rewrite Ea|by rewrite Ef|]. destruct El as [->|(l & -> & Hn)]; [done|]. by apply Forall_app.
Qed.

Lemma route_write alive alive_again leader r : route alive alive_again leader r <> ToNobody -> is_write (key r).
Proof. unfold route, is_write. cbn. by destruct (request_isReadRequest _). Qed.

(** Over every run, whoever leads, nothing but writes leaves the server. *)
Lemma leaves_writes_reachable srv evs p : pl_steps (pipeline_init parallel srv) evs p -> leaves_writes evs p.
Proof.
  remember (pipeline_init parallel srv) as p0 eqn:E0. intros Hr. revert E0. induction Hr as [p|p evs p1 ev p2 Hr IH Hs]; intros ->.
  { split; [done| |done]. apply Forall_replicate. constructor. }
  specialize (IH eq_refl). pose proof IH as [Ha Hf Hl].
  destruct Hs; try (apply (leaves_writes_mono _ _ p1); [done|done|done|by left]).
  - eapply (leaves_writes_mono _ _ (pl_set_accumulator (pl_queue p1 ++ [r]) (pl_batch p1) (pl_pc p1) p1)); [|done|done|by left].
    split; [|done|done]. cbn. rewrite app_assoc. apply Forall_app. split; [done|]. constructor; [|done]. eapply route_write. by rewrite H1.
  - eapply (leaves_writes_mono _ _ (pl_set_forward (enqueue parallel r (pl_forward p1)) p1)); [|done|done|by left].
    split; [done| |done]. cbn. unfold enqueue. apply Forall_alter; [done|]. intros q _ Hq. apply Forall_app. split; [done|].
    constructor; [|done]. eapply route_write. by rewrite H1.
  - eapply (leaves_writes_mono _ _ (pl_set_accumulator q (pl_batch p1 ++ [set_process_time now r]) ATake p1)); [|done|done|by left].
    split; [|done|done]. cbn. rewrite H1 in Ha. apply Forall_app in Ha as [Hb [Hw Hq]%Forall_cons].
    rewrite <- app_assoc. apply Forall_app. split; [done|]. by constructor.
  - apply (leaves_writes_mono _ _ p1); [done|cbn; by rewrite H1|done|by left].
  - apply (leaves_writes_mono _ _ p1); [done|done|done|]. right. eexists. split; [done|]. destruct accepted; [|constructor].
    apply Forall_app in Ha as [Hb _]. apply Forall_fmap. eapply Forall_impl; [exact Hb|]. intros r Hw. right. by exists r.
  - eapply (leaves_writes_mono _ _ (pl_set_accumulator (pl_queue p1) [] ATake p1)); [|done|done|by left].
    apply Forall_app in Ha as [_ Hq]. by split.
  - apply (leaves_writes_mono _ _ p1); [done|done|done|]. right. exists [data]. split; [done|]. constructor; [|done]. left.
    apply elem_of_app. right. by left.
Qed.

(** C12: a transaction that the client ends with a check, whatever it writes before, is
    replicated by no server and yet applied. Over every run of a server that gets
    it, whoever leads, no request with this body is collected for the log, handed to
    the leader or in an entry that this server wrote; and processing it leaves the
    store as the write transaction with the same parts does. *)
Theorem client_transaction_not_replicated acls rs path v ne b :
  make_multi acls (rs ++ [CheckRequest path v ne]) = Ok b ->
  exists parts, b = MultiRequest OperationType_Read parts /\
    (forall srv evs p, pl_steps (pipeline_init parallel srv) evs p ->
       Forall (fun r => (request r).2 <> b) (pl_batch p ++ pl_queue p ++ concat (pl_forward p)) /\
       forall d, d ∈ pl_log p -> PLog d ∈ evs \/ exists r, d = serializeKeeperRequest r /\ (request r).2 <> b) /\
    forall h z sid time s,
      (process sha1_base64 compat (h, b) z sid time s).2 =
      (process sha1_base64 compat (h, MultiRequest OperationType_Write parts) z sid time s).2.
Proof.
  intros Hb. destruct (transaction_with_check_is_read _ _ _ _ _ _ Hb) as [Hrd _].
  unfold make_multi in Hb. destruct (multi_parts _ _ _) as [[t parts]|f] eqn:E; [|done]. injection Hb as <-.
  apply multi_parts_kind in E as [r' [= <- <-]]. exists parts.
  assert (forall r, is_write (key r) -> (request r).2 <> MultiRequest OperationType_Read parts) as Hne.
  { intros r Hw Er. unfold is_write in Hw. cbn in Hw. rewrite Er in Hw. done. }
  split; [done|]. split.
  - intros srv evs p [Ha Hf Hl]%leaves_writes_reachable. split.
    + rewrite app_assoc. apply Forall_app. split; [by eapply Forall_impl|]. apply Forall_concat. eapply Forall_impl; [exact Hf|].
      intros q Hq. by eapply Forall_impl.
    + intros d Hd. rewrite Forall_forall in Hl. destruct (Hl d Hd) as [?|(r & -> & Hw)]; [by left|]. right. eauto.
  - intros h z sid time s. unfold process, process_multi. cbn [snd sm_bind sm_lift].
    destruct (multi_operation_type parts) as [ot|f]; [|done]. unfold sm_bind, sm_lift. by destruct (multi_loop _ _ _ _ _ _ _ _ _ _) as [[]].
Qed.
End leaving.

Definition demo_parts : list ZooKeeperRequest :=
  [(mkRequestHeader 0 false, SetRequest "/a" "y" (-1)); (mkRequestHeader 0 false, CheckRequest "/a" (-1) false)].

Lemma demo_changed : exists p,
  pl_exec (fun _ => "h") false 1 10 (pipeline_init 1 demo_start) (demo_run (MultiRequest OperationType_Read demo_parts)) = Some p /\
  (data <$> data_tree (proc_server (pl_processor p).2).1 !! "/a", length (pl_log p)) = (Some "y", 1%nat).
Proof.
  assert ((fun p => (data <$> data_tree (proc_server (pl_processor p).2).1 !! "/a", length (pl_log p))) <$>
    pl_exec (fun _ => "h") false 1 10 (pipeline_init 1 demo_start) (demo_run (MultiRequest OperationType_Read demo_parts)) =
    Some (Some "y", 1%nat)) as Ho by (vm_compute; reflexivity).
  apply fmap_Some in Ho as (p & Ep & Ho). exists p. exact (conj Ep (eq_sym Ho)).
Qed.

(** The write and check above: the transaction was received and changed the store, and
    the log has the one entry of the creation. *)
Lemma client_transaction_not_replicated_witness :
  exists parts p, make_multi [] demo_transaction = Ok (MultiRequest OperationType_Read parts) /\
    pl_exec (fun _ => "h") false 1 10 (pipeline_init 1 demo_start) (demo_run (MultiRequest OperationType_Read parts)) = Some p /\
    (data <$> data_tree (proc_server (pl_processor p).2).1 !! "/a", length (pl_log p)) = (Some "y", 1%nat) /\
    Forall (fun r => (request r).2 <> MultiRequest OperationType_Read parts) (pl_batch p ++ pl_queue p ++ concat (pl_forward p)).
Proof.
  destruct (client_transaction_not_replicated (fun _ => "h") false 1 10 [] [SetRequest "/a" "y" (-1)] "/a" (-1) false
    (MultiRequest OperationType_Read demo_parts) eq_refl) as (parts & Ep & Hr & _).
  injection Ep as <-. exists demo_parts.
  destruct demo_changed as (p & Ep & Ho). exists p. split; [reflexivity|]. split; [exact Ep|]. split; [exact Ho|].
  exact (proj1 (Hr _ _ _ (pl_exec_sound _ _ _ _ _ _ _ Ep))).
Defined.
