(* ===== verification/Forward.v ===== *)
(** * Forwarding

    How a follower passes the writes of its sessions to the leader: the messages of
    [src/src/Service/ForwardRequest.h/.cpp] and [ForwardResponse.h/.cpp], the queue
    of the requests that were sent ([RequestForwarder.cpp]) and the leader's end of
    the connection ([ForwardConnectionHandler.cpp]). The numbers of NuRaft's result
    codes are arguments. *)

From S2P Require Import Prelude Coordination Processor Wire WireRequests Framing.

(** ** Messages *)

Inductive ForwardType :=
| ForwardHandshake
| ForwardSyncSessions
| ForwardNewSession
| ForwardUpdateSession
| ForwardUser
| ForwardDestroy.

#[export] Instance ForwardType_eq_dec : EqDecision ForwardType.
Proof. solve_decision. Defined.

Definition ForwardType_code (t : ForwardType) : Z :=
  match t with
  | ForwardHandshake => 1
  | ForwardSyncSessions => 2
  | ForwardNewSession => 3
  | ForwardUpdateSession => 4
  | ForwardUser => 5
  | ForwardDestroy => 6
  end.

Definition ForwardType_of_code (c : Z) : option ForwardType :=
  if c =? 1 then Some ForwardHandshake
  else if c =? 2 then Some ForwardSyncSessions
  else if c =? 3 then Some ForwardNewSession
  else if c =? 4 then Some ForwardUpdateSession
  else if c =? 5 then Some ForwardUser
  else if c =? 6 then Some ForwardDestroy
  else None.

(** The sessions of a synchronisation are in the order of the map that is sent. *)
Inductive ForwardRequest :=
| ForwardHandshakeRequest (server_id client_id : Z)
| ForwardSyncSessionsRequest (session_expiration_time : list (Z * Z))
| ForwardNewSessionRequest (request : ZooKeeperRequest)
| ForwardUpdateSessionRequest (request : ZooKeeperRequest)
| ForwardUserRequest (request : RequestForSession).

Definition forwardType (f : ForwardRequest) : ForwardType :=
  match f with
  | ForwardHandshakeRequest _ _ => ForwardHandshake
  | ForwardSyncSessionsRequest _ => ForwardSyncSessions
  | ForwardNewSessionRequest _ => ForwardNewSession
  | ForwardUpdateSessionRequest _ => ForwardUpdateSession
  | ForwardUserRequest _ => ForwardUser
  end.

(** [ForwardRequestFactory::convertFromRequest] *)
Definition convertFromRequest (r : RequestForSession) : ForwardRequest :=
  match request_getOpNum (request r).2 with
  | OpNewSession => ForwardNewSessionRequest (request r)
  | OpUpdateSession => ForwardUpdateSessionRequest (request r)
  | _ => ForwardUserRequest r
  end.

Definition forward_writeImpl (f : ForwardRequest) : bytes :=
  match f with
  | ForwardHandshakeRequest server_id client_id => write_i32 server_id ++ write_i32 client_id
  | ForwardSyncSessionsRequest sessions =>
      write_i32 (i32 (Z.of_nat (length sessions) * 16 + 4)) ++ write_i32 (i32 (Z.of_nat (length sessions))) ++
      concat ((fun p => write_i64 p.1 ++ write_i64 p.2) <$> sessions)
  | ForwardNewSessionRequest r | ForwardUpdateSessionRequest r => frame (request_buf r)
  | ForwardUserRequest r => frame (write_i64 (session_id r) ++ request_buf (request r))
  end.

Definition forward_write (f : ForwardRequest) : bytes := write_u8 (ForwardType_code (forwardType f)) ++ forward_writeImpl f.

(** A key that is there already keeps its value. *)
Fixpoint read_sessions (n : nat) (acc : list (Z * Z)) : Reader (list (Z * Z)) :=
  match n with
  | O => sm_ret acc
  | S n' =>
      (session <- read_i64 ;; expiration_time <- read_i64 ;;
       read_sessions n' (if decide (session ∈ acc.*1) then acc else acc ++ [(session, expiration_time)]))%sm
  end.

(** [readImpl] of the object the factory makes; it makes none for a handshake. *)
Definition forward_readImpl (t : ForwardType) : Reader ForwardRequest :=
  match t with
  | ForwardSyncSessions =>
      (session_size <- read_i32 ;; sessions <- read_sessions (Z.to_nat session_size) [] ;;
       sm_ret (ForwardSyncSessionsRequest sessions))%sm
  | ForwardNewSession => (r <- request_read ;; sm_ret (ForwardNewSessionRequest r))%sm
  | ForwardUpdateSession => (r <- request_read ;; sm_ret (ForwardUpdateSessionRequest r))%sm
  | ForwardUser =>
      (session <- read_i64 ;; r <- request_read ;;
       sm_ret (ForwardUserRequest (mkRequestForSession session r 0 0 (-1) (-1))))%sm
  | ForwardHandshake | ForwardDestroy => sm_fault (Throw UNEXPECTED_FORWARD_PACKET)
  end.

(** [requestForSession]: for a session request the identifier the request names.
    The cast of another request is null. *)
Definition requestForSession (f : ForwardRequest) : outcome RequestForSession :=
  match f with
  | ForwardHandshakeRequest _ _ => Fault (Throw NOT_IMPLEMENTED)
  | ForwardSyncSessionsRequest _ => Fault UndefinedBehaviour
  | ForwardNewSessionRequest (h, NewSessionRequest internal_id t s) =>
      Ok (mkRequestForSession internal_id (h, NewSessionRequest internal_id t s) 0 0 (-1) (-1))
  | ForwardUpdateSessionRequest (h, UpdateSessionRequest session_id t s) =>
      Ok (mkRequestForSession session_id (h, UpdateSessionRequest session_id t s) 0 0 (-1) (-1))
  | ForwardNewSessionRequest _ | ForwardUpdateSessionRequest _ => Fault UndefinedBehaviour
  | ForwardUserRequest r => Ok r
  end.

(** ** Responses *)

Inductive ForwardResponseBody :=
| ForwardHandshakeResponse
| ForwardSyncSessionsResponse
| ForwardNewSessionResponse (internal_id : Z)
| ForwardUpdateSessionResponse (session_id : Z)
| ForwardUserRequestResponse (session_id xid : Z) (opnum : OpNum)
| ForwardDestroyResponse.

Record ForwardResponse := mkForwardResponse {
  fwd_accepted : bool;
  fwd_error_code : Z;
  fwd_body : ForwardResponseBody
}.

Definition response_forwardType (b : ForwardResponseBody) : ForwardType :=
  match b with
  | ForwardHandshakeResponse => ForwardHandshake
  | ForwardSyncSessionsResponse => ForwardSyncSessions
  | ForwardNewSessionResponse _ => ForwardNewSession
  | ForwardUpdateSessionResponse _ => ForwardUpdateSession
  | ForwardUserRequestResponse _ _ _ => ForwardUser
  | ForwardDestroyResponse => ForwardDestroy
  end.

Section codes.
Context (code_of : cmd_result_code -> Z) (of_code : Z -> cmd_result_code).

(** [makeResponse], and [setAppendEntryResult]. *)
Definition forward_makeResponse (f : ForwardRequest) : outcome ForwardResponseBody :=
  match f with
  | ForwardHandshakeRequest _ _ => Ok ForwardHandshakeResponse
  | ForwardSyncSessionsRequest _ => Ok ForwardSyncSessionsResponse
  | ForwardNewSessionRequest (_, NewSessionRequest internal_id _ _) => Ok (ForwardNewSessionResponse internal_id)
  | ForwardUpdateSessionRequest (_, UpdateSessionRequest session_id _ _) => Ok (ForwardUpdateSessionResponse session_id)
  | ForwardNewSessionRequest _ | ForwardUpdateSessionRequest _ => Fault UndefinedBehaviour
  | ForwardUserRequest r =>
      Ok (ForwardUserRequestResponse (session_id r) (xid (request r).1) (request_getOpNum (request r).2))
  end.

Definition append_entry_result (accepted : bool) (code : cmd_result_code) (f : ForwardRequest) : outcome ForwardResponse :=
  b ← forward_makeResponse f; Ok (mkForwardResponse accepted (code_of code) b).

Definition forward_response_writeImpl (b : ForwardResponseBody) : bytes :=
  match b with
  | ForwardNewSessionResponse internal_id => write_i64 internal_id
  | ForwardUpdateSessionResponse session_id => write_i64 session_id
  | ForwardUserRequestResponse session_id xid opnum => write_i64 session_id ++ write_i64 xid ++ write_OpNum opnum
  | _ => []
  end.

Definition forward_response_write (r : ForwardResponse) : bytes :=
  write_u8 (ForwardType_code (response_forwardType (fwd_body r))) ++ write_bool (fwd_accepted r) ++
  write_i32 (fwd_error_code r) ++ forward_response_writeImpl (fwd_body r).

(** [ForwardConnection::receive] *)
Definition forward_receive : Reader ForwardResponse :=
  (type <- read_u8 ;;
   match ForwardType_of_code type with
   | Some ForwardSyncSessions =>
       accepted <- read_bool ;; code <- read_i32 ;; sm_ret (mkForwardResponse accepted code ForwardSyncSessionsResponse)
   | Some ForwardNewSession =>
       accepted <- read_bool ;; code <- read_i32 ;; internal_id <- read_i64 ;;
       sm_ret (mkForwardResponse accepted code (ForwardNewSessionResponse internal_id))
   | Some ForwardUpdateSession =>
       accepted <- read_bool ;; code <- read_i32 ;; session_id <- read_i64 ;;
       sm_ret (mkForwardResponse accepted code (ForwardUpdateSessionResponse session_id))
   | Some ForwardUser =>
       accepted <- read_bool ;; code <- read_i32 ;; session_id <- read_i64 ;; x <- read_i64 ;; opnum <- read_OpNum ;;
       sm_ret (mkForwardResponse accepted code (ForwardUserRequestResponse session_id x opnum))
   | _ => sm_fault (Throw UNEXPECTED_FORWARD_PACKET)
   end)%sm.

(** [match]: whether the response is that of the request. *)
Definition forward_match (b : ForwardResponseBody) (f : ForwardRequest) : bool :=
  match b, f with
  | ForwardSyncSessionsResponse, ForwardSyncSessionsRequest _ => true
  | ForwardNewSessionResponse i, ForwardNewSessionRequest (_, NewSessionRequest internal_id _ _) => internal_id =? i
  | ForwardUpdateSessionResponse i, ForwardUpdateSessionRequest (_, UpdateSessionRequest session_id _ _) => session_id =? i
  | ForwardUserRequestResponse s x _, ForwardUserRequest r => (session_id r =? s) && (xid (request r).1 =? x)
  | _, _ => false
  end.

(** [onError]: the error the request processor is told, if any. *)
Definition forward_onError (r : ForwardResponse) : option ErrorRequest :=
  match fwd_body r with
  | ForwardNewSessionResponse i =>
      Some (mkErrorRequest (fwd_accepted r) (of_code (fwd_error_code r)) i (-256) OpNewSession)
  | ForwardUpdateSessionResponse i =>
      Some (mkErrorRequest (fwd_accepted r) (of_code (fwd_error_code r)) i (-512) OpUpdateSession)
  | ForwardUserRequestResponse s x op => Some (mkErrorRequest (fwd_accepted r) (of_code (fwd_error_code r)) s x op)
  | _ => None
  end.

(** ** The queue of a runner *)

(** The requests that were sent, with the time in microseconds. *)
Abbreviation SentQueue := (list (Z * ForwardRequest)).

(** [removeFromQueue], with [findAndRemove] *)
Fixpoint removeFromQueue (b : ForwardResponseBody) (q : SentQueue) : option (ForwardRequest * SentQueue) :=
  match q with
  | [] => None
  | (t, f) :: q' =>
      if bool_decide (forwardType f = response_forwardType b) && forward_match b f then Some (f, q')
      else '(x, rest) ← removeFromQueue b q'; Some (x, (t, f) :: rest)
  end.

(** [processResponse]: the queue, and the error that is reported. *)
Definition processResponse (r : ForwardResponse) (q : SentQueue) : SentQueue * option ErrorRequest :=
  match removeFromQueue (fwd_body r) q with
  | None => (q, None)
  | Some (_, q') => (q', if fwd_accepted r then None else forward_onError r)
  end.

(** [processTimeoutRequest]: what timed out at the front, with its errors. *)
Fixpoint processTimeoutRequest (operation_timeout now : Z) (q : SentQueue) : outcome (SentQueue * list ErrorRequest) :=
  match q with
  | [] => Ok ([], [])
  | (t, f) :: q' =>
      if t + operation_timeout <? now then
        r ← append_entry_result false RC_TIMEOUT f;
        '(rest, es) ← processTimeoutRequest operation_timeout now q';
        Ok (rest, option_list (forward_onError r) ++ es)
      else Ok (q, [])
  end.

(** The errors of [shutdown] for the requests that were sent. *)
Fixpoint shutdown_errors (q : SentQueue) : outcome (list ErrorRequest) :=
  match q with
  | [] => Ok []
  | (_, f) :: q' =>
      r ← append_entry_result false RC_FAILED f; es ← shutdown_errors q'; Ok (option_list (forward_onError r) ++ es)
  end.

(** One request of [runSend]. [connection] is false when there is none, [delivered]
    when [send] throws: it throws after the request is in the queue. *)
Definition send_request (is_leader leader_alive connection delivered : bool) (now : Z) (r : RequestForSession) (q : SentQueue)
    : SentQueue * option ErrorRequest :=
  let failed := Some (mkErrorRequest false RC_FAILED (session_id r) (xid (request r).1) (request_getOpNum (request r).2)) in
  if is_leader || negb leader_alive || negb connection then (q, failed)
  else (q ++ [(now, convertFromRequest r)], if delivered then None else failed).

(** The sessions [runSend] sends from time to time. *)
Definition send_sessions (now : Z) (sessions : list (Z * Z)) (q : SentQueue) : SentQueue :=
  match sessions with [] => q | _ => q ++ [(now, ForwardSyncSessionsRequest sessions)] end.
End codes.

(** ** The leader's end *)

(** [current_package], [req_header_buf] of one byte, [req_body_len_buf] of four, and
    [req_body_buf], whose capacity is the length of the body. *)
Record ForwardReceiver := mkForwardReceiver {
  package_type : option ForwardType;
  is_done : bool;
  body_len_buf : bytes;
  body_buf : option (nat * bytes);
  fwd_server_id : Z;
  fwd_client_id : Z
}.

Definition forward_receiver_init : ForwardReceiver := mkForwardReceiver None true [] None (-1) (-1).

(** What a pass of the loop does. *)
Inductive ForwardPass :=
| PassMore (c : ForwardReceiver)
| PassDestroy (c : ForwardReceiver)
| PassHandshake (c : ForwardReceiver)
| PassRequest (t : ForwardType) (f : outcome ForwardRequest) (c : ForwardReceiver).

(** The handler is done with the package; it is not when an exception of it was
    caught. *)
Definition package_done (c : ForwardReceiver) : ForwardReceiver :=
  mkForwardReceiver (package_type c) true (body_len_buf c) None (fwd_server_id c) (fwd_client_id c).

(** With the bytes [buf] of a body of [n]. *)
Definition body_part (t : ForwardType) (n : nat) (buf len_buf : bytes) (c : ForwardReceiver) : ForwardPass :=
  let c' := mkForwardReceiver (package_type c) false len_buf (Some (n, buf)) (fwd_server_id c) (fwd_client_id c) in
  if (length buf <? n)%nat then PassMore c' else PassRequest t (forward_readImpl t buf).1 c'.

(** The socket's bytes for the type, a handshake or a length, and those for a body. A
    buffer of a negative length cannot be allocated. *)
Definition forward_pass (chunk body_chunk : bytes) (c : ForwardReceiver) : ForwardPass :=
  if is_done c then
    match chunk with
    | [] => PassMore c
    | b :: _ =>
        match ForwardType_of_code (of_byte b) with
        | Some ForwardDestroy | None => PassDestroy c
        | Some t => PassMore (mkForwardReceiver (Some t) false (body_len_buf c) (body_buf c) (fwd_server_id c) (fwd_client_id c))
        end
    end
  else
    match package_type c with
    | Some ForwardHandshake =>
        let '(n, buf) := default (8%nat, []) (body_buf c) in
        let buf' := buf ++ chunk in
        if (length buf' <? n)%nat
        then PassMore (mkForwardReceiver (package_type c) false (body_len_buf c) (Some (n, buf')) (fwd_server_id c) (fwd_client_id c))
        else
          PassHandshake (mkForwardReceiver (package_type c) true (body_len_buf c) None
                           (i32 (le_value (rev (take 4 buf')))) (i32 (le_value (rev (drop 4 buf')))))
    | Some t =>
        match body_buf c with
        | Some (n, buf) => body_part t n (buf ++ body_chunk) (body_len_buf c) c
        | None =>
            let len_buf := body_len_buf c ++ chunk in
            if (length len_buf <? 4)%nat
            then PassMore (mkForwardReceiver (package_type c) false len_buf None (fwd_server_id c) (fwd_client_id c))
            else
              let body_len := i32 (le_value (rev len_buf)) in
              if body_len <? 0 then PassDestroy c else body_part t (Z.to_nat body_len) body_chunk [] c
        end
    | None => PassDestroy c
    end.

(** What the leader does with a request: push it to the dispatcher, take over the
    times of sessions, or answer that it failed. *)
Inductive ForwardAction :=
| ActPush (r : RequestForSession)
| ActSessions (sessions : list (Z * Z))
| ActFail.

(** [processUserOrSessionRequest] and [processSyncSessionsRequest], with the [catch]
    around them: [room] is false when the queue of the dispatcher stays full. A
    request that could not be read has no [ZooKeeperRequest] the answer could
    name. *)
Definition process_package (room : bool) (now : Z) (t : ForwardType) (f : outcome ForwardRequest) (c : ForwardReceiver)
    : outcome (ForwardAction * ForwardReceiver) :=
  match f with
  | Ok (ForwardSyncSessionsRequest sessions) => Ok (ActSessions sessions, package_done c)
  | Ok f =>
      r ← requestForSession f;
      if bool_decide (request_getOpNum (request r).2 = OpClose) || room
      then Ok (ActPush (mkRequestForSession (session_id r) (request r) now (process_time r) (fwd_server_id c) (fwd_client_id c)),
               package_done c)
      else Ok (ActFail, c)
  | Fault (Throw _) => if decide (t = ForwardSyncSessions) then Ok (ActFail, c) else Fault UndefinedBehaviour
  | Fault fl => Fault fl
  end.

(** ** The callbacks of forward connections *)

(** The connections that live, with the server and client of their handshake. *)
Record ForwardConn := mkForwardConn {
  fc_id : Z * Z;
  fc_responses : list ForwardResponse
}.

Record ForwardFront := mkForwardFront {
  forward_response_callbacks : gmap (Z * Z) nat;
  forward_live : gmap nat ForwardConn
}.

Abbreviation FwdM := (SM ForwardFront).

Definition set_forward_callbacks (m : gmap (Z * Z) nat) (f : ForwardFront) : ForwardFront := mkForwardFront m (forward_live f).
Definition set_forward_live (m : gmap nat ForwardConn) (f : ForwardFront) : ForwardFront :=
  mkForwardFront (forward_response_callbacks f) m.

(** [sendResponse], of a connection that may have been deleted. *)
Definition sendResponse (r : ForwardResponse) (c : nat) : FwdM unit := fun f =>
  match forward_live f !! c with
  | None => (Fault UndefinedBehaviour, f)
  | Some k => (Ok tt, set_forward_live (<[c := mkForwardConn (fc_id k) (fc_responses k ++ [r])]> (forward_live f)) f)
  end.

(** The connection before gets a Destroy. *)
Definition registerForwarderResponseCallBack (id : Z * Z) (c : nat) : FwdM unit := fun f =>
  ((match forward_response_callbacks f !! id with
    | Some old => sendResponse (mkForwardResponse true 0 ForwardDestroyResponse) old
    | None => sm_ret tt
    end) ;;;
   sm_modify (fun f => set_forward_callbacks (<[id := c]> (forward_response_callbacks f)) f))%sm f.

Definition unRegisterForwarderResponseCallBack (id : Z * Z) (f : ForwardFront) : ForwardFront :=
  set_forward_callbacks (delete id (forward_response_callbacks f)) f.

Definition invokeForwardResponseCallBack (id : Z * Z) (r : ForwardResponse) : FwdM unit := fun f =>
  match forward_response_callbacks f !! id with
  | None => (Ok tt, f)
  | Some c => sendResponse r c f
  end.

(** The server's end is [{-1, -1}] until its handshake. *)
Definition forward_accept (c : nat) (f : ForwardFront) : ForwardFront :=
  set_forward_live (<[c := mkForwardConn (-1, -1) []]> (forward_live f)) f.

Definition processHandshake (server client : Z) (c : nat) : FwdM unit := fun f =>
  match forward_live f !! c with
  | None => (Fault UndefinedBehaviour, f)
  | Some k =>
      (registerForwarderResponseCallBack (server, client) c ;;;
       invokeForwardResponseCallBack (server, client) (mkForwardResponse true 0 ForwardHandshakeResponse))%sm
        (set_forward_live (<[c := mkForwardConn (server, client) (fc_responses k)]> (forward_live f)) f)
  end.

Definition forward_destroyMe (c : nat) : FwdM unit := fun f =>
  match forward_live f !! c with
  | None => (Fault UndefinedBehaviour, f)
  | Some k =>
      (Ok tt, set_forward_live (delete c (forward_live f)) (unRegisterForwarderResponseCallBack (fc_id k) f))
  end.

(** [onSocketWritable]: as many responses as [send_buf] has room for, here the first
    [room], are taken from the queue and written, until one of them is a Destroy. *)
Definition forward_writable (room : nat) (c : nat) : FwdM unit := fun f =>
  match forward_live f !! c with
  | None => (Fault UndefinedBehaviour, f)
  | Some k =>
      if existsb (fun r => bool_decide (response_forwardType (fwd_body r) = ForwardDestroy)) (take room (fc_responses k))
      then forward_destroyMe c f
      else (Ok tt, set_forward_live (<[c := mkForwardConn (fc_id k) (drop room (fc_responses k))]> (forward_live f)) f)
  end.

(** ** Connections to the other servers *)

(** [initConnections]: the endpoints of the new configuration are compared with
    those of the old one, in the order of the maps; a connection is as many as
    there are runners, here the endpoint they go to. *)
Definition update_connections (new_config : list (Z * string)) (config connections : list (Z * string))
    : list (Z * string) * list (Z * string) :=
  foldl (fun '(config, connections) '(server, endpoint) =>
           if decide ((server, endpoint) ∈ config) then (config, connections)
           else
             let without (l : list (Z * string)) := filter (fun p => p.1 <> server) l in
             (if decide (server ∈ config.*1)
              then (fun p => if decide (p.1 = server) then (server, endpoint) else p) <$> config
              else config ++ [(server, endpoint)],
              without connections ++ [(server, endpoint)]))
    (config, connections) new_config.

(** The loop that removes servers: the connection it erases is that of the server
    the iterator is at after the erase. *)
Fixpoint remove_connections (new_config : list (Z * string)) (config connections : list (Z * string))
    : outcome (list (Z * string) * list (Z * string)) :=
  match config with
  | [] => Ok ([], connections)
  | (server, endpoint) :: config' =>
      if decide (server ∈ new_config.*1) then
        '(kept, connections') ← remove_connections new_config config' connections; Ok ((server, endpoint) :: kept, connections')
      else
        match config' with
        | [] => Fault UndefinedBehaviour
        | (next, _) :: _ => remove_connections new_config config' (filter (fun p => p.1 <> next) connections)
        end
  end.
