(* ===== verification/ForwardTheorems.v ===== *)
(** * What forwarding promises

    The leader pushes to its dispatcher the request the follower was sent; its
    answer finds that request again; a request leaves the follower's queue once.
    And where the code does not keep this up. *)

From S2P Require Import Prelude Coordination Processor Wire WireRequests Framing FramingTheorems Forward.
From S2P Require Import ProcessorSteps Pipeline PipelineTheorems.

(** ** Requests *)

Lemma ForwardType_code_of t : ForwardType_of_code (ForwardType_code t) = Some t.
Proof. by destruct t. Qed.

Lemma ForwardType_code_u8 t : in_u8 (ForwardType_code t).
Proof. by destruct t. Qed.

(** The identifier of a session request is that of its session. *)
Definition own_session (r : RequestForSession) : Prop :=
  match (request r).2 with
  | NewSessionRequest i _ _ => session_id r = i
  | UpdateSessionRequest i _ _ => session_id r = i
  | _ => True
  end.

(** What a follower forwards. *)
Definition forward_body (r : RequestForSession) : bytes :=
  match convertFromRequest r with
  | ForwardUserRequest _ => write_i64 (session_id r) ++ request_buf (request r)
  | _ => request_buf (request r)
  end.

Lemma forward_write_convert r :
  forward_write (convertFromRequest r) =
  write_u8 (ForwardType_code (forwardType (convertFromRequest r))) ++ frame (forward_body r).
Proof. unfold forward_write, forward_body, convertFromRequest. by destruct (request_getOpNum (request r).2). Qed.

Lemma read_converted r :
  sendable r -> own_session r ->
  exists f r', forward_readImpl (forwardType (convertFromRequest r)) (forward_body r) = (Ok f, []) /\
    requestForSession f = Ok r' /\ key r' = key r /\ process_time r' = 0.
Proof.
  intros [Hf Hs] Hown. unfold forward_body.
  assert (forall b, request_read (request_buf (request r) ++ b) = (Ok (request r), b)) as Hread by (intros b; by rewrite read_write).
  specialize (Hread []). rewrite app_nil_r in Hread.
  destruct (request_getOpNum (request r).2) eqn:Eop; unfold convertFromRequest; rewrite Eop; cbn [forwardType forward_readImpl];
    try (eexists _, _; split; [rewrite wire_bind by done; cbn [sm_bind]; rewrite Hread; reflexivity|done]).
  - cbn [sm_bind]. rewrite Hread. clear Hread. destruct r as [s [h b] ct pt si ci]. cbn in *.
    destruct b; cbn in Eop; try (by repeat case_match); try done. unfold own_session in Hown. cbn in Hown. subst s.
    by eexists _, _.
  - cbn [sm_bind]. rewrite Hread. clear Hread. destruct r as [s [h b] ct pt si ci]. cbn in *.
    destruct b; cbn in Eop; try (by repeat case_match); try done. unfold own_session in Hown. cbn in Hown. subst s.
    by eexists _, _.
Qed.

(** *** However the socket cuts the bytes *)

(** How many bytes a pass may take for the type, a handshake or a length, and then for
    the body: a FIFO buffer takes no more than it has room for. *)
Definition chunk_room (c : ForwardReceiver) : nat :=
  if is_done c then 1
  else
    match package_type c, body_buf c with
    | Some ForwardHandshake, _ => 8 - length (default (8%nat, []) (body_buf c)).2
    | _, Some _ => 0
    | _, None => 4 - length (body_len_buf c)
    end.

Definition body_room (chunk : bytes) (c : ForwardReceiver) : nat :=
  if is_done c then 0
  else
    match package_type c, body_buf c with
    | Some ForwardHandshake, _ | None, _ => 0
    | Some _, Some (n, buf) => n - length buf
    | Some _, None =>
        let len_buf := body_len_buf c ++ chunk in
        if (length len_buf <? 4)%nat then 0 else Z.to_nat (i32 (le_value (rev len_buf)))
    end.

Definition fits (chunk body : bytes) (c : ForwardReceiver) : Prop :=
  (length chunk <= chunk_room c)%nat /\ (length body <= body_room chunk c)%nat.

(** Passes of the loop, with the bytes they took and what the leader did; its
    dispatcher has room for the requests. *)
Inductive forward_reads (c0 : ForwardReceiver) : bytes -> list ForwardAction -> ForwardReceiver -> Prop :=
| fr_init : forward_reads c0 [] [] c0
| fr_more taken acts c1 chunk body c2 :
    forward_reads c0 taken acts c1 -> fits chunk body c1 -> forward_pass chunk body c1 = PassMore c2 ->
    forward_reads c0 (taken ++ chunk ++ body) acts c2
| fr_request taken acts c1 chunk body t f c2 now act c3 :
    forward_reads c0 taken acts c1 -> fits chunk body c1 -> forward_pass chunk body c1 = PassRequest t f c2 ->
    process_package true now t f c2 = Ok (act, c3) -> forward_reads c0 (taken ++ chunk ++ body) (acts ++ [act]) c3.

Definition idle (c : ForwardReceiver) : Prop := is_done c = true /\ body_len_buf c = [] /\ body_buf c = None.

(** What a follower can forward. *)
Definition forwardable (r : RequestForSession) : Prop := sendable r /\ own_session r /\ short (forward_body r).

Definition message (r : RequestForSession) : bytes := forward_write (convertFromRequest r).

(** The request is pushed, marked with the follower it came from. *)
Definition pushed (c : ForwardReceiver) (act : ForwardAction) (r : RequestForSession) : Prop :=
  exists r', act = ActPush r' /\ key r' = key r /\ (server_id r', client_id r') = (fwd_server_id c, fwd_client_id c).

(** What was taken of the message that is not complete. *)
Definition begun (c : ForwardReceiver) : bytes :=
  if is_done c then []
  else match package_type c with Some t => write_u8 (ForwardType_code t) | None => [] end ++
       match body_buf c with Some (n, buf) => write_i32 (Z.of_nat n) ++ buf | None => body_len_buf c end.

Abbreviation type_of r := (forwardType (convertFromRequest r)).

Inductive phase (c : ForwardReceiver) (rs : list RequestForSession) : Prop :=
| ph_idle : idle c -> phase c rs
| ph_length r rs' :
    rs = r :: rs' -> is_done c = false -> package_type c = Some (type_of r) -> body_buf c = None ->
    (length (body_len_buf c) < 4)%nat -> phase c rs
| ph_body r rs' buf :
    rs = r :: rs' -> is_done c = false -> package_type c = Some (type_of r) -> body_len_buf c = [] ->
    body_buf c = Some (length (forward_body r), buf) -> (length buf < length (forward_body r))%nat -> phase c rs.

Lemma type_of_cases r : type_of r = ForwardNewSession \/ type_of r = ForwardUpdateSession \/ type_of r = ForwardUser.
Proof. unfold convertFromRequest. destruct (request_getOpNum (request r).2); auto. Qed.

Lemma not_handshake {A} r (h x : A) : match type_of r with ForwardHandshake => h | _ => x end = x.
Proof. by destruct (type_of_cases r) as [->|[->| ->]]. Qed.

Lemma prefix_split (a b x y : bytes) : length a = length b -> a ++ x `prefix_of` b ++ y -> a = b /\ x `prefix_of` y.
Proof. intros Hl [k E]. rewrite <- app_assoc in E. symmetry in E. apply app_inj_1 in E as [-> <-]; [|done]. by split; [|eexists]. Qed.

Lemma prefix_within (a b x : bytes) : (length a <= length b)%nat -> a `prefix_of` b ++ x -> a `prefix_of` b.
Proof.
  intros Hl Hp. destruct (prefix_weak_total a b (b ++ x) Hp (prefix_app_r _ _ _ (reflexivity b))) as [H|H]; [done|].
  by rewrite (prefix_length_eq _ _ H Hl).
Qed.

Lemma length_read body : short body -> i32 (le_value (rev (write_i32 (Z.of_nat (length body))))) = Z.of_nat (length body).
Proof.
  unfold short. intros Hs. change (header_value (write_i32 (Z.of_nat (length body))) = Z.of_nat (length body)).
  pose proof (header_value_write (write_i32 (Z.of_nat (length body))) (length_write_int 4 _)) as E.
  apply (f_equal (fun b => b ++ [])) in E. apply write_i32_app_inj in E as [E _]; [done|apply i32_range|unfold in_i32; lia].
Qed.

(** A body of which all is there. *)
Lemma body_complete c r len_buf buf : forwardable r -> buf = forward_body r -> package_type c = Some (type_of r) ->
  exists f c2, body_part (type_of r) (length (forward_body r)) buf len_buf c = PassRequest (type_of r) (Ok f) c2 /\
    forall now, exists act, process_package true now (type_of r) (Ok f) c2 = Ok (act, package_done c2) /\ pushed c act r /\
      (fwd_server_id (package_done c2), fwd_client_id (package_done c2)) = (fwd_server_id c, fwd_client_id c) /\
      body_len_buf (package_done c2) = len_buf.
Proof.
  intros (Hs & Hown & _) -> Ht. destruct (read_converted r Hs Hown) as (f & r' & Hread & Hreq & Hk & Hpt).
  unfold body_part. rewrite Nat.ltb_irrefl, Hread. eexists f, _. split; [done|]. intros now. eexists. split_and!.
  - unfold process_package. destruct f as [|sessions| | |]; try done; rewrite Hreq; cbn; rewrite orb_true_r; reflexivity.
  - by eexists.
  - done.
  - done.
Qed.

(** Where the loop is after it took these bytes of the messages of [rs]. *)
Definition reading (c0 : ForwardReceiver) (rs : list RequestForSession) (taken : bytes) (acts : list ForwardAction)
    (c : ForwardReceiver) : Prop :=
  exists done rest, rs = done ++ rest /\ Forall2 (pushed c0) acts done /\ taken = concat (message <$> done) ++ begun c /\
    (fwd_server_id c, fwd_client_id c) = (fwd_server_id c0, fwd_client_id c0) /\ phase c rest.

(** What a pass makes of the next bytes. *)
Definition pass_goes_on (c0 : ForwardReceiver) (rs : list RequestForSession) (taken : bytes) (acts : list ForwardAction)
    (pass : ForwardPass) : Prop :=
  match pass with
  | PassMore c2 => reading c0 rs taken acts c2
  | PassRequest t f c2 => forall now, exists act c3, process_package true now t f c2 = Ok (act, c3) /\ reading c0 rs taken (acts ++ [act]) c3
  | PassDestroy _ | PassHandshake _ => False
  end.

Lemma message_frame r : message r = write_u8 (ForwardType_code (type_of r)) ++ write_i32 (Z.of_nat (length (forward_body r))) ++ forward_body r.
Proof. apply forward_write_convert. Qed.

(** The end of a body: the request is pushed and the loop idle. *)
Lemma body_end c0 c done r rest acts taken buf :
  Forall2 (pushed c0) acts done -> forwardable r -> (fwd_server_id c, fwd_client_id c) = (fwd_server_id c0, fwd_client_id c0) ->
  package_type c = Some (type_of r) -> buf `prefix_of` forward_body r -> 
  taken = concat (message <$> done) ++ write_u8 (ForwardType_code (type_of r)) ++ write_i32 (Z.of_nat (length (forward_body r))) ++ buf ->
  pass_goes_on c0 (done ++ r :: rest) taken acts (body_part (type_of r) (length (forward_body r)) buf [] c).
Proof.
  intros Hd Hr Hids Ht Hp Htk. pose proof (prefix_length _ _ Hp) as Hlen.
  destruct (Nat.ltb_spec (length buf) (length (forward_body r))) as [Hlt|Hge].
  - unfold body_part. rewrite (proj2 (Nat.ltb_lt _ _)) by done. exists done, (r :: rest). split_and!; [done|done| |done|].
    + unfold begun. cbn. by rewrite Ht.
    + by eapply ph_body.
  - assert (buf = forward_body r) as Eb.
    { destruct Hp as [k Ek]. rewrite Ek, length_app in Hge. destruct k; [by rewrite app_nil_r in Ek|cbn in Hge; lia]. }
    destruct (body_complete c r [] buf Hr Eb Ht) as (f & c2 & -> & Hpr). intros now. destruct (Hpr now) as (act & E & Hact & Hid2 & Hl2).
    exists act, (package_done c2). split; [done|]. exists (done ++ [r]), rest. rewrite <- app_assoc. split_and!; [done| | |congruence|].
    + apply Forall2_app; [done|]. constructor; [|done]. destruct Hact as (r' & -> & Hk & Hid). exists r'. by rewrite Hid.
    + unfold begun. cbn [is_done package_done]. rewrite app_nil_r, fmap_app, concat_app. cbn [fmap list_fmap concat].
      by rewrite app_nil_r, message_frame, Htk, Eb.
    + by apply ph_idle.
Qed.

Lemma pass_reading c0 rs taken acts c chunk body :
  Forall forwardable rs -> reading c0 rs taken acts c -> fits chunk body c ->
  taken ++ chunk ++ body `prefix_of` concat (message <$> rs) ->
  pass_goes_on c0 rs (taken ++ chunk ++ body) acts (forward_pass chunk body c).
Proof.
  intros Hrs (done & rest & -> & Hd & -> & Hids & Hph) [Hc Hb] Hp.
  rewrite fmap_app, concat_app, <- app_assoc in Hp. apply prefix_app_inv in Hp. apply Forall_app in Hrs as [_ Hrs].
  unfold forward_pass. unfold chunk_room, body_room in Hc, Hb.
  destruct Hph as [(Hdn & Hl & Hbb)|r rest' -> Hdn Ht Hbb Hl|r rest' buf -> Hdn Ht Hl Hbb Hlt]; unfold begun in *; rewrite Hdn in *.
  - assert (body = []) as -> by (destruct body; [done|cbn in Hb; lia]). cbn [app] in Hp. rewrite !app_nil_r in *.
    destruct chunk as [|b [|? ?]]; [|destruct rest as [|r rest]|cbn in Hc; lia].
    + exists done, rest. split_and!; [done|done| |done|by apply ph_idle]. unfold begun. by rewrite Hdn.
    + apply prefix_nil_not in Hp. done.
    + cbn [fmap list_fmap concat] in Hp. rewrite message_frame, <- app_assoc in Hp.
      rewrite <- (app_nil_r [b]) in Hp. apply prefix_split in Hp as [Eb _]; [|by destruct (type_of_cases r) as [->|[->| ->]]].
      assert (of_byte b = ForwardType_code (type_of r)) as ->.
      { unfold write_u8 in Eb. injection Eb as ->. rewrite of_byte_of. apply Z.mod_small. apply ForwardType_code_u8. }
      rewrite ForwardType_code_of.
      assert (pass_goes_on c0 (done ++ r :: rest) (concat (message <$> done) ++ [b]) acts
        (PassMore (mkForwardReceiver (Some (type_of r)) false (body_len_buf c) (body_buf c) (fwd_server_id c) (fwd_client_id c)))) as Hgo.
      { exists done, (r :: rest). split_and!; [done|done| |done|]; [|by eapply ph_length; cbn; rewrite ?Hl; [..|lia]].
        unfold begun. cbn [is_done package_type body_buf body_len_buf]. by rewrite Hl, Hbb, app_nil_r, Eb. }
      by destruct (type_of_cases r) as [Et|[Et|Et]]; rewrite Et in *.
  - rewrite Ht, Hbb, !not_handshake in Hc, Hb. rewrite Ht, Hbb in Hp. rewrite Ht, Hbb, not_handshake.
    apply Forall_cons in Hrs as [Hr _]. cbn [fmap list_fmap concat] in Hp. rewrite message_frame, <- !app_assoc in Hp.
    apply prefix_app_inv in Hp. rewrite app_assoc in Hp. set (len_buf := body_len_buf c ++ chunk) in *.
    assert (length len_buf <= 4)%nat as Hle by (unfold len_buf; rewrite length_app; lia).
    destruct (Nat.ltb_spec (length len_buf) 4) as [Hlt|Hge].
    + assert (body = []) as -> by (destruct body; [done|cbn in Hb; lia]). rewrite app_nil_r.
      exists done, (r :: rest'). split_and!; [done|done| |done|by eapply ph_length]. unfold begun, len_buf. cbn. by rewrite <- !app_assoc.
    + apply prefix_split in Hp as [El Hp]; [|unfold write_i32; rewrite length_write_int; lia]. rewrite El in Hb |- *.
      assert (i32 (le_value (rev (write_i32 (Z.of_nat (length (forward_body r)))))) = Z.of_nat (length (forward_body r))) as Ei
        by (apply length_read; apply Hr). rewrite Ei in Hb |- *. rewrite Nat2Z.id in *.
      rewrite (proj2 (Z.ltb_ge _ _)) by lia. apply body_end; try done.
      * by eapply prefix_within.
      * rewrite <- !app_assoc. do 2 f_equal. by rewrite app_assoc, <- El.
  - rewrite Ht, Hbb, !not_handshake in Hc, Hb. rewrite Ht, Hbb in Hp. rewrite Ht, Hbb, not_handshake.
    assert (chunk = []) as -> by (destruct chunk; [done|cbn in Hc; lia]). cbn [app] in *.
    apply Forall_cons in Hrs as [Hr _]. cbn [fmap list_fmap concat] in Hp. rewrite message_frame, <- !app_assoc in Hp.
    apply prefix_app_inv, prefix_app_inv in Hp. rewrite Hl. apply body_end; try done.
    + eapply prefix_within; [|exact Hp]. rewrite length_app. lia.
    + by rewrite <- !app_assoc.
Qed.

Lemma prefix_weaken (a x l : bytes) : a ++ x `prefix_of` l -> a `prefix_of` l.
Proof. intros [k ->]. exists (x ++ k). by rewrite app_assoc. Qed.

(** The beginning of a message is no message. *)
Lemma begun_incomplete c rs : phase c rs -> concat (message <$> rs) = begun c -> rs = [] /\ idle c.
Proof.
  intros [Hid|r rs' -> Hd Ht Hbb Hl|r rs' buf -> Hd Ht Hl Hbb Hlt] E.
  - split; [|done]. unfold begun in E. destruct Hid as [Hd _]. rewrite Hd in E. destruct rs as [|r rs]; [done|].
    cbn [fmap list_fmap concat] in E. rewrite message_frame in E. apply (f_equal length) in E. rewrite !length_app in E. cbn in E. lia.
  - exfalso. unfold begun in E. rewrite Hd, Ht, Hbb in E. cbn [fmap list_fmap concat] in E. rewrite message_frame, <- !app_assoc in E.
    apply app_inv_head, (f_equal length) in E. unfold write_i32 in E. rewrite !length_app, length_write_int in E. lia.
  - exfalso. unfold begun in E. rewrite Hd, Ht, Hbb in E. cbn [fmap list_fmap concat] in E. rewrite message_frame, <- !app_assoc in E.
    apply app_inv_head, app_inv_head, (f_equal length) in E. rewrite length_app in E. lia.
Qed.

(** C31: what a follower writes is what the leader pushes to its dispatcher,
    however the socket cuts the bytes. After the handshake, when the bytes of the
    messages of [rs] were taken, in any pieces the buffers have room for, the leader
    has pushed exactly these requests in their order, each with its session and marked
    with the follower it came from, and waits for the next message; and at no point on
    the way does it give up the connection or fail to go on. The dispatcher of the
    leader has room, and the requests are ones the codecs can carry. *)
Theorem forwarded_requests_arrive rs c0 taken acts c :
  Forall forwardable rs -> idle c0 -> forward_reads c0 taken acts c ->
  (taken = concat (message <$> rs) -> Forall2 (pushed c0) acts rs /\ idle c) /\
  (forall chunk body, fits chunk body c -> taken ++ chunk ++ body `prefix_of` concat (message <$> rs) ->
     match forward_pass chunk body c with
     | PassMore _ => True
     | PassRequest t f c2 => forall now, exists r' c3, process_package true now t f c2 = Ok (ActPush r', c3)
     | PassDestroy _ | PassHandshake _ => False
     end).
Proof.
  intros Hrs Hi Hr. assert (taken `prefix_of` concat (message <$> rs) -> reading c0 rs taken acts c) as Hrd.
  { induction Hr as [|taken acts c1 chunk body c2 _ IH Hf E|taken acts c1 chunk body t f c2 now act c3 _ IH Hf E Ep]; intros Hp.
    - exists [], rs. split_and!; [done|constructor| |done|by apply ph_idle]. unfold begun. destruct Hi as [-> _]. done.
    - pose proof (pass_reading _ _ _ _ _ _ _ Hrs (IH (prefix_weaken _ _ _ Hp)) Hf Hp) as Hgo. by rewrite E in Hgo.
    - pose proof (pass_reading _ _ _ _ _ _ _ Hrs (IH (prefix_weaken _ _ _ Hp)) Hf Hp) as Hgo. rewrite E in Hgo.
      destruct (Hgo now) as (act' & c3' & Ep' & Hrd). rewrite Ep in Ep'. by injection Ep' as <- <-. }
  split.
  - intros ->. destruct (Hrd (reflexivity _)) as (done & rest & -> & Hd & Ht & _ & Hph).
    rewrite fmap_app, concat_app in Ht. apply app_inv_head in Ht. destruct (begun_incomplete _ _ Hph Ht) as [-> Hid].
    by rewrite app_nil_r.
  - intros chunk body Hf Hp. pose proof (pass_reading _ _ _ _ _ _ _ Hrs (Hrd (prefix_weaken _ _ _ Hp)) Hf Hp) as Hgo.
    destruct (forward_pass chunk body c) as [| | |t f c2]; try done. intros now.
    destruct (Hgo now) as (act & c3 & E & done & rest & _ & Hd & _). apply Forall2_app_inv_l in Hd as (d1 & d2 & _ & Hd & _).
    apply Forall2_cons_inv_l in Hd as (r & ? & (r' & -> & _) & _). by exists r', c3.
Qed.

(** A message that is forwarded by a follower with number 2, cut in the length and in
    the body. *)
Definition demo_forwarded : RequestForSession := mkRequestForSession 5 sample_request 11 0 (-1) (-1).

Definition demo_follower : ForwardReceiver := mkForwardReceiver None true [] None 2 0.
Definition demo_bytes : bytes := concat (message <$> [demo_forwarded]).
Definition demo_more (chunk body : bytes) (c : ForwardReceiver) : ForwardReceiver :=
  match forward_pass chunk body c with PassMore c2 => c2 | _ => c end.
Definition demo_typed : ForwardReceiver := demo_more (take 1 demo_bytes) [] demo_follower.
Definition demo_half : ForwardReceiver := demo_more (take 2 (drop 1 demo_bytes)) [] demo_typed.
Definition demo_begun : ForwardReceiver := demo_more (take 2 (drop 3 demo_bytes)) (take 3 (drop 5 demo_bytes)) demo_half.

Lemma demo_reads : exists act c, forward_reads demo_follower demo_bytes [act] c.
Proof.
  assert (forward_pass (take 1 demo_bytes) [] demo_follower = PassMore demo_typed) as E1 by (vm_compute; reflexivity).
  assert (forward_pass (take 2 (drop 1 demo_bytes)) [] demo_typed = PassMore demo_half) as E2 by (vm_compute; reflexivity).
  assert (forward_pass (take 2 (drop 3 demo_bytes)) (take 3 (drop 5 demo_bytes)) demo_half = PassMore demo_begun) as E3
    by (vm_compute; reflexivity).
  assert (exists t f c2 act c3, forward_pass [] (drop 8 demo_bytes) demo_begun = PassRequest t f c2 /\
    process_package true 12 t f c2 = Ok (act, c3)) as (t & f & c2 & act & c3 & E4 & E5)
    by (eexists _, _, _, _, _; split; vm_compute; reflexivity).
  exists act, c3.
  assert (demo_bytes = ((([] ++ take 1 demo_bytes ++ []) ++ take 2 (drop 1 demo_bytes) ++ []) ++ take 2 (drop 3 demo_bytes) ++
    take 3 (drop 5 demo_bytes)) ++ [] ++ drop 8 demo_bytes) as Eb by (vm_compute; reflexivity). rewrite Eb. clear Eb.
  eapply (fr_request _ _ [] demo_begun); [|split; vm_compute; lia|exact E4|exact E5].
  eapply (fr_more _ _ [] demo_half); [|split; vm_compute; lia|exact E3].
  eapply (fr_more _ _ [] demo_typed); [|split; vm_compute; lia|exact E2].
  eapply (fr_more _ _ [] demo_follower); [constructor|split; vm_compute; lia|exact E1].
Qed.

Lemma forwarded_requests_arrive_witness : exists act c, Forall2 (pushed demo_follower) [act] [demo_forwarded] /\ idle c.
Proof.
  destruct demo_reads as (act & c & Hr). exists act, c.
  refine (proj1 (forwarded_requests_arrive [demo_forwarded] demo_follower demo_bytes [act] c _ _ Hr) eq_refl); [|done].
  constructor; [|constructor]. split_and!; [split; [apply sample_request_fits|by vm_compute]|done|by vm_compute].
Defined.

(** ** Responses *)

Definition response_body_fits (b : ForwardResponseBody) : Prop :=
  match b with
  | ForwardHandshakeResponse | ForwardDestroyResponse => False
  | ForwardSyncSessionsResponse => True
  | ForwardNewSessionResponse i => in_i64 i
  | ForwardUpdateSessionResponse i => in_i64 i
  | ForwardUserRequestResponse s x op => in_i64 s /\ in_i64 x /\ op <> OpUnspecified
  end.

Lemma forward_response_roundtrip r rest :
  response_body_fits (fwd_body r) -> in_i32 (fwd_error_code r) ->
  forward_receive (forward_response_write r ++ rest) = (Ok r, rest).
Proof.
  destruct r as [accepted code b]. cbn [fwd_body fwd_error_code]. intros Hb Hc.
  unfold forward_receive, forward_response_write. cbn [fwd_body fwd_error_code fwd_accepted]. rewrite <- !app_assoc.
  rewrite wire_bind by apply ForwardType_code_u8. rewrite ForwardType_code_of.
  destruct b as [| |i|i|s x op|]; try done; cbn [response_forwardType forward_response_writeImpl]; cbn in Hb.
  - rewrite !wire_bind by done. done.
  - rewrite !wire_bind by done. done.
  - rewrite !wire_bind by done. done.
  - destruct Hb as (Hs & Hx & Ho). rewrite <- !app_assoc. rewrite !wire_bind by done. done.
Qed.

Section codes.
Context (code_of : cmd_result_code -> Z) (of_code : Z -> cmd_result_code).

(** The codes of NuRaft, which are different numbers of 32 bits. *)
Context (raft_code : cmd_result_code -> Prop).
Context (code_fits : forall c, raft_code c -> in_i32 (code_of c)) (code_id : forall c, raft_code c -> of_code (code_of c) = c).

(** Two requests of the same session and number have the same answer. *)
Lemma response_of_same_key r r' accepted code :
  key r' = key r -> append_entry_result code_of accepted code (convertFromRequest r') =
  append_entry_result code_of accepted code (convertFromRequest r).
Proof.
  destruct r as [s q ct pt si ci], r' as [s' q' ct' pt' si' ci']. intros [= -> ->]. unfold convertFromRequest. cbn.
  by destruct (request_getOpNum q.2).
Qed.

Lemma removeFromQueue_first b q1 t f q2 :
  Forall (fun p => bool_decide (forwardType p.2 = response_forwardType b) && forward_match b p.2 = false) q1 ->
  bool_decide (forwardType f = response_forwardType b) && forward_match b f = true ->
  removeFromQueue b (q1 ++ (t, f) :: q2) = Some (f, q1 ++ q2).
Proof.
  intros Hq Hf. induction Hq as [|[t' f'] q1 Hx _ IH]; cbn [app removeFromQueue]; [by rewrite Hf|]. cbn in Hx. rewrite Hx.
  cbn [app] in IH. by rewrite IH.
Qed.

(** The error the follower reports for its request. *)
Definition forward_error (accepted : bool) (code : cmd_result_code) (r : RequestForSession) : ErrorRequest :=
  mkErrorRequest accepted code (session_id r)
    match (request r).2 with NewSessionRequest _ _ _ => -256 | UpdateSessionRequest _ _ _ => -512 | _ => xid (request r).1 end
    (request_getOpNum (request r).2).

Lemma forward_response_view r accepted code :
  own_session r -> raft_code code ->
  exists resp, append_entry_result code_of accepted code (convertFromRequest r) = Ok resp /\
    fwd_accepted resp = accepted /\ fwd_error_code resp = code_of code /\
    bool_decide (forwardType (convertFromRequest r) = response_forwardType (fwd_body resp)) &&
      forward_match (fwd_body resp) (convertFromRequest r) = true /\
    forward_onError of_code resp = Some (forward_error accepted code r) /\
    (sendable r -> response_body_fits (fwd_body resp)).
Proof.
  destruct r as [s [h b] ct pt si ci]. unfold own_session, forward_error, sendable, request_fits. cbn.
  intros Hown Hcode%code_id. unfold convertFromRequest, append_entry_result. cbn.
  assert (in_i32 (xid h) -> in_i64 (xid h)) as Hx by (unfold in_i32, in_i64; lia).
  destruct b; cbn; repeat case_match; simplify_eq/=; eexists; (split; [reflexivity|]); cbn;
    rewrite ?Z.eqb_refl, ?Hcode; cbn; split_and!; try done; rewrite ?Z.eqb_refl; try done; intros [[? ?] ?]; try (split_and!; by auto); by auto.
Qed.

(** The answer of the leader settles the request of the follower: carried over
    the connection, it takes exactly this request from the queue of those that were
    sent, and the processor is told of it exactly when the leader did not accept
    it. *)
Theorem forward_answer_settles_request r r' accepted code q1 q2 t rest :
  sendable r -> own_session r -> raft_code code -> key r' = key r ->
  (forall resp, append_entry_result code_of accepted code (convertFromRequest r) = Ok resp ->
     Forall (fun p => bool_decide (forwardType p.2 = response_forwardType (fwd_body resp)) && forward_match (fwd_body resp) p.2 = false) q1) ->
  exists resp, append_entry_result code_of accepted code (convertFromRequest r') = Ok resp /\
    forward_receive (forward_response_write resp ++ rest) = (Ok resp, rest) /\
    processResponse of_code resp (q1 ++ (t, convertFromRequest r) :: q2) =
      (q1 ++ q2, if accepted then None else Some (forward_error accepted code r)).
Proof.
  intros Hs Hown Hcode Hk Hq. destruct (forward_response_view r accepted code Hown Hcode) as (resp & E & Ha & Hc & Hm & He & Hfits).
  exists resp. split; [by rewrite (response_of_same_key r r')|]. split.
  - apply forward_response_roundtrip; [by apply Hfits|]. rewrite Hc. by apply code_fits.
  - unfold processResponse. rewrite removeFromQueue_first; [|by apply Hq|done]. by rewrite Ha, He.
Qed.

Definition sent_at (p : Z * RequestForSession) : Z * ForwardRequest := (p.1, convertFromRequest p.2).

(** The requests that timed out at the front of the queue leave it, each with one
    error to the processor, and the first that did not stops the search. *)
Theorem timed_out_requests_reported operation_timeout now l :
  raft_code RC_TIMEOUT -> Forall (fun p => own_session p.2) l ->
  exists l1 l2, l = l1 ++ l2 /\ Forall (fun p => p.1 + operation_timeout < now) l1 /\
    (forall p, head l2 = Some p -> now <= p.1 + operation_timeout) /\
    processTimeoutRequest code_of of_code operation_timeout now (sent_at <$> l) =
      Ok (sent_at <$> l2, (fun p => forward_error false RC_TIMEOUT p.2) <$> l1).
Proof.
  intros Hcode. induction 1 as [|[t r] l Hown _ (l1 & l2 & -> & H1 & H2 & E)]; [by exists [], []|]. cbn in Hown.
  cbn [fmap list_fmap sent_at fst snd processTimeoutRequest].
  destruct (Z.ltb_spec (t + operation_timeout) now) as [Hlt|Hge].
  - exists ((t, r) :: l1), l2. split_and!; [done|by constructor|done|].
    destruct (forward_response_view r false RC_TIMEOUT Hown Hcode) as (resp & -> & _ & _ & _ & He & _). cbn.
    by rewrite E, He.
  - exists [], ((t, r) :: l1 ++ l2). split_and!; [done|by apply Forall_nil|by intros ? [= <-]|done].
Qed.

(** When Raft accepts a batch and fails it later, as after a timeout, a request
    of a session of the leader gets an error, and the same request of a session of a
    follower gets none: the follower looks at whether the batch was accepted only. *)
Theorem accepted_failure_told_only_locally r q :
  raft_code RC_TIMEOUT -> own_session r -> isForwardRequest r = false ->
  result_errors true RC_TIMEOUT [r] = [request_error true RC_TIMEOUT r] /\
  exists resp, append_entry_result code_of true RC_TIMEOUT (convertFromRequest r) = Ok resp /\
    processResponse of_code resp ((0, convertFromRequest r) :: q) = (q, None).
Proof.
  intros Hcode Hown Hfw. split; [unfold result_errors; rewrite bool_decide_false by done; cbn [andb]; by rewrite filter_cons_True|].
  destruct (forward_response_view r true RC_TIMEOUT Hown Hcode) as (resp & E & Ha & _ & Hm & _). exists resp. split; [done|].
  unfold processResponse. change ((0, convertFromRequest r) :: q) with ([] ++ (0, convertFromRequest r) :: q). rewrite removeFromQueue_first; [|by apply Forall_nil|done]. by rewrite Ha.
Qed.
End codes.

(** ** Runs *)

Definition demo_code (c : cmd_result_code) : Z :=
  match c with RC_OK => 0 | RC_CANCELLED => -1 | RC_TIMEOUT => -2 | RC_NOT_LEADER => -3 | RC_FAILED => -32768 | RC_other code => code end.
Definition demo_of_code (c : Z) : cmd_result_code :=
  if c =? 0 then RC_OK else if c =? -1 then RC_CANCELLED else if c =? -2 then RC_TIMEOUT
  else if c =? -3 then RC_NOT_LEADER else if c =? -32768 then RC_FAILED else RC_other c.
Definition demo_raft_code (c : cmd_result_code) : Prop := match c with RC_other _ => False | _ => True end.

Lemma demo_code_fits c : demo_raft_code c -> in_i32 (demo_code c).
Proof. by destruct c. Qed.

Lemma demo_code_id c : demo_raft_code c -> demo_of_code (demo_code c) = c.
Proof. by destruct c. Qed.

Definition demo_write : RequestForSession :=
  mkRequestForSession 5 (mkRequestHeader 7 false, RemoveRequest "/a" (-1)) 11 0 (-1) (-1).

Lemma demo_write_sendable : sendable demo_write.
Proof. split; [|by vm_compute]. split; [by vm_compute|]. cbn. split_and!; try done; by vm_compute. Qed.

Lemma forward_answer_settles_request_witness :
  exists resp, append_entry_result demo_code false RC_NOT_LEADER (convertFromRequest demo_write) = Ok resp /\
    forward_receive (forward_response_write resp ++ []) = (Ok resp, []) /\
    processResponse demo_of_code resp ([] ++ (0, convertFromRequest demo_write) :: []) =
      ([] ++ [], Some (forward_error false RC_NOT_LEADER demo_write)).
Proof.
  apply (forward_answer_settles_request demo_code demo_of_code demo_raft_code demo_code_fits demo_code_id demo_write demo_write
           false RC_NOT_LEADER [] [] 0 []); try done; apply demo_write_sendable.
Defined.

Lemma timed_out_requests_reported_witness :
  exists l1 l2, [(10, demo_write); (50, demo_write)] = l1 ++ l2 /\ Forall (fun p => p.1 + 20 < 40) l1 /\
    (forall p, head l2 = Some p -> 40 <= p.1 + 20) /\
    processTimeoutRequest demo_code demo_of_code 20 40 (sent_at <$> [(10, demo_write); (50, demo_write)]) =
      Ok (sent_at <$> l2, (fun p => forward_error false RC_TIMEOUT p.2) <$> l1).
Proof.
  apply (timed_out_requests_reported demo_code demo_of_code demo_raft_code demo_code_id 20 40); [done|]. by repeat constructor.
Defined.

Lemma accepted_failure_told_only_locally_witness :
  result_errors true RC_TIMEOUT [demo_write] = [request_error true RC_TIMEOUT demo_write] /\
  exists resp, append_entry_result demo_code true RC_TIMEOUT (convertFromRequest demo_write) = Ok resp /\
    processResponse demo_of_code resp ((0, convertFromRequest demo_write) :: []) = ([], None).
Proof. by apply (accepted_failure_told_only_locally demo_code demo_of_code demo_raft_code demo_code_id). Defined.

(** A forwarded request that the leader cannot push to its dispatcher in time is
    answered as failed, but its package is not done: with the next bytes it is
    processed again, and may be pushed then. *)
Theorem failed_package_processed_again :
  let c := mkForwardReceiver None true [] None 2 0 in
  exists c1 c2 f r, forward_pass (write_u8 5) [] c = PassMore c1 /\
    forward_pass (write_i32 (Z.of_nat (length (forward_body demo_write)))) (forward_body demo_write) c1 = PassRequest ForwardUser (Ok f) c2 /\
    process_package false 11 ForwardUser (Ok f) c2 = Ok (ActFail, c2) /\
    forward_pass [] [] c2 = PassRequest ForwardUser (Ok f) c2 /\
    process_package true 12 ForwardUser (Ok f) c2 = Ok (ActPush r, package_done c2) /\ key r = key demo_write.
Proof.
  set (c2 := mkForwardReceiver (Some ForwardUser) false [] (Some (length (forward_body demo_write), forward_body demo_write)) 2 0).
  exists (mkForwardReceiver (Some ForwardUser) false [] None 2 0), c2,
    (ForwardUserRequest (mkRequestForSession 5 (request demo_write) 0 0 (-1) (-1))),
    (mkRequestForSession 5 (request demo_write) 12 0 2 0).
  split_and!; vm_compute; reflexivity.
Qed.

(** When a follower connects again, the leader closes its old connection, and by
    that removes the callback of the new one: the new connection lives, and the
    answers to its requests are dropped. *)
Theorem reconnected_follower_loses_callback r :
  let run := (processHandshake 2 0 1 ;;; sm_modify (forward_accept 2) ;;; processHandshake 2 0 2 ;;; forward_writable 2 1)%sm in
  exists f, run (forward_accept 1 (mkForwardFront ∅ ∅)) = (Ok tt, f) /\
    forward_live f = {[2%nat := mkForwardConn (2, 0) [mkForwardResponse true 0 ForwardHandshakeResponse]]} /\
    invokeForwardResponseCallBack (2, 0) r f = (Ok tt, f).
Proof. eexists. split; [vm_compute; reflexivity|]. split; vm_compute; reflexivity. Qed.

(** When a server is removed from the configuration, the connections that are
    erased are those of the server after it in the map, which is still in the
    configuration; when it is the last of the map the result is undefined. *)
Theorem removed_server_loses_others_connections :
  let two := [(2, "b:8102"); (3, "c:8102")] in
  remove_connections [(3, "c:8102")] two two = Ok ([(3, "c:8102")], [(2, "b:8102")]) /\
  remove_connections [(2, "b:8102")] two two = Fault UndefinedBehaviour.
Proof. split; vm_compute; reflexivity. Qed.
