(* ===== verification/Replay.v ===== *)
(** * Replaying the log at start

    [NuRaftStateMachine::replayLogs] of [src/src/Service/NuRaftStateMachine.cpp]:
    one thread loads batches of log entries and queues them, the other applies
    them to the store. Every access to what they share, the queue and
    [batch_start_index], is a step of its own, so that the runs of the model are
    all the interleavings of the two threads.

    The log is the function the loader reads through [log_entries_version_ext]:
    the content of an entry of the application, [None] for another entry. [clock]
    is the time at which the entry with an index is applied. *)

From S2P Require Import Prelude Coordination Sessions DataTree Store Wire WireRequests.

(** [ReplayLogBatch]: its range and its requests, null for other entries. *)
Record ReplayLogBatch := mkReplayBatch {
  batch_start : Z;
  batch_end : Z;
  requests : list (option RequestForSession)
}.

Definition REPLAY_BATCH : Z := 10000.

(** The checks before the threads start; [false] is the early return. *)
Definition replay_checks (start_index next_slot from to : Z) : outcome bool :=
  let last_index_in_store := u64 (next_slot - 1) in
  if decide (last_index_in_store = 0) then Ok false
  else if decide (from > last_index_in_store) then Fault (Throw STALE_LOG)
  else if decide (from < start_index) then Fault (Throw GAP_BETWEEN_SNAPSHOT_AND_LOG)
  else if decide (to > last_index_in_store) then Fault (Throw LOGICAL_ERROR)
  else Ok true.

Inductive LoaderPc :=
| LTest                              (* while (batch_start_index < to) *)
| LWait                              (* while (log_queue.size() > 10) *)
| LPush (batch : ReplayLogBatch)     (* log_queue.push(batch) *)
| LStore (end_index : Z)             (* batch_start_index.store(batch_end_index) *)
| LDone
| LThrown (f : fault).

Inductive ApplierPc :=
| AOuterQueue                        (* while (!log_queue.empty() || ... *)
| AOuterIndex                        (*        batch_start_index < to) *)
| AInnerQueue                        (* while (log_queue.empty() && ... *)
| AInnerIndex                        (*        batch_start_index != to) *)
| APeek                              (* log_queue.peek(batch) *)
| AApply (batch : ReplayLogBatch) (i : nat)
| APop (batch : ReplayLogBatch)      (* log_queue.pop(); last_committed_idx = ... *)
| AExit
| AThrown (f : fault).

Record Replay := mkReplay {
  batch_start_index : Z;
  log_queue : list ReplayLogBatch;
  loader : LoaderPc;
  applier : ApplierPc;
  server : Server;
  last_committed : Z
}.

Section replay.
Context `{IterOrder} (sha1_base64 : string -> string) (compat : bool).
Context (log : Z -> option bytes) (clock : Z -> Z) (to : Z).

Definition decode (entry : option bytes) : outcome (option RequestForSession) :=
  match entry with
  | None => Ok None
  | Some data => r ← deserializeKeeperRequest data; Ok (Some r)
  end.

Fixpoint decode_all (entries : list (option bytes)) : outcome (list (option RequestForSession)) :=
  match entries with
  | [] => Ok []
  | e :: entries' => r ← decode e; rs ← decode_all entries'; Ok (r :: rs)
  end.

Definition log_entries (first last : Z) : list (option bytes) := log <$> seqZ first (last - first).

(** The batch [[start, end)), [end] being at most [to + 1]. *)
Definition end_index (start : Z) : Z :=
  if decide (u64 (start + REPLAY_BATCH) > u64 (to + 1)) then u64 (to + 1) else u64 (start + REPLAY_BATCH).

Definition load_batch (start : Z) : outcome ReplayLogBatch :=
  rs ← decode_all (log_entries start (end_index start)); Ok (mkReplayBatch start (end_index start) rs).

Definition with_loader (pc : LoaderPc) (st : Replay) : Replay :=
  mkReplay (batch_start_index st) (log_queue st) pc (applier st) (server st) (last_committed st).
Definition with_applier (pc : ApplierPc) (st : Replay) : Replay :=
  mkReplay (batch_start_index st) (log_queue st) (loader st) pc (server st) (last_committed st).

Definition loader_step (st : Replay) : Replay :=
  match loader st with
  | LTest => with_loader (if decide (batch_start_index st < to) then LWait else LDone) st
  | LWait =>
      if decide (10 < length (log_queue st))%nat then st
      else match load_batch (batch_start_index st) with
           | Ok batch => with_loader (LPush batch) st
           | Fault f => with_loader (LThrown f) st
           end
  | LPush batch =>
      mkReplay (batch_start_index st) (log_queue st ++ [batch]) (LStore (batch_end batch)) (applier st)
        (server st) (last_committed st)
  | LStore index =>
      mkReplay index (log_queue st) LTest (applier st) (server st) (last_committed st)
  | LDone | LThrown _ => st
  end.

(** [store.processRequest(responses_queue, *request, {}, true, true)]; other
    entries are skipped. *)
Definition apply_entry (index : Z) (r : option RequestForSession) (srv : Server) : outcome unit * Server :=
  match r with
  | None => (Ok tt, srv)
  | Some r => processRequest sha1_base64 compat (clock index) r None true true srv
  end.

Definition applier_step (st : Replay) : Replay :=
  match applier st with
  | AOuterQueue => with_applier (if decide (log_queue st = []) then AOuterIndex else AInnerQueue) st
  | AOuterIndex => with_applier (if decide (batch_start_index st < to) then AInnerQueue else AExit) st
  | AInnerQueue => with_applier (if decide (log_queue st = []) then AInnerIndex else APeek) st
  | AInnerIndex => with_applier (if decide (batch_start_index st <> to) then AInnerQueue else APeek) st
  | APeek =>
      match log_queue st with
      | [] => with_applier AExit st
      | batch :: _ => with_applier (AApply batch 0) st
      end
  | AApply batch i =>
      match requests batch !! i with
      | None => with_applier (APop batch) st
      | Some r =>
          match apply_entry (batch_start batch + Z.of_nat i) r (server st) with
          | (Ok _, srv) =>
              mkReplay (batch_start_index st) (log_queue st) (loader st) (AApply batch (S i)) srv (last_committed st)
          | (Fault f, srv) =>
              mkReplay (batch_start_index st) (log_queue st) (loader st) (AThrown f) srv (last_committed st)
          end
      end
  | APop batch =>
      mkReplay (batch_start_index st) (drop 1 (log_queue st)) (loader st) AOuterQueue (server st)
        (u64 (batch_end batch - 1))
  | AExit | AThrown _ => st
  end.

Definition replay_start (from : Z) (srv : Server) (committed : Z) : Replay :=
  mkReplay from [] LTest AOuterQueue srv committed.

(** The threads take turns as a schedule says: [true] is the loader. *)
Definition replay_step (turn : bool) (st : Replay) : Replay := if turn then loader_step st else applier_step st.
Definition replay_run (schedule : list bool) (st : Replay) : Replay := fold_left (fun st b => replay_step b st) schedule st.
End replay.
