(* ===== verification/ReplayTheorems.v ===== *)
(** * What replaying the log achieves

    Over all interleavings of the two threads of
    [NuRaftStateMachine::replayLogs]: the store is always the result of a prefix
    of the log, and the index it is left with is the end of that prefix. That
    the whole log is replayed, or that the function returns, does not hold. *)

From S2P Require Import Prelude Coordination Sessions DataTree Store Wire WireRequests Replay.

Section theorems.
Context `{IterOrder} (sha1_base64 : string -> string) (compat : bool).
Context (log : Z -> option bytes) (clock : Z -> Z) (from to : Z) (srv0 : Server).
Context (Hrange : 0 <= from <= to) (Hto : to + REPLAY_BATCH < 2 ^ 64).

Local Abbreviation entry := (apply_entry sha1_base64 compat clock).
Local Abbreviation loads := (loader_step log to).
Local Abbreviation applies := (applier_step sha1_base64 compat clock to).
Local Abbreviation step := (replay_step sha1_base64 compat log clock to).
Local Abbreviation run := (replay_run sha1_base64 compat log clock to).
Local Abbreviation start := (replay_start from srv0 (from - 1)).

(** ** The reference: one entry after the other *)

Fixpoint apply_entries (i : Z) (rs : list (option RequestForSession)) (srv : Server) : outcome unit * Server :=
  match rs with
  | [] => (Ok tt, srv)
  | r :: rs' =>
      match entry i r srv with
      | (Ok _, srv') => apply_entries (i + 1) rs' srv'
      | (Fault f, srv') => (Fault f, srv')
      end
  end.

(** [srv] is [srv0] with the entries from [from] up to [n], without it. *)
Definition replayed (n : Z) (srv : Server) : Prop :=
  exists rs, decode_all (log_entries log from n) = Ok rs /\ apply_entries from rs srv0 = (Ok tt, srv).

Lemma apply_entries_app i rs rs' srv srv' :
  apply_entries i rs srv = (Ok tt, srv') ->
  apply_entries i (rs ++ rs') srv = apply_entries (i + Z.of_nat (length rs)) rs' srv'.
Proof.
  revert i srv. induction rs as [|r rs IH]; intros i srv E; cbn in *.
  - injection E as ->. by rewrite Z.add_0_r.
  - destruct (entry i r srv) as [[u|f] s']; [|done]. rewrite (IH _ _ E). f_equal. lia.
Qed.

Lemma decode_all_app es es' rs rs' :
  decode_all es = Ok rs -> decode_all es' = Ok rs' -> decode_all (es ++ es') = Ok (rs ++ rs').
Proof.
  revert rs. induction es as [|e es IH]; intros rs E E'; cbn in *; [by injection E as <-|].
  destruct (decode e) as [r|f]; [|done]. cbn in *. destruct (decode_all es) as [rs1|f]; [|done].
  injection E as <-. by rewrite (IH rs1).
Qed.

Lemma decode_all_length es rs : decode_all es = Ok rs -> length rs = length es.
Proof.
  revert rs. induction es as [|e es IH]; intros rs E; cbn in *; [by injection E as <-|].
  destruct (decode e) as [r|f]; [|done]. cbn in *. destruct (decode_all es) as [rs1|f]; [|done].
  injection E as <-. cbn. f_equal. by apply IH.
Qed.

Lemma log_entries_app a b c :
  a <= b <= c -> log_entries log a c = log_entries log a b ++ log_entries log b c.
Proof.
  intros Habc. unfold log_entries. rewrite <- fmap_app. f_equal.
  replace (c - a) with ((b - a) + (c - b)) by lia. rewrite seqZ_app by lia. do 2 f_equal. lia.
Qed.

Lemma log_entries_length a b : length (log_entries log a b) = Z.to_nat (b - a).
Proof. unfold log_entries. by rewrite length_fmap, length_seqZ. Qed.

Lemma replayed_none : replayed from srv0.
Proof. exists []. unfold log_entries. by rewrite Z.sub_diag. Qed.

Lemma replayed_extend a b rs srv srv' :
  from <= a <= b -> replayed a srv -> decode_all (log_entries log a b) = Ok rs ->
  apply_entries a rs srv = (Ok tt, srv') -> replayed b srv'.
Proof.
  intros Hab (rs0 & E0 & A0) E A. exists (rs0 ++ rs). rewrite (log_entries_app from a b) by lia. split.
  - by apply decode_all_app.
  - rewrite (apply_entries_app _ _ _ _ _ A0). pose proof (decode_all_length _ _ E0) as Hl.
    rewrite log_entries_length in Hl. replace (from + Z.of_nat (length rs0)) with a by lia. done.
Qed.

(** ** The invariant of both threads *)

(** The values [batch_start_index] takes: the starts of the batches, and the end
    of a last batch that is not the one with [to] alone. *)
Definition on_grid (i : Z) : Prop :=
  from <= i /\ (i <= to /\ (i - from) mod REPLAY_BATCH = 0 \/ i = to + 1 /\ (to - from) mod REPLAY_BATCH <> 0).

Lemma end_index_value i : from <= i <= to -> end_index to i = Z.min (i + REPLAY_BATCH) (to + 1).
Proof.
  intros Hi. unfold end_index, u64, wrap_u, REPLAY_BATCH in *. rewrite !Z.mod_small by lia. case_decide; lia.
Qed.

Lemma end_on_grid i : on_grid i -> i < to -> on_grid (end_index to i) /\ i < end_index to i <= to + 1.
Proof.
  intros [Hi Hg] Hlt. destruct Hg as [[Hle Hm]|[? _]]; [|lia]. rewrite end_index_value by lia.
  unfold on_grid, REPLAY_BATCH in *. apply Z.mod_divide in Hm as [k Hk]; [|lia].
  destruct (decide (i + 10000 <= to)).
  - rewrite Z.min_l by lia. split; [|lia]. split; [lia|]. left. split; [lia|].
    replace (i + 10000 - from) with ((k + 1) * 10000) by lia. by apply Z.mod_mul.
  - rewrite Z.min_r by lia. split; [|lia]. split; [lia|]. right. split; [done|].
    replace (to - from) with (to - i + k * 10000) by lia. rewrite Z.mod_add, Z.mod_small by lia. lia.
Qed.

(** A batch as the loader makes it. *)
Definition batch_ok (b : ReplayLogBatch) : Prop :=
  from <= batch_start b < batch_end b /\ batch_end b <= to + 1 /\
  decode_all (log_entries log (batch_start b) (batch_end b)) = Ok (requests b).

(** The queue holds the batches between [a] and [b], in order. *)
Fixpoint chain (a : Z) (q : list ReplayLogBatch) (b : Z) : Prop :=
  match q with
  | [] => a = b
  | x :: q' => batch_start x = a /\ batch_ok x /\ chain (batch_end x) q' b
  end.

Definition loaded_to (st : Replay) : Z :=
  match loader st with LStore e => e | _ => batch_start_index st end.

Definition loader_inv (st : Replay) : Prop :=
  on_grid (batch_start_index st) /\
  match loader st with
  | LWait => batch_start_index st < to
  | LPush b => batch_start_index st < to /\ batch_start b = batch_start_index st /\
      batch_end b = end_index to (batch_start_index st) /\ batch_ok b
  | LStore e => on_grid e
  | _ => True
  end.

Definition applier_inv (n : Z) (st : Replay) : Prop :=
  match applier st with
  | AApply b i => head (log_queue st) = Some b /\
      exists srv, replayed n srv /\ apply_entries n (take i (requests b)) srv = (Ok tt, server st)
  | APop b => head (log_queue st) = Some b /\ replayed (batch_end b) (server st)
  | AThrown _ => True
  | _ => replayed n (server st)
  end.

Definition replay_inv (st : Replay) : Prop :=
  loader_inv st /\ exists n, from <= n /\ chain n (log_queue st) (loaded_to st) /\
    applier_inv n st /\ last_committed st = n - 1.

Lemma chain_snoc a q b x : chain a q b -> batch_start x = b -> batch_ok x -> chain a (q ++ [x]) (batch_end x).
Proof.
  revert a. induction q as [|y q IH]; intros a; cbn; [by intros -> <- Hx|].
  intros (Hs & Hy & Hq) Hb Hx. split_and!; [done|done|by apply IH].
Qed.

Lemma applier_inv_frame n st st' :
  applier st' = applier st -> server st' = server st ->
  (forall b, head (log_queue st) = Some b -> head (log_queue st') = Some b) ->
  applier_inv n st -> applier_inv n st'.
Proof.
  unfold applier_inv. intros -> -> Hh. destruct (applier st); try done; intros [? ?]; (split; [by apply Hh|done]).
Qed.

Lemma load_batch_ok i b :
  on_grid i -> i < to -> load_batch log to i = Ok b ->
  batch_start b = i /\ batch_end b = end_index to i /\ batch_ok b.
Proof.
  intros Hg Hlt. pose proof (end_on_grid i Hg Hlt) as [_ He]. unfold load_batch.
  destruct (decode_all _) as [rs|f] eqn:E; cbn; [|done]. intros [= <-].
  split_and!; [done|done|]. destruct Hg as [Hi _]. unfold batch_ok. cbn. split_and!; [lia|lia|lia|done].
Qed.

Lemma loader_step_inv st : replay_inv st -> replay_inv (loads st).
Proof.
  intros [[Hg Hl] (n & Hn & Hc & Ha & Hlc)]. unfold loads, loader_step.
  destruct (loader st) as [| |b|e| |f] eqn:El; unfold loaded_to in Hc; rewrite El in Hc.
  - split.
    + split; [done|]. cbn. by case_decide.
    + exists n. split_and!; [done| |by apply (applier_inv_frame n st)|done].
      unfold loaded_to. cbn. by case_decide.
  - case_decide; [split; [by split; [|rewrite El]|exists n; unfold loaded_to; by rewrite El]|].
    destruct (load_batch log to (batch_start_index st)) as [b|f] eqn:Eb.
    + destruct (load_batch_ok _ _ Hg Hl Eb) as (Hs & He & Hb). split; [by split|].
      exists n. split_and!; [done|done|by apply (applier_inv_frame n st)|done].
    + split; [by split|]. exists n. split_and!; [done|done|by apply (applier_inv_frame n st)|done].
  - destruct Hl as (Hlt & Hs & He & Hb). split.
    + split; [done|]. cbn. rewrite He. by apply end_on_grid.
    + exists n. split_and!; [done|by apply chain_snoc with (batch_start_index st)| |done].
      apply (applier_inv_frame n st); [done|done| |done]. cbn. by destruct (log_queue st).
  - split; [by split|]. exists n. split_and!; [done|done|by apply (applier_inv_frame n st)|done].
  - split; [by split; [|rewrite El]|exists n; unfold loaded_to; by rewrite El].
  - split; [by split; [|rewrite El]|exists n; unfold loaded_to; by rewrite El].
Qed.

(** Applying the entries of a batch one by one. *)
Lemma apply_entries_take n rs i r srv srv' srv'' u :
  rs !! i = Some r -> apply_entries n (take i rs) srv = (Ok tt, srv') ->
  entry (n + Z.of_nat i) r srv' = (Ok u, srv'') -> apply_entries n (take (S i) rs) srv = (Ok tt, srv'').
Proof.
  intros Hr E E'. pose proof (lookup_lt_Some _ _ _ Hr) as Hlt.
  rewrite (take_S_r _ _ _ Hr), (apply_entries_app _ _ _ _ _ E), length_take.
  rewrite Nat.min_l by lia. cbn. by rewrite E'.
Qed.

Lemma applier_step_inv st : replay_inv st -> replay_inv (applies st).
Proof.
  intros [Hl (n & Hn & Hc & Ha & Hlc)]. unfold applies, applier_step. unfold applier_inv in Ha.
  destruct (applier st) as [| | | | |b i|b| |f] eqn:Ea.
  - split; [done|]. exists n. split_and!; [done|done| |done]. unfold applier_inv. cbn. by case_decide.
  - split; [done|]. exists n. split_and!; [done|done| |done]. unfold applier_inv. cbn. by case_decide.
  - split; [done|]. exists n. split_and!; [done|done| |done]. unfold applier_inv. cbn. by case_decide.
  - split; [done|]. exists n. split_and!; [done|done| |done]. unfold applier_inv. cbn. by case_decide.
  - destruct (log_queue st) as [|b q] eqn:Eq; (split; [done|]; exists n; split_and!; [done|cbn; by rewrite ?Eq| |done]).
    + done.
    + cbn. rewrite ?Eq. split; [done|]. by exists (server st).
  - destruct Ha as (Hh & srv & Hr & E).
    destruct (log_queue st) as [|b' q] eqn:Eq; [done|]. injection Hh as ->. destruct Hc as (Hs & Hb & Hc).
    destruct (requests b !! i) as [r|] eqn:Ei.
    + rewrite Hs. destruct (entry (n + Z.of_nat i) r (server st)) as [[u|f] srv'] eqn:Er;
        (split; [done|]; exists n; split_and!; [done|cbn; by rewrite ?Eq| |done]); [|done].
      cbn. rewrite ?Eq. split; [done|]. exists srv. split; [done|]. by eapply apply_entries_take.
    + split; [done|]. exists n. split_and!; [done|cbn; by rewrite ?Eq| |done].
      cbn. rewrite ?Eq. split; [done|]. destruct Hb as (Hbs & Hbe & Hd). rewrite Hs in *.
      rewrite take_ge in E by (by apply lookup_ge_None). eapply (replayed_extend n); [lia|done|done|done].
  - destruct Ha as (Hh & Hr). destruct (log_queue st) as [|b' q] eqn:Eq; [done|]. injection Hh as ->.
    destruct Hc as (Hs & Hb & Hc). split; [done|]. exists (batch_end b). destruct Hb as (Hbs & Hbe & _).
    split_and!; [lia|cbn; by rewrite ?Eq|done|]. cbn. unfold u64, wrap_u, REPLAY_BATCH in *. rewrite Z.mod_small; lia.
  - split; [done|]. exists n. split_and!; [done|done| |done]. unfold applier_inv. by rewrite Ea.
  - split; [done|]. exists n. split_and!; [done|done| |done]. unfold applier_inv. by rewrite Ea.
Qed.

Lemma replay_start_inv : replay_inv start.
Proof.
  split; [split; [|done]|].
  - split; [cbn; lia|]. left. cbn. split; [lia|]. by rewrite Z.sub_diag.
  - exists from. split_and!; [lia|done|apply replayed_none|done].
Qed.

Lemma replay_run_inv schedule : forall st, replay_inv st -> replay_inv (run schedule st).
Proof.
  induction schedule as [|turn schedule IH]; intros st Hst; [done|]. cbn. apply IH.
  unfold replay_step. destruct turn; [by apply loader_step_inv|by apply applier_step_inv].
Qed.

Lemma chain_le a q b : chain a q b -> a <= b.
Proof.
  revert a. induction q as [|x q IH]; intros a; cbn; [lia|]. intros (Hs & Hb & Hq).
  apply IH in Hq. destruct Hb as (? & _). lia.
Qed.

Lemma loaded_on_grid st : loader_inv st -> on_grid (loaded_to st).
Proof. intros [Hg Hl]. unfold loaded_to. by destruct (loader st). Qed.

(** C37: whatever the interleaving, when replaying ends the store is the one that
    a prefix of the log gives, applied entry by entry, and the committed index
    is the end of that prefix. The prefix never has the entry [to] when the
    length of the range is one more than a multiple of the batch size. *)
Theorem replay_is_prefix schedule :
  let final := replay_run sha1_base64 compat log clock to schedule (replay_start from srv0 (from - 1)) in
  applier final = AExit ->
  exists n, from <= n <= to + 1 /\ replayed n (server final) /\ last_committed final = n - 1 /\
    ((to - from) mod REPLAY_BATCH = 0 -> n <= to).
Proof.
  intros final Hex. destruct (replay_run_inv schedule _ replay_start_inv) as [Hl (n & Hn & Hc & Ha & Hlc)].
  unfold final in *. unfold applier_inv in Ha. rewrite Hex in Ha. pose proof (chain_le _ _ _ Hc) as Hle.
  pose proof (loaded_on_grid _ Hl) as [_ Hg]. exists n. split_and!; [done|lia|done|done|]. intros Hm.
  destruct Hg as [[? _]|[_ ?]]; [lia|done].
Qed.

(** ** Interleavings that go wrong *)

Lemma run_app s s' st : run (s ++ s') st = run s' (run s st).
Proof. unfold run, replay_run. by rewrite fold_left_app. Qed.

(** The applier waits for an index that has been passed. *)
Definition waits_for_ever (st : Replay) : Prop :=
  batch_start_index st = to + 1 /\ log_queue st = [] /\ (loader st = LTest \/ loader st = LDone) /\
  (applier st = AInnerQueue \/ applier st = AInnerIndex).

Lemma waits_step turn st : waits_for_ever st -> waits_for_ever (step turn st).
Proof.
  intros (Hb & Hq & Hl & Ha). unfold waits_for_ever, replay_step, loader_step, applier_step.
  destruct turn.
  - destruct Hl as [E|E]; rewrite E; cbn.
    + rewrite decide_False by lia. split_and!; [done|done|by right|done].
    + split_and!; [done|done|by right|done].
  - destruct Ha as [E|E]; rewrite E; cbn.
    + rewrite decide_True by done. split_and!; [done|done|done|by right].
    + rewrite decide_True by lia. split_and!; [done|done|done|by left].
Qed.

Lemma waits_run schedule : forall st, waits_for_ever st -> waits_for_ever (run schedule st).
Proof. induction schedule as [|turn schedule IH]; intros st Hst; [done|]. cbn. by apply IH, waits_step. Qed.

Lemma apply_batch b bsi l lc srv' : forall k i srv,
  (i + k = length (requests b))%nat ->
  apply_entries (batch_start b + Z.of_nat i) (drop i (requests b)) srv = (Ok tt, srv') ->
  run (replicate k false) (mkReplay bsi [b] l (AApply b i) srv lc) =
  mkReplay bsi [b] l (AApply b (length (requests b))) srv' lc.
Proof.
  induction k as [|k IH]; intros i srv Hk E.
  - rewrite drop_ge in E by lia. injection E as ->. cbn. do 2 f_equal. lia.
  - destruct (lookup_lt_is_Some_2 (requests b) i) as [r Hr]; [lia|].
    rewrite (drop_S _ _ _ Hr) in E. cbn [apply_entries] in E.
    cbn [replicate replay_run fold_left replay_step applier_step applier]. rewrite Hr. cbn [server].
    destruct (entry _ r srv) as [[u|f] srv1]; [|done]. apply (IH (S i)); [lia|].
    by replace (batch_start b + Z.of_nat (S i)) with (batch_start b + Z.of_nat i + 1) by lia.
Qed.

Section one_batch.
Context (srv : Server) (Hlt : from < to) (Hone : to - from < REPLAY_BATCH) (Hall : replayed (to + 1) srv).

Lemma one_batch_end : end_index to from = to + 1.
Proof. rewrite end_index_value by lia. lia. Qed.

Lemma one_batch_loaded :
  exists rs, apply_entries from rs srv0 = (Ok tt, srv) /\ rs <> [] /\
    load_batch log to from = Ok (mkReplayBatch from (to + 1) rs).
Proof.
  destruct Hall as (rs & E & A). exists rs. split_and!; [done| |].
  - intros ->. apply decode_all_length in E. rewrite log_entries_length in E. cbn in E. lia.
  - unfold load_batch. by rewrite one_batch_end, E.
Qed.

Lemma hang_reachable : exists schedule, waits_for_ever (run schedule start).
Proof.
  destruct one_batch_loaded as (rs & A & _ & E). set (b := mkReplayBatch from (to + 1) rs) in *.
  exists ([true; true; true; false; false; false] ++ replicate (length rs) false ++ [false; false; false; false; true]).
  rewrite !run_app.
  assert (run [true; true; true; false; false; false] start =
    mkReplay from [b] (LStore (to + 1)) (AApply b 0) srv0 (from - 1)) as ->.
  { unfold run, replay_run. cbn -[load_batch]. rewrite decide_True by lia. cbn -[load_batch]. by rewrite E. }
  rewrite (apply_batch b from (LStore (to + 1)) (from - 1) srv (length rs) 0 srv0);
    [|done|cbn [requests batch_start b]; by rewrite drop_0, Z.add_0_r].
  unfold run, replay_run. cbn [fold_left replay_step applier_step applier requests b].
  rewrite lookup_ge_None_2 by lia. cbn. rewrite decide_True by done. cbn.
  rewrite decide_True by lia. split_and!; [done|done|by left|by left].
Qed.

Lemma early_exit_reachable : exists schedule,
  applier (run schedule start) = AExit /\ server (run schedule start) = srv0 /\ log_queue (run schedule start) <> [].
Proof.
  destruct one_batch_loaded as (rs & A & _ & E). set (b := mkReplayBatch from (to + 1) rs) in *.
  exists [false; true; true; true; true; false].
  assert (run [false; true] start = mkReplay from [] LWait AOuterIndex srv0 (from - 1)) as E1.
  { unfold run, replay_run, replay_step, loader_step. cbn. by rewrite decide_True by lia. }
  assert (run [true] (mkReplay from [] LWait AOuterIndex srv0 (from - 1)) =
    mkReplay from [] (LPush b) AOuterIndex srv0 (from - 1)) as E2.
  { unfold run, replay_run, replay_step, loader_step. cbn -[load_batch]. by rewrite E. }
  change [false; true; true; true; true; false] with ([false; true] ++ [true] ++ [true; true; false]).
  rewrite !run_app, E1, E2. unfold run, replay_run, replay_step, loader_step, applier_step. cbn.
  by rewrite decide_False by lia.
Qed.

(** C38: for a range that fits in one batch there is an interleaving in which
    replaying never returns, and one in which it returns with nothing replayed
    and the batch left in the queue. *)
Theorem replay_may_hang_or_stop_early :
  let final schedule := replay_run sha1_base64 compat log clock to schedule (replay_start from srv0 (from - 1)) in
  (exists schedule, forall schedule', applier (final (schedule ++ schedule')) <> AExit) /\
  (exists schedule, applier (final schedule) = AExit /\ server (final schedule) = srv0 /\
     log_queue (final schedule) <> []).
Proof.
  cbn zeta. split; [|apply early_exit_reachable]. destruct hang_reachable as [schedule Hw]. exists schedule.
  intros schedule'. rewrite run_app. destruct (waits_run schedule' _ Hw) as (_ & _ & _ & [-> | ->]); done.
Qed.
End one_batch.
End theorems.

(** ** Examples: two entries that are not the application's *)

Definition demo_server : Server := (KeeperStore_init 500 "", []).
Definition demo_log (i : Z) : option bytes := None.

(** The loader first, then the applier. *)
Definition demo_schedule : list bool := replicate 5 true ++ replicate 9 false.

Lemma replay_is_prefix_witness :
  exists n, 1 <= n <= 3 /\
    last_committed (replay_run (fun s => s) false demo_log (fun _ => 0) 2 demo_schedule (replay_start 1 demo_server 0)) = n - 1.
Proof.
  destruct (replay_is_prefix (fun s => s) false demo_log (fun _ => 0) 1 2 demo_server ltac:(lia)
    ltac:(unfold REPLAY_BATCH; lia) demo_schedule ltac:(reflexivity)) as (n & Hn & _ & Hl & _).
  exists n. split; [lia|exact Hl].
Defined.

Lemma replay_may_hang_or_stop_early_witness :
  exists schedule, forall schedule',
    applier (replay_run (fun s => s) false demo_log (fun _ => 0) 2 (schedule ++ schedule') (replay_start 1 demo_server 0)) <> AExit.
Proof.
  destruct (replay_may_hang_or_stop_early (fun s => s) false demo_log (fun _ => 0) 1 2 demo_server ltac:(lia)
    ltac:(unfold REPLAY_BATCH; lia) demo_server ltac:(lia) ltac:(unfold REPLAY_BATCH; lia)
    (ex_intro _ [None; None] (conj eq_refl eq_refl))) as [Hh _]. exact Hh.
Defined.
