(* ===== verification/Crc.v ===== *)
(** * Checksums

    [getCRC32] and [verifyCRC32] of [src/src/Service/Crc32.cpp], which guard the
    entries of the log segments and the batches of the snapshot objects. *)

From S2P Require Import Prelude Wire.

Definition CRC_TABLE : list Z :=
  [0x00000000; 0x77073096; 0xee0e612c; 0x990951ba; 0x076dc419; 0x706af48f; 0xe963a535; 0x9e6495a3;
   0x0edb8832; 0x79dcb8a4; 0xe0d5e91e; 0x97d2d988; 0x09b64c2b; 0x7eb17cbd; 0xe7b82d07; 0x90bf1d91;
   0x1db71064; 0x6ab020f2; 0xf3b97148; 0x84be41de; 0x1adad47d; 0x6ddde4eb; 0xf4d4b551; 0x83d385c7;
   0x136c9856; 0x646ba8c0; 0xfd62f97a; 0x8a65c9ec; 0x14015c4f; 0x63066cd9; 0xfa0f3d63; 0x8d080df5;
   0x3b6e20c8; 0x4c69105e; 0xd56041e4; 0xa2677172; 0x3c03e4d1; 0x4b04d447; 0xd20d85fd; 0xa50ab56b;
   0x35b5a8fa; 0x42b2986c; 0xdbbbc9d6; 0xacbcf940; 0x32d86ce3; 0x45df5c75; 0xdcd60dcf; 0xabd13d59;
   0x26d930ac; 0x51de003a; 0xc8d75180; 0xbfd06116; 0x21b4f4b5; 0x56b3c423; 0xcfba9599; 0xb8bda50f;
   0x2802b89e; 0x5f058808; 0xc60cd9b2; 0xb10be924; 0x2f6f7c87; 0x58684c11; 0xc1611dab; 0xb6662d3d;
   0x76dc4190; 0x01db7106; 0x98d220bc; 0xefd5102a; 0x71b18589; 0x06b6b51f; 0x9fbfe4a5; 0xe8b8d433;
   0x7807c9a2; 0x0f00f934; 0x9609a88e; 0xe10e9818; 0x7f6a0dbb; 0x086d3d2d; 0x91646c97; 0xe6635c01;
   0x6b6b51f4; 0x1c6c6162; 0x856530d8; 0xf262004e; 0x6c0695ed; 0x1b01a57b; 0x8208f4c1; 0xf50fc457;
   0x65b0d9c6; 0x12b7e950; 0x8bbeb8ea; 0xfcb9887c; 0x62dd1ddf; 0x15da2d49; 0x8cd37cf3; 0xfbd44c65;
   0x4db26158; 0x3ab551ce; 0xa3bc0074; 0xd4bb30e2; 0x4adfa541; 0x3dd895d7; 0xa4d1c46d; 0xd3d6f4fb;
   0x4369e96a; 0x346ed9fc; 0xad678846; 0xda60b8d0; 0x44042d73; 0x33031de5; 0xaa0a4c5f; 0xdd0d7cc9;
   0x5005713c; 0x270241aa; 0xbe0b1010; 0xc90c2086; 0x5768b525; 0x206f85b3; 0xb966d409; 0xce61e49f;
   0x5edef90e; 0x29d9c998; 0xb0d09822; 0xc7d7a8b4; 0x59b33d17; 0x2eb40d81; 0xb7bd5c3b; 0xc0ba6cad;
   0xedb88320; 0x9abfb3b6; 0x03b6e20c; 0x74b1d29a; 0xead54739; 0x9dd277af; 0x04db2615; 0x73dc1683;
   0xe3630b12; 0x94643b84; 0x0d6d6a3e; 0x7a6a5aa8; 0xe40ecf0b; 0x9309ff9d; 0x0a00ae27; 0x7d079eb1;
   0xf00f9344; 0x8708a3d2; 0x1e01f268; 0x6906c2fe; 0xf762575d; 0x806567cb; 0x196c3671; 0x6e6b06e7;
   0xfed41b76; 0x89d32be0; 0x10da7a5a; 0x67dd4acc; 0xf9b9df6f; 0x8ebeeff9; 0x17b7be43; 0x60b08ed5;
   0xd6d6a3e8; 0xa1d1937e; 0x38d8c2c4; 0x4fdff252; 0xd1bb67f1; 0xa6bc5767; 0x3fb506dd; 0x48b2364b;
   0xd80d2bda; 0xaf0a1b4c; 0x36034af6; 0x41047a60; 0xdf60efc3; 0xa867df55; 0x316e8eef; 0x4669be79;
   0xcb61b38c; 0xbc66831a; 0x256fd2a0; 0x5268e236; 0xcc0c7795; 0xbb0b4703; 0x220216b9; 0x5505262f;
   0xc5ba3bbe; 0xb2bd0b28; 0x2bb45a92; 0x5cb36a04; 0xc2d7ffa7; 0xb5d0cf31; 0x2cd99e8b; 0x5bdeae1d;
   0x9b64c2b0; 0xec63f226; 0x756aa39c; 0x026d930a; 0x9c0906a9; 0xeb0e363f; 0x72076785; 0x05005713;
   0x95bf4a82; 0xe2b87a14; 0x7bb12bae; 0x0cb61b38; 0x92d28e9b; 0xe5d5be0d; 0x7cdcefb7; 0x0bdbdf21;
   0x86d3d2d4; 0xf1d4e242; 0x68ddb3f8; 0x1fda836e; 0x81be16cd; 0xf6b9265b; 0x6fb077e1; 0x18b74777;
   0x88085ae6; 0xff0f6a70; 0x66063bca; 0x11010b5c; 0x8f659eff; 0xf862ae69; 0x616bffd3; 0x166ccf45;
   0xa00ae278; 0xd70dd2ee; 0x4e048354; 0x3903b3c2; 0xa7672661; 0xd06016f7; 0x4969474d; 0x3e6e77db;
   0xaed16a4a; 0xd9d65adc; 0x40df0b66; 0x37d83bf0; 0xa9bcae53; 0xdebb9ec5; 0x47b2cf7f; 0x30b5ffe9;
   0xbdbdf21c; 0xcabac28a; 0x53b39330; 0x24b4a3a6; 0xbad03605; 0xcdd70693; 0x54de5729; 0x23d967bf;
   0xb3667a2e; 0xc4614ab8; 0x5d681b02; 0x2a6f2b94; 0xb40bbe37; 0xc30c8ea1; 0x5a05df1b; 0x2d02ef8d].

(** [CRC_TABLE[(crc ^ data[i]) & 0xff] ^ (crc >> 8)] *)
Definition crc_step (crc : Z) (c : ascii) : Z :=
  Z.lxor (nth (Z.to_nat (Z.land (Z.lxor crc (of_byte c)) 0xff)) CRC_TABLE 0) (Z.shiftr crc 8).

Definition crc_loop (crc : Z) (data : bytes) : Z := fold_left crc_step data crc.

Definition getCRC32 (data : bytes) : Z :=
  if decide (length data < 1)%nat then 0xffffffff
  else Z.lxor (crc_loop 0 data) 0xffffffff.

Definition verifyCRC32 (data : bytes) (value : Z) : bool := bool_decide (value = getCRC32 data).

(** ** The reference: a shift register

    One bit of the register, for the reflected polynomial 0x04c11db7. *)
Definition crc_bit (x : Z) : Z :=
  Z.lxor (Z.shiftr x 1) (if Z.testbit x 0 then 0xedb88320 else 0).

Definition crc_bits (n : nat) (x : Z) : Z := Nat.iter n crc_bit x.

(** Numbers below a power of two have no bits from there on. *)
Lemma range_testbit n x : 0 <= n -> 0 <= x -> (x < 2 ^ n <-> forall i, n <= i -> Z.testbit x i = false).
Proof.
  intros Hn Hx. split.
  - intros Hlt i Hi. destruct (decide (x = 0)) as [->|]; [apply Z.bits_0|].
    apply Z.bits_above_log2; [done|]. apply Z.log2_lt_pow2 in Hlt; lia.
  - intros Hb. destruct (decide (x = 0)) as [->|]; [lia|].
    apply Z.log2_lt_pow2; [lia|]. apply Z.nle_gt. intros Hle.
    pose proof (Z.bit_log2 x ltac:(lia)) as E. rewrite (Hb _ Hle) in E. done.
Qed.

Lemma lxor_u32 x y : in_u32 x -> in_u32 y -> in_u32 (Z.lxor x y).
Proof.
  intros [? Hx] [? Hy]. assert (0 <= Z.lxor x y) as Hp by (apply Z.lxor_nonneg; lia).
  split; [done|]. apply range_testbit; [done..|]. intros i Hi. rewrite Z.lxor_spec.
  by rewrite (proj1 (range_testbit 32 x ltac:(lia) ltac:(lia)) Hx i Hi),
             (proj1 (range_testbit 32 y ltac:(lia) ltac:(lia)) Hy i Hi).
Qed.

(** The register is linear. *)
Lemma crc_bit_lxor x y : crc_bit (Z.lxor x y) = Z.lxor (crc_bit x) (crc_bit y).
Proof.
  unfold crc_bit. rewrite Z.shiftr_lxor, Z.lxor_spec.
  apply Z.bits_inj. intros i. rewrite !Z.lxor_spec.
  destruct (Z.testbit x 0), (Z.testbit y 0); simpl; rewrite ?Z.bits_0;
    destruct (Z.testbit (Z.shiftr x 1) i), (Z.testbit (Z.shiftr y 1) i), (Z.testbit 3988292384 i); done.
Qed.

Lemma crc_bits_lxor n x y : crc_bits n (Z.lxor x y) = Z.lxor (crc_bits n x) (crc_bits n y).
Proof. induction n as [|n IH]; [done|]. simpl. by rewrite IH, crc_bit_lxor. Qed.

(** With its low bits clear it only shifts. *)
Lemma crc_bits_shift n x : crc_bits n (Z.shiftl x (Z.of_nat n)) = x.
Proof.
  revert x. induction n as [|n IH]; intros x; [apply Z.shiftl_0_r|].
  unfold crc_bits in *. rewrite Nat.iter_succ_r. unfold crc_bit at 2.
  rewrite Nat2Z.inj_succ, Z.shiftl_spec_low by lia. rewrite Z.lxor_0_r.
  rewrite Z.shiftr_shiftl_l by lia. rewrite <- (IH x) at 2. do 2 f_equal. lia.
Qed.

(** ** The table is eight bits of the register *)

Lemma crc_table_bits : CRC_TABLE = (fun i => crc_bits 8 (Z.of_nat i)) <$> seq 0 256.
Proof. vm_compute. reflexivity. Qed.

Lemma crc_table_lookup x : 0 <= x < 256 -> nth (Z.to_nat x) CRC_TABLE 0 = crc_bits 8 x.
Proof.
  intros Hx. apply nth_lookup_Some. rewrite crc_table_bits, list_lookup_fmap.
  rewrite lookup_seq_lt by lia. simpl. by rewrite Z2Nat.id by lia.
Qed.

Lemma split_byte x : 0 <= x -> x = Z.lxor (Z.land x 255) (Z.shiftl (Z.shiftr x 8) 8).
Proof.
  intros Hx. change 255 with (Z.ones 8). apply Z.bits_inj'. intros i Hi.
  rewrite Z.lxor_spec, Z.land_spec. destruct (decide (i < 8)).
  - rewrite Z.ones_spec_low, Z.shiftl_spec_low by lia. by rewrite andb_true_r, xorb_false_r.
  - rewrite Z.ones_spec_high by lia. rewrite Z.shiftl_spec, Z.shiftr_spec by lia.
    rewrite andb_false_r, xorb_false_l. f_equal. lia.
Qed.

Lemma crc_step_bits crc c : 0 <= crc -> crc_step crc c = crc_bits 8 (Z.lxor crc (of_byte c)).
Proof.
  intros Hc. pose proof (of_byte_range c) as Hb. unfold crc_step.
  set (x := Z.lxor crc (of_byte c)). assert (0 <= x) as Hx by (apply Z.lxor_nonneg; lia).
  assert (0 <= Z.land x 255 < 256) as Hl.
  { change 255 with (Z.ones 8). rewrite Z.land_ones by lia. apply Z.mod_pos_bound. lia. }
  rewrite crc_table_lookup by done. rewrite (split_byte x Hx) at 2. rewrite crc_bits_lxor.
  f_equal. rewrite (crc_bits_shift 8). unfold x. rewrite Z.shiftr_lxor.
  rewrite (Z.shiftr_div_pow2 (of_byte c)), Z.div_small by lia. by rewrite Z.lxor_0_r.
Qed.

(** ** Blocks of bytes *)

Lemma le_value_cons c bs : le_value (c :: bs) = Z.lxor (of_byte c) (Z.shiftl (le_value bs) 8).
Proof.
  cbn [le_value]. pose proof (of_byte_range c). pose proof (le_value_range bs).
  rewrite <- Z.add_nocarry_lxor.
  - rewrite Z.shiftl_mul_pow2 by lia. change (2 ^ 8) with 256. lia.
  - apply Z.bits_inj'. intros i Hi. rewrite Z.land_spec, Z.bits_0. destruct (decide (i < 8)).
    + rewrite Z.shiftl_spec_low by lia. apply andb_false_r.
    + by rewrite (proj1 (range_testbit 8 (of_byte c) ltac:(lia) ltac:(lia)) ltac:(lia) i ltac:(lia)).
Qed.

Lemma crc_bit_u32 x : in_u32 x -> in_u32 (crc_bit x).
Proof.
  intros Hx. unfold crc_bit. apply lxor_u32; [|destruct (Z.testbit x 0); unfold in_u32; lia].
  rewrite Z.shiftr_div_pow2 by lia. change (2 ^ 1) with 2. unfold in_u32 in *. Z.div_mod_to_equations; lia.
Qed.

Lemma crc_bits_nonneg n x : 0 <= x -> 0 <= crc_bits n x.
Proof.
  intros Hx. induction n as [|n IH]; [done|]. simpl. unfold crc_bit at 1. apply Z.lxor_nonneg.
  split; intros _; [destruct (Z.testbit _ 0); lia|]. apply Z.shiftr_nonneg. done.
Qed.

(** A block is the register run over its bits, with the block as a number. *)
Lemma crc_loop_bits bs crc :
  0 <= crc -> crc_loop crc bs = crc_bits (8 * length bs) (Z.lxor crc (le_value bs)).
Proof.
  revert crc. induction bs as [|c bs IH]; intros crc Hc; [by rewrite Z.lxor_0_r|].
  pose proof (of_byte_range c). cbn [crc_loop fold_left length]. rewrite crc_step_bits by done.
  fold (crc_loop (crc_bits 8 (Z.lxor crc (of_byte c))) bs). rewrite IH.
  2:{ apply crc_bits_nonneg, Z.lxor_nonneg. lia. }
  rewrite <- (crc_bits_shift 8 (le_value bs)) at 1. rewrite <- crc_bits_lxor, le_value_cons, Z.lxor_assoc.
  unfold crc_bits. rewrite <- Nat.iter_add. f_equal. lia.
Qed.

(** ** The register forgets nothing *)

Lemma crc_bit_zero x : in_u32 x -> crc_bit x = 0 -> x = 0.
Proof.
  intros Hx E. assert (Z.testbit x 0 = false) as H0.
  { assert (Z.testbit (crc_bit x) 31 = false) as E31 by (rewrite E; apply Z.bits_0).
    unfold crc_bit in E31. rewrite Z.lxor_spec, Z.shiftr_spec in E31 by lia.
    rewrite (proj1 (range_testbit 32 x ltac:(lia) ltac:(unfold in_u32 in *; lia)) ltac:(unfold in_u32 in *; lia)
               (31 + 1) ltac:(lia)) in E31.
    by destruct (Z.testbit x 0). }
  unfold crc_bit in E. rewrite H0, Z.lxor_0_r, Z.shiftr_div_pow2 in E by lia.
  rewrite Z.bit0_odd in H0. rewrite (Z.div_mod x 2) by lia.
  rewrite Zmod_odd, H0. change (2 ^ 1) with 2 in E. lia.
Qed.

Lemma crc_bits_inj n x y : in_u32 x -> in_u32 y -> crc_bits n x = crc_bits n y -> x = y.
Proof.
  intros Hx Hy E. apply Z.lxor_eq.
  assert (forall z, in_u32 z -> crc_bits n z = 0 -> z = 0) as Hz.
  { clear. intros z Hz. induction n as [|n IH]; [done|]. simpl. intros E. apply IH.
    apply crc_bit_zero; [|done]. clear E IH. induction n; [done|]. by apply crc_bit_u32. }
  apply Hz; [by apply lxor_u32|]. by rewrite crc_bits_lxor, E, Z.lxor_nilpotent.
Qed.

Lemma crc_loop_u32 bs crc : in_u32 crc -> in_u32 (crc_loop crc bs).
Proof.
  revert crc. induction bs as [|c bs IH]; intros crc Hc; [done|]. apply IH.
  pose proof (of_byte_range c). rewrite crc_step_bits by (unfold in_u32 in *; lia).
  assert (in_u32 (Z.lxor crc (of_byte c))) as Hx by (apply lxor_u32; [done|unfold in_u32; lia]).
  revert Hx. generalize (Z.lxor crc (of_byte c)) as x. intros x Hx.
  unfold crc_bits. do 8 (rewrite Nat.iter_succ; apply crc_bit_u32). done.
Qed.

Lemma crc_loop_state bs x y : in_u32 x -> in_u32 y -> crc_loop x bs = crc_loop y bs -> x = y.
Proof.
  revert x y. induction bs as [|c bs IH]; intros x y Hx Hy E; [done|].
  cbn [crc_loop fold_left] in E. pose proof (of_byte_range c).
  assert (crc_step x c = crc_step y c) as Es.
  { apply IH; [apply (crc_loop_u32 [c] x Hx)|apply (crc_loop_u32 [c] y Hy)|exact E]. }
  rewrite !crc_step_bits in Es by (unfold in_u32 in *; lia).
  apply crc_bits_inj in Es; [|apply lxor_u32; [done|unfold in_u32; lia]..].
  rewrite <- (Z.lxor_0_r x), <- (Z.lxor_0_r y), <- (Z.lxor_nilpotent (of_byte c)), <- !Z.lxor_assoc. by rewrite Es.
Qed.

(** the checksum detects every corruption confined to four consecutive
    bytes: data that differ only there have different checksums. *)
Lemma crc_detects_burst pre a b post :
  length a = length b -> (length a <= 4)%nat -> a <> b ->
  getCRC32 (pre ++ a ++ post) <> getCRC32 (pre ++ b ++ post).
Proof.
  intros Hl H4 Hne E. destruct a as [|c a]; [by destruct b|]. unfold getCRC32 in E.
  rewrite !decide_False in E by (rewrite !length_app; destruct b; simpl in *; lia).
  apply (f_equal (fun z => Z.lxor z 0xffffffff)) in E. rewrite !Z.lxor_assoc, Z.lxor_nilpotent, !Z.lxor_0_r in E.
  unfold crc_loop in E. rewrite !fold_left_app in E. fold (crc_loop 0 pre) in E.
  assert (in_u32 (crc_loop 0 pre)) as Hp by (by apply crc_loop_u32).
  apply crc_loop_state in E; [|by apply (crc_loop_u32 (c :: a))|by apply (crc_loop_u32 b)].
  change (crc_loop (crc_loop 0 pre) (c :: a) = crc_loop (crc_loop 0 pre) b) in E.
  revert Hp E. generalize (crc_loop 0 pre) as x. intros x Hp E.
  rewrite !crc_loop_bits, Hl in E by (unfold in_u32 in *; lia).
  assert (forall bs, (length bs <= 4)%nat -> in_u32 (le_value bs)) as Hv.
  { intros bs Hbs. pose proof (le_value_range bs) as Hr. split; [lia|].
    eapply Z.lt_le_trans; [apply Hr|]. change (2 ^ 32) with (256 ^ 4). apply Z.pow_le_mono_r; lia. }
  apply crc_bits_inj in E; [|apply lxor_u32; [done|apply Hv; lia]..].
  apply Hne, le_value_inj; [done|]. rewrite <- (Z.lxor_0_l (le_value _)), <- (Z.lxor_0_l (le_value b)).
  rewrite <- (Z.lxor_nilpotent x), !Z.lxor_assoc. by rewrite E.
Qed.

Lemma getCRC32_u32 data : in_u32 (getCRC32 data).
Proof.
  unfold getCRC32. case_decide; [unfold in_u32; lia|].
  apply lxor_u32; [by apply crc_loop_u32|unfold in_u32; lia].
Qed.
