(* ===== verification/LogSegment.v ===== *)
(** * Log segments

    [NuRaftLogSegment] of [src/src/Service/NuRaftLogSegment.h/.cpp] and
    [LogEntryBody] of [LogEntry.cpp]: one file of the Raft log, which holds the
    entries of consecutive indexes. An operation runs on the disk and on the
    segment object. *)

From S2P Require Import Prelude Text Wire Crc.

Local Infix "+++" := String.append (at level 60, right associativity).

(** ** The disk

    The files of the log directory by name, and for each what an [fdatasync]
    has made durable. [write_results] are the results of the next [write] and
    [writev] calls: a number of bytes, smaller than asked for when the device is
    full, or negative for an error; when it is empty every write is complete. *)
Record Disk := mkDisk {
  files : gmap string bytes;
  synced : gmap string bytes;
  write_results : list Z
}.

Definition with_files (f : gmap string bytes -> gmap string bytes) (d : Disk) : Disk :=
  mkDisk (f (files d)) (synced d) (write_results d).

(** What is in a file after [bs] was written at the position [pos]. *)
Definition overwrite (pos : nat) (bs old : bytes) : bytes :=
  take pos old ++ replicate (pos - length old) zero ++ bs ++ drop (pos + length bs) old.

Definition pread (content : bytes) (n : nat) (offset : Z) : bytes := take n (drop (Z.to_nat offset) content).

(** [write(fd, ...)] with [fd] at [pos] of the file [name]: what it returns. *)
Definition sys_write (name : string) (pos : Z) (bs : bytes) (d : Disk) : Z * Disk :=
  let n := match write_results d with
           | [] => Z.of_nat (length bs)
           | r :: _ => Z.min r (Z.of_nat (length bs))
           end in
  (n, mkDisk (if decide (n <= 0) then files d
              else <[name := overwrite (Z.to_nat pos) (take (Z.to_nat n) bs) (default [] (files d !! name))]> (files d))
        (synced d) (tail (write_results d))).

(** [Poco::File(old).renameTo(new)] replaces a file with the new name. *)
Definition renameTo (old new : string) (d : Disk) : outcome unit * Disk :=
  match files d !! old with
  | None => (Fault (Throw POCO_FILE_NOT_FOUND), d)
  | Some content =>
      (Ok tt, mkDisk (<[new := content]> (delete old (files d)))
                (match synced d !! old with
                 | Some c => <[new := c]> (delete old (synced d))
                 | None => delete new (synced d)
                 end) (write_results d))
  end.

Definition sys_remove (name : string) (d : Disk) : Disk :=
  mkDisk (delete name (files d)) (delete name (synced d)) (write_results d).

Definition sys_fdatasync (name : string) (d : Disk) : Disk :=
  mkDisk (files d) (<[name := default [] (files d !! name)]> (synced d)) (write_results d).

(** The machine stops. A file whose content was made durable still has it, if its
    name is there. All else is up to the file system: what is in the other files,
    and, since nothing syncs the directory, which names there are. *)
Definition crash_leaves (d d' : Disk) : Prop :=
  forall name content content', files d !! name = Some content -> synced d !! name = Some content ->
    files d' !! name = Some content' -> content' = content.

(** One that leaves of every file what was made durable, without the names
    [lost], and with the files [back] that had been removed or renamed. *)
Definition crash (lost : gset string) (back : gmap string bytes) (d : Disk) : Disk :=
  let fs := filter (fun p => p.1 ∉ lost) (map_imap (fun name _ => Some (default [] (synced d !! name))) (files d)) ∪
            filter (fun p => files d !! p.1 = None) back in
  mkDisk fs fs [].

Lemma crash_is_left lost back d : crash_leaves d (crash lost back d).
Proof.
  intros name content content' Hf Hs Hc. cbn in Hc. apply lookup_union_Some_raw in Hc as [Hc|[_ Hc]].
  - apply map_lookup_filter_Some in Hc as [Hc _]. rewrite map_lookup_imap, Hf, Hs in Hc. by injection Hc.
  - apply map_lookup_filter_Some in Hc as [_ Hc]. cbn in Hc. congruence.
Qed.

(** ** Entries *)

(** [nuraft::log_entry]: [get_term()], [get_val_type()], [get_buf()]. *)
Record log_entry := mkEntry {
  get_term : Z;
  get_val_type : Z;
  get_buf : bytes
}.

(** [log_val_type::app_log] *)
Definition app_log : Z := 1.

(** [LogEntryBody::serialize] *)
Definition body_serialize (entry : log_entry) : bytes := byte_of (get_val_type entry) :: get_buf entry.

(** [LogEntryBody::deserialize]: the term is set later. The first byte of an
    empty buffer may not be read. *)
Definition body_deserialize (serialized_entry : bytes) : outcome log_entry :=
  match serialized_entry with
  | [] => Fault UndefinedBehaviour
  | type :: data => Ok (mkEntry 0 (of_byte type) data)
  end.

Record LogEntryHeader := mkEntryHeader {
  hdr_term : Z;
  hdr_index : Z;
  data_length : Z;
  data_crc : Z
}.

Definition HEADER_SIZE : nat := 24.

(** The memory of a header. *)
Definition header_bytes (h : LogEntryHeader) : bytes :=
  le_bytes 8 (hdr_term h) ++ le_bytes 8 (hdr_index h) ++ le_bytes 4 (data_length h) ++ le_bytes 4 (data_crc h).

(** ** The segment *)

(** [LogVersion] has [uint8_t] as its underlying type. *)
Definition LogVersion_V0 : Z := 0.
Definition LogVersion_V1 : Z := 1.
Definition LogVersion_UNKNOWN : Z := 255.
Definition CURRENT_LOG_VERSION : Z := LogVersion_V1.

(** [seg_fd] is the position of the open file, [None] for -1. *)
Record NuRaftLogSegment := mkSegment {
  first_index : Z;
  last_index : Z;
  is_open : bool;
  seg_fd : option Z;
  file_name : string;
  create_time : string;
  file_size : Z;
  offsets : list Z;
  version : Z
}.

Definition with_fd (fd : option Z) (s : NuRaftLogSegment) : NuRaftLogSegment :=
  mkSegment (first_index s) (last_index s) (is_open s) fd (file_name s) (create_time s) (file_size s)
    (offsets s) (version s).

Definition with_file (b : bool) (name : string) (s : NuRaftLogSegment) : NuRaftLogSegment :=
  mkSegment (first_index s) (last_index s) b (seg_fd s) name (create_time s) (file_size s) (offsets s) (version s).

Definition with_entries (last size : Z) (offs : list Z) (s : NuRaftLogSegment) : NuRaftLogSegment :=
  mkSegment (first_index s) last (is_open s) (seg_fd s) (file_name s) (create_time s) size offs (version s).

Definition with_version (v : Z) (s : NuRaftLogSegment) : NuRaftLogSegment :=
  mkSegment (first_index s) (last_index s) (is_open s) (seg_fd s) (file_name s) (create_time s) (file_size s)
    (offsets s) v.

Definition getOpenFileName (s : NuRaftLogSegment) : string :=
  "log_" +++ decimal (first_index s) +++ "_open_" +++ create_time s.

Definition getClosedFileName (s : NuRaftLogSegment) : string :=
  "log_" +++ decimal (first_index s) +++ String underscore (decimal (last_index s) +++
  String underscore (create_time s)).

(** The constructors of closed and of open segments found on disk. *)
Definition closed_on_disk (first last : Z) (name time : string) : NuRaftLogSegment :=
  mkSegment first last false None name time 0 [] LogVersion_UNKNOWN.
Definition open_on_disk (first : Z) (name time : string) : NuRaftLogSegment :=
  mkSegment first (u64 (first - 1)) true None name time 0 [] LogVersion_UNKNOWN.

(** The constructor of a new segment creates its file, which is empty; [now] is
    the formatted time. *)
Definition new_segment (now : string) (first : Z) : SM Disk NuRaftLogSegment := fun d =>
  let s := mkSegment first (u64 (first - 1)) true (Some 0) "" now 0 [] CURRENT_LOG_VERSION in
  let s := with_file true (getOpenFileName s) s in
  if decide (is_Some (files d !! file_name s)) then (Fault (Throw LOGICAL_ERROR), d)
  else (Ok s, with_files <[file_name s := []]> d).

Abbreviation SegM := (SM (Disk * NuRaftLogSegment)).

Definition on_disk (f : Disk -> Disk) : SegM unit := sm_modify (fun p => (f p.1, p.2)).
Definition on_seg (f : NuRaftLogSegment -> NuRaftLogSegment) : SegM unit := sm_modify (fun p => (p.1, f p.2)).
Definition seg_get {A} (f : NuRaftLogSegment -> A) : SegM A := sm_get (fun p => f p.2).
Definition seg_throw {A} (e : exn) : SegM A := sm_fault (Throw e).

(** What the open file holds. *)
Definition seg_content (d : Disk) (s : NuRaftLogSegment) : bytes := default [] (files d !! file_name s).

Definition openFileIfNeeded : SegM unit := fun p =>
  match seg_fd p.2 with
  | Some _ => (Ok tt, p)
  | None =>
      if decide (is_Some (files p.1 !! file_name p.2)) then (Ok tt, (p.1, with_fd (Some 0) p.2))
      else (Fault (Throw FILE_DOESNT_EXIST), p)
  end.

Definition closeFileIfNeeded : SegM unit := on_seg (with_fd None).

(** [write(seg_fd, ...)]: the position moves by what was written. *)
Definition fd_write (bs : bytes) : SegM Z := fun p =>
  match seg_fd p.2 with
  | None => (Ok (-1), p)
  | Some pos =>
      let r := sys_write (file_name p.2) pos bs p.1 in
      (Ok r.1, (r.2, with_fd (Some (pos + Z.max 0 r.1)) p.2))
  end.

Definition MAGIC : bytes := ["000"; "R"; "a"; "f"; "t"; "L"; "o"; "g"]%char.
Definition MAGIC_AND_VERSION_SIZE : nat := 9.

Definition writeHeader : SegM unit :=
  (opened <- seg_get is_open ;;
   if negb opened then seg_throw LOGICAL_ERROR else
   fd <- seg_get seg_fd ;;
   if decide (fd = None) then seg_throw LOGICAL_ERROR else
   n <- fd_write MAGIC ;;
   if decide (n <> 8) then seg_throw CANNOT_WRITE_TO_FILE_DESCRIPTOR else
   v <- seg_get version ;;
   m <- fd_write [byte_of v] ;;
   if decide (m <> 1) then seg_throw CANNOT_WRITE_TO_FILE_DESCRIPTOR else
   on_seg (fun s => with_entries (last_index s) (file_size s + Z.of_nat MAGIC_AND_VERSION_SIZE) (offsets s) s))%sm.

(** The version [readHeader] sets. *)
Definition read_version (content : bytes) : outcome Z :=
  let buf := pread content MAGIC_AND_VERSION_SIZE 0 in
  if decide (length buf <> MAGIC_AND_VERSION_SIZE) then Fault (Throw CORRUPTED_LOG)
  else if decide (take 8 buf = MAGIC) then Ok (le_value (drop 8 buf))
  else Ok LogVersion_V0.

Definition readHeader : SegM unit := fun p =>
  if decide (seg_fd p.2 = None) then (Fault (Throw LOGICAL_ERROR), p)
  else match read_version (seg_content p.1 p.2) with
       | Ok v => (Ok tt, (p.1, with_version v p.2))
       | Fault f => (Fault f, p)
       end.

Definition loadEntryHeader (content : bytes) (offset : Z) : outcome LogEntryHeader :=
  let buf := pread content HEADER_SIZE offset in
  if decide (length buf <> HEADER_SIZE) then Fault (Throw CANNOT_READ_FROM_FILE_DESCRIPTOR)
  else Ok (mkEntryHeader (le_value (take 8 buf)) (le_value (take 8 (drop 8 buf)))
             (le_value (take 4 (drop 16 buf))) (le_value (drop 20 buf))).

Definition loadEntry (content : bytes) (offset : Z) : outcome log_entry :=
  header ← loadEntryHeader content offset;
  let buf := pread content (Z.to_nat (data_length header)) (offset + Z.of_nat HEADER_SIZE) in
  if decide (Z.of_nat (length buf) <> data_length header) then Fault (Throw CORRUPTED_LOG)
  else if negb (verifyCRC32 buf (data_crc header)) then Fault (Throw CORRUPTED_LOG)
  else entry ← body_deserialize buf; Ok (mkEntry (hdr_term header) (get_val_type entry) (get_buf entry)).

(** The loop of [load]: the offsets found so far, and where it ended or what it
    threw. *)
Fixpoint load_loop (fuel : nat) (content : bytes) (entry_off last_index_read : Z) (offs : list Z)
    : outcome (Z * Z) * list Z :=
  if decide (entry_off < Z.of_nat (length content)) then
    match fuel with
    | O => (Fault Deadlock, offs)
    | S fuel' =>
        match loadEntryHeader content entry_off with
        | Fault f => (Fault f, offs)
        | Ok header =>
            let log_entry_len := Z.of_nat HEADER_SIZE + data_length header in
            if decide (entry_off + log_entry_len > Z.of_nat (length content)) then (Fault (Throw CORRUPTED_LOG), offs)
            else load_loop fuel' content (entry_off + log_entry_len) (u64 (last_index_read + 1)) (offs ++ [entry_off])
        end
    end
  else (Ok (entry_off, last_index_read), offs).

(** A turn reads a header of 24 bytes at least. *)
Definition load_fuel (content : bytes) : nat := length content.

(** [load] after the header. *)
Definition load_entries : SegM unit := fun p =>
  let content := seg_content p.1 p.2 in
  let start := if decide (version p.2 = LogVersion_V0) then 0 else Z.of_nat MAGIC_AND_VERSION_SIZE in
  let '(r, offs) := load_loop (load_fuel content) content start (u64 (first_index p.2 - 1)) (offsets p.2) in
  let s := with_entries (last_index p.2) (file_size p.2) offs p.2 in
  match r with
  | Fault f => (Fault f, (p.1, s))
  | Ok (entry_off, last_index_read) =>
      if negb (is_open s) && bool_decide (last_index_read <> last_index s)
      then (Fault (Throw CORRUPTED_LOG), (p.1, s))
      else
        let s := with_entries last_index_read (file_size s) offs s in
        if decide (entry_off <> Z.of_nat (length content)) then (Fault (Throw CORRUPTED_LOG), (p.1, s))
        else
          let s := with_entries last_index_read entry_off offs s in
          (Ok tt, (p.1, if is_open s then with_fd (Some entry_off) s else s))
  end.

Definition seg_load : SegM unit := (openFileIfNeeded ;;; readHeader ;;; load_entries)%sm.

Definition seg_close (is_full : bool) : SegM unit :=
  (closeFileIfNeeded ;;;
   opened <- seg_get is_open ;;
   if negb opened then sm_ret tt else
   (if is_full then
      fun p => match renameTo (getOpenFileName p.2) (getClosedFileName p.2) p.1 with
               | (Ok _, d) => (Ok tt, (d, with_file (is_open p.2) (getClosedFileName p.2) p.2))
               | (Fault f, d) => (Fault f, (d, p.2))
               end
    else sm_ret tt) ;;;
   on_seg (fun s => with_file false (file_name s) s))%sm.

Definition seg_flush : SegM Z := fun p =>
  match seg_fd p.2 with
  | None => (Fault (Throw CANNOT_WRITE_TO_FILE_DESCRIPTOR), p)
  | Some _ => (Ok (last_index p.2), (sys_fdatasync (file_name p.2) p.1, p.2))
  end.

Definition seg_remove : SegM unit :=
  (closeFileIfNeeded ;;; fun p => (Ok tt, (sys_remove (file_name p.2) p.1, p.2)))%sm.

(** [data_length] has 32 bits, and the checksum and the write take that many
    bytes; a serialized entry is never empty. The result is the index of the
    entry. *)
Definition seg_appendEntry (entry : log_entry) : SegM Z :=
  (opened <- seg_get is_open ;;
   fd <- seg_get seg_fd ;;
   if negb opened || bool_decide (fd = None) then seg_throw LOGICAL_ERROR else
   let entry_buf := body_serialize entry in
   let len := u32 (Z.of_nat (length entry_buf)) in
   let data := take (Z.to_nat len) entry_buf in
   last <- seg_get last_index ;;
   let header := mkEntryHeader (get_term entry) (u64 (last + 1)) len (getCRC32 data) in
   let vec := header_bytes header ++ data in
   size_written <- fd_write vec ;;
   if decide (size_written <> Z.of_nat HEADER_SIZE + len) then seg_throw CANNOT_WRITE_TO_FILE_DESCRIPTOR else
   on_seg (fun s => with_entries (u64 (last_index s + 1)) (file_size s + Z.of_nat HEADER_SIZE + len)
                      (offsets s ++ [file_size s]) s) ;;;
   sm_ret (hdr_index header))%sm.

(** [None] is -1. A vector is not indexed past its end. *)
Definition getEntryOffset (index : Z) (s : NuRaftLogSegment) : outcome (option Z) :=
  if decide (last_index s = u64 (first_index s - 1) \/ index > last_index s \/ index < first_index s) then Ok None
  else match offsets s !! Z.to_nat (u64 (index - first_index s)) with
       | Some offset => Ok (Some offset)
       | None => Fault UndefinedBehaviour
       end.

(** [None] is the null pointer. *)
Definition seg_getEntry (index : Z) : SegM (option log_entry) :=
  (openFileIfNeeded ;;;
   fun p =>
     (offset ← getEntryOffset index p.2;
      match offset with
      | None => Ok None
      | Some offset => Some <$> loadEntry (seg_content p.1 p.2) offset
      end, p))%sm.

(** A closed segment is opened again, under its open name. *)
Definition reopen_closed_segment : SegM unit :=
  (opened <- seg_get is_open ;;
   if opened then sm_ret tt else
   closeFileIfNeeded ;;;
   (fun p => match renameTo (getClosedFileName p.2) (getOpenFileName p.2) p.1 with
             | (Ok _, d) => (Ok tt, (d, with_file (is_open p.2) (getOpenFileName p.2) p.2))
             | (Fault f, d) => (Fault f, (d, p.2))
             end) ;;;
   openFileIfNeeded ;;;
   on_seg (fun s => with_file true (file_name s) s))%sm.

(** [ftruncate] of the open file, then [lseek] to its end. *)
Definition fd_truncate (size : Z) : SegM unit := fun p =>
  let content := seg_content p.1 p.2 in
  match seg_fd p.2 with
  | None => (Fault (Throw CANNOT_WRITE_TO_FILE_DESCRIPTOR), p)
  | Some _ =>
      (Ok tt, (with_files <[file_name p.2 := take (Z.to_nat size) content ++
                                             replicate (Z.to_nat size - length content) zero]> p.1,
               with_fd (Some size) p.2))
  end.

Definition seg_truncate (last_index_kept : Z) : SegM bool :=
  (last <- seg_get last_index ;;
   if decide (last <= last_index_kept) then reopen_closed_segment ;;; sm_ret false else
   first <- seg_get first_index ;;
   let first_log_offset_to_truncate := u64 (last_index_kept + 1 - first) in
   offs <- seg_get offsets ;;
   match offs !! Z.to_nat first_log_offset_to_truncate with
   | None => sm_fault UndefinedBehaviour
   | Some file_size_to_keep =>
       reopen_closed_segment ;;;
       fd_truncate file_size_to_keep ;;;
       on_seg (with_entries last_index_kept file_size_to_keep (take (Z.to_nat first_log_offset_to_truncate) offs)) ;;;
       sm_ret true
   end)%sm.
