(* ===== verification/LogSegmentTheorems.v ===== *)
(** * What a log segment holds

    The bytes of the entries of a segment, and what the operations of
    [LogSegment] do to a segment whose file holds given entries. *)

From S2P Require Import Prelude Paths Text Wire Crc LogSegment.

Local Infix "+++" := String.append (at level 60, right associativity).

#[global] Arguments le_bytes : simpl never.
#[global] Arguments header_bytes : simpl never.

(** ** Bytes *)

Lemma le_value_u64 x : le_value (le_bytes 8 x) = u64 x.
Proof. rewrite le_value_bytes. unfold u64, wrap_u. f_equal. Qed.

(** Reading where [bs] lies. *)
Lemma pread_middle pre bs post n :
  n = length bs -> pread (pre ++ bs ++ post) n (Z.of_nat (length pre)) = bs.
Proof.
  intros ->. unfold pread. rewrite Nat2Z.id, drop_app_length. by rewrite take_app_length.
Qed.

Lemma overwrite_end bs old : overwrite (length old) bs old = old ++ bs.
Proof.
  unfold overwrite. rewrite take_ge, drop_ge by lia. replace (length old - length old)%nat with O by lia.
  cbn [replicate app]. by rewrite app_nil_r.
Qed.

(** ** Entries *)

(** The entries the fields of a header can describe. *)
Definition entry_ok (e : log_entry) : Prop :=
  in_u64 (get_term e) /\ in_u8 (get_val_type e) /\ Z.of_nat (length (get_buf e)) + 1 < 2 ^ 32.

Definition body_length (e : log_entry) : Z := Z.of_nat (length (body_serialize e)).

Definition entry_header (index : Z) (e : log_entry) : LogEntryHeader :=
  mkEntryHeader (get_term e) (u64 index) (body_length e) (getCRC32 (body_serialize e)).

(** The bytes of an entry in the file. *)
Definition entry_frame (index : Z) (e : log_entry) : bytes := header_bytes (entry_header index e) ++ body_serialize e.

#[global] Arguments entry_frame : simpl never.

Definition frame_length (e : log_entry) : Z := Z.of_nat HEADER_SIZE + body_length e.

Fixpoint entries_bytes (first : Z) (es : list log_entry) : bytes :=
  match es with
  | [] => []
  | e :: es' => entry_frame first e ++ entries_bytes (first + 1) es'
  end.

Fixpoint entry_offsets (start : Z) (es : list log_entry) : list Z :=
  match es with
  | [] => []
  | e :: es' => start :: entry_offsets (start + frame_length e) es'
  end.

Lemma length_header_bytes h : length (header_bytes h) = HEADER_SIZE.
Proof. unfold header_bytes. by rewrite !length_app, !length_le_bytes. Qed.

Lemma length_entry_frame index e : Z.of_nat (length (entry_frame index e)) = frame_length e.
Proof. unfold entry_frame, frame_length, body_length. rewrite length_app, length_header_bytes. lia. Qed.

Lemma frame_length_pos e : 25 <= frame_length e.
Proof. unfold frame_length, body_length, body_serialize, HEADER_SIZE. cbn [length]. lia. Qed.

Lemma entries_bytes_app first es es' :
  entries_bytes first (es ++ es') = entries_bytes first es ++ entries_bytes (first + Z.of_nat (length es)) es'.
Proof.
  revert first. induction es as [|e es IH]; intros first; cbn [entries_bytes app length].
  - by rewrite Z.add_0_r.
  - rewrite IH, <- app_assoc. do 3 f_equal. lia.
Qed.

Lemma entry_offsets_app start es es' first :
  entry_offsets start (es ++ es') =
  entry_offsets start es ++ entry_offsets (start + Z.of_nat (length (entries_bytes first es))) es'.
Proof.
  revert start first. induction es as [|e es IH]; intros start first; cbn [entry_offsets entries_bytes app length].
  - by rewrite Z.add_0_r.
  - rewrite (IH _ (first + 1)), length_app. f_equal. f_equal. f_equal.
    pose proof (length_entry_frame first e). lia.
Qed.

Lemma length_entry_offsets start es : length (entry_offsets start es) = length es.
Proof. revert start. induction es as [|e es IH]; intros start; simpl; [done|]. by rewrite IH. Qed.

(** Where the entry at a position starts. *)
Lemma entry_offsets_lookup start first es i e :
  es !! i = Some e ->
  entry_offsets start es !! i = Some (start + Z.of_nat (length (entries_bytes first (take i es)))).
Proof.
  intros Hi. rewrite <- (take_drop_middle es i e Hi) at 1. rewrite (entry_offsets_app _ _ _ first).
  pose proof (lookup_lt_Some _ _ _ Hi). rewrite lookup_app_r; rewrite length_entry_offsets, length_take; [|lia].
  by replace (i - i `min` length es)%nat with O by lia.
Qed.

Lemma body_length_u32 e : entry_ok e -> in_u32 (body_length e) /\ u32 (body_length e) = body_length e.
Proof.
  intros (_ & _ & Hl). unfold body_length, body_serialize. cbn [length].
  split; [unfold in_u32; lia|]. unfold u32, wrap_u. apply Z.mod_small. lia.
Qed.

Lemma loadEntryHeader_frame pre index e post :
  entry_ok e ->
  loadEntryHeader (pre ++ entry_frame index e ++ post) (Z.of_nat (length pre)) = Ok (entry_header index e).
Proof.
  intros He. pose proof (body_length_u32 e He) as [Hb _]. destruct He as (Ht & _ & _).
  unfold loadEntryHeader, entry_frame. rewrite <- app_assoc, pread_middle by (by rewrite length_header_bytes).
  rewrite length_header_bytes, decide_False by (intros []; done).
  unfold header_bytes. set (a := le_bytes 8 (hdr_term _)). set (b := le_bytes 8 (hdr_index _)).
  set (c := le_bytes 4 (data_length _)). set (d := le_bytes 4 (data_crc _)).
  assert (length a = 8 /\ length b = 8 /\ length c = 4 /\ length d = 4)%nat as (Ha & Hb' & Hc & Hd)
    by (subst a b c d; rewrite !length_le_bytes; done).
  assert (take 8 (a ++ b ++ c ++ d) = a) as -> by (by apply take_app_length').
  assert (drop 8 (a ++ b ++ c ++ d) = b ++ c ++ d) as -> by (by apply drop_app_length').
  assert (drop 16 (a ++ b ++ c ++ d) = c ++ d) as ->
    by (rewrite app_assoc; apply drop_app_length'; rewrite length_app; lia).
  assert (drop 20 (a ++ b ++ c ++ d) = d) as ->
    by (rewrite !app_assoc; apply drop_app_length'; rewrite !length_app; lia).
  rewrite (take_app_length' b), (take_app_length' c) by done. subst a b c d. cbn [hdr_term hdr_index data_length data_crc entry_header].
  rewrite !le_value_u64, !le_value_32 by first [done|apply getCRC32_u32].
  rewrite u64_id by done. unfold entry_header. f_equal. f_equal. apply u64_id. unfold u64, wrap_u, in_u64.
  apply Z.mod_pos_bound. lia.
Qed.

Lemma loadEntry_frame pre index e post :
  entry_ok e -> loadEntry (pre ++ entry_frame index e ++ post) (Z.of_nat (length pre)) = Ok e.
Proof.
  intros He. unfold loadEntry. rewrite loadEntryHeader_frame by done. cbn [mbind outcome_bind].
  cbn [data_length data_crc hdr_term entry_header]. unfold entry_frame, body_length. rewrite Nat2Z.id.
  rewrite <- app_assoc, app_assoc.
  replace (Z.of_nat (length pre) + Z.of_nat HEADER_SIZE)
    with (Z.of_nat (length (pre ++ header_bytes (entry_header index e))))
    by (rewrite length_app, length_header_bytes; lia).
  rewrite pread_middle by done. rewrite decide_False by (intros []; done).
  unfold verifyCRC32. rewrite bool_decide_true by done. cbn [negb body_deserialize body_serialize mbind outcome_bind].
  destruct He as (_ & Ht & _). cbn [get_val_type get_buf]. rewrite of_byte_of, Z.mod_small by (unfold in_u8 in Ht; lia).
  by destruct e.
Qed.

(** ** The loop of [load] *)

(** It passes the entries at the start of a file and notes where each starts. *)
Lemma load_loop_prefix es : forall fuel pre post first last offs,
  Forall entry_ok es -> 0 <= last -> last + Z.of_nat (length es) < 2 ^ 64 ->
  load_loop (length es + fuel) (pre ++ entries_bytes first es ++ post) (Z.of_nat (length pre)) last offs =
  load_loop fuel (pre ++ entries_bytes first es ++ post) (Z.of_nat (length (pre ++ entries_bytes first es)))
    (last + Z.of_nat (length es)) (offs ++ entry_offsets (Z.of_nat (length pre)) es).
Proof.
  induction es as [|e es IH]; intros fuel pre post first lst offs Hes H0 Hl.
  - cbn [entries_bytes entry_offsets length]. by rewrite !app_nil_r, Z.add_0_r.
  - apply Forall_cons in Hes as [He Hes]. cbn [length] in Hl |- *. cbn [Nat.add].
    cbn [entries_bytes entry_offsets load_loop]. pose proof (length_entry_frame first e) as Hfl.
    pose proof (frame_length_pos e). rewrite decide_True by (rewrite !length_app; lia).
    rewrite <- app_assoc, loadEntryHeader_frame by done. cbn [data_length entry_header]. fold (frame_length e).
    rewrite decide_False by (rewrite !length_app; lia). rewrite u64_id by (unfold in_u64; lia).
    replace (Z.of_nat (length pre) + frame_length e) with (Z.of_nat (length (pre ++ entry_frame first e)))
      by (rewrite length_app; lia).
    rewrite (app_assoc pre), IH by first [done|lia]. rewrite <- (app_assoc offs), <- !(app_assoc pre). cbn [app].
    f_equal. lia.
Qed.

(** On a file that holds entries it ends at the end. *)
Lemma load_loop_entries es fuel pre first last offs :
  Forall entry_ok es -> (length es <= fuel)%nat -> 0 <= last -> last + Z.of_nat (length es) < 2 ^ 64 ->
  load_loop fuel (pre ++ entries_bytes first es) (Z.of_nat (length pre)) last offs =
  (Ok (Z.of_nat (length (pre ++ entries_bytes first es)), last + Z.of_nat (length es)),
   offs ++ entry_offsets (Z.of_nat (length pre)) es).
Proof.
  intros Hes Hf H0 Hl. replace fuel with (length es + (fuel - length es))%nat by lia.
  pose proof (load_loop_prefix es (fuel - length es) pre [] first last offs Hes H0 Hl) as E.
  rewrite app_nil_r in E. rewrite E. destruct (fuel - length es)%nat; cbn [load_loop]; by rewrite decide_False by lia.
Qed.

(** It ends for every file: a turn moves by the size of a header at least. *)
Lemma load_loop_ends content : forall fuel off last offs,
  0 <= off -> Z.of_nat (length content) - off <= Z.of_nat fuel ->
  (load_loop fuel content off last offs).1 <> Fault Deadlock.
Proof.
  induction fuel as [|fuel IH]; intros off lst offs H0 Hf; cbn [load_loop]; case_decide; try done; [lia|].
  unfold loadEntryHeader at 1. case_decide; [done|]. cbn [data_length].
  set (n := le_value _). assert (0 <= n) by (apply le_value_range).
  case_decide; [done|]. apply IH; unfold HEADER_SIZE; lia.
Qed.

Lemma loadEntryHeader_length content off h : loadEntryHeader content off = Ok h -> 0 <= data_length h.
Proof. unfold loadEntryHeader. case_decide; [done|]. intros [= <-]. cbn. apply le_value_range. Qed.

(** More fuel than that changes nothing. *)
Lemma load_loop_fuel content : forall fuel fuel' off last offs,
  0 <= off -> Z.of_nat (length content) - off <= Z.of_nat fuel -> (fuel <= fuel')%nat ->
  load_loop fuel' content off last offs = load_loop fuel content off last offs.
Proof.
  induction fuel as [|fuel IH]; intros fuel' off lst offs H0 Hf Hle.
  - destruct fuel'; cbn [load_loop]; [done|]. by rewrite !decide_False by lia.
  - destruct fuel' as [|fuel']; [lia|]. cbn [load_loop]. case_decide; [|done].
    destruct (loadEntryHeader content off) as [h|] eqn:E; [|done]. apply loadEntryHeader_length in E.
    case_decide; [done|]. apply IH; unfold HEADER_SIZE; lia.
Qed.

(** It can only end at the end of the file. *)
Lemma load_loop_at_end content : forall fuel off last offs r,
  off <= Z.of_nat (length content) ->
  (load_loop fuel content off last offs).1 = Ok r -> r.1 = Z.of_nat (length content).
Proof.
  induction fuel as [|fuel IH]; intros off lst offs r Hoff; cbn [load_loop]; case_decide; try done.
  - intros [= <-]. cbn. lia.
  - destruct (loadEntryHeader content off) as [h|f]; [|done]. case_decide; [done|]. apply IH. lia.
  - intros [= <-]. cbn. lia.
Qed.

(** ** A segment and its entries *)

(** The bytes before the entries. *)
Definition seg_prefix (v : Z) : bytes := if decide (v = LogVersion_V0) then [] else MAGIC ++ [byte_of v].

Definition seg_bytes (v first : Z) (es : list log_entry) : bytes := seg_prefix v ++ entries_bytes first es.

Definition seg_name (s : NuRaftLogSegment) : string := if is_open s then getOpenFileName s else getClosedFileName s.

(** A time the names of the files can hold. *)
Definition time_ok (time : string) : Prop := time <> "" /\ without underscore time.

(** The file of [s] holds the entries [es], and the object knows where. *)
Record seg_holds (d : Disk) (s : NuRaftLogSegment) (es : list log_entry) : Prop := {
  sh_first : 0 < first_index s;
  sh_last : last_index s = first_index s - 1 + Z.of_nat (length es);
  sh_range : last_index s < 2 ^ 64 - 1;
  sh_content : files d !! file_name s = Some (seg_bytes (version s) (first_index s) es);
  sh_version : read_version (seg_bytes (version s) (first_index s) es) = Ok (version s);
  sh_size : file_size s = Z.of_nat (length (seg_bytes (version s) (first_index s) es));
  sh_offsets : offsets s = entry_offsets (Z.of_nat (length (seg_prefix (version s)))) es;
  sh_entries : Forall entry_ok es;
  sh_name : file_name s = seg_name s;
  sh_time : time_ok (create_time s)
}.

Lemma seg_holds_frame d d' s es :
  files d' !! file_name s = files d !! file_name s -> seg_holds d s es -> seg_holds d' s es.
Proof. intros E [? ? ? Hc ? ? ? ? ? ?]. split; try done. by rewrite E. Qed.

Lemma seg_holds_fd d s es fd : seg_holds d s es -> seg_holds d (with_fd fd s) es.
Proof. by intros []. Qed.

Lemma seg_holds_content d s es :
  seg_holds d s es -> seg_content d s = seg_bytes (version s) (first_index s) es.
Proof. intros Hs. unfold seg_content. by rewrite (sh_content _ _ _ Hs). Qed.

Lemma seg_bytes_app v first es es' :
  seg_bytes v first (es ++ es') = seg_bytes v first es ++ entries_bytes (first + Z.of_nat (length es)) es'.
Proof. unfold seg_bytes. by rewrite entries_bytes_app, app_assoc. Qed.

(** The version is read from the first nine bytes. *)
Lemma read_version_prefix a b : (9 <= length a)%nat -> read_version (a ++ b) = read_version a.
Proof.
  intros Ha. unfold read_version, pread. change (Z.to_nat 0) with O. rewrite !drop_0.
  by rewrite take_app_le by (unfold MAGIC_AND_VERSION_SIZE; lia).
Qed.

Lemma read_version_length content v : read_version content = Ok v -> (9 <= length content)%nat.
Proof.
  unfold read_version. case_decide as Hl; [done|]. intros _. unfold pread in Hl. change (Z.to_nat 0) with O in Hl.
  rewrite drop_0, length_take in Hl. unfold MAGIC_AND_VERSION_SIZE in Hl. lia.
Qed.

Lemma read_version_V1 es first : read_version (seg_bytes CURRENT_LOG_VERSION first es) = Ok CURRENT_LOG_VERSION.
Proof. unfold seg_bytes. change (seg_prefix CURRENT_LOG_VERSION) with (MAGIC ++ [byte_of 1]).
  by rewrite read_version_prefix by (unfold MAGIC; cbn [length app]; lia). Qed.

(** The bytes of the entries before a position, when they are not all. *)
Lemma entries_bytes_split first es i e :
  es !! i = Some e ->
  entries_bytes first es = entries_bytes first (take i es) ++ entry_frame (first + Z.of_nat i) e ++
                           entries_bytes (first + Z.of_nat i + 1) (drop (S i) es).
Proof.
  intros Hi. rewrite <- (take_drop_middle es i e Hi) at 1. rewrite entries_bytes_app. cbn [entries_bytes].
  pose proof (lookup_lt_Some _ _ _ Hi). rewrite length_take. by replace (i `min` length es)%nat with i by lia.
Qed.

(** *** Reading *)

(** The entry of an index; [first] is the index of the first one. *)
Definition entry_of (first : Z) (es : list log_entry) (index : Z) : option log_entry :=
  if decide (first <= index) then es !! Z.to_nat (index - first) else None.

Lemma openFileIfNeeded_ok d s content :
  files d !! file_name s = Some content ->
  openFileIfNeeded (d, s) = (Ok tt, (d, with_fd (Some (default 0 (seg_fd s))) s)).
Proof.
  intros Hf. unfold openFileIfNeeded. cbn [fst snd]. destruct (seg_fd s) as [pos|] eqn:E.
  - cbn. rewrite <- E. by destruct s.
  - rewrite Hf, decide_True by done. done.
Qed.

Lemma getEntryOffset_holds d s es index :
  seg_holds d s es ->
  getEntryOffset index s =
  Ok (match entry_of (first_index s) es index with
      | Some _ => entry_offsets (Z.of_nat (length (seg_prefix (version s)))) es !! Z.to_nat (index - first_index s)
      | None => None
      end).
Proof.
  intros Hs. pose proof (sh_first _ _ _ Hs). pose proof (sh_last _ _ _ Hs). pose proof (sh_range _ _ _ Hs).
  unfold getEntryOffset, entry_of. rewrite (u64_id (first_index s - 1)) by (unfold in_u64; lia).
  case_decide as Hout.
  - case_decide; [|done]. rewrite lookup_ge_None_2; [done|]. lia.
  - rewrite decide_True by lia. rewrite u64_id by (unfold in_u64; lia). rewrite (sh_offsets _ _ _ Hs).
    destruct (es !! Z.to_nat (index - first_index s)) as [e|] eqn:E.
    + by rewrite (entry_offsets_lookup _ 0 _ _ _ E).
    + apply lookup_ge_None in E. lia.
Qed.

Lemma seg_getEntry_holds d s es index :
  seg_holds d s es ->
  seg_getEntry index (d, s) =
  (Ok (entry_of (first_index s) es index), (d, with_fd (Some (default 0 (seg_fd s))) s)).
Proof.
  intros Hs. unfold seg_getEntry, sm_bind. rewrite (openFileIfNeeded_ok _ _ _ (sh_content _ _ _ Hs)).
  set (s' := with_fd _ s). assert (seg_holds d s' es) as Hs' by (by apply seg_holds_fd). cbn [fst snd].
  rewrite (getEntryOffset_holds _ _ _ _ Hs'). cbn [mbind outcome_bind].
  change (first_index s') with (first_index s). change (version s') with (version s).
  rewrite (seg_holds_content _ _ _ Hs'). change (first_index s') with (first_index s). change (version s') with (version s).
  unfold entry_of. case_decide as Hi; [|done]. destruct (es !! _) as [e|] eqn:E; [|done].
  rewrite (entry_offsets_lookup _ (first_index s) _ _ _ E). unfold seg_bytes.
  rewrite (entries_bytes_split _ _ _ _ E), app_assoc, <- Nat2Z.inj_add, <- length_app, loadEntry_frame; [done|].
  eapply Forall_lookup_1; [apply (sh_entries _ _ _ Hs)|exact E].
Qed.

(** *** Appending *)

Definition seg_after_append (e : log_entry) (s : NuRaftLogSegment) : NuRaftLogSegment :=
  with_entries (last_index s + 1) (file_size s + frame_length e) (offsets s ++ [file_size s])
    (with_fd (Some (file_size s + frame_length e)) s).

Definition disk_after_append (e : log_entry) (s : NuRaftLogSegment) (d : Disk) : Disk :=
  with_files <[file_name s := seg_content d s ++ entry_frame (last_index s + 1) e]> d.

Lemma sys_write_end name bs d content :
  write_results d = [] -> files d !! name = Some content -> bs <> [] ->
  sys_write name (Z.of_nat (length content)) bs d =
  (Z.of_nat (length bs), with_files <[name := content ++ bs]> d).
Proof.
  intros Hw Hf Hb. unfold sys_write. rewrite Hw, Hf. cbn [default tail].
  rewrite decide_False by (destruct bs; [done|cbn; lia]). rewrite !Nat2Z.id, firstn_all, overwrite_end.
  unfold with_files. by rewrite Hw.
Qed.

Lemma seg_appendEntry_holds d s es e :
  seg_holds d s es -> is_open s = true -> seg_fd s = Some (file_size s) -> write_results d = [] ->
  entry_ok e -> last_index s + 1 < 2 ^ 64 - 1 ->
  seg_appendEntry e (d, s) = (Ok (last_index s + 1), (disk_after_append e s d, seg_after_append e s)) /\
  seg_holds (disk_after_append e s d) (seg_after_append e s) (es ++ [e]).
Proof.
  intros Hs Ho Hfd Hw He Hr. pose proof (sh_first _ _ _ Hs). pose proof (sh_last _ _ _ Hs).
  pose proof (body_length_u32 e He) as [_ Hb]. unfold body_length in Hb.
  assert (u64 (last_index s + 1) = last_index s + 1) as Hu by (apply u64_id; unfold in_u64; lia).
  assert (seg_bytes (version s) (first_index s) es ++ entry_frame (last_index s + 1) e =
          seg_bytes (version s) (first_index s) (es ++ [e])) as Hbytes.
  { rewrite seg_bytes_app. cbn [entries_bytes]. rewrite app_nil_r. do 2 f_equal. lia. }
  split.
  - unfold seg_appendEntry, sm_bind, seg_get, sm_get. cbn [fst snd]. rewrite Ho, Hfd. cbn [negb orb].
    rewrite bool_decide_false by done. rewrite Hb, Nat2Z.id, firstn_all.
    change (header_bytes _ ++ _) with (entry_frame (last_index s + 1) e). unfold fd_write. cbn [fst snd].
    rewrite Hfd, (sh_size _ _ _ Hs), (sys_write_end _ _ _ _ Hw (sh_content _ _ _ Hs)) by (by destruct (entry_frame _ e) eqn:E).
    cbn [fst snd]. rewrite length_entry_frame. rewrite decide_False.
    2:{ intros []. unfold frame_length, body_length. done. }
    pose proof (frame_length_pos e). unfold on_seg, sm_modify, sm_ret. cbn. rewrite Hu.
    unfold disk_after_append, seg_after_append, seg_content. rewrite (sh_content _ _ _ Hs). cbn.
    rewrite Z.max_r by lia. rewrite <- (sh_size _ _ _ Hs), <- Z.add_assoc. done.
  - assert (Z.of_nat (length (seg_bytes (version s) (first_index s) (es ++ [e]))) = file_size s + frame_length e) as Hlen.
    { rewrite <- Hbytes, length_app, Nat2Z.inj_add, length_entry_frame. by rewrite (sh_size _ _ _ Hs). }
    split; cbn; try done.
    + rewrite length_app. cbn. lia.
    + unfold disk_after_append, seg_content. rewrite (sh_content _ _ _ Hs). cbn. by rewrite lookup_insert_eq, Hbytes.
    + rewrite <- Hbytes, read_version_prefix; [apply (sh_version _ _ _ Hs)|].
      eapply read_version_length, (sh_version _ _ _ Hs).
    + rewrite (entry_offsets_app _ _ _ (first_index s)), <- (sh_offsets _ _ _ Hs). cbn [entry_offsets].
      do 2 f_equal. rewrite (sh_size _ _ _ Hs). unfold seg_bytes. rewrite length_app. lia.
    + apply Forall_app. split; [apply (sh_entries _ _ _ Hs)|by constructor].
    + rewrite (sh_name _ _ _ Hs). unfold seg_name. cbn. by rewrite Ho.
    + apply (sh_time _ _ _ Hs).
Qed.

(** *** Renaming

    An operation on [s], which becomes [s'], touches the file of [s] only; that
    file may get the name [s'] has. *)
Definition seg_moved (d d' : Disk) (s s' : NuRaftLogSegment) : Prop :=
  write_results d' = write_results d /\
  forall name, name <> file_name s' ->
    files d' !! name = if decide (name = file_name s) then None else files d !! name.

Lemma renameTo_files old new d content :
  files d !! old = Some content ->
  exists d', renameTo old new d = (Ok tt, d') /\ files d' = <[new := content]> (delete old (files d)) /\
             write_results d' = write_results d.
Proof. intros Hf. unfold renameTo. rewrite Hf. eauto. Qed.

Lemma seg_moved_rename d d' s s' content :
  files d' = <[file_name s' := content]> (delete (file_name s) (files d)) ->
  write_results d' = write_results d -> seg_moved d d' s s'.
Proof.
  intros Hf Hw. split; [done|]. intros name Hn. rewrite Hf, lookup_insert_ne by done.
  rewrite lookup_delete. case_decide as E; case_decide as E'; congruence.
Qed.

(** The segment under another name. *)
Lemma seg_holds_renamed d d' s es b fd :
  seg_holds d s es ->
  let s' := with_file b (seg_name (with_file b "" s)) (with_fd fd s) in
  files d' !! file_name s' = files d !! file_name s -> seg_holds d' s' es.
Proof.
  intros [] s' Hf. split; try done; cbn in *; by rewrite Hf.
Qed.

Lemma seg_close_holds d s es :
  seg_holds d s es -> is_open s = true ->
  let s' := with_file false (getClosedFileName s) (with_fd None s) in
  exists d', seg_close true (d, s) = (Ok tt, (d', s')) /\ seg_holds d' s' es /\ seg_moved d d' s s'.
Proof.
  intros Hs Ho s'. assert (file_name s = getOpenFileName s) as Hn.
  { rewrite (sh_name _ _ _ Hs). unfold seg_name. by rewrite Ho. }
  destruct (renameTo_files (getOpenFileName s) (getClosedFileName s) d _ ltac:(rewrite <- Hn; apply (sh_content _ _ _ Hs)))
    as (d' & Hr & Hf & Hw).
  exists d'. split_and!.
  - unfold seg_close, sm_bind, seg_get, closeFileIfNeeded, on_seg, sm_modify, sm_get, sm_ret. cbn [fst snd with_fd is_open].
    rewrite Ho. cbn [negb fst snd]. change (getOpenFileName (with_fd None s)) with (getOpenFileName s).
    change (getClosedFileName (with_fd None s)) with (getClosedFileName s). by rewrite Hr.
  - apply (seg_holds_renamed d d' s es false None); [done|]. cbn. change (getClosedFileName (with_file _ _ _)) with (getClosedFileName s).
    rewrite Hf, lookup_insert_eq. symmetry. apply (sh_content _ _ _ Hs).
  - eapply seg_moved_rename; [|done]. cbn. by rewrite Hf, <- Hn.
Qed.

(** A segment that was closed is at the start of its file. *)
Lemma reopen_holds d s es :
  seg_holds d s es ->
  let s' := if is_open s then s else with_file true (getOpenFileName s) (with_fd (Some 0) s) in
  exists d', reopen_closed_segment (d, s) = (Ok tt, (d', s')) /\ seg_holds d' s' es /\ seg_moved d d' s s'.
Proof.
  intros Hs s'. subst s'. destruct (is_open s) eqn:Ho.
  { exists d. split_and!; [|done|].
    - unfold reopen_closed_segment, sm_bind, seg_get, sm_get. cbn. by rewrite Ho.
    - split; [done|]. intros name Hn. by rewrite decide_False. }
  assert (file_name s = getClosedFileName s) as Hn.
  { rewrite (sh_name _ _ _ Hs). unfold seg_name. by rewrite Ho. }
  destruct (renameTo_files (getClosedFileName s) (getOpenFileName s) d _ ltac:(rewrite <- Hn; apply (sh_content _ _ _ Hs)))
    as (d' & Hr & Hf & Hw).
  exists d'. split_and!.
  - unfold reopen_closed_segment, sm_bind, seg_get, closeFileIfNeeded, on_seg, sm_modify, sm_get, sm_ret.
    cbn [fst snd with_fd is_open]. rewrite Ho. cbn [fst snd].
    change (getOpenFileName (with_fd None s)) with (getOpenFileName s).
    change (getClosedFileName (with_fd None s)) with (getClosedFileName s). rewrite Hr.
    unfold openFileIfNeeded. cbn. rewrite Hf, lookup_insert_eq, decide_True by done. done.
  - apply (seg_holds_renamed d d' s es true (Some 0)); [done|]. cbn. change (getOpenFileName (with_file _ _ _)) with (getOpenFileName s).
    rewrite Hf, lookup_insert_eq. symmetry. apply (sh_content _ _ _ Hs).
  - eapply seg_moved_rename; [|done]. cbn. by rewrite Hf, <- Hn.
Qed.

(** *** Truncating *)

Lemma seg_moved_trans d1 d2 d3 s1 s2 s3 :
  seg_moved d1 d2 s1 s2 -> seg_moved d2 d3 s2 s3 -> file_name s3 = file_name s2 -> seg_moved d1 d3 s1 s3.
Proof.
  intros [Hw1 Hf1] [Hw2 Hf2] E. split; [congruence|]. intros name Hn. rewrite Hf2 by done.
  rewrite decide_False by congruence. apply Hf1. congruence.
Qed.

Lemma entries_bytes_take first es i :
  (i <= length es)%nat ->
  exists rest, entries_bytes first es = entries_bytes first (take i es) ++ rest /\
    (i = length es -> rest = []).
Proof.
  intros Hi. exists (entries_bytes (first + Z.of_nat i) (drop i es)). split.
  - rewrite <- (take_drop i es) at 1. rewrite entries_bytes_app, length_take.
    by replace (i `min` length es)%nat with i by lia.
  - intros ->. by rewrite drop_all.
Qed.

Lemma take_entry_offsets start es i : take i (entry_offsets start es) = entry_offsets start (take i es).
Proof.
  revert start i. induction es as [|e es IH]; intros start [|i]; cbn [entry_offsets take]; try done. by rewrite IH.
Qed.

(** The first nine bytes stay: a file of the first format cannot lose its first
    entry and keep a version. *)
Definition keeps_header (s : NuRaftLogSegment) (es : list log_entry) : Prop :=
  version s = LogVersion_V0 -> es <> [].

Lemma seg_bytes_V0_long v first e es : (9 <= length (seg_bytes v first (e :: es)))%nat.
Proof.
  unfold seg_bytes. cbn [entries_bytes]. rewrite !length_app.
  pose proof (length_entry_frame first e). pose proof (frame_length_pos e). lia.
Qed.

Lemma read_version_take d s es i :
  seg_holds d s es -> (i <= length es)%nat -> keeps_header s (take i es) ->
  read_version (seg_bytes (version s) (first_index s) (take i es)) = Ok (version s).
Proof.
  intros Hs Hi Hk. rewrite <- (sh_version _ _ _ Hs).
  destruct (entries_bytes_take (first_index s) es i Hi) as (rest & E & _).
  unfold seg_bytes at 2. rewrite E, app_assoc. symmetry. apply read_version_prefix.
  fold (seg_bytes (version s) (first_index s) (take i es)).
  destruct (decide (version s = LogVersion_V0)) as [Hv|Hv].
  - destruct (take i es) as [|e es'] eqn:Et; [by apply Hk in Hv|]. apply seg_bytes_V0_long.
  - unfold seg_bytes, seg_prefix. rewrite decide_False by done. rewrite !length_app. cbn. lia.
Qed.

Definition seg_truncated (kept size : Z) (s : NuRaftLogSegment) : NuRaftLogSegment :=
  with_entries kept size (take (Z.to_nat (kept + 1 - first_index s)) (offsets s)) (with_fd (Some size) s).

(** Cutting an open segment after the index [kept]. *)
Lemma fd_truncate_holds d s es kept pos :
  seg_holds d s es -> is_open s = true -> seg_fd s = Some pos ->
  first_index s <= kept + 1 -> kept <= last_index s ->
  let i := Z.to_nat (kept + 1 - first_index s) in
  let size := Z.of_nat (length (seg_bytes (version s) (first_index s) (take i es))) in
  keeps_header s (take i es) ->
  exists d', fd_truncate size (d, s) = (Ok tt, (d', with_fd (Some size) s)) /\
    seg_holds d' (seg_truncated kept size s) (take i es) /\
    seg_moved d d' s (seg_truncated kept size s).
Proof.
  intros Hs Ho Hfd H1 H2 i size Hk. pose proof (sh_last _ _ _ Hs). pose proof (sh_range _ _ _ Hs).
  assert (i <= length es)%nat as Hi by lia.
  destruct (entries_bytes_take (first_index s) es i Hi) as (rest & E & _).
  assert (seg_bytes (version s) (first_index s) es = seg_bytes (version s) (first_index s) (take i es) ++ rest) as Eb.
  { unfold seg_bytes. by rewrite E, app_assoc. }
  assert (take (Z.to_nat size) (seg_content d s) ++ replicate (Z.to_nat size - length (seg_content d s)) zero =
          seg_bytes (version s) (first_index s) (take i es)) as Ec.
  { rewrite (seg_holds_content _ _ _ Hs), Eb. unfold size. rewrite Nat2Z.id, take_app_length, length_app.
    replace (_ - _)%nat with O by lia. by rewrite app_nil_r. }
  eexists. split_and!.
  - unfold fd_truncate. cbn [fst snd]. rewrite Hfd, Ec. done.
  - split; cbn; try by destruct Hs.
    + rewrite length_take. lia.
    + destruct Hs; lia.
    + by rewrite lookup_insert_eq.
    + by eapply read_version_take.
    + rewrite (sh_offsets _ _ _ Hs). apply take_entry_offsets.
    + apply Forall_take, (sh_entries _ _ _ Hs).
    + rewrite (sh_name _ _ _ Hs). unfold seg_name. cbn. by rewrite Ho.
  - split; [done|]. cbn. intros name Hn. by rewrite lookup_insert_ne, decide_False.
Qed.

Lemma seg_truncate_holds d s es kept :
  seg_holds d s es -> first_index s <= kept + 1 -> kept <= last_index s -> 0 <= kept ->
  (is_open s = true -> is_Some (seg_fd s)) ->
  keeps_header s (take (Z.to_nat (kept + 1 - first_index s)) es) ->
  exists d' s', seg_truncate kept (d, s) = (Ok (bool_decide (kept < last_index s)), (d', s')) /\
    seg_holds d' s' (take (Z.to_nat (kept + 1 - first_index s)) es) /\ seg_moved d d' s s' /\
    is_open s' = true /\ first_index s' = first_index s /\ version s' = version s /\ is_Some (seg_fd s') /\
    (kept < last_index s -> seg_fd s' = Some (file_size s')) /\
    (kept = last_index s -> file_size s' = file_size s /\ (is_open s = true -> seg_fd s' = seg_fd s)).
Proof.
  intros Hs H1 H2 H0 Hfd Hk. destruct (reopen_holds _ _ _ Hs) as (d1 & Hr & Hs1 & Hm1).
  set (s1 := if is_open s then s else _) in *. pose proof (sh_last _ _ _ Hs). pose proof (sh_range _ _ _ Hs).
  assert (is_open s1 = true /\ first_index s1 = first_index s /\ version s1 = version s /\ last_index s1 = last_index s
          /\ offsets s1 = offsets s /\ file_size s1 = file_size s /\ is_Some (seg_fd s1) /\
          (is_open s = true -> seg_fd s1 = seg_fd s)) as (Ho1 & Ef & Ev & El & Eo & Es & [pos Hfd1] & Hfds).
  { subst s1. destruct (is_open s) eqn:Ho; [|by split_and!]. split_and!; try done. by apply Hfd. }
  unfold seg_truncate, sm_bind, seg_get, sm_get. cbn [fst snd]. case_decide as Hl.
  - rewrite Hr. exists d1, s1. rewrite bool_decide_false by lia. split_and!; try done; [|lia].
    rewrite take_ge by lia. done.
  - pose proof (sh_first _ _ _ Hs). cbn [fst snd]. rewrite u64_id by (unfold in_u64; lia). set (i := Z.to_nat (kept + 1 - first_index s)) in *.
    assert (i < length es)%nat as Hi by lia. destruct (lookup_lt_is_Some_2 es i Hi) as [e He].
    rewrite (sh_offsets _ _ _ Hs), (entry_offsets_lookup _ (first_index s) _ _ _ He). rewrite Hr.
    rewrite <- Nat2Z.inj_add, <- length_app. fold (seg_bytes (version s) (first_index s) (take i es)).
    destruct (fd_truncate_holds d1 s1 es kept pos Hs1 Ho1 Hfd1) as (d2 & Ht & Hs2 & Hm2);
      [lia|lia| |].
    { unfold keeps_header. rewrite Ev, Ef. exact Hk. }
    rewrite Ev, Ef in Ht, Hs2, Hm2. fold i in Ht, Hs2, Hm2. rewrite Ht. rewrite <- (sh_offsets _ _ _ Hs), <- Eo.
    unfold on_seg, sm_modify, sm_ret. rewrite bool_decide_true by lia. set (size := Z.of_nat _) in *.
    eexists d2, _. split_and!; [| |eapply seg_moved_trans; [exact Hm1|exact Hm2|done]|..]; cbn; try done; [|lia..].
    unfold seg_truncated. rewrite Ef. done.
Qed.

(** *** Loading *)

(** A segment object before its file is loaded. *)
Record seg_unloaded (d : Disk) (s : NuRaftLogSegment) (v : Z) (es : list log_entry) : Prop := {
  su_first : 0 < first_index s;
  su_range : first_index s - 1 + Z.of_nat (length es) < 2 ^ 64 - 1;
  su_content : files d !! file_name s = Some (seg_bytes v (first_index s) es);
  su_version : read_version (seg_bytes v (first_index s) es) = Ok v;
  su_entries : Forall entry_ok es;
  su_offsets : offsets s = [];
  su_name : file_name s = seg_name s;
  su_time : time_ok (create_time s);
  su_last : is_open s = false -> last_index s = first_index s - 1 + Z.of_nat (length es)
}.

Lemma seg_prefix_start v :
  (if decide (v = LogVersion_V0) then 0 else Z.of_nat MAGIC_AND_VERSION_SIZE) = Z.of_nat (length (seg_prefix v)).
Proof. unfold seg_prefix. by case_decide. Qed.

Lemma entries_bytes_length first es : (length es <= length (entries_bytes first es))%nat.
Proof.
  revert first. induction es as [|e es IH]; intros first; cbn [entries_bytes length]; [lia|].
  rewrite length_app. specialize (IH (first + 1)). pose proof (length_entry_frame first e).
  pose proof (frame_length_pos e). lia.
Qed.

Definition seg_loaded (v : Z) (es : list log_entry) (s : NuRaftLogSegment) : NuRaftLogSegment :=
  let size := Z.of_nat (length (seg_bytes v (first_index s) es)) in
  with_version v (with_entries (first_index s - 1 + Z.of_nat (length es)) size
    (entry_offsets (Z.of_nat (length (seg_prefix v))) es)
    (with_fd (Some (if is_open s then size else default 0 (seg_fd s))) s)).

Lemma seg_loaded_holds d s v es : seg_unloaded d s v es -> seg_holds d (seg_loaded v es s) es.
Proof.
  intros []. split; try done. cbn. rewrite su_name0. unfold seg_name. cbn. destruct (is_open s) eqn:Ho; [done|].
  unfold getClosedFileName. cbn. by rewrite su_last0.
Qed.

(** What [load] does before its loop. *)
Lemma seg_load_header d s content v :
  files d !! file_name s = Some content -> read_version content = Ok v ->
  (openFileIfNeeded ;;; readHeader)%sm (d, s) =
  (Ok tt, (d, with_version v (with_fd (Some (default 0 (seg_fd s))) s))).
Proof.
  intros Hf Hv. unfold sm_bind. rewrite (openFileIfNeeded_ok _ _ _ Hf). unfold readHeader, seg_content.
  cbn [fst snd with_fd seg_fd file_name]. rewrite decide_False by done.
  rewrite Hf. cbn [default id]. by rewrite Hv.
Qed.

Lemma seg_load_unfold d s content v :
  files d !! file_name s = Some content -> read_version content = Ok v ->
  seg_load (d, s) =
  let start := Z.of_nat (length (seg_prefix v)) in
  let '(r, offs) := load_loop (load_fuel content) content start (u64 (first_index s - 1)) (offsets s) in
  let s := with_entries (last_index s) (file_size s) offs (with_version v (with_fd (Some (default 0 (seg_fd s))) s)) in
  match r with
  | Fault f => (Fault f, (d, s))
  | Ok (entry_off, last_index_read) =>
      if negb (is_open s) && bool_decide (last_index_read <> last_index s)
      then (Fault (Throw CORRUPTED_LOG), (d, s))
      else
        let s := with_entries last_index_read (file_size s) offs s in
        if decide (entry_off <> Z.of_nat (length content)) then (Fault (Throw CORRUPTED_LOG), (d, s))
        else
          let s := with_entries last_index_read entry_off offs s in
          (Ok tt, (d, if is_open s then with_fd (Some entry_off) s else s))
  end.
Proof.
  intros Hf Hv. unfold seg_load. rewrite <- sm_bind_assoc. unfold sm_bind at 1.
  rewrite (seg_load_header _ _ _ _ Hf Hv). unfold load_entries. cbv zeta. cbn [fst snd]. unfold seg_content.
  change (file_name (with_version _ _)) with (file_name s). rewrite Hf. cbn [default id].
  change (version (with_version v _)) with v. rewrite seg_prefix_start. done.
Qed.

Lemma seg_load_holds d s v es :
  seg_unloaded d s v es -> seg_load (d, s) = (Ok tt, (d, seg_loaded v es s)).
Proof.
  intros Hs. pose proof (su_first _ _ _ _ Hs). pose proof (su_range _ _ _ _ Hs).
  rewrite (seg_load_unfold _ _ _ _ (su_content _ _ _ _ Hs) (su_version _ _ _ _ Hs)). cbv zeta.
  rewrite u64_id by (unfold in_u64; lia). unfold load_fuel, seg_bytes at 1 2.
  rewrite load_loop_entries; [|apply (su_entries _ _ _ _ Hs)| |lia..].
  2:{ unfold seg_bytes. rewrite length_app. pose proof (entries_bytes_length (first_index s) es). lia. }
  rewrite (su_offsets _ _ _ _ Hs), app_nil_l. fold (seg_bytes v (first_index s) es). cbn [is_open last_index with_entries with_version with_fd].
  destruct (is_open s) eqn:Ho; cbn [negb andb].
  - rewrite decide_False by (intros []; done). unfold seg_loaded. rewrite Ho. done.
  - rewrite bool_decide_false by (intros []; by rewrite (su_last _ _ _ _ Hs Ho)).
    rewrite decide_False by (intros []; done). unfold seg_loaded. rewrite Ho. done.
Qed.

(** ** A new segment *)

Definition fresh_segment (now : string) (first : Z) : NuRaftLogSegment :=
  with_file true (getOpenFileName (mkSegment first (first - 1) true (Some 9) "" now 9 [] CURRENT_LOG_VERSION))
    (mkSegment first (first - 1) true (Some 9) "" now 9 [] CURRENT_LOG_VERSION).

Definition created_segment (now : string) (first : Z) : NuRaftLogSegment :=
  with_entries (first - 1) 0 [] (with_fd (Some 0) (fresh_segment now first)).

Lemma new_segment_ok now first d :
  0 < first < 2 ^ 64 -> files d !! file_name (fresh_segment now first) = None ->
  new_segment now first d =
  (Ok (created_segment now first), with_files <[file_name (fresh_segment now first) := []]> d).
Proof.
  intros Hf Hn. unfold new_segment. rewrite u64_id by (unfold in_u64; lia). cbv zeta.
  change (file_name (with_file true _ _)) with (file_name (fresh_segment now first)).
  rewrite Hn, decide_False by (by intros [? [=]]). done.
Qed.

Lemma fd_write_end bs d s content :
  write_results d = [] -> seg_fd s = Some (Z.of_nat (length content)) -> files d !! file_name s = Some content ->
  bs <> [] ->
  fd_write bs (d, s) =
  (Ok (Z.of_nat (length bs)),
   (with_files <[file_name s := content ++ bs]> d, with_fd (Some (Z.of_nat (length (content ++ bs)))) s)).
Proof.
  intros Hw Hfd Hf Hb. unfold fd_write. cbn [fst snd]. rewrite Hfd, (sys_write_end _ _ _ _ Hw Hf Hb).
  cbn [fst snd]. rewrite length_app, Nat2Z.inj_add, Z.max_r by lia. done.
Qed.

Lemma writeHeader_new now first d :
  write_results d = [] -> files d !! file_name (fresh_segment now first) = Some [] ->
  writeHeader (d, created_segment now first) =
  (Ok tt, (with_files <[file_name (fresh_segment now first) := MAGIC ++ [byte_of 1]]> d, fresh_segment now first)).
Proof.
  intros Hw Hf. unfold writeHeader, sm_bind, seg_get, sm_get. cbn [fst snd].
  change (is_open (created_segment now first)) with true. change (seg_fd (created_segment now first)) with (Some 0).
  cbn [negb]. rewrite decide_False by done. rewrite (fd_write_end _ _ (created_segment now first) []) by done.
  rewrite decide_False by (intros []; done). cbn [fst snd].
  rewrite (fd_write_end _ _ _ MAGIC); [|done..|cbn; by rewrite lookup_insert_eq|done].
  rewrite decide_False by (intros []; done). unfold on_seg, sm_modify. cbn [fst snd].
  unfold with_files. cbn [files]. rewrite insert_insert_eq. done.
Qed.

Lemma fresh_segment_holds now first d :
  0 < first < 2 ^ 64 - 1 -> time_ok now ->
  files d !! file_name (fresh_segment now first) = Some (MAGIC ++ [byte_of 1]) ->
  seg_holds d (fresh_segment now first) [].
Proof.
  intros Hf Ht Hc. split; cbn in *; try done; lia.
Qed.

(** ** Damage *)

(** A file whose last entry was only written in part is not loaded. *)
Lemma load_loop_torn pre index e n fuel last offs :
  entry_ok e -> (0 < n < length (entry_frame index e))%nat -> (0 < fuel)%nat ->
  load_loop fuel (pre ++ take n (entry_frame index e)) (Z.of_nat (length pre)) last offs =
  (Fault (Throw (if decide (n < HEADER_SIZE)%nat then CANNOT_READ_FROM_FILE_DESCRIPTOR else CORRUPTED_LOG)), offs).
Proof.
  intros He Hn Hf. destruct fuel as [|fuel]; [lia|]. cbn [load_loop].
  assert (length (take n (entry_frame index e)) = n) as Hl by (rewrite length_take; lia).
  rewrite decide_True by (rewrite length_app; lia). case_decide as Hh.
  - unfold loadEntryHeader. rewrite decide_True; [done|]. unfold pread.
    rewrite Nat2Z.id, drop_app_length, length_take. lia.
  - assert (loadEntryHeader (pre ++ take n (entry_frame index e)) (Z.of_nat (length pre)) = Ok (entry_header index e)) as ->.
    { rewrite <- (loadEntryHeader_frame pre index e [] He). unfold loadEntryHeader.
      assert (pread (pre ++ take n (entry_frame index e)) HEADER_SIZE (Z.of_nat (length pre)) =
              pread (pre ++ entry_frame index e ++ []) HEADER_SIZE (Z.of_nat (length pre))) as ->; [|done].
      unfold pread. rewrite Nat2Z.id, !drop_app_length, app_nil_r, take_take. f_equal. lia. }
    cbn [data_length entry_header]. fold (frame_length e). pose proof (length_entry_frame index e).
    rewrite decide_True; [done|]. rewrite length_app. lia.
Qed.

Lemma seg_load_torn d s v es e n :
  let index := first_index s + Z.of_nat (length es) in
  0 < first_index s -> index < 2 ^ 64 -> Forall entry_ok es -> entry_ok e ->
  (0 < n < length (entry_frame index e))%nat -> read_version (seg_bytes v (first_index s) es) = Ok v ->
  files d !! file_name s = Some (seg_bytes v (first_index s) es ++ take n (entry_frame index e)) ->
  exists s', seg_load (d, s) =
    (Fault (Throw (if decide (n < HEADER_SIZE)%nat then CANNOT_READ_FROM_FILE_DESCRIPTOR else CORRUPTED_LOG)), (d, s')).
Proof.
  intros index H0 Hi Hes He Hn Hv Hf.
  rewrite (seg_load_unfold _ _ _ v Hf) by (by rewrite read_version_prefix by (by eapply read_version_length)).
  cbv zeta. rewrite u64_id by (unfold in_u64, index in *; lia). unfold seg_bytes. rewrite <- app_assoc.
  set (content := seg_prefix v ++ _). assert (length es < load_fuel content)%nat as Hfuel.
  { unfold load_fuel, content. rewrite !length_app, length_take.
    pose proof (entries_bytes_length (first_index s) es). lia. }
  replace (load_fuel content) with (length es + (load_fuel content - length es))%nat by lia. unfold content at 2.
  rewrite load_loop_prefix by first [done|unfold index in *; lia].
  rewrite app_assoc, load_loop_torn by first [done|lia]. eauto.
Qed.

(** An entry of which up to four consecutive bytes of its content changed is
    refused when it is read. *)
Lemma loadEntry_damaged pre index e post p a b q :
  entry_ok e -> body_serialize e = p ++ a ++ q -> length a = length b -> (length a <= 4)%nat -> a <> b ->
  loadEntry (pre ++ (header_bytes (entry_header index e) ++ p ++ b ++ q) ++ post) (Z.of_nat (length pre)) =
  Fault (Throw CORRUPTED_LOG).
Proof.
  intros He Hb Hl H4 Hne. unfold loadEntry.
  assert (loadEntryHeader (pre ++ (header_bytes (entry_header index e) ++ p ++ b ++ q) ++ post) (Z.of_nat (length pre)) =
          Ok (entry_header index e)) as ->.
  { rewrite <- (loadEntryHeader_frame pre index e [] He). unfold loadEntryHeader, entry_frame.
    rewrite <- !(app_assoc (header_bytes _)), !pread_middle by (by rewrite length_header_bytes). done. }
  cbn [mbind outcome_bind data_length data_crc entry_header].
  assert (length (body_serialize e) = length (p ++ b ++ q)) as Hlen by (rewrite Hb, !length_app; lia).
  unfold body_length. rewrite Nat2Z.id, Hlen. rewrite <- (app_assoc (header_bytes _)), app_assoc.
  replace (Z.of_nat (length pre) + Z.of_nat HEADER_SIZE)
    with (Z.of_nat (length (pre ++ header_bytes (entry_header index e))))
    by (rewrite length_app, length_header_bytes; lia).
  rewrite pread_middle by done. rewrite decide_False by (intros []; done).
  unfold verifyCRC32. rewrite bool_decide_false; [done|]. rewrite Hb. by apply crc_detects_burst.
Qed.
