(* ===== verification/LogSegmentStore.v ===== *)
(** * The segments of the log

    [LogSegmentStore] of [src/src/Service/NuRaftLogSegment.h/.cpp]: the closed
    segments, ordered by their first index, and the open one, which entries are
    appended to. The code runs every operation under [seg_mutex], as a whole
    here. A segment object is held once, in [closed_segments] or as
    [open_segment], so that the lists of segments are lists of their values. *)

From S2P Require Import Prelude Text Wire LogSegment.

Record LogSegmentStore := mkLogs {
  log_disk : Disk;
  first_log_index : Z;
  last_log_index : Z;
  max_log_segment_file_size : Z;
  closed_segments : list NuRaftLogSegment;
  open_segment : option NuRaftLogSegment
}.

Definition MAX_LOG_SEGMENT_FILE_SIZE : Z := 1024 * 1024 * 1024.

(** A store over the files of a directory; the maximal size has 32 bits. *)
Definition new_logs (d : Disk) (max_size : Z) : LogSegmentStore := mkLogs d 1 0 (u32 max_size) [] None.

Definition with_disk (d : Disk) (st : LogSegmentStore) : LogSegmentStore :=
  mkLogs d (first_log_index st) (last_log_index st) (max_log_segment_file_size st) (closed_segments st)
    (open_segment st).

Definition with_range (first last : Z) (st : LogSegmentStore) : LogSegmentStore :=
  mkLogs (log_disk st) first last (max_log_segment_file_size st) (closed_segments st) (open_segment st).

Definition with_segments (closed : list NuRaftLogSegment) (open : option NuRaftLogSegment) (st : LogSegmentStore)
    : LogSegmentStore :=
  mkLogs (log_disk st) (first_log_index st) (last_log_index st) (max_log_segment_file_size st) closed open.

Abbreviation LogM := (SM LogSegmentStore).

(** ** Running an operation of a segment *)

(** Which segment: the open one, or a closed one by its position. *)
Inductive SegRef :=
| OpenRef
| ClosedRef (i : nat).

Definition seg_at (r : SegRef) (st : LogSegmentStore) : option NuRaftLogSegment :=
  match r with
  | OpenRef => open_segment st
  | ClosedRef i => closed_segments st !! i
  end.

Definition put_seg (r : SegRef) (s : NuRaftLogSegment) (st : LogSegmentStore) : LogSegmentStore :=
  match r with
  | OpenRef => with_segments (closed_segments st) (Some s) st
  | ClosedRef i => with_segments (<[i := s]> (closed_segments st)) (open_segment st) st
  end.

(** A call on a segment; a null pointer may not be dereferenced. *)
Definition on_segment {A} (r : SegRef) (m : SegM A) : LogM A := fun st =>
  match seg_at r st with
  | None => (Fault UndefinedBehaviour, st)
  | Some s => let '(a, (d, s')) := m (log_disk st, s) in (a, put_seg r s' (with_disk d st))
  end.

(** A call on a segment that is no longer in the store. *)
Definition on_detached {A} (s : NuRaftLogSegment) (m : SegM A) : LogM A := fun st =>
  let '(a, (d, _)) := m (log_disk st, s) in (a, with_disk d st).

Fixpoint remove_all (segs : list NuRaftLogSegment) : LogM unit :=
  match segs with
  | [] => sm_ret tt
  | s :: segs' => (on_detached s seg_remove ;;; remove_all segs')%sm
  end.

(** ** Operations *)

Definition logs_flush : LogM Z := fun st =>
  match open_segment st with
  | Some _ => on_segment OpenRef seg_flush st
  | None => (Fault (Throw LOGICAL_ERROR), st)
  end.

(** The open segment stays as it is while it is not larger than the maximal size
    and has the current format. *)
Definition open_segment_fits (st : LogSegmentStore) : bool :=
  match open_segment st with
  | Some s => bool_decide (file_size s <= max_log_segment_file_size st /\ version s >= CURRENT_LOG_VERSION)
  | None => false
  end.

Definition close_open_segment : LogM unit := fun st =>
  match open_segment st with
  | None => (Ok tt, st)
  | Some _ =>
      (on_segment OpenRef (seg_close true) ;;;
       sm_modify (fun st => with_segments (closed_segments st ++ option_list (open_segment st)) None st))%sm st
  end.

Definition create_open_segment (now : string) : LogM unit :=
  (next_idx <- sm_get (fun st => u64 (last_log_index st + 1)) ;;
   (fun st => let '(r, d) := new_segment now next_idx (log_disk st) in
              match r with
              | Ok s => (Ok tt, with_segments (closed_segments st) (Some s) (with_disk d st))
              | Fault f => (Fault f, with_disk d st)
              end) ;;;
   on_segment OpenRef writeHeader)%sm.

Definition openNewSegmentIfNeeded (now : string) : LogM unit := fun st =>
  if open_segment_fits st then (Ok tt, st)
  else (close_open_segment ;;; create_open_segment now)%sm st.

Definition has_index (index : Z) (s : NuRaftLogSegment) : bool :=
  bool_decide (first_index s <= index <= last_index s).

(** The position of the last of the segments that has the index. *)
Fixpoint find_closed (index : Z) (segs : list NuRaftLogSegment) : option nat :=
  match segs with
  | [] => None
  | s :: segs' =>
      match find_closed index segs' with
      | Some i => Some (S i)
      | None => if has_index index s then Some O else None
      end
  end.

(** [None] is the null pointer. *)
Definition getSegment (index : Z) (st : LogSegmentStore) : option SegRef :=
  if decide (first_log_index st > last_log_index st) then None
  else if decide (index < first_log_index st \/ index > last_log_index st) then None
  else if from_option (fun s => bool_decide (index >= first_index s)) false (open_segment st) then Some OpenRef
  else ClosedRef <$> find_closed index (closed_segments st).

Definition logs_getVersion (index : Z) : LogM Z := fun st =>
  match getSegment index st with
  | None => (Fault UndefinedBehaviour, st)
  | Some r => on_segment r (seg_get version) st
  end.

Definition logs_appendEntry (now : string) (entry : log_entry) : LogM Z :=
  (openNewSegmentIfNeeded now ;;;
   index <- on_segment OpenRef (seg_appendEntry entry) ;;
   sm_modify (fun st => with_range (first_log_index st) (from_option last_index 0 (open_segment st)) st) ;;;
   sm_ret index)%sm.

Definition logs_getEntry (index : Z) : LogM (option log_entry) := fun st =>
  match getSegment index st with
  | None => (Ok None, st)
  | Some r => on_segment r (seg_getEntry index) st
  end.

(** [for (index = start_index; index <= end_index; index++)], of which [n] turns
    are left. *)
Fixpoint getEntries_loop (n : nat) (index : Z) : LogM (list (option log_entry)) :=
  match n with
  | O => sm_ret []
  | S n' =>
      (entry <- logs_getEntry index ;;
       entries <- getEntries_loop n' (index + 1) ;;
       sm_ret (entry :: entries))%sm
  end.

Definition getEntries (start_index end_index : Z) : LogM (list (option log_entry)) :=
  getEntries_loop (Z.to_nat (end_index - start_index + 1)) start_index.

(** *** removeSegment *)

(** [last_log_index == 0 || (last_log_index - 1) < first_log_index] *)
Definition past_the_end (first last : Z) : bool := bool_decide (last = 0 \/ last - 1 < first).

(** A segment that is kept may move the range back to its first index. *)
Definition keep_segment (s : NuRaftLogSegment) (range : Z * Z) : Z * Z :=
  if decide (first_index s < range.1) then
    (first_index s, if past_the_end (first_index s) range.2 then last_index s else range.2)
  else range.

(** The segments kept, the segments to be removed, and the range. *)
Fixpoint remove_closed (first_index_kept : Z) (segs : list NuRaftLogSegment) (range : Z * Z)
    : list NuRaftLogSegment * list NuRaftLogSegment * (Z * Z) :=
  match segs with
  | [] => ([], [], range)
  | s :: segs' =>
      if decide (last_index s < first_index_kept) then
        let '(kept, removed, range') := remove_closed first_index_kept segs' range in (kept, s :: removed, range')
      else
        let '(kept, removed, range') := remove_closed first_index_kept segs' (keep_segment s range) in
        (s :: kept, removed, range')
  end.

Definition remove_open (first_index_kept : Z) (open : option NuRaftLogSegment) (range : Z * Z)
    : option NuRaftLogSegment * list NuRaftLogSegment * (Z * Z) :=
  match open with
  | None => (None, [], range)
  | Some s =>
      if decide (last_index s < first_index_kept) then (None, [s], range)
      else (Some s, [], keep_segment s range)
  end.

Definition removeSegment (first_index_kept : Z) : LogM Z := fun st =>
  if decide (first_log_index st >= first_index_kept) then (Ok 0, st)
  else
    let '(closed, removed1, range1) :=
      remove_closed first_index_kept (closed_segments st) (first_index_kept, last_log_index st) in
    let '(open, removed2, range2) := remove_open first_index_kept (open_segment st) range1 in
    let to_be_removed := removed1 ++ removed2 in
    (remove_all to_be_removed ;;;
     sm_modify (fun st =>
       if past_the_end (first_log_index st) (last_log_index st)
       then with_range (first_log_index st) (u64 (first_log_index st - 1)) st else st) ;;;
     sm_ret (Z.of_nat (length to_be_removed)))%sm (with_range range2.1 range2.2 (with_segments closed open st)).

(** *** truncateLog *)

(** The checks after the segment that has the last index kept was truncated. *)
Definition truncate_last_segment (last_index_kept : Z) (r : SegRef) : LogM unit :=
  (is_open_before_truncate <- on_segment r (seg_get is_open) ;;
   removed_something <- on_segment r (seg_truncate last_index_kept) ;;
   last <- on_segment r (seg_get last_index) ;;
   if negb removed_something && bool_decide (last <> last_index_kept) then sm_fault (Throw LOGICAL_ERROR) else
   opened <- on_segment r (seg_get is_open) ;;
   if negb is_open_before_truncate && negb opened then sm_fault (Throw LOGICAL_ERROR) else
   if is_open_before_truncate then sm_ret tt
   else sm_modify (fun st => with_segments (take (length (closed_segments st) - 1) (closed_segments st))
                               (seg_at r st) st))%sm.

Definition truncateLog (last_index_kept : Z) : LogM bool := fun st =>
  if decide (last_log_index st <= last_index_kept) then (Ok false, st)
  else
    let removed1 := filter (fun s => first_index s > last_index_kept) (closed_segments st) in
    let closed := filter (fun s => first_index s <= last_index_kept) (closed_segments st) in
    let '(open, removed2) :=
      match open_segment st with
      | Some s => if decide (first_index s > last_index_kept) then (None, [s]) else (Some s, [])
      | None => (None, [])
      end in
    let last_segment :=
      if from_option (has_index last_index_kept) false open then Some OpenRef
      else ClosedRef <$> find_closed last_index_kept closed in
    (remove_all (removed1 ++ removed2) ;;;
     match last_segment with
     | Some r => truncate_last_segment last_index_kept r
     | None => sm_ret tt
     end ;;;
     sm_modify (fun st => with_range (first_log_index st) last_index_kept st) ;;;
     sm_ret true)%sm (with_segments closed open st).

Definition writeAt (now : string) (index : Z) (entry : log_entry) : LogM unit :=
  (_ <- truncateLog (u64 (index - 1)) ;;
   last <- sm_get last_log_index ;;
   if decide (index = u64 (last + 1)) then (_ <- logs_appendEntry now entry ;; sm_ret tt)
   else sm_fault (Throw LOGICAL_ERROR))%sm.

(** ** Loading *)

(** The first index, the last one ([None] for an open segment), and the time. *)
Definition parseSegmentFileName (file : string) : option (Z * option Z * string) :=
  match splitInto underscore file with
  | [_; first; last; time] =>
      first_index' ← from_chars_u64 first;
      if decide (last = "open") then Some (first_index', None, time)
      else last_index' ← from_chars_u64 last; Some (first_index', Some last_index', time)
  | _ => None
  end.

(** One file of the directory. *)
Definition load_file_meta (file : string) : LogM unit := fun st =>
  if String.prefix "log_" file then
    match parseSegmentFileName file with
    | None => (Fault (Throw INVALID_LOG_SEGMENT_FILE_NAME), st)
    | Some (first, None, time) =>
        match open_segment st with
        | Some _ => (Fault (Throw CORRUPTED_LOG), st)
        | None => (Ok tt, with_segments (closed_segments st) (Some (open_on_disk first file time)) st)
        end
    | Some (first, Some last, time) =>
        (Ok tt, with_segments (closed_segments st ++ [closed_on_disk first last file time]) (open_segment st) st)
    end
  else (Ok tt, st).

Fixpoint load_file_metas (names : list string) : LogM unit :=
  match names with
  | [] => sm_ret tt
  | file :: names' => (load_file_meta file ;;; load_file_metas names')%sm
  end.

(** [compareSegment] orders by the first index. [std::sort] leaves segments with
    the same one in any order, as the directory lists them. *)
Definition compareSegment (s t : NuRaftLogSegment) : Prop := first_index s < first_index t.
Definition segment_le (s t : NuRaftLogSegment) : Prop := ~ compareSegment t s.
#[export] Instance segment_le_dec : RelDecision segment_le.
Proof. intros s t. unfold segment_le, compareSegment. apply _. Defined.

(** [prev_seg] is never set, so that the tests for gaps are left out. *)
Definition loadSegmentMetaData `{IterOrder} : LogM unit :=
  (names <- sm_get (fun st => iter_str (dom (files (log_disk st)))) ;;
   load_file_metas names ;;;
   sm_modify (fun st => with_segments (merge_sort segment_le (closed_segments st)) (open_segment st) st) ;;;
   sm_modify (fun st =>
     match open_segment st with
     | Some s => with_range (from_option first_index (first_index s) (head (closed_segments st))) (last_index s) st
     | None => st
     end) ;;;
   closed <- sm_get closed_segments ;;
   if decide (Exists (fun s => first_index s > last_index s) closed) then sm_fault (Throw CORRUPTED_LOG)
   else sm_ret tt)%sm.

(** The threads load closed segments; [wait] throws what one of them threw. *)
Fixpoint load_closed (n i : nat) : LogM unit :=
  match n with
  | O => sm_ret tt
  | S n' => (on_segment (ClosedRef i) seg_load ;;; load_closed n' (S i))%sm
  end.

Definition load_open : LogM unit := fun st =>
  match open_segment st with
  | None => (Ok tt, st)
  | Some _ =>
      (on_segment OpenRef seg_load ;;;
       last <- on_segment OpenRef (seg_get last_index) ;;
       first <- sm_get first_log_index ;;
       if decide (first > last) then sm_fault (Throw CORRUPTED_LOG)
       else sm_modify (fun st => with_range (first_log_index st) last st))%sm st
  end.

Definition loadSegments : LogM unit :=
  (sm_modify (fun st => with_range (first_log_index st)
                          (from_option last_index (last_log_index st) (last (closed_segments st))) st) ;;;
   count <- sm_get (fun st => length (closed_segments st)) ;;
   load_closed count 0 ;;;
   load_open ;;;
   sm_modify (fun st => if decide (last_log_index st = 0)
                        then with_range (first_log_index st) (u64 (first_log_index st - 1)) st else st))%sm.

Definition logs_init `{IterOrder} (now : string) : LogM unit :=
  (sm_modify (fun st => with_segments (closed_segments st) None (with_range 1 0 st)) ;;;
   loadSegmentMetaData ;;;
   loadSegments ;;;
   openNewSegmentIfNeeded now)%sm.

Fixpoint close_closed (n i : nat) : LogM unit :=
  match n with
  | O => sm_ret tt
  | S n' => (on_segment (ClosedRef i) (seg_close false) ;;; close_closed n' (S i))%sm
  end.

Definition logs_close : LogM unit :=
  ((fun st => match open_segment st with
              | None => (Ok tt, st)
              | Some _ =>
                  (on_segment OpenRef (seg_close false) ;;;
                   sm_modify (fun st => with_segments (closed_segments st) None st))%sm st
              end) ;;;
   count <- sm_get (fun st => length (closed_segments st)) ;;
   close_closed count 0)%sm.
