(* ===== verification/LogChain.v ===== *)
(** * The segments of a log as one chain

    The invariant of [LogSegmentStore]: its segments hold consecutive runs of
    the entries of the log, the closed ones are full, and the files of the log
    directory are theirs. The operations on the open segment preserve it. *)

From stdpp Require Import pretty.
From S2P Require Import Prelude Paths Text Wire LogSegment LogSegmentTheorems LogSegmentStore.

Local Infix "+++" := String.append (at level 60, right associativity).

(** ** Names *)

Definition in_range (x : Z) : Prop := 0 <= x < 2 ^ 64.

Lemma decimal_read x : in_range x -> from_chars_u64 (decimal x) = Some x.
Proof. intros Hx. unfold decimal. rewrite from_chars_pretty by (unfold in_range in Hx; lia). by rewrite Z2N.id by (unfold in_range in Hx; lia). Qed.

Lemma decimal_without x : without underscore (decimal x).
Proof. by apply pretty_without. Qed.

Lemma parse_open_name first time :
  in_range first -> time_ok time ->
  parseSegmentFileName ("log_" +++ decimal first +++ "_open_" +++ time) = Some (first, None, time).
Proof.
  intros Hf [Hne Hw]. unfold parseSegmentFileName.
  change ("log_" +++ decimal first +++ "_open_" +++ time)
    with ("log" +++ String underscore (decimal first +++ String underscore ("open" +++ String underscore time))).
  rewrite splitInto_token by done. rewrite splitInto_token by apply decimal_without.
  rewrite splitInto_token by done. rewrite splitInto_last by done.
  by rewrite decimal_read by done.
Qed.

Lemma parse_closed_name first last time :
  in_range first -> in_range last -> time_ok time ->
  parseSegmentFileName ("log_" +++ decimal first +++ String underscore (decimal last +++ String underscore time)) =
  Some (first, Some last, time).
Proof.
  intros Hf Hl [Hne Hw]. unfold parseSegmentFileName.
  change ("log_" +++ ?s) with ("log" +++ String underscore s).
  rewrite splitInto_token by done. rewrite splitInto_token by apply decimal_without.
  rewrite splitInto_token by apply decimal_without. rewrite splitInto_last by done.
  rewrite (decimal_read first) by done. cbn [mbind option_bind].
  rewrite decide_False; [by rewrite (decimal_read last) by done|].
  intros E. pose proof (decimal_read last Hl) as E'. rewrite E in E'. done.
Qed.

(** What a name says of its segment. *)
Lemma parse_seg_name d s es :
  seg_holds d s es -> 0 <= last_index s ->
  parseSegmentFileName (file_name s) =
  Some (first_index s, if is_open s then None else Some (last_index s), create_time s).
Proof.
  intros Hs H0. pose proof (sh_range _ _ _ Hs). pose proof (sh_first _ _ _ Hs). pose proof (sh_last _ _ _ Hs).
  rewrite (sh_name _ _ _ Hs). unfold seg_name. destruct (is_open s).
  - apply parse_open_name; [unfold in_range; lia|apply (sh_time _ _ _ Hs)].
  - apply parse_closed_name; [unfold in_range; lia..|apply (sh_time _ _ _ Hs)].
Qed.

Lemma seg_last_nonneg d s es : seg_holds d s es -> 0 <= last_index s.
Proof. intros Hs. pose proof (sh_last _ _ _ Hs). pose proof (sh_first _ _ _ Hs). lia. Qed.

Lemma seg_names_ne d d' s s' es es' :
  seg_holds d s es -> seg_holds d' s' es' ->
  first_index s <> first_index s' \/ is_open s <> is_open s' -> file_name s <> file_name s'.
Proof.
  intros Hs Hs' Hne E. pose proof (parse_seg_name _ _ _ Hs (seg_last_nonneg _ _ _ Hs)) as P.
  rewrite E, (parse_seg_name _ _ _ Hs' (seg_last_nonneg _ _ _ Hs')) in P. injection P as E1 E2 E3.
  destruct Hne as [Hne|Hne]; [congruence|]. apply Hne. revert E2. by destruct (is_open s), (is_open s').
Qed.

Lemma prefix_append s t : String.prefix s (s +++ t) = true.
Proof.
  induction s as [|a s IH]; [by destruct t|]. change (String a s +++ t) with (String a (s +++ t)). cbn [String.prefix].
  by destruct (ascii_dec a a).
Qed.

Lemma seg_name_prefix d s es : seg_holds d s es -> String.prefix "log_" (file_name s) = true.
Proof. intros Hs. rewrite (sh_name _ _ _ Hs). unfold seg_name. destruct (is_open s); apply (prefix_append "log_"). Qed.

(** ** Chains *)

Fixpoint chain (d : Disk) (start : Z) (segs : list NuRaftLogSegment) (cs : list (list log_entry)) : Prop :=
  match segs, cs with
  | [], [] => True
  | s :: segs', c :: cs' =>
      first_index s = start /\ seg_holds d s c /\ chain d (start + Z.of_nat (length c)) segs' cs'
  | _, _ => False
  end.

Lemma chain_app d start l1 l2 c1 c2 :
  length l1 = length c1 ->
  chain d start (l1 ++ l2) (c1 ++ c2) <->
  chain d start l1 c1 /\ chain d (start + Z.of_nat (length (concat c1))) l2 c2.
Proof.
  revert start c1. induction l1 as [|s l1 IH]; intros start [|c c1] Hl; try done; cbn [app chain concat].
  - cbn [length]. rewrite Z.add_0_r. naive_solver.
  - rewrite IH by (cbn in Hl; lia). rewrite length_app, Nat2Z.inj_add, Z.add_assoc. naive_solver.
Qed.

Lemma chain_length d start segs cs : chain d start segs cs -> length segs = length cs.
Proof.
  revert start cs. induction segs as [|s segs IH]; intros start [|c cs]; cbn [chain]; try done.
  intros (_ & _ & Hc). cbn. f_equal. by eapply IH.
Qed.

(** A chain that ends with a given segment. *)
Lemma segments_snoc d start segs s cs :
  chain d start (segs ++ [s]) cs <->
  exists c1 c, cs = c1 ++ [c] /\ chain d start segs c1 /\
    first_index s = start + Z.of_nat (length (concat c1)) /\ seg_holds d s c.
Proof.
  split.
  - intros Hc. pose proof (chain_length _ _ _ _ Hc) as Hl. rewrite length_app in Hl. cbn in Hl.
    destruct cs as [|c c1 _] using rev_ind; [cbn in Hl; lia|]. rewrite length_app in Hl. cbn in Hl.
    apply chain_app in Hc as [H1 H2]; [|lia]. cbn in H2. exists c1, c. naive_solver.
  - intros (c1 & c & -> & H1 & Hf & Hs). apply chain_app; [by eapply chain_length|]. by cbn.
Qed.

Lemma chain_frame d d' start segs cs :
  (forall s, s ∈ segs -> files d' !! file_name s = files d !! file_name s) ->
  chain d start segs cs -> chain d' start segs cs.
Proof.
  revert start cs. induction segs as [|s segs IH]; intros start [|c cs] Hf; cbn [chain]; try done.
  intros (H1 & H2 & H3). split_and!; [done| |].
  - eapply seg_holds_frame; [|done]. apply Hf. by left.
  - apply IH; [|done]. intros t Ht. apply Hf. by right.
Qed.

Lemma chain_elem d start segs cs s :
  chain d start segs cs -> s ∈ segs ->
  exists c, seg_holds d s c /\ start <= first_index s /\
    last_index s < start + Z.of_nat (length (concat cs)) /\
    first_index s <= start + Z.of_nat (length (concat cs)).
Proof.
  revert start cs. induction segs as [|t segs IH]; intros start [|c cs]; cbn [chain]; try done.
  - by intros _ ?%elem_of_nil.
  - intros (<- & H2 & H3) [->|Hs]%elem_of_cons; cbn [concat]; rewrite length_app.
    + exists c. pose proof (sh_last _ _ _ H2). split_and!; [done|lia..].
    + destruct (IH _ _ H3 Hs) as (c' & ? & ? & ? & ?). exists c'. split_and!; [done|lia..].
Qed.

(** ** The invariant *)

(** A closed segment is one that nothing is appended to. *)
Definition sealed (max : Z) (s : NuRaftLogSegment) : Prop :=
  file_size s > max \/ version s < CURRENT_LOG_VERSION.

Definition all_segments (st : LogSegmentStore) : list NuRaftLogSegment :=
  closed_segments st ++ option_list (open_segment st).

Record closed_ok (max : Z) (s : NuRaftLogSegment) : Prop := {
  co_closed : is_open s = false;
  co_sealed : sealed max s;
  co_entries : first_index s <= last_index s
}.

Record logs_chunks (st : LogSegmentStore) (cs : list (list log_entry)) : Prop := {
  lc_chain : chain (log_disk st) (first_log_index st) (all_segments st) cs;
  lc_closed : Forall (closed_ok (max_log_segment_file_size st)) (closed_segments st);
  lc_open : forall s, open_segment st = Some s ->
    is_open s = true /\ is_Some (seg_fd s) /\
    (open_segment_fits st = true -> seg_fd s = Some (file_size s));
  lc_first : 0 < first_log_index st;
  lc_last : last_log_index st = first_log_index st - 1 + Z.of_nat (length (concat cs));
  lc_range : last_log_index st < 2 ^ 64 - 1;
  lc_names : forall name, is_Some (files (log_disk st) !! name) -> String.prefix "log_" name = true ->
    exists s, s ∈ all_segments st /\ file_name s = name;
  lc_max : 9 <= max_log_segment_file_size st;
  lc_writes : write_results (log_disk st) = []
}.

(** The log has the entries [es], the first of them at [first_log_index]. *)
Definition logs_hold (st : LogSegmentStore) (es : list log_entry) : Prop :=
  exists cs, logs_chunks st cs /\ (open_segment st = None -> closed_segments st = []) /\ es = concat cs.

Lemma lc_open_segment st cs s :
  logs_chunks st cs -> open_segment st = Some s ->
  exists c1 c, cs = c1 ++ [c] /\ chain (log_disk st) (first_log_index st) (closed_segments st) c1 /\
    first_index s = first_log_index st + Z.of_nat (length (concat c1)) /\ seg_holds (log_disk st) s c /\
    last_index s = last_log_index st.
Proof.
  intros H Ho. pose proof (lc_chain _ _ H) as Hc. unfold all_segments in Hc. rewrite Ho in Hc.
  apply segments_snoc in Hc as (c1 & c & -> & H1 & H2 & H3). exists c1, c. split_and!; try done.
  pose proof (lc_last _ _ H) as Hl. rewrite concat_app, length_app in Hl. cbn in Hl. rewrite app_nil_r in Hl.
  pose proof (sh_last _ _ _ H3). lia.
Qed.

Lemma lc_no_open st cs :
  logs_chunks st cs -> open_segment st = None ->
  chain (log_disk st) (first_log_index st) (closed_segments st) cs.
Proof.
  intros H Ho. pose proof (lc_chain _ _ H) as Hc. unfold all_segments in Hc. rewrite Ho in Hc.
  by rewrite app_nil_r in Hc.
Qed.

(** The files of closed segments are other files than that of a segment after
    them or of an open one. *)
Lemma closed_name_ne d d' start max segs cs s t c :
  chain d start segs cs -> Forall (closed_ok max) segs -> s ∈ segs ->
  seg_holds d' t c -> start + Z.of_nat (length (concat cs)) <= first_index t \/ is_open t = true ->
  file_name s <> file_name t.
Proof.
  intros Hc Hall Hs Ht Hor. destruct (chain_elem _ _ _ _ _ Hc Hs) as (c' & Hs' & _ & Hl & _).
  pose proof (proj1 (Forall_forall _ _) Hall s Hs) as [Hcl _ Hne].
  eapply seg_names_ne; [done|done|]. destruct Hor as [Hor|Hor]; [left; lia|right; congruence].
Qed.

(** ** Reading *)

Lemma with_fd_same s pos : seg_fd s = Some pos -> with_fd (Some (default 0 (seg_fd s))) s = s.
Proof. intros E. rewrite E. destruct s. cbn in *. by subst. Qed.

Lemma chain_insert_fd d start segs cs i s fd :
  chain d start segs cs -> segs !! i = Some s -> chain d start (<[i := with_fd fd s]> segs) cs.
Proof.
  revert start cs i. induction segs as [|t segs IH]; intros start [|c cs] [|i]; cbn [chain]; try done.
  - intros (H1 & H2 & H3) [= ->]. cbn. split_and!; [done|by apply seg_holds_fd|done].
  - intros (H1 & H2 & H3) Hi. cbn. split_and!; [done..|]. by apply IH.
Qed.

(** Opening the file of a segment to read from it changes nothing that matters. *)
Lemma logs_chunks_opened st cs r s :
  logs_chunks st cs -> seg_at r st = Some s ->
  logs_chunks (put_seg r (with_fd (Some (default 0 (seg_fd s))) s) (with_disk (log_disk st) st)) cs.
Proof.
  intros H Hs. destruct r as [|i]; cbn in Hs.
  - destruct (lc_open _ _ H _ Hs) as (_ & [pos Hfd] & _). rewrite (with_fd_same s pos Hfd). cbn.
    destruct st. cbn in *. subst. exact H.
  - set (s' := with_fd _ s). destruct H as [Hc Hcl Hop H1 H2 H3 Hn H4 H5].
    assert (all_segments (put_seg (ClosedRef i) s' (with_disk (log_disk st) st)) = <[i := s']> (all_segments st)) as E.
    { unfold all_segments. by rewrite insert_app_l by (by eapply lookup_lt_Some). }
    assert (all_segments st !! i = Some s) as Hi by (unfold all_segments; by apply lookup_app_l_Some).
    split; try done; rewrite ?E.
    + by apply chain_insert_fd.
    + cbn. apply Forall_insert; [done|]. eapply Forall_lookup_1 in Hcl; [|exact Hs]. by destruct Hcl.
    + intros name Hf Hp. destruct (Hn name Hf Hp) as (t & Ht & <-).
      apply list_elem_of_lookup_1 in Ht as [j Hj]. destruct (decide (i = j)) as [<-|Hne].
      * exists s'. rewrite Hi in Hj. injection Hj as <-. split; [|done].
        eapply list_elem_of_lookup_2, list_lookup_insert_eq, lookup_lt_Some, Hi.
      * exists t. split; [|done]. eapply list_elem_of_lookup_2. by rewrite list_lookup_insert_ne.
Qed.

Lemma entry_of_app_l first es es' index :
  index < first + Z.of_nat (length es) -> entry_of first (es ++ es') index = entry_of first es index.
Proof. intros Hi. unfold entry_of. case_decide; [|done]. rewrite lookup_app_l; [done|]. lia. Qed.

Lemma entry_of_app_r first es es' index :
  first + Z.of_nat (length es) <= index ->
  entry_of first (es ++ es') index = entry_of (first + Z.of_nat (length es)) es' index.
Proof.
  intros Hi. unfold entry_of. rewrite !decide_True by lia. rewrite lookup_app_r by lia. f_equal. lia.
Qed.

(** The closed segment an index is found in. *)
Lemma find_closed_chain d start max segs cs index :
  chain d start segs cs -> Forall (closed_ok max) segs ->
  start <= index < start + Z.of_nat (length (concat cs)) ->
  exists i s c, find_closed index segs = Some i /\ segs !! i = Some s /\ seg_holds d s c /\
    entry_of (first_index s) c index = entry_of start (concat cs) index.
Proof.
  revert start cs. induction segs as [|s segs IH]; intros start [|c cs]; cbn [chain]; try done.
  { cbn. lia. }
  intros (Hf & Hs & Hc) [Hok Hall]%Forall_cons Hi. cbn [concat find_closed] in *. rewrite length_app in Hi.
  pose proof (sh_last _ _ _ Hs) as Hl. destruct (decide (index < start + Z.of_nat (length c))) as [Hin|Hin].
  - assert (find_closed index segs = None) as ->.
    { clear IH. assert (forall t, t ∈ segs -> has_index index t = false) as Hno.
      { intros t Ht. destruct (chain_elem _ _ _ _ _ Hc Ht) as (_ & _ & ? & _). apply bool_decide_eq_false. lia. }
      clear -Hno. induction segs as [|t segs IH]; [done|]. cbn. rewrite IH by (intros; apply Hno; by right).
      by rewrite Hno by left. }
    unfold has_index. rewrite bool_decide_true by lia. exists O, s, c. split_and!; try done.
    rewrite Hf. symmetry. by apply entry_of_app_l.
  - destruct (IH _ _ Hc Hall ltac:(lia)) as (i & t & c' & E & Ht & Hs' & He). rewrite E.
    exists (S i), t, c'. split_and!; try done. rewrite He. symmetry. apply entry_of_app_r. lia.
Qed.

(** The segment of an index of the log. *)
Lemma getSegment_hold st cs index :
  logs_chunks st cs -> first_log_index st <= index <= last_log_index st ->
  exists r s c, getSegment index st = Some r /\ seg_at r st = Some s /\ seg_holds (log_disk st) s c /\
    entry_of (first_index s) c index = entry_of (first_log_index st) (concat cs) index.
Proof.
  intros H Hi. pose proof (lc_last _ _ H) as Hl. unfold getSegment. rewrite !decide_False by lia.
  destruct (open_segment st) as [s|] eqn:Ho; cbn [from_option].
  - destruct (lc_open_segment _ _ _ H Ho) as (c1 & c & -> & Hc1 & Hf & Hs & _).
    rewrite concat_app in *. cbn [concat] in *. rewrite app_nil_r in *. rewrite length_app in Hl.
    case_bool_decide.
    + exists OpenRef, s, c. split_and!; [done..|]. rewrite Hf. symmetry. apply entry_of_app_r. lia.
    + destruct (find_closed_chain _ _ _ _ _ index Hc1 (lc_closed _ _ H) ltac:(lia)) as (i & t & c' & E & Ht & Hs' & He).
      rewrite E. exists (ClosedRef i), t, c'. split_and!; [done..|]. rewrite He. symmetry. apply entry_of_app_l. lia.
  - destruct (find_closed_chain _ _ _ _ _ index (lc_no_open _ _ H Ho) (lc_closed _ _ H) ltac:(lia))
      as (i & t & c' & E & Ht & Hs' & He).
    rewrite E. by exists (ClosedRef i), t, c'.
Qed.

Lemma entry_of_None first es index :
  ~ first <= index < first + Z.of_nat (length es) -> entry_of first es index = None.
Proof. intros Hi. unfold entry_of. case_decide; [|done]. apply lookup_ge_None_2. lia. Qed.

(** [getEntry] gives the entry of the index, and null outside the range. *)
Lemma logs_getEntry_hold st es index :
  logs_hold st es ->
  exists st', logs_getEntry index st = (Ok (entry_of (first_log_index st) es index), st') /\ logs_hold st' es /\
    first_log_index st' = first_log_index st /\ max_log_segment_file_size st' = max_log_segment_file_size st.
Proof.
  intros (cs & H & Hno & ->). unfold logs_getEntry. pose proof (lc_last _ _ H) as Hl.
  destruct (decide (first_log_index st <= index <= last_log_index st)) as [Hi|Hi].
  - destruct (getSegment_hold _ _ _ H Hi) as (r & s & c & -> & Hs & Hh & He). unfold on_segment.
    rewrite Hs, (seg_getEntry_holds _ _ _ _ Hh), He. eexists. split; [done|].
    split; [exists cs; split_and!; [by apply logs_chunks_opened| |done]|by destruct r].
    destruct r as [|i]; cbn in *; [done|]. intros Ho. by rewrite (Hno Ho).
  - assert (getSegment index st = None) as ->.
    { unfold getSegment. case_decide; [done|]. by rewrite decide_True by lia. }
    exists st. rewrite entry_of_None by lia. split_and!; try done. by exists cs.
Qed.

(** ** The open segment *)

(** The names of the log files in the directory are those of the segments. *)
Definition named_by (d : Disk) (segs : list NuRaftLogSegment) : Prop :=
  forall name, is_Some (files d !! name) -> String.prefix "log_" name = true ->
    exists s, s ∈ segs /\ file_name s = name.

(** After an operation on the last segment of the chain, the others are as they
    were. *)
Lemma replace_last d d' start max segs c1 s s' c c' :
  chain d start segs c1 -> Forall (closed_ok max) segs ->
  first_index s = start + Z.of_nat (length (concat c1)) -> seg_holds d s c ->
  seg_moved d d' s s' -> seg_holds d' s' c' -> first_index s' = first_index s ->
  named_by d (segs ++ [s]) ->
  chain d' start (segs ++ [s']) (c1 ++ [c']) /\ named_by d' (segs ++ [s']).
Proof.
  intros Hc Hall Hf Hs [Hw Hm] Hs' Hf' Hn. split.
  - apply segments_snoc. exists c1, c'. split_and!; [done| |by rewrite Hf'|done].
    eapply chain_frame; [|done]. intros t Ht. rewrite Hm.
    + rewrite decide_False; [done|]. eapply closed_name_ne; [done..|left; lia].
    + eapply closed_name_ne; [done..|left; lia].
  - intros name Hex Hp. destruct (decide (name = file_name s')) as [->|Hne]; [exists s'; split; [set_solver|done]|].
    rewrite Hm in Hex by done. case_decide as E; [by destruct Hex|]. destruct (Hn name Hex Hp) as (t & Ht & Et).
    exists t. split; [|done]. apply elem_of_app in Ht as [Ht|Ht%list_elem_of_singleton]; [set_solver|congruence].
Qed.

Lemma read_version_nonneg content v : read_version content = Ok v -> 0 <= v.
Proof.
  unfold read_version. case_decide; [done|]. case_decide; intros [= <-]; [|done]. apply Wire.le_value_range.
Qed.

(** A segment that is sealed has entries. *)
Lemma sealed_entries d s c max : seg_holds d s c -> 9 <= max -> sealed max s -> c <> [].
Proof.
  intros Hs Hm Hse ->. pose proof (read_version_length _ _ (sh_version _ _ _ Hs)) as Hl.
  pose proof (read_version_nonneg _ _ (sh_version _ _ _ Hs)). pose proof (sh_size _ _ _ Hs) as Hsz.
  unfold seg_bytes, seg_prefix in *. cbn [entries_bytes] in *. rewrite app_nil_r in *.
  case_decide as Hv; [cbn in Hl; lia|]. change (length (MAGIC ++ [byte_of (version s)])) with 9%nat in *.
  unfold sealed, CURRENT_LOG_VERSION, LogVersion_V1, LogVersion_V0 in *. lia.
Qed.

Lemma close_open_segment_hold st cs s :
  logs_chunks st cs -> open_segment st = Some s -> open_segment_fits st = false ->
  exists st', close_open_segment st = (Ok tt, st') /\ logs_chunks st' cs /\ open_segment st' = None /\
    first_log_index st' = first_log_index st /\ max_log_segment_file_size st' = max_log_segment_file_size st.
Proof.
  intros H Ho Hfit. destruct (lc_open_segment _ _ _ H Ho) as (c1 & c & -> & Hc1 & Hf & Hs & El).
  destruct (lc_open _ _ H _ Ho) as (Hop & _ & _).
  destruct (seg_close_holds _ _ _ Hs Hop) as (d' & Hcl & Hs' & Hm). set (s' := with_file _ _ _) in *.
  assert (sealed (max_log_segment_file_size st) s) as Hse.
  { unfold open_segment_fits in Hfit. rewrite Ho in Hfit. apply bool_decide_eq_false in Hfit. unfold sealed. lia. }
  pose proof (lc_names _ _ H) as Hn. unfold all_segments in Hn. rewrite Ho in Hn.
  destruct (replace_last _ _ _ _ _ _ _ s' _ c Hc1 (lc_closed _ _ H) Hf Hs Hm Hs' eq_refl Hn) as [Hch Hn'].
  unfold close_open_segment. rewrite Ho. unfold sm_bind, on_segment, sm_modify. cbn [seg_at]. rewrite Ho, Hcl. cbn [put_seg].
  eexists. split; [done|]. split_and!; try done.
  destruct H as [? Hall ? ? Hlast ? ? ? ?]. split; cbn; try done.
  - unfold all_segments. cbn. by rewrite app_nil_r.
  - apply Forall_app. split; [done|]. constructor; [|done]. split; [done|done|]. cbn.
    pose proof (sealed_entries _ _ _ _ Hs lc_max0 Hse). pose proof (sh_last _ _ _ Hs). destruct c; [done|]. cbn in *. lia.
  - unfold all_segments. cbn. by rewrite app_nil_r.
  - destruct Hm as [-> _]. done.
Qed.

Lemma create_open_segment_hold now st cs :
  logs_chunks st cs -> open_segment st = None -> time_ok now -> last_log_index st + 1 < 2 ^ 64 - 1 ->
  exists st', create_open_segment now st = (Ok tt, st') /\ logs_chunks st' (cs ++ [[]]) /\
    open_segment_fits st' = true /\
    first_log_index st' = first_log_index st /\ max_log_segment_file_size st' = max_log_segment_file_size st.
Proof.
  intros H Ho Ht Hr. pose proof (lc_first _ _ H). pose proof (lc_last _ _ H). pose proof (lc_max _ _ H).
  set (next := last_log_index st + 1). set (s := fresh_segment now next).
  pose proof (lc_no_open _ _ H Ho) as Hc.
  assert (forall d', files d' !! file_name s = Some (MAGIC ++ [byte_of 1]) -> seg_holds d' s []) as Hs.
  { intros d' Hd. apply fresh_segment_holds; [unfold next; lia|done|done]. }
  assert (forall t, t ∈ closed_segments st -> file_name t <> file_name s) as Hne.
  { intros t Htin. set (d' := mkDisk {[file_name s := MAGIC ++ [byte_of 1]]} ∅ []).
    eapply (closed_name_ne _ d'); [done|apply (lc_closed _ _ H)|done|apply Hs; apply lookup_singleton_eq|by right]. }
  assert (files (log_disk st) !! file_name s = None) as Hnone.
  { apply eq_None_not_Some. intros Hex. destruct (lc_names _ _ H _ Hex) as (t & Htin & E).
    - apply (prefix_append "log_").
    - unfold all_segments in Htin. rewrite Ho, app_nil_r in Htin. by apply (Hne t). }
  unfold create_open_segment, sm_bind, sm_get. rewrite u64_id by (unfold in_u64; lia). fold next.
  rewrite new_segment_ok by (unfold next; first [lia|done]). fold s. unfold on_segment. cbn [seg_at open_segment with_segments].
  rewrite writeHeader_new; [|apply (lc_writes _ _ H)|cbn; by rewrite lookup_insert_eq]. fold s.
  eexists. split; [done|]. split_and!; try done; [|cbn; by rewrite bool_decide_true by (cbn; unfold CURRENT_LOG_VERSION; lia)].
  destruct H as [? Hall ? ? ? ? Hn ? ?].
  assert (forall name, name <> file_name s -> files (with_files <[file_name s:=MAGIC ++ [byte_of 1]]>
     (with_files <[file_name s:=[]]> (log_disk st))) !! name = files (log_disk st) !! name) as Hfr.
  { intros name Hne'. cbn [files with_files]. by rewrite !lookup_insert_ne. }
  split; cbn [put_seg log_disk first_log_index last_log_index max_log_segment_file_size closed_segments open_segment
              with_disk with_segments]; try done.
  - unfold all_segments. cbn [put_seg closed_segments open_segment with_disk with_segments option_list].
    apply segments_snoc. exists cs, []. split_and!; [done| |cbn; lia|].
    + eapply chain_frame; [|exact Hc]. intros t Htin. apply Hfr. by apply Hne.
    + apply Hs. cbn. by rewrite lookup_insert_eq.
  - intros t [= <-]. by split_and!.
  - rewrite concat_app. cbn. rewrite app_nil_r. done.
  - intros name Hex Hp. unfold all_segments. cbn [put_seg closed_segments open_segment with_disk with_segments option_list].
    destruct (decide (name = file_name s)) as [->|Hne']; [exists s; split; [set_solver|done]|].
    rewrite Hfr in Hex by done. destruct (Hn name Hex Hp) as (t & Htin & Et). exists t. split; [|done].
    unfold all_segments in Htin. rewrite Ho in Htin. set_solver.
Qed.

Lemma openNewSegmentIfNeeded_hold now st cs :
  logs_chunks st cs -> time_ok now -> last_log_index st + 1 < 2 ^ 64 - 1 ->
  exists st' cs', openNewSegmentIfNeeded now st = (Ok tt, st') /\ logs_chunks st' cs' /\ concat cs' = concat cs /\
    open_segment_fits st' = true /\
    first_log_index st' = first_log_index st /\ max_log_segment_file_size st' = max_log_segment_file_size st.
Proof.
  intros H Ht Hr. unfold openNewSegmentIfNeeded. destruct (open_segment_fits st) eqn:Hfit; [by exists st, cs|].
  assert (exists st1, close_open_segment st = (Ok tt, st1) /\ logs_chunks st1 cs /\ open_segment st1 = None /\
    first_log_index st1 = first_log_index st /\ max_log_segment_file_size st1 = max_log_segment_file_size st)
    as (st1 & E1 & H1 & Ho1 & Ef1 & Em1).
  { destruct (open_segment st) as [s|] eqn:Ho; [by eapply close_open_segment_hold|].
    exists st. unfold close_open_segment. by rewrite Ho. }
  pose proof (lc_last _ _ H) as Hl. pose proof (lc_last _ _ H1) as Hl1.
  destruct (create_open_segment_hold now st1 cs) as (st2 & E2 & H2 & Hfit2 & Ef2 & Em2); [done|done|done|lia|].
  exists st2, (cs ++ [[]]). unfold sm_bind. rewrite E1, E2. split_and!; try done; [|congruence..].
  rewrite concat_app. cbn. by rewrite app_nil_r.
Qed.

(** *** Appending *)

Lemma logs_appendEntry_hold now st es e :
  logs_hold st es -> time_ok now -> entry_ok e -> last_log_index st + 1 < 2 ^ 64 - 1 ->
  exists st', logs_appendEntry now e st = (Ok (last_log_index st + 1), st') /\ logs_hold st' (es ++ [e]) /\
    first_log_index st' = first_log_index st /\ max_log_segment_file_size st' = max_log_segment_file_size st.
Proof.
  intros (cs & H & _ & ->) Ht He Hr.
  destruct (openNewSegmentIfNeeded_hold now st cs H Ht Hr) as (st1 & cs1 & E1 & H1 & Ecs & Hfit & Ef & Em).
  rewrite <- Ecs. assert (last_log_index st1 = last_log_index st) as El1.
  { pose proof (lc_last _ _ H). pose proof (lc_last _ _ H1). rewrite Ecs in *. lia. }
  destruct (open_segment st1) as [s|] eqn:Ho; [|by unfold open_segment_fits in Hfit; rewrite Ho in Hfit].
  destruct (lc_open_segment _ _ _ H1 Ho) as (c1 & c & -> & Hc1 & Hf & Hs & El).
  destruct (lc_open _ _ H1 _ Ho) as (Hop & _ & Hfd).
  destruct (seg_appendEntry_holds _ _ _ e Hs Hop (Hfd Hfit) (lc_writes _ _ H1) He ltac:(lia)) as [Ea Hs'].
  set (d' := disk_after_append e s (log_disk st1)) in *. set (s' := seg_after_append e s) in *.
  assert (seg_moved (log_disk st1) d' s s') as Hm.
  { split; [done|]. intros name Hne. cbn. by rewrite lookup_insert_ne, decide_False. }
  pose proof (lc_names _ _ H1) as Hn. unfold all_segments in Hn. rewrite Ho in Hn.
  destruct (replace_last _ _ _ _ _ _ _ s' _ _ Hc1 (lc_closed _ _ H1) Hf Hs Hm Hs' eq_refl Hn) as [Hch Hn'].
  unfold logs_appendEntry, sm_bind, on_segment, sm_modify, sm_ret. rewrite E1. cbn [seg_at]. rewrite Ho, Ea. cbn [put_seg].
  eexists. rewrite El, El1. split; [done|]. split_and!; [|done..].
  exists (c1 ++ [c ++ [e]]). split_and!; [|done|rewrite !concat_app; cbn; by rewrite !app_nil_r, app_assoc].
  destruct H1 as [? Hall ? ? Hlast ? ? ? ?]. split; cbn; try done.
  - intros t [= <-]. by split_and!.
  - rewrite concat_app in *. cbn in *. rewrite app_nil_r in *. rewrite !length_app in *. cbn. lia.
  - cbn in El. lia.
Qed.
