(* ===== verification/LogCut.v ===== *)
(** * Cutting the log

    [truncateLog], [writeAt] and [removeSegment] on a log that holds given
    entries: the entries after an index are dropped, or the segments before one
    are removed. *)

From S2P Require Import Prelude Text Wire LogSegment LogSegmentTheorems LogSegmentStore LogChain.

(** ** Removing files *)

Lemma remove_all_ok segs st :
  exists d', remove_all segs st = (Ok tt, with_disk d' st) /\ write_results d' = write_results (log_disk st) /\
    forall name, files d' !! name =
      if decide (name ∈ file_name <$> segs) then None else files (log_disk st) !! name.
Proof.
  revert st. induction segs as [|s segs IH]; intros st.
  - exists (log_disk st). split_and!; [by destruct st|done|]. intros name. rewrite decide_False; [done|].
    cbn. apply not_elem_of_nil.
  - cbn [remove_all]. unfold sm_bind, on_detached, seg_remove, sm_bind, closeFileIfNeeded, on_seg, sm_modify. cbn [fst snd].
    change (file_name (with_fd None s)) with (file_name s). set (d1 := sys_remove _ _).
    destruct (IH (with_disk d1 st)) as (d' & E & Hw & Hf). exists d'. rewrite E. split_and!; [done|done|].
    intros name. rewrite Hf. cbn [log_disk with_disk]. unfold d1. cbn [files sys_remove fmap list_fmap].
    rewrite lookup_delete. destruct (decide (name ∈ file_name <$> segs)) as [Hin|Hin].
    + by rewrite decide_True by (by right).
    + destruct (decide (file_name s = name)) as [->|Hne].
      * by rewrite decide_True by (by left).
      * rewrite decide_False; [done|]. by intros [|]%elem_of_cons.
Qed.

(** ** The two parts of a chain *)

Lemma chain_cut d start max segs cs kept :
  chain d start segs cs -> Forall (closed_ok max) segs ->
  exists l1 l2 c1 c2, segs = l1 ++ l2 /\ cs = c1 ++ c2 /\ chain d start l1 c1 /\
    chain d (start + Z.of_nat (length (concat c1))) l2 c2 /\
    filter (fun s => first_index s <= kept) segs = l1 /\ filter (fun s => first_index s > kept) segs = l2 /\
    Forall (fun s => first_index s <= kept) l1 /\ (l2 <> [] -> kept < start + Z.of_nat (length (concat c1))).
Proof.
  revert start cs. induction segs as [|s segs IH]; intros start [|c cs]; cbn [chain]; try done.
  { exists [], [], [], []. split_and!; try done. }
  intros (Hf & Hs & Hc) [Hok Hall]%Forall_cons. destruct (decide (first_index s <= kept)) as [Hle|Hgt].
  - destruct (IH _ _ Hc Hall) as (l1 & l2 & c1 & c2 & -> & -> & H1 & H2 & E1 & E2 & Hl & Hk).
    exists (s :: l1), l2, (c :: c1), c2. cbn [concat app]. rewrite length_app, Nat2Z.inj_add, Z.add_assoc.
    split_and!; try done; [by rewrite filter_cons_True, E1|by rewrite filter_cons_False, E2 by lia|by constructor].
  - exists [], (s :: segs), [], (c :: cs). cbn [concat app length]. rewrite Z.add_0_r.
    assert (forall t, t ∈ s :: segs -> first_index t > kept) as Hall'.
    { intros t [->|Ht]%elem_of_cons; [lia|]. destruct (chain_elem _ _ _ _ _ Hc Ht) as (_ & _ & ? & _). lia. }
    split_and!; try done; [| |intros _; lia].
    + apply filter_none. intros t Ht. specialize (Hall' t Ht). lia.
    + by apply filter_all.
Qed.

Lemma find_closed_last index l t : has_index index t = true -> find_closed index (l ++ [t]) = Some (length l).
Proof. intros Ht. induction l as [|s l IH]; cbn; [by rewrite Ht|]. by rewrite IH. Qed.

Lemma on_segment_get {A} (f : NuRaftLogSegment -> A) r st s :
  seg_at r st = Some s -> on_segment r (seg_get f) st = (Ok (f s), st).
Proof.
  intros Hs. unfold on_segment. rewrite Hs. cbn. f_equal. destruct st, r as [|i]; cbn in *; [by subst|].
  unfold with_segments, with_disk. cbn. by rewrite list_insert_id.
Qed.

Lemma on_segment_run {A} (m : SegM A) r st s a d' s' :
  seg_at r st = Some s -> m (log_disk st, s) = (a, (d', s')) ->
  on_segment r m st = (a, put_seg r s' (with_disk d' st)).
Proof. intros Hs Hm. unfold on_segment. by rewrite Hs, Hm. Qed.

Lemma seg_at_put r s s' st : seg_at r st = Some s -> seg_at r (put_seg r s' st) = Some s'.
Proof.
  destruct r as [|i]; cbn; [done|]. intros Hi. apply list_lookup_insert_eq. by eapply lookup_lt_Some.
Qed.

Lemma truncate_last_segment_ok kept r st s b d' s' :
  seg_at r st = Some s -> seg_truncate kept (log_disk st, s) = (Ok b, (d', s')) ->
  is_open s' = true -> last_index s' = kept ->
  truncate_last_segment kept r st =
  (Ok tt, let st' := put_seg r s' (with_disk d' st) in
          if is_open s then st'
          else with_segments (take (length (closed_segments st') - 1) (closed_segments st')) (Some s') st').
Proof.
  intros Hs Ht Ho Hl. unfold truncate_last_segment, sm_bind. rewrite (on_segment_get _ _ _ _ Hs).
  rewrite (on_segment_run _ _ _ _ _ _ _ Hs Ht). set (st' := put_seg _ _ _).
  assert (seg_at r st' = Some s') as Hs'.
  { unfold st'. apply (seg_at_put _ s). by destruct r. }
  rewrite (on_segment_get last_index _ _ _ Hs'), Hl. rewrite (bool_decide_false (kept <> kept)) by (intros []; done).
  rewrite andb_false_r, (on_segment_get is_open _ _ _ Hs'), Ho. cbn [negb]. rewrite andb_false_r.
  destruct (is_open s); [done|]. unfold sm_modify. by rewrite Hs'.
Qed.

(** Removing the segments [gone] leaves the files of the others. *)
Lemma remove_segments st keep gone :
  named_by (log_disk st) (keep ++ gone) ->
  (forall s u, s ∈ keep -> u ∈ gone -> file_name s <> file_name u) ->
  exists d', remove_all gone st = (Ok tt, with_disk d' st) /\ named_by d' keep /\
    write_results d' = write_results (log_disk st) /\
    forall s, s ∈ keep -> files d' !! file_name s = files (log_disk st) !! file_name s.
Proof.
  intros Hn Hne. destruct (remove_all_ok gone st) as (d' & E & Hw & Hf). exists d'. split_and!; [done| |done|].
  - intros name Hex Hp. rewrite Hf in Hex. case_decide as Hin; [by destruct Hex|].
    destruct (Hn name Hex Hp) as (s & Hs & <-). exists s. split; [|done].
    apply elem_of_app in Hs as [Hs|Hs]; [done|]. destruct Hin. by apply list_elem_of_fmap_2.
  - intros s Hs. rewrite Hf, decide_False; [done|]. intros (u & Eu & Hu)%list_elem_of_fmap_1. by eapply Hne.
Qed.

(** ** truncateLog *)

Lemma take_concat_last {A} (c1 : list (list A)) c n :
  take (length (concat c1) + n) (concat (c1 ++ [c])) = concat (c1 ++ [take n c]).
Proof. rewrite !concat_app. cbn. rewrite !app_nil_r. by rewrite take_app_add. Qed.

(** The last index kept is in the open segment. *)
Lemma truncate_open st cs s kept :
  logs_chunks st cs -> open_segment st = Some s -> first_index s <= kept -> kept < last_log_index st ->
  exists st', truncateLog kept st = (Ok true, st') /\
    logs_hold st' (take (Z.to_nat (kept + 1 - first_log_index st)) (concat cs)) /\
    first_log_index st' = first_log_index st /\ max_log_segment_file_size st' = max_log_segment_file_size st.
Proof.
  intros H Ho Hk1 Hk2. destruct (lc_open_segment _ _ _ H Ho) as (c1 & c & -> & Hc1 & Hf & Hs & El).
  destruct (lc_open _ _ H _ Ho) as (Hop & Hfd & _). pose proof (sh_last _ _ _ Hs) as Hl.
  pose proof (sh_first _ _ _ Hs) as H0.
  assert (forall t, t ∈ closed_segments st -> first_index t <= kept) as Hle.
  { intros t Ht. destruct (chain_elem _ _ _ _ _ Hc1 Ht) as (_ & _ & _ & _ & ?). lia. }
  set (n := Z.to_nat (kept + 1 - first_index s)). destruct (seg_truncate_holds _ _ _ kept Hs)
    as (d' & s' & Et & Hs' & Hm & Hop' & Hf' & Hv & Hfd' & Hlt & _); [lia|lia|lia|done| |].
  { intros _ E. apply (f_equal length) in E. rewrite length_take in E. cbn in E. lia. }
  fold n in Hs'. pose proof (lc_names _ _ H) as Hn. unfold all_segments in Hn. rewrite Ho in Hn.
  destruct (replace_last _ _ _ _ _ _ _ s' _ _ Hc1 (lc_closed _ _ H) Hf Hs Hm Hs' Hf' Hn) as [Hch Hn'].
  assert (last_index s' = kept) as Hl' by (rewrite (sh_last _ _ _ Hs'), length_take, Hf'; lia).
  unfold truncateLog. rewrite decide_False by lia. rewrite Ho, filter_none, filter_all by (intros t Ht%Hle; lia).
  rewrite decide_False by lia. cbn [from_option]. unfold has_index. rewrite bool_decide_true by lia.
  unfold sm_bind, sm_modify, sm_ret. cbn [app remove_all sm_ret].
  rewrite (truncate_last_segment_ok kept OpenRef (with_segments (closed_segments st) (Some s) st) s _ _ _ eq_refl Et Hop' Hl'), Hop.
  eexists. split; [done|]. split_and!; [|done..].
  exists (c1 ++ [take n c]). split_and!; [|done|].
  - destruct H as [? Hall ? ? Hlast ? ? ? Hw]. split; cbn; try done; [| |lia|].
    + intros t [= <-]. split_and!; [done|done|]. intros _. apply Hlt. lia.
    + rewrite concat_app. cbn. rewrite app_nil_r, length_app, length_take. lia.
    + destruct Hm as [-> _]. done.
  - rewrite <- take_concat_last. f_equal. unfold n. lia.
Qed.

(** The closed segments are a chain of their own. *)
Lemma lc_closed_chain st cs :
  logs_chunks st cs ->
  exists cc co, chain (log_disk st) (first_log_index st) (closed_segments st) cc /\ concat cs = concat cc ++ co /\
    (forall s, open_segment st = Some s -> seg_holds (log_disk st) s co /\
       first_index s = first_log_index st + Z.of_nat (length (concat cc))) /\
    (open_segment st = None -> co = []).
Proof.
  intros H. destruct (open_segment st) as [s|] eqn:Ho.
  - destruct (lc_open_segment _ _ _ H Ho) as (c1 & c & -> & Hc1 & Hf & Hs & _). exists c1, c.
    split_and!; [done| |by intros ? [= <-]|done]. rewrite concat_app. cbn. by rewrite app_nil_r.
  - exists cs, []. split_and!; [by apply lc_no_open|by rewrite app_nil_r|done|done].
Qed.

(** What is left when the segments after the last index kept are removed. *)
Lemma truncate_removes st cs kept :
  logs_chunks st cs -> (forall s, open_segment st = Some s -> kept < first_index s) -> kept < last_log_index st ->
  let closed := filter (fun s => first_index s <= kept) (closed_segments st) in
  let gone := filter (fun s => first_index s > kept) (closed_segments st) ++ option_list (open_segment st) in
  exists d' c1 rest, remove_all gone (with_segments closed None st) = (Ok tt, with_disk d' (with_segments closed None st)) /\
    write_results d' = [] /\ named_by d' closed /\ chain d' (first_log_index st) closed c1 /\
    concat cs = concat c1 ++ rest /\ kept < first_log_index st + Z.of_nat (length (concat c1)) /\
    Forall (fun s => first_index s <= kept) closed /\ Forall (closed_ok (max_log_segment_file_size st)) closed.
Proof.
  intros H Hop Hk closed gone. pose proof (lc_last _ _ H) as Hl.
  destruct (lc_closed_chain _ _ H) as (cc & co & Hcc & Ecs & Hos & Hon).
  assert (kept < first_log_index st + Z.of_nat (length (concat cc))) as Hkc.
  { destruct (open_segment st) as [s|] eqn:Ho.
    - destruct (Hos _ eq_refl) as [_ E]. specialize (Hop _ eq_refl). lia.
    - rewrite Ecs, (Hon eq_refl), app_nil_r in Hl. lia. }
  destruct (chain_cut _ _ _ _ _ kept Hcc (lc_closed _ _ H)) as (l1 & l2 & c1 & c2 & Esegs & -> & H1 & H2 & E1 & E2 & Hle & Hlt).
  assert (kept < first_log_index st + Z.of_nat (length (concat c1))) as Hk1.
  { destruct l2 as [|u l2]; [|by apply Hlt]. destruct c2; [|done]. rewrite app_nil_r in Hkc. done. }
  subst closed gone. rewrite E1, E2 in *. pose proof (lc_closed _ _ H) as Hall. rewrite Esegs in Hall.
  apply Forall_app in Hall as [Hall1 Hall2].
  destruct (remove_segments (with_segments l1 None st) l1 (l2 ++ option_list (open_segment st)))
    as (d' & E & Hn & Hw & Hf).
  - cbn. rewrite app_assoc, <- Esegs. exact (lc_names _ _ H).
  - intros s u Hs Hu. destruct (chain_elem _ _ _ _ _ H1 Hs) as (cs1 & Hsh & _ & _).
    pose proof (proj1 (Forall_forall _ _) Hle s Hs) as Hsk. cbv beta in Hsk.
    apply elem_of_app in Hu as [Hu|Hu].
    + destruct (chain_elem _ _ _ _ _ H2 Hu) as (cs2 & Huh & ? & _). eapply seg_names_ne; [done..|left; lia].
    + destruct (open_segment st) as [v|] eqn:Ho; [|by apply elem_of_nil in Hu].
      apply list_elem_of_singleton in Hu as ->. destruct (Hos _ eq_refl) as [Hv _]. specialize (Hop _ eq_refl).
      eapply seg_names_ne; [done..|left; lia].
  - exists d', c1, (concat c2 ++ co). split_and!; try done.
    + rewrite Hw. apply (lc_writes _ _ H).
    + eapply chain_frame; [|exact H1]. done.
    + rewrite Ecs, concat_app. by rewrite app_assoc.
Qed.

(** The last index kept is in a closed segment, which is opened again, or no
    entry is kept. *)
Lemma truncate_closed st cs kept :
  logs_chunks st cs -> (forall s, open_segment st = Some s -> kept < first_index s) ->
  first_log_index st - 1 <= kept < last_log_index st ->
  exists st', truncateLog kept st = (Ok true, st') /\
    logs_hold st' (take (Z.to_nat (kept + 1 - first_log_index st)) (concat cs)) /\
    first_log_index st' = first_log_index st /\ max_log_segment_file_size st' = max_log_segment_file_size st.
Proof.
  intros H Hop Hk. destruct (truncate_removes _ _ _ H Hop (proj2 Hk)) as (d1 & c1 & rest & Er & Hw & Hn & Hc & Ecs & Hk1 & Hle & Hall).
  unfold truncateLog. rewrite decide_False by lia.
  set (closed := filter (fun s => first_index s <= kept) (closed_segments st)) in *.
  set (gone1 := filter (fun s => first_index s > kept) (closed_segments st)) in *.
  assert (match open_segment st with
          | Some s => if decide (first_index s > kept) then (None, [s]) else (Some s, [])
          | None => (None, [])
          end = (None, option_list (open_segment st))) as ->.
  { destruct (open_segment st) as [s|]; [|done]. specialize (Hop _ eq_refl). by rewrite decide_True by lia. }
  cbn [from_option]. unfold sm_bind, sm_modify, sm_ret. rewrite Er. clear Er.
  destruct H as [_ _ _ H0 Hl Hr _ Hm _]. generalize dependent closed. intros closed Hn Hc Hle Hall.
  destruct closed as [|t l _] using rev_ind.
  - destruct c1; [|done]. cbn [find_closed fmap option_fmap option_map]. cbn in Hk1. eexists. split; [done|]. split_and!; [|done..].
    exists []. replace (Z.to_nat _) with O by lia. split_and!; [|done|done].
    split; cbn; try done; try lia.
  - apply segments_snoc in Hc as (ca & ct & -> & Hca & Hf & Ht). apply Forall_app in Hall as [Hall [Htc _]%Forall_cons].
    apply Forall_app in Hle as [_ [Htk _]%Forall_cons]. rewrite concat_app in Hk1. cbn in Hk1. rewrite app_nil_r, length_app in Hk1.
    pose proof (sh_last _ _ _ Ht) as Hlt. pose proof (sh_first _ _ _ Ht) as Hft. destruct Htc as [Hcl Hse Hne].
    rewrite find_closed_last by (apply bool_decide_eq_true; lia). cbn [fmap option_fmap option_map].
    destruct (seg_truncate_holds _ _ _ kept Ht) as (d2 & t' & Et & Ht' & Hmv & Hop' & Hf' & Hv' & Hfd' & Hlt' & Heq');
      [lia|lia|lia|by rewrite Hcl| |].
    { intros _ E. apply (f_equal length) in E. rewrite length_take in E. cbn in E. lia. }
    assert (last_index t' = kept) as Hl' by (rewrite (sh_last _ _ _ Ht'), length_take, Hf'; lia).
    destruct (replace_last _ _ _ _ _ _ _ t' _ _ Hca Hall Hf Ht Hmv Ht' Hf' Hn) as [Hch Hn'].
    rewrite (truncate_last_segment_ok kept (ClosedRef (length l)) (with_disk d1 (with_segments (l ++ [t]) None st)) t
      (bool_decide (kept < last_index t)) d2 t');
      [|cbn; by rewrite lookup_app_r, Nat.sub_diag by lia|done..].
    rewrite Hcl. cbn [put_seg closed_segments with_segments with_disk].
    assert (take (length (<[length l:=t']> (l ++ [t])) - 1) (<[length l:=t']> (l ++ [t])) = l) as ->.
    { rewrite length_insert, length_app. cbn [length]. rewrite Nat.add_sub, insert_app_r_alt, Nat.sub_diag by lia.
      cbn. by rewrite take_app_length. }
    eexists. split; [done|]. split_and!; [|done..].
    set (n := Z.to_nat (kept + 1 - first_index t)) in *. exists (ca ++ [take n ct]). split_and!; [|done|].
    + split; cbn; try done; [| |lia|].
      * intros u [= <-]. split_and!; [done|done|]. cbn. rewrite bool_decide_eq_true. intros Hfit.
        apply Hlt'. destruct (decide (kept = last_index t)) as [E|]; [|lia]. destruct (Heq' E) as [Es _].
        unfold sealed in Hse. lia.
      * rewrite concat_app. cbn. rewrite app_nil_r, length_app, length_take. lia.
      * destruct Hmv as [-> _]. done.
    + rewrite <- take_concat_last, Ecs, take_app_le.
      * f_equal. unfold n. lia.
      * rewrite concat_app, length_app. cbn. rewrite app_nil_r. lia.
Qed.

(** [truncateLog] drops the entries after the index [kept]. *)
Lemma truncateLog_hold st es kept :
  logs_hold st es -> first_log_index st - 1 <= kept < last_log_index st ->
  exists st', truncateLog kept st = (Ok true, st') /\
    logs_hold st' (take (Z.to_nat (kept + 1 - first_log_index st)) es) /\
    first_log_index st' = first_log_index st /\ max_log_segment_file_size st' = max_log_segment_file_size st.
Proof.
  intros (cs & H & _ & ->) Hk. destruct (open_segment st) as [s|] eqn:Ho.
  - destruct (decide (first_index s <= kept)); [by eapply truncate_open; [done..|lia]|].
    eapply truncate_closed; [done| |done]. rewrite Ho. intros ? [= <-]. lia.
  - eapply truncate_closed; [done| |done]. by rewrite Ho.
Qed.

(** ** writeAt *)

Lemma logs_hold_last st es :
  logs_hold st es -> last_log_index st = first_log_index st - 1 + Z.of_nat (length es) /\
    0 < first_log_index st /\ last_log_index st < 2 ^ 64 - 1.
Proof. intros (cs & H & _ & ->). split_and!; [apply (lc_last _ _ H)|apply (lc_first _ _ H)|apply (lc_range _ _ H)]. Qed.

(** An entry replaces the one at its index and those after it. *)
Lemma writeAt_hold now st es index e :
  logs_hold st es -> time_ok now -> entry_ok e ->
  first_log_index st <= index <= last_log_index st + 1 -> index < 2 ^ 64 - 1 ->
  exists st', writeAt now index e st = (Ok tt, st') /\
    logs_hold st' (take (Z.to_nat (index - first_log_index st)) es ++ [e]) /\
    first_log_index st' = first_log_index st /\ max_log_segment_file_size st' = max_log_segment_file_size st.
Proof.
  intros H Ht He Hi Hr. destruct (logs_hold_last _ _ H) as (Hl & H0 & Hr0).
  unfold writeAt, sm_bind, sm_get. rewrite u64_id by (unfold in_u64; lia).
  assert (exists b st1, truncateLog (index - 1) st = (Ok b, st1) /\
            logs_hold st1 (take (Z.to_nat (index - first_log_index st)) es) /\
            first_log_index st1 = first_log_index st /\
            max_log_segment_file_size st1 = max_log_segment_file_size st) as (b & st1 & E1 & H1 & Ef & Em).
  { destruct (decide (index - 1 < last_log_index st)).
    - destruct (truncateLog_hold _ _ (index - 1) H ltac:(lia)) as (st1 & E1 & H1 & Ef & Em).
      exists true, st1. replace (index - 1 + 1) with index in H1 by lia. by split_and!.
    - exists false, st. unfold truncateLog. rewrite decide_True by lia. rewrite take_ge by lia. by split_and!. }
  rewrite E1. destruct (logs_hold_last _ _ H1) as (Hl1 & _ & _). rewrite length_take in Hl1.
  rewrite u64_id, decide_True by (unfold in_u64; lia).
  destruct (logs_appendEntry_hold now st1 _ e H1 Ht He ltac:(lia)) as (st2 & E2 & H2 & Ef2 & Em2).
  rewrite E2. exists st2. split_and!; [done|done|congruence..].
Qed.

(** An index past the end is refused. *)
Lemma writeAt_gap now st es index e :
  logs_hold st es -> last_log_index st + 1 < index < 2 ^ 64 ->
  writeAt now index e st = (Fault (Throw LOGICAL_ERROR), st).
Proof.
  intros H Hi. destruct (logs_hold_last _ _ H) as (Hl & H0 & Hr0).
  unfold writeAt, sm_bind, sm_get. rewrite u64_id by (unfold in_u64; lia). unfold truncateLog.
  rewrite decide_True by lia. rewrite u64_id by (unfold in_u64; lia). by rewrite decide_False by lia.
Qed.

(** ** removeSegment *)

(** The segments that end before an index come first. *)
Lemma chain_drop d start max segs cs kept :
  chain d start segs cs -> Forall (closed_ok max) segs ->
  exists l1 l2 c1 c2, segs = l1 ++ l2 /\ cs = c1 ++ c2 /\ chain d start l1 c1 /\
    chain d (start + Z.of_nat (length (concat c1))) l2 c2 /\
    Forall (fun s => last_index s < kept) l1 /\ Forall (fun s => kept <= last_index s) l2 /\
    (l1 <> [] -> start + Z.of_nat (length (concat c1)) <= kept).
Proof.
  revert start cs. induction segs as [|s segs IH]; intros start [|c cs]; cbn [chain]; try done.
  { intros _ _. exists [], [], [], []. split_and!; done. }
  intros (Hf & Hs & Hc) [Hok Hall]%Forall_cons. pose proof (sh_last _ _ _ Hs) as Hl.
  destruct (decide (last_index s < kept)) as [Hlt|Hge].
  - destruct (IH _ _ Hc Hall) as (l1 & l2 & c1 & c2 & -> & -> & H1 & H2 & Ha & Hb & Hk).
    exists (s :: l1), l2, (c :: c1), c2. cbn [concat app]. rewrite length_app, Nat2Z.inj_add, Z.add_assoc.
    split_and!; try done; [by constructor|]. intros _. destruct l1 as [|t l1]; [|by apply Hk].
    destruct c1; [|done]. cbn. lia.
  - exists [], (s :: segs), [], (c :: cs). cbn [concat app length]. rewrite Z.add_0_r.
    split_and!; try done. constructor; [lia|]. apply Forall_forall. intros t Ht.
    destruct (chain_elem _ _ _ _ _ Hc Ht) as (_ & _ & ? & _).
    pose proof (proj1 (Forall_forall _ _) Hall t Ht) as [_ _ ?]. lia.
Qed.

(** Segments that do not start before the range leave it as it is. *)
Lemma remove_closed_kept kept segs range :
  (forall s, s ∈ segs -> kept <= last_index s /\ range.1 <= first_index s) ->
  remove_closed kept segs range = (segs, [], range).
Proof.
  induction segs as [|s segs IH]; intros Hs; [done|]. cbn [remove_closed].
  destruct (Hs s) as [? ?]; [by left|]. rewrite decide_False by lia. unfold keep_segment.
  rewrite decide_False by lia. rewrite IH; [done|]. intros t Ht. apply Hs. by right.
Qed.

Lemma remove_closed_app kept l1 l2 range :
  Forall (fun s => last_index s < kept) l1 ->
  remove_closed kept (l1 ++ l2) range =
  let '(k, r, range') := remove_closed kept l2 range in (k, l1 ++ r, range').
Proof.
  induction l1 as [|s l1 IH]; intros Hl; cbn [app remove_closed]; [by destruct (remove_closed _ l2 _) as [[]]|].
  apply Forall_cons in Hl as [Hs Hl]. rewrite decide_True, IH by done. by destruct (remove_closed _ l2 _) as [[]].
Qed.

(** Only the first segment that is kept can move the start of the range. *)
Lemma remove_closed_first kept last s segs :
  0 < kept <= last -> (forall t, t ∈ s :: segs -> kept <= last_index t) ->
  (forall t, t ∈ segs -> Z.min kept (first_index s) <= first_index t) ->
  remove_closed kept (s :: segs) (kept, last) = (s :: segs, [], (Z.min kept (first_index s), last)).
Proof.
  intros Hl Hk Hf. cbn [remove_closed]. rewrite decide_False by (specialize (Hk s ltac:(left)); lia).
  assert (keep_segment s (kept, last) = (Z.min kept (first_index s), last)) as ->.
  { unfold keep_segment. cbn. case_decide; [|f_equal; lia]. rewrite Z.min_r by lia.
    unfold past_the_end. rewrite bool_decide_false by lia. done. }
  rewrite remove_closed_kept; [done|]. intros t Ht. split; [apply Hk; by right|]. cbn. by apply Hf.
Qed.

(** The log without its first segments. *)
Lemma remove_prefix st l1 c1 closed s c2 :
  logs_chunks st (c1 ++ c2) -> closed_segments st = l1 ++ closed -> open_segment st = Some s ->
  length l1 = length c1 ->
  let first := first_log_index st + Z.of_nat (length (concat c1)) in
  let st1 := with_range first (last_log_index st) (with_segments closed (Some s) st) in
  exists d', remove_all l1 st1 = (Ok tt, with_disk d' st1) /\ logs_chunks (with_disk d' st1) c2.
Proof.
  intros H Ecl Ho Hlen first st1. pose proof (lc_chain _ _ H) as Hc. unfold all_segments in Hc.
  rewrite Ecl, Ho, <- app_assoc in Hc. apply chain_app in Hc as [H1 H2]; [|done]. fold first in H2.
  pose proof (lc_closed _ _ H) as Hall. rewrite Ecl in Hall. apply Forall_app in Hall as [Ha1 Ha2].
  destruct (remove_segments st1 (closed ++ [s]) l1) as (d' & E & Hn & Hw & Hf).
  - intros name Hex Hp. destruct (lc_names _ _ H name Hex Hp) as (t & Ht & Et). exists t. split; [|done].
    unfold all_segments in Ht. rewrite Ecl, Ho in Ht. set_solver.
  - intros t u Ht Hu. destruct (chain_elem _ _ _ _ _ H2 Ht) as (? & Hth & ? & _).
    destruct (chain_elem _ _ _ _ _ H1 Hu) as (? & Huh & _ & ? & _).
    pose proof (proj1 (Forall_forall _ _) Ha1 u Hu) as [_ _ ?]. eapply seg_names_ne; [done..|left; lia].
  - exists d'. split; [done|]. pose proof (lc_last _ _ H) as Hl. rewrite concat_app, length_app in Hl.
    pose proof (lc_open _ _ H _ Ho) as Hop. unfold open_segment_fits in Hop. rewrite Ho in Hop.
    destruct H as [_ _ _ H0 _ Hr _ Hm Hwr]. split; try done.
    + eapply chain_frame; [|exact H2]. apply Hf.
    + cbn. by intros ? [= <-].
    + unfold first. cbn. lia.
    + unfold first. cbn. lia.
    + cbn. by rewrite Hw.
Qed.

Lemma past_the_end_true first last : last < first + 1 -> past_the_end first last = true.
Proof. intros. unfold past_the_end. apply bool_decide_eq_true. lia. Qed.

Lemma past_the_end_false first last : 0 < first < last -> past_the_end first last = false.
Proof. intros. unfold past_the_end. apply bool_decide_eq_false. lia. Qed.

(** All segments are removed: the log is empty and continues after the index. *)
Lemma remove_everything st cs kept :
  logs_chunks st cs -> first_log_index st < kept < 2 ^ 64 - 1 -> last_log_index st < kept ->
  exists n st', removeSegment kept st = (Ok n, st') /\ first_log_index st' = kept /\ logs_hold st' [] /\
    max_log_segment_file_size st' = max_log_segment_file_size st.
Proof.
  intros H Hk Hl. pose proof (lc_first _ _ H) as H0. pose proof (lc_last _ _ H) as Hll. unfold removeSegment. rewrite decide_False by lia.
  assert (Forall (fun s => last_index s < kept) (closed_segments st)) as Hcl.
  { destruct (lc_closed_chain _ _ H) as (cc & co & Hcc & Ecs & _). rewrite Ecs, length_app in Hll.
    apply Forall_forall. intros s Hs. destruct (chain_elem _ _ _ _ _ Hcc Hs) as (_ & _ & _ & ? & _). lia. }
  pose proof (remove_closed_app kept _ [] (kept, last_log_index st) Hcl) as E. cbn [remove_closed] in E.
  rewrite !app_nil_r in E. rewrite E.
  assert (remove_open kept (open_segment st) (kept, last_log_index st) =
          (None, option_list (open_segment st), (kept, last_log_index st))) as ->.
  { destruct (open_segment st) as [s|] eqn:Ho; [|done]. destruct (lc_open_segment _ _ _ H Ho) as (? & ? & _ & _ & _ & _ & E').
    cbn. by rewrite decide_True by lia. }
  unfold sm_bind, sm_modify, sm_ret.
  destruct (remove_segments (with_range kept (last_log_index st) (with_segments [] None st)) [] (all_segments st))
    as (d' & E' & Hn & Hw & _); [exact (lc_names _ _ H)|by intros ? ? ?%elem_of_nil|].
  cbn [fst snd]. unfold all_segments in E'. rewrite E'. cbn [first_log_index last_log_index with_range with_disk with_segments].
  rewrite past_the_end_true by lia. eexists _, _. split; [done|]. split_and!; try done.
  exists []. split_and!; try done. rewrite u64_id by (unfold in_u64; lia). pose proof (lc_max _ _ H).
  split; cbn; try done; try lia. rewrite Hw. apply (lc_writes _ _ H).
Qed.

(** What [removeSegment] keeps: it removes whole segments, and a log of one entry
    is lost. *)
Lemma remove_some st cs kept :
  logs_chunks st cs -> first_log_index st < kept <= last_log_index st -> is_Some (open_segment st) ->
  exists n st', removeSegment kept st = (Ok n, st') /\
    max_log_segment_file_size st' = max_log_segment_file_size st /\
    first_log_index st <= first_log_index st' <= kept /\
    (first_log_index st' < last_log_index st ->
       logs_hold st' (drop (Z.to_nat (first_log_index st' - first_log_index st)) (concat cs))) /\
    (first_log_index st' = last_log_index st -> last_log_index st' = first_log_index st' - 1 /\
       logs_hold (with_range (first_log_index st') (last_log_index st) st')
         (drop (Z.to_nat (first_log_index st' - first_log_index st)) (concat cs))).
Proof.
  intros H Hk [s Ho]. pose proof (lc_first _ _ H) as H0. pose proof (lc_range _ _ H) as Hr.
  destruct (lc_open_segment _ _ _ H Ho) as (cc & c & -> & Hcc & Hf & Hs & El).
  destruct (chain_drop _ _ _ _ _ kept Hcc (lc_closed _ _ H)) as (l1 & l2 & c1 & c2 & Ecl & -> & H1 & H2 & Ha & Hb & Hkc).
  set (first := first_log_index st + Z.of_nat (length (concat c1))).
  assert (first <= kept) as Hfk.
  { destruct l1; [|by apply Hkc]. destruct c1; [|done]. unfold first. cbn. lia. }
  rewrite concat_app, length_app in Hf. rewrite <- app_assoc in H.
  assert (first_log_index st <= first <= first_index s) as Hfs by (unfold first; lia).
  assert (removeSegment kept st =
    (remove_all l1 ;;; sm_modify (fun st => if past_the_end (first_log_index st) (last_log_index st)
        then with_range (first_log_index st) (u64 (first_log_index st - 1)) st else st) ;;;
      sm_ret (Z.of_nat (length l1)))%sm (with_range first (last_log_index st) (with_segments l2 (Some s) st))) as ->.
  { unfold removeSegment. rewrite decide_False by lia. rewrite Ecl, remove_closed_app by done. rewrite Ho.
    destruct l2 as [|t l2].
    - cbn [remove_closed remove_open]. rewrite decide_False by lia. destruct c2; [|done]. cbn in Hf.
      unfold keep_segment. cbn [fst snd]. assert (first_index s = first) as E by (unfold first; lia).
      case_decide as Hlt; [rewrite past_the_end_false by lia|]; rewrite !app_nil_r; [by rewrite E|].
      by replace first with kept by lia.
    - rewrite remove_closed_first; [|lia|by apply Forall_forall|].
      2:{ intros u Hu. destruct c2 as [|c2 c2s]; [done|]. destruct H2 as (Et & _ & H2).
          destruct (chain_elem _ _ _ _ _ H2 Hu) as (_ & _ & ? & _). lia. }
      destruct c2 as [|c2 c2s]; [done|]. destruct H2 as (Et & _ & H2). fold first in Et. rewrite Et, Z.min_r by lia.
      unfold remove_open. rewrite decide_False by lia. unfold keep_segment. cbn [fst snd]. rewrite decide_False by lia.
      by rewrite !app_nil_r. }
  destruct (remove_prefix st l1 c1 l2 s (c2 ++ [c]) H Ecl Ho) as (d' & E & H'); [by eapply chain_length|]. fold first in E, H'.
  unfold sm_bind, sm_modify, sm_ret. rewrite E. cbn [first_log_index last_log_index with_range with_disk with_segments].
  assert (drop (Z.to_nat (first - first_log_index st)) (concat ((c1 ++ c2) ++ [c])) = concat (c2 ++ [c])) as Ed.
  { rewrite <- app_assoc, concat_app. unfold first. rewrite Z.add_simpl_l, Nat2Z.id. by rewrite drop_app_length. }
  destruct (decide (first = last_log_index st)) as [Eq|Hne].
  - rewrite past_the_end_true by lia. rewrite u64_id by (unfold in_u64; lia). eexists _, _. split; [done|]. cbn.
    split_and!; [done|lia|lia|lia|]. intros _. split; [done|]. exists (c2 ++ [c]). split_and!; [exact H'|done|exact Ed].
  - rewrite past_the_end_false by lia. eexists _, _. split; [done|]. cbn. split_and!; [done|lia|lia| |done].
    intros _. exists (c2 ++ [c]). split_and!; [exact H'|done|exact Ed].
Qed.
