(* ===== verification/LogLoad.v ===== *)
(** * Loading the log at start

    [LogSegmentStore::init] on the files of a log finds its segments whatever
    order the directory is listed in, and holds the same entries. *)

From S2P Require Import Prelude Text Wire LogSegment LogSegmentTheorems LogSegmentStore LogChain LogCut.

(** ** The files of the directory *)

(** The segment objects made for the names. *)
Definition closed_meta (file : string) : option NuRaftLogSegment :=
  if String.prefix "log_" file then
    match parseSegmentFileName file with
    | Some (first, Some last, time) => Some (closed_on_disk first last file time)
    | _ => None
    end
  else None.

Definition open_meta (file : string) : option NuRaftLogSegment :=
  if String.prefix "log_" file then
    match parseSegmentFileName file with
    | Some (first, None, time) => Some (open_on_disk first file time)
    | _ => None
    end
  else None.

Lemma load_file_metas_ok names : forall st,
  (forall name, name ∈ names -> String.prefix "log_" name = true -> is_Some (parseSegmentFileName name)) ->
  (length (option_list (open_segment st) ++ omap open_meta names) <= 1)%nat ->
  load_file_metas names st =
  (Ok tt, with_segments (closed_segments st ++ omap closed_meta names)
            (head (option_list (open_segment st) ++ omap open_meta names)) st).
Proof.
  induction names as [|name names IH]; intros st Hp Hone; cbn [load_file_metas omap list_omap].
  - rewrite !app_nil_r. by destruct st as [? ? ? ? ? []].
  - unfold sm_bind, load_file_meta, closed_meta, open_meta in *. cbn [omap list_omap] in Hone.
    specialize (Hp name ltac:(by left)) as Hname.
    assert (forall n, n ∈ names -> String.prefix "log_" n = true -> is_Some (parseSegmentFileName n)) as Hp'
      by (intros n Hn; apply Hp; by right).
    destruct (String.prefix "log_" name) eqn:Hpre.
    + destruct (Hname eq_refl) as [[[first [last|]] time] E]; rewrite E in Hone |- *.
      * rewrite IH by done. cbn. by rewrite <- app_assoc.
      * rewrite length_app in Hone. destruct (open_segment st) as [s|] eqn:Ho; [cbn in Hone; lia|].
        rewrite IH; [done|done|]. cbn in *. lia.
    + by rewrite IH.
Qed.

(** ** The segments found again *)

(** The object a segment is loaded into. *)
Definition unload (s : NuRaftLogSegment) : NuRaftLogSegment :=
  if is_open s then open_on_disk (first_index s) (file_name s) (create_time s)
  else closed_on_disk (first_index s) (last_index s) (file_name s) (create_time s).

Lemma unload_fields s :
  first_index (unload s) = first_index s /\ is_open (unload s) = is_open s /\ file_name (unload s) = file_name s /\
  create_time (unload s) = create_time s /\ (is_open s = false -> last_index (unload s) = last_index s).
Proof. unfold unload. destruct (is_open s) eqn:E; by split_and!. Qed.

Lemma unload_unloaded d s c : seg_holds d s c -> seg_unloaded d (unload s) (version s) c.
Proof.
  intros Hs. destruct (unload_fields s) as (E1 & E2 & E3 & E4 & E5). pose proof (sh_last _ _ _ Hs) as Hl.
  split; rewrite ?E1, ?E2, ?E3, ?E4; try by destruct Hs.
  - rewrite <- Hl. apply (sh_range _ _ _ Hs).
  - unfold unload. by destruct (is_open s).
  - rewrite (sh_name _ _ _ Hs). unfold seg_name. rewrite E2. unfold getOpenFileName, getClosedFileName. rewrite E1, E4.
    destruct (is_open s); [done|by rewrite E5].
  - intros Ho. by rewrite E5.
Qed.

Definition reload (s : NuRaftLogSegment) (c : list log_entry) : NuRaftLogSegment :=
  seg_loaded (version s) c (unload s).

Lemma reload_holds d s c : seg_holds d s c -> seg_holds d (reload s c) c.
Proof. intros Hs. by apply seg_loaded_holds, unload_unloaded. Qed.

Lemma reload_fields d s c :
  seg_holds d s c ->
  first_index (reload s c) = first_index s /\ last_index (reload s c) = last_index s /\
  is_open (reload s c) = is_open s /\ file_name (reload s c) = file_name s /\
  file_size (reload s c) = file_size s /\ version (reload s c) = version s /\
  is_Some (seg_fd (reload s c)) /\ (is_open s = true -> seg_fd (reload s c) = Some (file_size s)).
Proof.
  intros Hs. destruct (unload_fields s) as (E1 & E2 & E3 & E4 & E5).
  unfold reload, seg_loaded. cbn [first_index last_index is_open file_name file_size version seg_fd with_version with_entries with_fd].
  rewrite E1, E2, E3. split_and!; try done.
  - symmetry. apply (sh_last _ _ _ Hs).
  - symmetry. apply (sh_size _ _ _ Hs).
  - intros ->. f_equal. symmetry. apply (sh_size _ _ _ Hs).
Qed.

Lemma chain_reload d start segs cs : chain d start segs cs -> chain d start (zip_with reload segs cs) cs.
Proof.
  revert start cs. induction segs as [|s segs IH]; intros start [|c cs]; cbn [chain zip_with]; try done.
  intros (Hf & Hs & Hc). split_and!; [by destruct (reload_fields _ _ _ Hs) as (-> & _)|by apply reload_holds|by apply IH].
Qed.

Lemma closed_ok_reload d start max segs cs :
  chain d start segs cs -> Forall (closed_ok max) segs -> Forall (closed_ok max) (zip_with reload segs cs).
Proof.
  revert start cs. induction segs as [|s segs IH]; intros start [|c cs]; cbn [chain zip_with]; try done.
  intros (Hf & Hs & Hc) [[H1 H2 H3] Hall]%Forall_cons. destruct (reload_fields _ _ _ Hs) as (E1 & E2 & E3 & E4 & E5 & E6 & _).
  constructor; [|by eapply IH]. split; unfold sealed; by rewrite ?E1, ?E2, ?E3, ?E5, ?E6.
Qed.

Lemma names_reload d start segs cs :
  chain d start segs cs -> file_name <$> zip_with reload segs cs = file_name <$> segs.
Proof.
  revert start cs. induction segs as [|s segs IH]; intros start [|c cs]; cbn [chain zip_with]; try done.
  intros (Hf & Hs & Hc). rewrite !fmap_cons. destruct (reload_fields _ _ _ Hs) as (_ & _ & _ & -> & _). f_equal. by eapply IH.
Qed.

(** ** Sorting *)

#[export] Instance segment_le_trans : Transitive segment_le.
Proof. intros s t u. unfold segment_le, compareSegment. lia. Qed.
#[export] Instance segment_le_total : Total segment_le.
Proof. intros s t. unfold segment_le, compareSegment. lia. Qed.

(** Segments in the order of their first indexes are what sorting gives. *)
Lemma merge_sort_chain segs found :
  StronglySorted (fun s t => first_index s < first_index t) segs -> found ≡ₚ segs ->
  merge_sort segment_le found = segs.
Proof.
  intros Hs Hp. apply (StronglySorted_unique_strong segment_le).
  - intros s t Hin1 Hin2 H1 H2. rewrite merge_sort_Permutation, Hp in Hin1. unfold segment_le, compareSegment in *.
    assert (first_index s = first_index t) as E by lia. clear H1 H2 Hp. induction Hs as [|u segs Hss IH Hall]; [by apply elem_of_nil in Hin1|].
    rewrite Forall_forall in Hall. apply elem_of_cons in Hin1 as [->|Hin1], Hin2 as [->|Hin2]; try done.
    + specialize (Hall _ Hin2). lia.
    + specialize (Hall _ Hin1). lia.
    + by apply IH.
  - apply (StronglySorted_merge_sort segment_le).
  - clear Hp. induction Hs as [|u segs Hss IH Hall]; constructor; [done|]. eapply Forall_impl; [exact Hall|].
    intros t. cbv beta. unfold segment_le, compareSegment. lia.
  - by rewrite merge_sort_Permutation.
Qed.

Lemma chain_sorted d start max segs cs :
  chain d start segs cs -> Forall (closed_ok max) segs ->
  StronglySorted (fun s t => first_index s < first_index t) segs.
Proof.
  revert start cs. induction segs as [|s segs IH]; intros start [|c cs]; cbn [chain]; try done.
  { intros _ _. constructor. }
  intros (Hf & Hs & Hc) [[_ _ Hne] Hall]%Forall_cons. constructor; [by eapply IH|].
  apply Forall_forall. intros t Ht. destruct (chain_elem _ _ _ _ _ Hc Ht) as (_ & _ & ? & _).
  pose proof (sh_last _ _ _ Hs). lia.
Qed.

Lemma sorted_unload segs :
  StronglySorted (fun s t => first_index s < first_index t) segs ->
  StronglySorted (fun s t => first_index s < first_index t) (unload <$> segs).
Proof.
  induction 1 as [|s segs Hss IH Hall]; cbn; constructor; [done|]. apply Forall_fmap. eapply Forall_impl; [exact Hall|].
  intros t. cbn. destruct (unload_fields s) as (-> & _). by destruct (unload_fields t) as (-> & _).
Qed.

(** ** What the directory has *)

(** The metas of a list of names that is complete are the segments. *)
Lemma metas_of_segments (meta : string -> option NuRaftLogSegment) names segs :
  NoDup names -> NoDup (file_name <$> segs) ->
  (forall name s, meta name = Some s -> file_name s = name) ->
  (forall name s, name ∈ names -> meta name = Some s -> exists t, t ∈ segs /\ s = unload t) ->
  (forall t, t ∈ segs -> file_name t ∈ names /\ meta (file_name t) = Some (unload t)) ->
  omap meta names ≡ₚ unload <$> segs.
Proof.
  intros Hn Hs Hname H1 H2. apply NoDup_Permutation.
  - clear H1 H2 Hs. induction Hn as [|name names Hin Hn IH]; [constructor|]. cbn.
    destruct (meta name) as [s|] eqn:E; [|done]. constructor; [|done].
    intros (n & Hn' & E')%list_elem_of_omap. apply Hname in E, E'. congruence.
  - apply (NoDup_fmap_1 file_name). rewrite <- list_fmap_compose. erewrite list_fmap_ext; [exact Hs|].
    intros i t _. cbn. by destruct (unload_fields t) as (_ & _ & -> & _).
  - intros s. rewrite list_elem_of_omap, list_elem_of_fmap. split.
    + intros (name & Hin & E). destruct (H1 _ _ Hin E) as (t & Ht & ->). by exists t.
    + intros (t & -> & Ht). destruct (H2 t Ht) as [Hin E]. by exists (file_name t).
Qed.

Lemma chain_names_NoDup d start max segs cs :
  chain d start segs cs -> Forall (closed_ok max) segs -> NoDup (file_name <$> segs).
Proof.
  revert start cs. induction segs as [|s segs IH]; intros start [|c cs]; cbn [chain]; try done.
  { intros _ _. constructor. }
  intros (Hf & Hs & Hc) [Hok Hall]%Forall_cons. cbn. constructor; [|by eapply IH].
  intros (t & E & Ht)%list_elem_of_fmap. destruct (chain_elem _ _ _ _ _ Hc Ht) as (ct & Hth & ? & _).
  destruct Hok as [_ _ Hne]. pose proof (sh_last _ _ _ Hs). eapply (seg_names_ne _ _ s t); [done..|left; lia|done].
Qed.

Lemma meta_names name s : closed_meta name = Some s \/ open_meta name = Some s -> file_name s = name.
Proof.
  unfold closed_meta, open_meta. destruct (String.prefix "log_" name); [|naive_solver].
  destruct (parseSegmentFileName name) as [[[f [l|]] t]|]; naive_solver.
Qed.

Lemma closed_meta_seg d s c :
  seg_holds d s c -> closed_meta (file_name s) = if is_open s then None else Some (unload s).
Proof.
  intros Hs. unfold closed_meta, unload. rewrite (seg_name_prefix _ _ _ Hs), (parse_seg_name _ _ _ Hs (seg_last_nonneg _ _ _ Hs)).
  by destruct (is_open s).
Qed.

Lemma open_meta_seg d s c :
  seg_holds d s c -> open_meta (file_name s) = if is_open s then Some (unload s) else None.
Proof.
  intros Hs. unfold open_meta, unload. rewrite (seg_name_prefix _ _ _ Hs), (parse_seg_name _ _ _ Hs (seg_last_nonneg _ _ _ Hs)).
  by destruct (is_open s).
Qed.

Lemma meta_prefix name s :
  closed_meta name = Some s \/ open_meta name = Some s -> String.prefix "log_" name = true.
Proof. unfold closed_meta, open_meta. destruct (String.prefix "log_" name); naive_solver. Qed.

Section load.
Context `{IterOrder}.

Lemma lc_segment_holds st cs s : logs_chunks st cs -> s ∈ all_segments st -> exists c, seg_holds (log_disk st) s c.
Proof. intros Hc Hs. destruct (chain_elem _ _ _ _ _ (lc_chain _ _ Hc) Hs) as (c & ? & _). by exists c. Qed.

Lemma lc_segment_file st cs s :
  logs_chunks st cs -> s ∈ all_segments st -> file_name s ∈ iter_str (dom (files (log_disk st))).
Proof.
  intros Hc Hs. destruct (lc_segment_holds _ _ _ Hc Hs) as (c & Hsh). apply elem_of_iter_str, elem_of_dom.
  rewrite (sh_content _ _ _ Hsh). by eexists.
Qed.

(** The segment objects found in the directory of a log. *)
Lemma metas_found st cs :
  logs_chunks st cs ->
  let names := iter_str (dom (files (log_disk st))) in
  omap closed_meta names ≡ₚ unload <$> closed_segments st /\
  omap open_meta names = option_list (unload <$> open_segment st) /\
  (forall name, name ∈ names -> String.prefix "log_" name = true -> is_Some (parseSegmentFileName name)).
Proof.
  intros Hc names.
  assert (forall s, s ∈ closed_segments st -> s ∈ all_segments st /\ is_open s = false) as Hcl.
  { intros s Hs. split; [set_solver|]. by destruct (proj1 (Forall_forall _ _) (lc_closed _ _ Hc) s Hs). }
  assert (forall s, s ∈ option_list (open_segment st) -> s ∈ all_segments st /\ is_open s = true) as Hop.
  { intros s Hs. split; [set_solver|]. destruct (open_segment st) as [t|] eqn:Ho; [|by apply elem_of_nil in Hs].
    apply list_elem_of_singleton in Hs as ->. by destruct (lc_open _ _ Hc _ Ho). }
  assert (forall name, name ∈ names -> String.prefix "log_" name = true ->
            exists s, s ∈ all_segments st /\ file_name s = name) as Hnm.
  { intros name Hin Hp. apply (lc_names _ _ Hc); [|done]. by apply elem_of_iter_str, elem_of_dom in Hin. }
  assert (NoDup names) as Hnd by (apply NoDup_iter_str).
  split_and!.
  - apply metas_of_segments; [done| | | |].
    + destruct (lc_closed_chain _ _ Hc) as (cc & co & Hcc & _). by eapply chain_names_NoDup, (lc_closed _ _ Hc).
    + intros name s E. apply meta_names. by left.
    + intros name s Hin E. destruct (Hnm name Hin) as (t & Ht & <-); [by eapply meta_prefix; left|].
      destruct (lc_segment_holds _ _ _ Hc Ht) as (c & Hth). rewrite (closed_meta_seg _ _ _ Hth) in E.
      destruct (is_open t) eqn:Ho; [done|]. exists t. split; [|congruence].
      apply elem_of_app in Ht as [Ht|Ht]; [done|]. apply Hop in Ht as [_ ?]. congruence.
    + intros t Ht. destruct (Hcl t Ht) as [Hall Ho]. destruct (lc_segment_holds _ _ _ Hc Hall) as (c & Hth).
      rewrite (closed_meta_seg _ _ _ Hth), Ho. split; [by eapply lc_segment_file|done].
  - assert (omap open_meta names ≡ₚ unload <$> option_list (open_segment st)) as Hp.
    { apply metas_of_segments; [done|destruct (open_segment st); cbn; repeat constructor; by intros ?%elem_of_nil| | |].
      + intros name s E. apply meta_names. by right.
      + intros name s Hin E. destruct (Hnm name Hin) as (t & Ht & <-); [by eapply meta_prefix; right|].
        destruct (lc_segment_holds _ _ _ Hc Ht) as (c & Hth). rewrite (open_meta_seg _ _ _ Hth) in E.
        destruct (is_open t) eqn:Ho; [|done]. exists t. split; [|congruence].
        apply elem_of_app in Ht as [Ht|Ht]; [|done]. apply Hcl in Ht as [_ ?]. congruence.
      + intros t Ht. destruct (Hop t Ht) as [Hall Ho]. destruct (lc_segment_holds _ _ _ Hc Hall) as (c & Hth).
        rewrite (open_meta_seg _ _ _ Hth), Ho. split; [by eapply lc_segment_file|done]. }
    destruct (open_segment st); cbn in *; [by apply Permutation_singleton_r in Hp|by apply Permutation_nil_r in Hp].
  - intros name Hin Hp. destruct (Hnm name Hin Hp) as (t & Ht & <-). destruct (lc_segment_holds _ _ _ Hc Ht) as (c & Hth).
    rewrite (parse_seg_name _ _ _ Hth (seg_last_nonneg _ _ _ Hth)). by eexists.
Qed.

Lemma head_first st cs s :
  logs_chunks st cs -> open_segment st = Some s ->
  from_option first_index (first_index (unload s)) (head (unload <$> closed_segments st)) = first_log_index st.
Proof.
  intros Hc Ho. destruct (lc_open_segment _ _ _ Hc Ho) as (c1 & c & _ & Hc1 & Hf & _).
  destruct (closed_segments st) as [|t segs], c1 as [|ct c1]; try done; cbn in *.
  - destruct (unload_fields s) as (-> & _). lia.
  - destruct (unload_fields t) as (-> & _). by destruct Hc1.
Qed.

Definition before_loading (st : LogSegmentStore) (d : Disk) (s : NuRaftLogSegment) (max : Z) : LogSegmentStore :=
  mkLogs d (first_log_index st) (last_index (unload s)) max (unload <$> closed_segments st) (Some (unload s)).

(** Only the names of the files matter here. *)
Lemma loadSegmentMetaData_hold st cs d s max :
  logs_chunks st cs -> open_segment st = Some s -> dom (files d) = dom (files (log_disk st)) ->
  loadSegmentMetaData (mkLogs d 1 0 max [] None) = (Ok tt, before_loading st d s max).
Proof.
  intros Hc Ho Hd. destruct (metas_found _ _ Hc) as (Hcl & Hop & Hp). pose proof (head_first _ _ _ Hc Ho) as Hfirst.
  rewrite Ho in Hop. cbn in Hop. rewrite <- Hd in *. unfold loadSegmentMetaData, sm_bind, sm_get, sm_modify. cbn [log_disk].
  rewrite load_file_metas_ok; [|exact Hp|cbn; by rewrite Hop]. cbn [closed_segments open_segment with_segments app option_list].
  rewrite Hop. change (head (option_list (@None NuRaftLogSegment) ++ [unload s])) with (Some (unload s)).
  destruct (lc_closed_chain _ _ Hc) as (cc & co & Hcc & _).
  rewrite (merge_sort_chain _ _ (sorted_unload _ (chain_sorted _ _ _ _ _ Hcc (lc_closed _ _ Hc))) Hcl).
  cbn [closed_segments open_segment with_segments]. rewrite Hfirst.
  rewrite decide_False; [done|]. rewrite Exists_exists. intros (u & Hu & Hgt). cbn in Hu.
  apply list_elem_of_fmap in Hu as (t & -> & Ht).
  destruct (proj1 (Forall_forall _ _) (lc_closed _ _ Hc) t Ht) as [Hclosed _ Hne].
  destruct (unload_fields t) as (E1 & _ & _ & _ & E5). rewrite E1, E5 in Hgt by done. lia.
Qed.

Lemma load_closed_ok todo : forall start cs pre st,
  chain (log_disk st) start todo cs -> closed_segments st = pre ++ (unload <$> todo) ->
  load_closed (length todo) (length pre) st =
  (Ok tt, with_segments (pre ++ zip_with reload todo cs) (open_segment st) st).
Proof.
  induction todo as [|s todo IH]; intros start [|c cs] pre st; cbn [chain]; try done.
  - intros _ Hcl. cbn in *. rewrite app_nil_r in *. destruct st. cbn in *. by subst.
  - intros (Hf & Hs & Hc) Hcl. cbn [load_closed length zip_with]. unfold sm_bind.
    rewrite fmap_cons in Hcl.
    rewrite (on_segment_run _ (ClosedRef (length pre)) _ (unload s) (Ok tt) (log_disk st) (reload s c)).
    2:{ cbn. rewrite Hcl. by rewrite lookup_app_r, Nat.sub_diag by lia. }
    2:{ apply seg_load_holds. by apply unload_unloaded. }
    specialize (IH _ _ (pre ++ [reload s c]) (put_seg (ClosedRef (length pre)) (reload s c) (with_disk (log_disk st) st)) Hc).
    rewrite length_app, Nat.add_1_r in IH. rewrite IH.
    + cbn. by rewrite <- app_assoc.
    + cbn. rewrite Hcl, insert_app_r_alt, Nat.sub_diag by lia. cbn. by rewrite <- app_assoc.
Qed.

(** Loading the closed segments. *)
Lemma loadSegments_closed st d s max c1 :
  open_segment st = Some s -> chain d (first_log_index st) (closed_segments st) c1 ->
  exists last, loadSegments (before_loading st d s max) =
    (load_open ;;; sm_modify (fun st => if decide (last_log_index st = 0)
                        then with_range (first_log_index st) (u64 (first_log_index st - 1)) st else st))%sm
    (mkLogs d (first_log_index st) last max (zip_with reload (closed_segments st) c1) (Some (unload s))).
Proof.
  intros Ho Hc1. unfold loadSegments, sm_bind, sm_modify, sm_get.
  set (st1 := with_range _ _ (before_loading st d s max)).
  assert (length (closed_segments st1) = length (closed_segments st)) as -> by (cbn; by rewrite length_fmap).
  pose proof (load_closed_ok (closed_segments st) (first_log_index st) c1 [] st1 Hc1 eq_refl) as E. cbn [length app] in E.
  rewrite E. by eexists.
Qed.

Lemma load_open_ok d first lst max closed s c :
  seg_holds d s c ->
  load_open (mkLogs d first lst max closed (Some (unload s))) =
  if decide (first > last_index s) then
    (Fault (Throw CORRUPTED_LOG), mkLogs d first lst max closed (Some (reload s c)))
  else (Ok tt, mkLogs d first (last_index s) max closed (Some (reload s c))).
Proof.
  intros Hs. destruct (reload_fields _ _ _ Hs) as (_ & E2 & _). unfold load_open, sm_bind. cbn [open_segment].
  rewrite (on_segment_run _ OpenRef _ (unload s) (Ok tt) d (reload s c)); [|done|].
  2:{ apply seg_load_holds. by apply unload_unloaded. }
  rewrite (on_segment_get last_index OpenRef _ (reload s c)) by done. rewrite E2.
  unfold sm_get, sm_modify. cbn [first_log_index put_seg with_segments with_disk]. by case_decide.
Qed.

Lemma loadSegments_hold st cs s max :
  logs_chunks st cs -> open_segment st = Some s -> concat cs <> [] ->
  exists c1 c, cs = c1 ++ [c] /\ loadSegments (before_loading st (log_disk st) s max) =
    (Ok tt, mkLogs (log_disk st) (first_log_index st) (last_log_index st) max
              (zip_with reload (closed_segments st) c1) (Some (reload s c))).
Proof.
  intros Hc Ho Hne. destruct (lc_open_segment _ _ _ Hc Ho) as (c1 & c & -> & Hc1 & Hf & Hs & El).
  pose proof (lc_last _ _ Hc) as Hl. pose proof (lc_first _ _ Hc) as H0.
  assert (first_log_index st <= last_log_index st) as Hle.
  { destruct (concat (c1 ++ [c])); [done|]. cbn in Hl. lia. }
  exists c1, c. split; [done|].
  destruct (loadSegments_closed st (log_disk st) s max c1 Ho Hc1) as (lst & ->).
  unfold sm_bind, sm_modify. rewrite (load_open_ok _ _ _ _ _ _ _ Hs), El, decide_False by lia.
  cbn [last_log_index]. by rewrite decide_False by lia.
Qed.

Lemma sealed_le max max' s : max' <= max -> sealed max s -> sealed max' s.
Proof. unfold sealed. lia. Qed.

(** A server that starts on the files of a log with entries holds them, when the
    maximal size of a segment was not raised. *)
Lemma logs_init_hold now st es max :
  logs_hold st es -> es <> [] -> time_ok now -> last_log_index st + 1 < 2 ^ 64 - 1 ->
  9 <= max <= max_log_segment_file_size st ->
  exists st', logs_init now (mkLogs (log_disk st) 1 0 max [] None) = (Ok tt, st') /\ logs_hold st' es /\
    first_log_index st' = first_log_index st /\ max_log_segment_file_size st' = max.
Proof.
  intros (cs & Hc & Hno & ->) Hne Ht Hr Hmax.
  destruct (open_segment st) as [s|] eqn:Ho.
  2:{ pose proof (lc_no_open _ _ Hc Ho) as E. rewrite (Hno eq_refl) in E. by destruct cs. }
  destruct (loadSegments_hold _ _ _ max Hc Ho Hne) as (c1 & c & -> & E1).
  destruct (lc_open_segment _ _ _ Hc Ho) as (c1' & c' & E & Hc1 & Hf & Hs & _). apply app_inj_tail in E as [<- <-].
  destruct (reload_fields _ _ _ Hs) as (F1 & F2 & F3 & F4 & F5 & F6 & F7 & F8).
  destruct (lc_open _ _ Hc _ Ho) as (Hop & _ & _).
  set (st1 := mkLogs _ _ _ _ _ _) in E1. assert (logs_chunks st1 (c1 ++ [c])) as H1.
  { pose proof (lc_chain _ _ Hc) as Hch. unfold all_segments in Hch. rewrite Ho in Hch. apply chain_reload in Hch.
    rewrite zip_with_app in Hch by (by eapply chain_length).
    destruct Hc as [_ Hcl _ H0 Hl Hrg Hn _ Hw]. split; cbn; try done; [| | |lia].
    - eapply closed_ok_reload; [exact Hc1|]. eapply Forall_impl; [exact Hcl|].
      intros t [? ? ?]. split; [done| |done]. eapply sealed_le; [|done]. lia.
    - intros ? [= <-]. split_and!; [congruence|done|]. intros _. rewrite F5. by apply F8.
    - intros name Hex Hp. destruct (Hn name Hex Hp) as (t & Hin & Et). unfold all_segments in *. rewrite Ho in Hin. cbn [st1 closed_segments open_segment option_list].
      apply elem_of_app in Hin as [Hin|Hin%list_elem_of_singleton].
      + apply (list_elem_of_fmap_2 file_name) in Hin. rewrite <- (names_reload _ _ _ _ Hc1) in Hin.
        apply list_elem_of_fmap in Hin as (u & Eu & Hu). exists u. split; [set_solver|congruence].
      + exists (reload s c). split; [set_solver|congruence]. }
  destruct (openNewSegmentIfNeeded_hold now st1 _ H1 Ht Hr) as (st2 & cs2 & E2 & H2 & Ecs & Hfit & Ef2 & Em2).
  exists st2. split_and!; [| |done..].
  - unfold logs_init, sm_bind, sm_modify. cbn [closed_segments].
    change (with_segments [] None (with_range 1 0 ?x)) with x. by rewrite (loadSegmentMetaData_hold _ _ _ _ max Hc Ho eq_refl), E1, E2.
  - exists cs2. split_and!; [done| |done]. intros Hnone. unfold open_segment_fits in Hfit. by rewrite Hnone in Hfit.
Qed.

(** A log without entries whose directory has no log file starts at 1. *)
Lemma logs_init_empty now d max :
  write_results d = [] -> (forall name, is_Some (files d !! name) -> String.prefix "log_" name = false) ->
  time_ok now -> 9 <= max ->
  exists st', logs_init now (mkLogs d 1 0 max [] None) = (Ok tt, st') /\ logs_hold st' [] /\
    first_log_index st' = 1 /\ max_log_segment_file_size st' = max.
Proof.
  intros Hw Hno Ht Hmax. set (st0 := mkLogs d 1 0 max [] None).
  assert (logs_chunks st0 []) as H0.
  { split; cbn; try done; try lia. intros name Hex Hp. by rewrite (Hno name Hex) in Hp. }
  assert (loadSegmentMetaData st0 = (Ok tt, st0)) as E0.
  { unfold loadSegmentMetaData, sm_bind, sm_get, sm_modify. destruct (metas_found _ _ H0) as (Hcl & Hop & Hp).
    cbn in Hcl, Hop. apply Permutation_nil_r in Hcl.
    rewrite load_file_metas_ok; [|exact Hp|cbn; rewrite Hop; cbn; lia].
    cbn [log_disk st0 closed_segments open_segment with_segments]. rewrite Hcl, Hop. done. }
  destruct (openNewSegmentIfNeeded_hold now st0 [] H0 Ht ltac:(done)) as (st2 & cs2 & E2 & H2 & Ecs & Hfit & Ef2 & Em2).
  exists st2. split_and!; [|exists cs2; split_and!; [done| |done]|done..].
  - unfold logs_init, sm_bind, sm_modify. cbn [closed_segments st0].
    change (with_segments [] None (with_range 1 0 ?x)) with x. fold st0. rewrite E0. exact E2.
  - intros Hnone. unfold open_segment_fits in Hfit. by rewrite Hnone in Hfit.
Qed.
End load.
