(* ===== verification/LogTheorems.v ===== *)
(** * What the log promises

    The abstract log, a list of entries with the index of the first one, and the
    theorem that [LogSegmentStore] implements it over files, restarts included;
    then what happens to it when a write fails, the machine stops, or the code
    departs from that specification. *)

From S2P Require Import Prelude Text Wire Crc LogSegment LogSegmentTheorems LogSegmentStore LogChain LogCut LogLoad.

(** ** The specification *)

Record ALog := mkALog {
  a_first : Z;
  a_entries : list log_entry
}.

(** The index of the next entry. *)
Definition a_next (a : ALog) : Z := a_first a + Z.of_nat (length (a_entries a)).

(** What a client asks of the log; [now] is the time of the call. *)
Inductive LogOp :=
| OpAppend (now : string) (e : log_entry)
| OpWriteAt (now : string) (index : Z) (e : log_entry)
| OpGet (index : Z)
| OpRemove (first_index_kept : Z)
| OpRestart (now : string).

Inductive LogResult :=
| RIndex (index : Z)
| REntry (e : option log_entry)
| RDone
| RFault (f : fault).

(** Removal drops whole segments: how many entries before the index it keeps is
    left open. *)
Inductive spec_step : ALog -> LogOp -> LogResult -> ALog -> Prop :=
| spec_append a now e :
    spec_step a (OpAppend now e) (RIndex (a_next a)) (mkALog (a_first a) (a_entries a ++ [e]))
| spec_write a now index e :
    index <= a_next a ->
    spec_step a (OpWriteAt now index e) RDone
      (mkALog (a_first a) (take (Z.to_nat (index - a_first a)) (a_entries a) ++ [e]))
| spec_write_gap a now index e :
    a_next a < index -> spec_step a (OpWriteAt now index e) (RFault (Throw LOGICAL_ERROR)) a
| spec_get a index :
    spec_step a (OpGet index) (REntry (entry_of (a_first a) (a_entries a) index)) a
| spec_remove_none a kept :
    kept <= a_first a -> spec_step a (OpRemove kept) RDone a
| spec_remove a kept first :
    a_first a < kept < a_next a -> a_first a <= first <= kept ->
    spec_step a (OpRemove kept) RDone
      (mkALog first (drop (Z.to_nat (first - a_first a)) (a_entries a)))
| spec_remove_all a kept :
    a_first a < kept -> a_next a <= kept -> spec_step a (OpRemove kept) RDone (mkALog kept [])
| spec_restart a now :
    spec_step a (OpRestart now) RDone a.

(** When an operation does what the specification says. A log without entries
    does not survive a restart, and one of which only the last entry would be
    kept loses it. *)
Definition allowed (a : ALog) (op : LogOp) : Prop :=
  match op with
  | OpAppend now e => time_ok now /\ entry_ok e /\ a_next a < 2 ^ 64 - 1
  | OpWriteAt now index e => time_ok now /\ entry_ok e /\ a_first a <= index < 2 ^ 64 - 1
  | OpGet _ => True
  | OpRemove kept => kept < 2 ^ 64 - 1 /\ kept <> a_next a - 1
  | OpRestart now => time_ok now /\ a_entries a <> [] /\ a_next a < 2 ^ 64 - 1
  end.

(** Whatever the specification leaves open, the next operations are allowed. *)
Fixpoint allowed_run (a : ALog) (ops : list LogOp) : Prop :=
  match ops with
  | [] => True
  | op :: ops' => allowed a op /\ forall r a', spec_step a op r a' -> allowed_run a' ops'
  end.

Inductive spec_run : ALog -> list LogOp -> list LogResult -> ALog -> Prop :=
| spec_run_nil a : spec_run a [] [] a
| spec_run_cons a op r a1 ops rs a2 :
    spec_step a op r a1 -> spec_run a1 ops rs a2 -> spec_run a (op :: ops) (r :: rs) a2.

Definition log_result {A} (f : A -> LogResult) (p : outcome A * LogSegmentStore) : LogResult * LogSegmentStore :=
  match p with
  | (Ok a, st) => (f a, st)
  | (Fault e, st) => (RFault e, st)
  end.

(** ** The implementation *)

Section impl.
Context `{IterOrder}.

(** A restart is a new object on the same files and with the same maximal size. *)
Definition log_exec (op : LogOp) (st : LogSegmentStore) : LogResult * LogSegmentStore :=
  match op with
  | OpAppend now e => log_result RIndex (logs_appendEntry now e st)
  | OpWriteAt now index e => log_result (fun _ => RDone) (writeAt now index e st)
  | OpGet index => log_result REntry (logs_getEntry index st)
  | OpRemove kept => log_result (fun _ => RDone) (removeSegment kept st)
  | OpRestart now =>
      log_result (fun _ => RDone) (logs_init now (mkLogs (log_disk st) 1 0 (max_log_segment_file_size st) [] None))
  end.

Fixpoint log_exec_all (ops : list LogOp) (st : LogSegmentStore) : list LogResult * LogSegmentStore :=
  match ops with
  | [] => ([], st)
  | op :: ops' =>
      let '(r, st1) := log_exec op st in let '(rs, st2) := log_exec_all ops' st1 in (r :: rs, st2)
  end.

(** The store holds the abstract log. *)
Definition log_refines (st : LogSegmentStore) (a : ALog) : Prop :=
  logs_hold st (a_entries a) /\ first_log_index st = a_first a.

Lemma log_refines_next st a : log_refines st a -> last_log_index st + 1 = a_next a.
Proof. intros [Hh Hf]. destruct (logs_hold_last _ _ Hh) as (Hl & _). unfold a_next. lia. Qed.

Lemma remove_step kept st a :
  log_refines st a -> allowed a (OpRemove kept) ->
  exists r st' a', log_exec (OpRemove kept) st = (r, st') /\ spec_step a (OpRemove kept) r a' /\ log_refines st' a'.
Proof.
  intros Hr [Hk Hne]. pose proof (log_refines_next _ _ Hr) as Hn. destruct Hr as [Hh Hf], a as [first es].
  cbn in *. subst first. destruct (logs_hold_last _ _ Hh) as (Hl & H0 & Hrange).
  destruct (decide (first_log_index st >= kept)) as [Hge|Hlt].
  { exists RDone, st, (mkALog (first_log_index st) es). unfold removeSegment. rewrite decide_True by done. 
    split_and!; [done|apply spec_remove_none; cbn; lia|done]. }
  destruct Hh as (cs & Hc & Hno & ->). destruct (decide (last_log_index st < kept)) as [Hlast|Hlast].
  - destruct (remove_everything _ _ kept Hc ltac:(lia) Hlast) as (n & st' & E & Ef & Hh' & _).
    exists RDone, st', (mkALog kept []). rewrite E. split_and!; [done|apply spec_remove_all; cbn; lia|done].
  - assert (is_Some (open_segment st)) as Ho.
    { destruct (open_segment st) eqn:Ho; [done|]. pose proof (lc_no_open _ _ Hc Ho) as Hch. rewrite (Hno eq_refl) in Hch.
      destruct cs; [|done]. cbn in Hl. lia. }
    destruct (remove_some _ _ kept Hc ltac:(lia) Ho) as (n & st' & E & _ & Hr & Hh' & _).
    exists RDone, st', (mkALog (first_log_index st') (drop (Z.to_nat (first_log_index st' - first_log_index st)) (concat cs))).
    rewrite E. split_and!; [done| |split; [|done]].
    + apply (spec_remove (mkALog (first_log_index st) (concat cs)) kept (first_log_index st')); cbn; lia.
    + apply Hh'. lia.
Qed.

(** One operation of the store is one of the specification. *)
Lemma log_step op st a :
  log_refines st a -> allowed a op ->
  exists r st' a', log_exec op st = (r, st') /\ spec_step a op r a' /\ log_refines st' a'.
Proof.
  intros Hr Ha. pose proof (log_refines_next _ _ Hr) as Hn. pose proof Hr as [Hh Hf].
  destruct (logs_hold_last _ _ Hh) as (Hl & H0 & Hrange). destruct op as [now e|now index e|index|kept|now]; cbn [log_exec].
  - destruct Ha as (Ht & He & Hr'). destruct (logs_appendEntry_hold now st _ e Hh Ht He ltac:(lia)) as (st' & E & Hh' & Ef & _).
    rewrite E, Hn. eexists _, st', _. split_and!; [done|apply spec_append|split; [done|cbn; congruence]].
  - destruct Ha as (Ht & He & Hr'). destruct (decide (index <= a_next a)).
    + destruct (writeAt_hold now st _ index e Hh Ht He ltac:(lia) ltac:(lia)) as (st' & E & Hh' & Ef & _).
      rewrite E. eexists _, st', _. split_and!; [done|by apply spec_write|split; [|cbn; congruence]]. cbn. by rewrite <- Hf.
    + rewrite (writeAt_gap _ _ _ _ _ Hh) by lia. eexists _, st, _. split_and!; [done|apply spec_write_gap; lia|done].
  - destruct (logs_getEntry_hold _ _ index Hh) as (st' & E & Hh' & Ef & _). rewrite E, Hf.
    eexists _, st', _. split_and!; [done|apply spec_get|split; [done|congruence]].
  - by apply remove_step.
  - destruct Ha as (Ht & He & Hr'). pose proof Hh as (cs & Hc & _). pose proof (lc_max _ _ Hc) as Hm.
    destruct (logs_init_hold now st _ (max_log_segment_file_size st) Hh He Ht ltac:(lia) ltac:(lia)) as (st' & E & Hh' & Ef & _).
    rewrite E. eexists _, st', _. split_and!; [done|apply spec_restart|split; [done|congruence]].
Qed.

(** The segmented log implements the abstract log. For every sequence of
    appends, writes at an index, reads, compactions and restarts that the
    specification allows, the store answers every operation as the abstract log
    does: an append returns the next index, a read the entry of its index or
    null outside the range, a write at an index replaces the entries from there
    on or is refused with LOGICAL_ERROR past the end, a compaction keeps
    everything from the given index on, and a restart on the files keeps all
    entries. *)
Theorem log_store_refines_log ops st a :
  log_refines st a -> allowed_run a ops ->
  exists a', spec_run a ops (log_exec_all ops st).1 a' /\ log_refines (log_exec_all ops st).2 a'.
Proof.
  revert st a. induction ops as [|op ops IH]; intros st a Hr Ha; [exists a; split; [constructor|done]|].
  destruct Ha as [Hop Hrest]. destruct (log_step op st a Hr Hop) as (r & st1 & a1 & E & Hs & Hr1).
  destruct (IH st1 a1 Hr1 (Hrest _ _ Hs)) as (a2 & Hrun & Hr2). cbn [log_exec_all]. rewrite E.
  destruct (log_exec_all ops st1) as [rs st2]. exists a2. cbn in *. split; [by econstructor|done].
Qed.
End impl.

(** ** Loading ends *)

Lemma load_entries_ends p : (load_entries p).1 <> Fault Deadlock.
Proof.
  unfold load_entries. set (start := if decide _ then 0 else _). destruct (load_loop _ _ _ _ _) as [r offs] eqn:E.
  pose proof (load_loop_ends (seg_content p.1 p.2) (load_fuel (seg_content p.1 p.2)) start
    (u64 (first_index p.2 - 1)) (offsets p.2)) as Hends. rewrite E in Hends. cbn in Hends.
  destruct r as [[off lst]|f].
  - destruct (_ && _); [done|]. by case_decide.
  - intros [= ->]. apply Hends; [unfold start; by case_decide|unfold load_fuel, start; case_decide; lia|done].
Qed.

(** C23: loading a segment ends for every file, whatever bytes it holds: [load]
    returns or throws, the loop over the entries does not run out of the turns it
    is given, more turns change nothing, and where it does not throw it is
    exactly at the end of the file. *)
Theorem segment_load_ends d s fuel start last :
  (load_fuel (seg_content d s) <= fuel)%nat -> 0 <= start <= Z.of_nat (length (seg_content d s)) ->
  (seg_load (d, s)).1 <> Fault Deadlock /\
  load_loop fuel (seg_content d s) start last [] = load_loop (load_fuel (seg_content d s)) (seg_content d s) start last [] /\
  forall r, (load_loop fuel (seg_content d s) start last []).1 = Ok r -> r.1 = Z.of_nat (length (seg_content d s)).
Proof.
  intros Hf Hs. split_and!.
  - unfold seg_load, sm_bind. destruct (openFileIfNeeded (d, s)) as [[[]|f] p] eqn:E1.
    + destruct (readHeader p) as [[[]|f] p'] eqn:E2; [apply load_entries_ends|]. intros [= ->].
      revert E2. unfold readHeader, read_version. repeat (case_decide; try done).
    + intros [= ->]. revert E1. unfold openFileIfNeeded. cbn. destruct (seg_fd s); [done|]. by case_decide.
  - apply load_loop_fuel; [lia|unfold load_fuel; lia|done].
  - intros r. apply load_loop_at_end. lia.
Qed.

(** ** When a write fails *)

Definition with_writes (rs : list Z) (d : Disk) : Disk := mkDisk (files d) (synced d) rs.

(** An append of which the kernel takes [r] bytes throws and leaves them in the
    file. *)
Lemma seg_appendEntry_short d s es e r rs :
  seg_holds d s es -> is_open s = true -> seg_fd s = Some (file_size s) -> write_results d = r :: rs ->
  entry_ok e -> last_index s + 1 < 2 ^ 64 - 1 -> 0 < r < frame_length e ->
  exists s', seg_appendEntry e (d, s) =
    (Fault (Throw CANNOT_WRITE_TO_FILE_DESCRIPTOR),
     (mkDisk (<[file_name s := seg_bytes (version s) (first_index s) es ++
                               take (Z.to_nat r) (entry_frame (last_index s + 1) e)]> (files d)) (synced d) rs, s')).
Proof.
  intros Hs Ho Hfd Hw He Hr Hrange. pose proof (sh_first _ _ _ Hs). pose proof (sh_last _ _ _ Hs).
  pose proof (body_length_u32 e He) as [_ Hb]. unfold body_length in Hb.
  assert (u64 (last_index s + 1) = last_index s + 1) as Hu by (apply u64_id; unfold in_u64; lia).
  unfold seg_appendEntry, sm_bind, seg_get, sm_get. cbn [fst snd]. rewrite Ho, Hfd. cbn [negb orb].
  rewrite bool_decide_false by done. rewrite Hb, Nat2Z.id, firstn_all.
  change (header_bytes _ ++ _) with (entry_frame (last_index s + 1) e).
  unfold fd_write. cbn [fst snd]. rewrite Hfd. unfold sys_write. rewrite Hw, length_entry_frame, Z.min_l by lia. cbn [fst snd tail].
  rewrite decide_True by (intros E; unfold frame_length, body_length in Hrange; lia).
  rewrite decide_False by lia. rewrite (sh_content _ _ _ Hs). cbn [default id].
  rewrite (sh_size _ _ _ Hs), Nat2Z.id, overwrite_end. by eexists.
Qed.

Section failures.
Context `{IterOrder}.

(** A server does not start on a log whose last entry is incomplete. *)
Lemma init_torn now st cs s d max e n :
  logs_chunks st cs -> open_segment st = Some s -> entry_ok e -> last_log_index st + 1 < 2 ^ 64 - 1 ->
  (0 < n < length (entry_frame (last_log_index st + 1) e))%nat ->
  files d = <[file_name s := seg_content (log_disk st) s ++ take n (entry_frame (last_log_index st + 1) e)]>
              (files (log_disk st)) ->
  exists st', logs_init now (mkLogs d 1 0 max [] None) =
    (Fault (Throw (if decide (n < HEADER_SIZE)%nat then CANNOT_READ_FROM_FILE_DESCRIPTOR else CORRUPTED_LOG)), st').
Proof.
  intros Hc Ho He Hr Hn Hd. destruct (lc_open_segment _ _ _ Hc Ho) as (c1 & c & -> & Hc1 & Hf & Hs & El).
  pose proof (sh_last _ _ _ Hs) as Hl. pose proof (sh_first _ _ _ Hs) as H0. rewrite (seg_holds_content _ _ _ Hs) in Hd.
  destruct (lc_open _ _ Hc _ Ho) as (Hop & _ & _).
  unfold logs_init, sm_bind, sm_modify. cbn [closed_segments]. change (with_segments [] None (with_range 1 0 ?x)) with x.
  rewrite (loadSegmentMetaData_hold _ _ d _ max Hc Ho).
  2:{ rewrite Hd, dom_insert_lookup_L; [done|]. rewrite (sh_content _ _ _ Hs). by eexists. }
  destruct (loadSegments_closed st d s max c1 Ho) as (lst & ->).
  { eapply chain_frame; [|exact Hc1]. intros t Ht. rewrite Hd, lookup_insert_ne; [done|]. intros E. symmetry in E. revert E.
    eapply closed_name_ne; [exact Hc1|apply (lc_closed _ _ Hc)|done|exact Hs|by right]. }
  unfold sm_bind, load_open. cbn [open_segment]. unfold sm_bind, on_segment. cbn [seg_at open_segment log_disk].
  destruct (unload_fields s) as (E1 & E2 & E3 & E4 & E5).
  assert (last_log_index st + 1 = first_index (unload s) + Z.of_nat (length c)) as Ei by (rewrite E1; lia). rewrite Ei in *.
  destruct (seg_load_torn d (unload s) (version s) c e n) as (s' & ->); try by rewrite ?E1.
  - lia.
  - apply (sh_entries _ _ _ Hs).
  - rewrite E1. apply (sh_version _ _ _ Hs).
  - rewrite E3, E1 in *. by rewrite Hd, lookup_insert_eq.
  - by eexists.
Qed.

(** An append of which the device takes only a part (the disk is full, or
    the machine stops during the write) throws and leaves the bytes written in
    the file; the log is then refused at the next start, so that the server does
    not come up again although every entry that was acknowledged is intact. *)
Theorem failed_append_blocks_restart now e st es r rs max :
  logs_hold st es -> open_segment_fits st = true -> entry_ok e -> last_log_index st + 1 < 2 ^ 64 - 1 ->
  0 < r < frame_length e ->
  exists st' err st'',
    logs_appendEntry now e (with_disk (with_writes (r :: rs) (log_disk st)) st) =
      (Fault (Throw CANNOT_WRITE_TO_FILE_DESCRIPTOR), st') /\
    logs_init now (mkLogs (log_disk st') 1 0 max [] None) = (Fault (Throw err), st'').
Proof.
  intros (cs & Hc & _ & ->) Hfit He Hr Hrange.
  destruct (open_segment st) as [s|] eqn:Ho; [|by unfold open_segment_fits in Hfit; rewrite Ho in Hfit].
  destruct (lc_open_segment _ _ _ Hc Ho) as (c1 & c & -> & Hc1 & Hf & Hs & El).
  destruct (lc_open _ _ Hc _ Ho) as (Hop & _ & Hfd). set (d := with_writes _ _).
  assert (seg_holds d s c) as Hs' by (by apply (seg_holds_frame (log_disk st))).
  destruct (seg_appendEntry_short d s c e r rs Hs' Hop (Hfd Hfit) eq_refl He ltac:(lia) Hrange) as (s' & Ea).
  unfold logs_appendEntry, sm_bind. unfold openNewSegmentIfNeeded.
  assert (open_segment_fits (with_disk d st) = true) as -> by done. unfold on_segment.
  cbn [seg_at open_segment with_disk]. rewrite Ho. change (log_disk (with_disk d st)) with d. rewrite Ea.
  pose proof (length_entry_frame (last_log_index st + 1) e) as Hlen.
  destruct (init_torn now st (c1 ++ [c]) s (mkDisk (<[file_name s := seg_bytes (version s) (first_index s) c ++
      take (Z.to_nat r) (entry_frame (last_index s + 1) e)]> (files d)) (synced d) rs) max e (Z.to_nat r)) as (st'' & E); try done.
  - lia.
  - cbn [files]. rewrite (seg_holds_content _ _ _ Hs), El. done.
  - eexists _, _, st''. split; [done|exact E].
Qed.

(** A log without entries is refused at the next start. The server creates
    the first segment when it starts; if it stops before an entry is written it
    does not start again: [loadSegments] takes the empty open segment for
    corrupted. *)
Theorem empty_log_blocks_restart now st max :
  logs_hold st [] -> is_Some (open_segment st) ->
  exists st', logs_init now (mkLogs (log_disk st) 1 0 max [] None) = (Fault (Throw CORRUPTED_LOG), st').
Proof.
  intros (cs & Hc & _ & Ecs) [s Ho]. destruct (lc_open_segment _ _ _ Hc Ho) as (c1 & c & -> & Hc1 & Hf & Hs & El).
  unfold logs_init, sm_bind, sm_modify. cbn [closed_segments]. change (with_segments [] None (with_range 1 0 ?x)) with x.
  rewrite (loadSegmentMetaData_hold _ _ _ _ max Hc Ho eq_refl).
  destruct (loadSegments_closed st (log_disk st) s max c1 Ho Hc1) as (lst & ->). unfold sm_bind.
  rewrite (load_open_ok _ _ _ _ _ _ _ Hs). pose proof (lc_last _ _ Hc) as Hl. rewrite <- Ecs in Hl. cbn in Hl.
  rewrite decide_True by lia. by eexists.
Qed.
End failures.

(** ** Compaction down to one entry *)

(** A compaction that leaves exactly one entry loses it: the range is reset
    as if the log were empty, the entry is no longer found, and the next entry
    gets an index that is one larger than the next index the log announced. *)
Theorem compaction_hides_last_entry st es kept now e :
  logs_hold st es -> first_log_index st < kept <= last_log_index st ->
  entry_ok e -> last_log_index st + 1 < 2 ^ 64 - 1 ->
  let st' := (removeSegment kept st).2 in
  first_log_index st' = last_log_index st -> open_segment_fits st' = true ->
  is_Some (entry_of (first_log_index st) es (last_log_index st)) /\
  logs_getEntry (last_log_index st) st' = (Ok None, st') /\
  last_log_index st' + 1 = last_log_index st /\
  (logs_appendEntry now e st').1 = Ok (last_log_index st + 1).
Proof.
  intros Hh Hk He Hr st' Hone Hfit. destruct (logs_hold_last _ _ Hh) as (Hl & H0 & _).
  assert (is_Some (open_segment st)) as Ho.
  { destruct Hh as (cs & Hc & Hno & ->). destruct (open_segment st) eqn:Ho; [done|].
    pose proof (lc_no_open _ _ Hc Ho) as Hch. rewrite (Hno eq_refl) in Hch. destruct cs; [|done]. cbn in Hl. lia. }
  pose proof Hh as (cs & Hc & _ & ->). destruct (remove_some _ _ kept Hc Hk Ho) as (n & st1 & E & _ & _ & _ & Hhid).
  subst st'. rewrite E in *. cbn [snd] in *. destruct (Hhid Hone) as [Hlast (cs' & Hc' & _)]. split_and!; [|..].
  - unfold entry_of. rewrite decide_True by lia. apply lookup_lt_is_Some_2. lia.
  - unfold logs_getEntry, getSegment. by rewrite decide_True by lia.
  - lia.
  - destruct (open_segment st1) as [s|] eqn:Hop; [|by unfold open_segment_fits in Hfit; rewrite Hop in Hfit].
    destruct (lc_open_segment _ _ s Hc' Hop) as (c1 & c & _ & _ & _ & Hs & El). cbn in El.
    destruct (lc_open _ _ Hc' s Hop) as (Hopen & _ & Hfd).
    destruct (seg_appendEntry_holds _ _ _ e Hs Hopen (Hfd Hfit) (lc_writes _ _ Hc') He ltac:(lia)) as [Ea _].
    unfold logs_appendEntry, sm_bind, openNewSegmentIfNeeded. rewrite Hfit. unfold on_segment. cbn [seg_at].
    cbn [log_disk with_range] in Ea. rewrite Hop, Ea. cbn. by rewrite El.
Qed.

(** ** Durability *)

Section durability.
Context `{IterOrder}.

(** What was made durable of the file of a segment is its content. *)
Definition seg_synced (d : Disk) (s : NuRaftLogSegment) : Prop := synced d !! file_name s = files d !! file_name s.

Definition flushed (s : NuRaftLogSegment) (st : LogSegmentStore) : LogSegmentStore :=
  put_seg OpenRef s (with_disk (sys_fdatasync (file_name s) (log_disk st)) st).

Lemma logs_flush_chunks st cs s :
  logs_chunks st cs -> open_segment st = Some s -> logs_flush st = (Ok (last_log_index st), flushed s st).
Proof.
  intros Hc Ho. destruct (lc_open_segment _ _ _ Hc Ho) as (_ & _ & _ & _ & _ & _ & El).
  destruct (lc_open _ _ Hc _ Ho) as (_ & [pos Hfd] & _). unfold logs_flush, on_segment, seg_flush. cbn [seg_at].
  rewrite Ho. cbn [fst snd]. by rewrite Hfd, El.
Qed.

(** A log with entries can be flushed, and is the same log afterwards. *)
Lemma logs_flush_hold st es :
  logs_hold st es -> es <> [] ->
  exists st', logs_flush st = (Ok (last_log_index st), st') /\ logs_hold st' es /\ first_log_index st' = first_log_index st.
Proof.
  intros (cs & Hc & Hno & ->) Hne. destruct (open_segment st) as [s|] eqn:Ho.
  2:{ pose proof (lc_no_open _ _ Hc Ho) as E. rewrite (Hno eq_refl) in E. by destruct cs. }
  exists (flushed s st). split_and!; [by eapply logs_flush_chunks| |done]. exists cs. split_and!; [|done|done].
  assert (all_segments (flushed s st) = all_segments st) as Ea by (unfold all_segments, flushed; cbn; by rewrite Ho).
  destruct Hc as [Hch Hcl Hopn H0 Hl Hrg Hn Hm Hw]. split; rewrite ?Ea; try done.
  - eapply chain_frame; [|exact Hch]. done.
  - intros t [= <-]. destruct (Hopn s Ho) as (H1 & H2 & H3). split_and!; [done|done|]. intros Hf. apply H3.
    revert Hf. unfold open_segment_fits, flushed. cbn. by rewrite Ho.
Qed.

(** C22: a flush makes the log durable as far as its closed segments are, and as
    far as the directory is: when the machine stops after it, a restart on what is
    left on the disk has all entries, whatever happened to files that were not
    durable, if the names of the directory are still the same. *)
Theorem flushed_log_survives_crash now st es :
  logs_hold st es -> es <> [] -> time_ok now -> last_log_index st + 1 < 2 ^ 64 - 1 ->
  Forall (seg_synced (log_disk st)) (closed_segments st) ->
  exists st1, logs_flush st = (Ok (last_log_index st), st1) /\
    forall d, crash_leaves (log_disk st1) d -> dom (files d) = dom (files (log_disk st1)) -> write_results d = [] ->
    exists st2, logs_init now (mkLogs d 1 0 (max_log_segment_file_size st) [] None) = (Ok tt, st2) /\
      logs_hold st2 es /\ first_log_index st2 = first_log_index st.
Proof.
  intros Hh Hne Ht Hr Hsync. pose proof Hh as (cs & Hc & Hno & ->). destruct (open_segment st) as [s|] eqn:Ho.
  2:{ pose proof (lc_no_open _ _ Hc Ho) as E. rewrite (Hno eq_refl) in E. by destruct cs. }
  exists (flushed s st). split; [by eapply logs_flush_chunks|]. intros d Hleft Hdom Hwr.
  change (dom (files d) = dom (files (log_disk st))) in Hdom.
  assert (forall t, t ∈ all_segments st -> files d !! file_name t = files (log_disk st) !! file_name t) as Hsame.
  { intros t Ht'. destruct (lc_segment_holds _ _ _ Hc Ht') as (ct & Hct). pose proof (sh_content _ _ _ Hct) as Ef. rewrite Ef.
    assert (is_Some (files d !! file_name t)) as [c' Ec'] by (apply elem_of_dom; rewrite Hdom; apply elem_of_dom; by eexists).
    rewrite Ec'. f_equal. eapply (Hleft _ _ _ Ef); [|exact Ec']. cbn. destruct (decide (file_name s = file_name t)) as [E|E].
    - by rewrite E, lookup_insert_eq, Ef.
    - rewrite lookup_insert_ne by done. unfold all_segments in Ht'. rewrite Ho in Ht'.
      apply elem_of_app in Ht' as [Ht'|Ht'%list_elem_of_singleton]; [|congruence].
      rewrite <- Ef. by apply (proj1 (Forall_forall _ _) Hsync). }
  set (st' := with_disk d st). assert (logs_chunks st' cs) as Hc'.
  { destruct Hc as [Hch Hcl Hopn H0 Hl Hrg Hn Hm Hw]. split; try done.
    - eapply chain_frame; [|exact Hch]. exact Hsame.
    - intros name Hex Hp. apply Hn; [|done]. apply elem_of_dom. rewrite <- Hdom. by apply elem_of_dom. }
  destruct (logs_init_hold now st' (concat cs) (max_log_segment_file_size st)) as (st2 & E2 & Hh2 & Ef & _);
    [|done|done|done|split; [apply (lc_max _ _ Hc)|done]|].
  - exists cs. by split_and!; [|cbn; rewrite Ho|].
  - by exists st2.
Qed.

(** The file of a segment that is empty is refused. *)
Lemma seg_load_empty d t :
  files d !! file_name t = Some [] -> exists d' t', seg_load (d, unload t) = (Fault (Throw CORRUPTED_LOG), (d', t')).
Proof.
  intros Hf. destruct (unload_fields t) as (_ & _ & En & _). unfold seg_load, sm_bind, openFileIfNeeded. cbn [fst snd].
  assert (seg_fd (unload t) = None) as -> by (unfold unload; by destruct (is_open t)).
  rewrite decide_True by (rewrite En, Hf; by eexists). unfold readHeader, seg_content. cbn [fst snd seg_fd with_fd file_name].
  rewrite decide_False by done. rewrite En, Hf. by eexists _, _.
Qed.

Lemma load_closed_empty todo t post : forall start cs pre st,
  chain (log_disk st) start todo cs -> closed_segments st = pre ++ (unload <$> todo ++ t :: post) ->
  files (log_disk st) !! file_name t = Some [] ->
  exists st', load_closed (length (todo ++ t :: post)) (length pre) st = (Fault (Throw CORRUPTED_LOG), st').
Proof.
  induction todo as [|s todo IH]; intros start [|c cs] pre st; cbn [chain]; try done.
  - intros _ Hcl Hf. cbn [app length load_closed]. unfold sm_bind. destruct (seg_load_empty _ _ Hf) as (d' & t' & E).
    rewrite (on_segment_run _ (ClosedRef (length pre)) _ (unload t) _ _ _) with (2 := E); [by eexists|].
    cbn. rewrite Hcl. by rewrite lookup_app_r, Nat.sub_diag by lia.
  - intros (Hf & Hs & Hc) Hcl Hem. cbn [load_closed length app]. unfold sm_bind. rewrite <- app_comm_cons, fmap_cons in Hcl.
    rewrite (on_segment_run _ (ClosedRef (length pre)) _ (unload s) (Ok tt) (log_disk st) (reload s c)).
    2:{ cbn. rewrite Hcl. by rewrite lookup_app_r, Nat.sub_diag by lia. }
    2:{ apply seg_load_holds. by apply unload_unloaded. }
    destruct (IH _ _ (pre ++ [reload s c]) (put_seg (ClosedRef (length pre)) (reload s c) (with_disk (log_disk st) st)) Hc)
      as (st' & E); [| |rewrite (length_app pre), Nat.add_1_r in E; by exists st'].
    + cbn. rewrite Hcl, insert_app_r_alt, Nat.sub_diag by lia. cbn. by rewrite <- app_assoc.
    + done.
Qed.

Lemma chain_before d start segs1 segs2 cs : chain d start (segs1 ++ segs2) cs -> exists cs1, chain d start segs1 cs1.
Proof.
  revert start cs. induction segs1 as [|s segs1 IH]; intros start cs; [by exists []|]. destruct cs as [|c cs]; [done|].
  intros (Hf & Hs & Hc). destruct (IH _ _ Hc) as (cs1 & Hcs1). by exists (c :: cs1).
Qed.

(** A restart on a disk on which the file of a closed segment is empty. *)
Lemma init_empty_segment now st cs s t d max :
  logs_chunks st cs -> open_segment st = Some s -> t ∈ closed_segments st -> is_Some (files (log_disk st) !! file_name t) ->
  files d = <[file_name t := []]> (files (log_disk st)) ->
  exists st', logs_init now (mkLogs d 1 0 max [] None) = (Fault (Throw CORRUPTED_LOG), st').
Proof.
  intros Hc Ho Ht Hex Hd. destruct (lc_open_segment _ _ _ Hc Ho) as (c1 & c & -> & Hc1 & Hf & Hs & El).
  unfold logs_init, sm_bind, sm_modify. cbn [closed_segments]. change (with_segments [] None (with_range 1 0 ?x)) with x.
  rewrite (loadSegmentMetaData_hold _ _ d _ max Hc Ho) by (by rewrite Hd, dom_insert_lookup_L).
  pose proof (chain_names_NoDup _ _ _ _ _ Hc1 (lc_closed _ _ Hc)) as Hnd.
  apply list_elem_of_split in Ht as (l1 & l2 & E). rewrite E in Hc1, Hnd. destruct (chain_before _ _ _ _ _ Hc1) as (cs1 & Hcs1).
  unfold loadSegments, sm_bind, sm_modify, sm_get. set (st1 := with_range _ _ (before_loading st d s max)).
  assert (length (closed_segments st1) = length (l1 ++ t :: l2)) as -> by (cbn; by rewrite length_fmap, E).
  destruct (load_closed_empty l1 t l2 (first_log_index st) cs1 [] st1) as (st' & E').
  - eapply chain_frame; [|exact Hcs1]. intros u Hu. cbn. rewrite Hd, lookup_insert_ne; [done|]. intros En.
    rewrite fmap_app, fmap_cons in Hnd. apply NoDup_app in Hnd as (_ & Hnd & _). apply (Hnd (file_name u)).
    + by apply list_elem_of_fmap_2.
    + rewrite <- En. by left.
  - cbn. by rewrite E.
  - cbn. by rewrite Hd, lookup_insert_eq.
  - cbn [length] in E'. rewrite E'. by eexists.
Qed.

(** C39: a flush covers the open segment only, and reports all entries. When a
    closed segment was not flushed before, and closing a full one does not flush
    it, the machine can stop after the flush with its file empty, and then the
    server does not start again. *)
Theorem unflushed_segment_lost now st es t :
  logs_hold st es -> t ∈ closed_segments st -> ~ seg_synced (log_disk st) t ->
  exists st1 d st2, logs_flush st = (Ok (last_log_index st), st1) /\
    crash_leaves (log_disk st1) d /\ dom (files d) = dom (files (log_disk st1)) /\
    logs_init now (mkLogs d 1 0 (max_log_segment_file_size st) [] None) = (Fault (Throw CORRUPTED_LOG), st2).
Proof.
  intros (cs & Hc & Hno & ->) Ht Hns. destruct (open_segment st) as [s|] eqn:Ho; [|by rewrite (Hno eq_refl) in Ht; apply not_elem_of_nil in Ht].
  destruct (lc_open_segment _ _ _ Hc Ho) as (c1 & c & -> & Hc1 & Hf & Hs & El).
  assert (is_Some (files (log_disk st) !! file_name t)) as [content Ef].
  { destruct (lc_segment_holds st _ t Hc) as (ct & Hct); [apply elem_of_app; by left|]. rewrite (sh_content _ _ _ Hct). by eexists. }
  set (d := mkDisk (<[file_name t := []]> (files (log_disk st))) ∅ []).
  destruct (init_empty_segment now st _ s t d (max_log_segment_file_size st) Hc Ho Ht) as (st2 & E2); [by eexists|done|].
  exists (flushed s st), d, st2. split_and!; [by eapply logs_flush_chunks| |cbn; rewrite dom_insert_lookup_L; [done|by eexists]|exact E2].
  intros name a b Ha Hsy Hb. cbn in Ha, Hsy, Hb. destruct (decide (file_name t = name)) as [<-|Hne].
  - destruct Hns. unfold seg_synced. rewrite lookup_insert_ne in Hsy; [congruence|]. intros En. symmetry in En. revert En.
    eapply closed_name_ne; [exact Hc1|apply (lc_closed _ _ Hc)|done|exact Hs|right; apply (lc_open _ _ Hc _ Ho)].
  - rewrite lookup_insert_ne in Hb by done. congruence.
Qed.
End durability.

(** ** Runs *)

Definition empty_disk : Disk := mkDisk ∅ ∅ [].
Definition note (c : ascii) : log_entry := mkEntry 1 app_log [c].

Fixpoint fill (entries : list log_entry) : LogM unit :=
  match entries with
  | [] => sm_ret tt
  | e :: entries' => (_ <- logs_appendEntry "T" e ;; fill entries')%sm
  end.

Definition start_logs (d : Disk) (max : Z) : outcome unit * LogSegmentStore := logs_init "T" (mkLogs d 1 0 max [] None).
Definition filled (entries : list log_entry) (max : Z) : LogSegmentStore :=
  (fill entries (start_logs empty_disk max).2).2.

Definition abcd : list log_entry := note <$> ["a"; "b"; "c"; "d"]%char.

Lemma filled_holds entries max :
  9 <= max -> Forall entry_ok entries -> Z.of_nat (length entries) < 2 ^ 32 ->
  logs_hold (filled entries max) entries /\ first_log_index (filled entries max) = 1 /\
  max_log_segment_file_size (filled entries max) = max.
Proof.
  intros Hm He Hl. assert (time_ok "T") as Ht by done.
  destruct (logs_init_empty "T" empty_disk max eq_refl ltac:(by intros ? [? ?]) Ht Hm) as (st & E & Hh & Hf & Hmx).
  unfold filled, start_logs. rewrite E. cbn [snd]. clear E.
  assert (forall st pre, logs_hold st pre -> first_log_index st = 1 -> max_log_segment_file_size st = max ->
    Z.of_nat (length pre + length entries) < 2 ^ 33 ->
    logs_hold (fill entries st).2 (pre ++ entries) /\ first_log_index (fill entries st).2 = 1 /\
    max_log_segment_file_size (fill entries st).2 = max) as Hgen; [|by apply (Hgen st []); [..|cbn; lia]].
  clear st Hh Hf Hmx Hl. induction entries as [|e entries IH]; intros st pre Hh Hf Hmx Hlen; [by rewrite app_nil_r|].
  apply Forall_cons in He as [He Hes]. destruct (logs_hold_last _ _ Hh) as (Hlast & _ & _). cbn [length] in Hlen.
  destruct (logs_appendEntry_hold "T" st pre e Hh Ht He ltac:(lia)) as (st1 & E & Hh1 & Hf1 & Hm1).
  cbn [fill]. unfold sm_bind. rewrite E. rewrite (cons_middle e pre entries), app_assoc.
  apply IH; [done|done|congruence|congruence|]. rewrite length_app. cbn. lia.
Qed.

(** The name of a new segment is not made durable. The first segment is flushed,
    a third entry goes into a second one, and the flush reports it; when the machine
    stops and the name of the new file is lost, the server starts without the
    entry. *)
Theorem new_segment_name_lost :
  let st := (logs_flush (fill [note "c"] (logs_flush (filled (take 2 abcd) 40)).2).2) in
  st.1 = Ok 3 /\
  let restarted := start_logs (crash {["log_3_open_T"]} ∅ (log_disk st.2)) 40 in
  restarted.1 = Ok tt /\ last_log_index restarted.2 = 2.
Proof. vm_compute. done. Qed.

(** Raising the maximal size of a segment can destroy the log. When entries
    are overwritten from the start of a segment on, the segment before it is
    opened again, with its file at position 0; if it is small enough under the
    new limit the next entry is written over the header of the file and its
    first entries, which can no longer be read, and the server does not start
    again. *)
Theorem raised_limit_destroys_log :
  let st := (start_logs (log_disk (filled abcd 40)) 400).2 in
  let st' := (writeAt "T" 3 (note "x") st).2 in
  (logs_getEntry 1 st).1 = Ok (Some (note "a")) /\ (writeAt "T" 3 (note "x") st).1 = Ok tt /\
  (logs_getEntry 1 st').1 = Fault (Throw CORRUPTED_LOG) /\
  (start_logs (log_disk st') 400).1 = Fault (Throw CORRUPTED_LOG).
Proof. vm_compute. done. Qed.

(** A segment file that is missing is not noticed: [prev_seg] is never set. *)
Theorem missing_segment_unnoticed :
  let d := log_disk (filled (abcd ++ abcd) 40) in
  let st := start_logs (sys_remove "log_3_4_T" d) 40 in
  st.1 = Ok tt /\ (first_log_index st.2, last_log_index st.2) = (1, 8) /\ (logs_getEntry 3 st.2).1 = Ok None.
Proof. vm_compute. done. Qed.

(** Without an open segment, as after a stop between closing one and creating
    the next, the first index is taken to be 1. *)
Theorem start_index_without_open_segment :
  let st := (removeSegment 3 (filled abcd 40)).2 in
  let d := log_disk (close_open_segment st).2 in
  first_log_index st = 3 /\ (start_logs d 40).1 = Ok tt /\ first_log_index (start_logs d 40).2 = 1.
Proof. vm_compute. done. Qed.

Lemma note_ok c : entry_ok (note c).
Proof. unfold entry_ok, in_u64, in_u8, note, app_log. cbn [get_term get_val_type get_buf length]. lia. Qed.

Lemma abcd_ok n : Forall entry_ok (take n abcd).
Proof. apply Forall_take, Forall_forall. intros e (c & -> & _)%list_elem_of_fmap. apply note_ok. Qed.

Definition demo_ops : list LogOp :=
  [OpGet 2; OpAppend "T" (note "e"); OpRestart "U"; OpWriteAt "V" 3 (note "x"); OpGet 3; OpRemove 2; OpGet 3].

Lemma log_store_refines_log_witness :
  exists a', spec_run (mkALog 1 abcd) demo_ops (log_exec_all demo_ops (filled abcd 40)).1 a' /\
             log_refines (log_exec_all demo_ops (filled abcd 40)).2 a'.
Proof.
  apply log_store_refines_log.
  - destruct (filled_holds abcd 40) as (Hh & Hf & _); [lia|apply (abcd_ok 4)|cbn; lia|]. by split.
  - pose proof note_ok as He. unfold demo_ops. repeat (cbn [allowed_run allowed]; split; [repeat split; try done; try apply He; cbn; try lia|
      intros r a' Hs; inversion Hs; subst; clear Hs; cbn in * |- ; try lia]); done.
Defined.

Definition demo_segment : NuRaftLogSegment := default (open_on_disk 1 "" "") (open_segment (filled abcd 400)).

Lemma segment_load_ends_witness :
  let d := log_disk (filled abcd 400) in
  load_loop 1000 (seg_content d demo_segment) 9 0 [] = (Ok (113, 4), [9; 35; 61; 87]) /\
  (seg_load (d, demo_segment)).1 <> Fault Deadlock.
Proof.
  set (d := log_disk (filled abcd 400)).
  destruct (segment_load_ends d demo_segment 1000 9 0) as (H1 & H2 & _).
  - apply Nat.leb_le. vm_compute. reflexivity.
  - split; [lia|]. apply Z.leb_le. vm_compute. reflexivity.
  - cbv zeta. split; [|exact H1]. rewrite H2. vm_compute. reflexivity.
Defined.

Lemma failed_append_blocks_restart_witness :
  exists st' err st'',
    logs_appendEntry "T" (note "e") (with_disk (with_writes [20] (log_disk (filled abcd 400))) (filled abcd 400)) =
      (Fault (Throw CANNOT_WRITE_TO_FILE_DESCRIPTOR), st') /\
    logs_init "T" (mkLogs (log_disk st') 1 0 400 [] None) = (Fault (Throw err), st'').
Proof.
  destruct (filled_holds abcd 400) as (Hh & Hf & _); [lia|apply (abcd_ok 4)|cbn; lia|].
  apply (failed_append_blocks_restart "T" (note "e") (filled abcd 400) abcd 20 [] 400 Hh).
  - vm_compute. reflexivity.
  - apply note_ok.
  - apply Z.ltb_lt. vm_compute. reflexivity.
  - split; apply Z.ltb_lt; vm_compute; reflexivity.
Defined.

Lemma empty_log_blocks_restart_witness :
  exists st', logs_init "T" (mkLogs (log_disk (filled [] 400)) 1 0 400 [] None) = (Fault (Throw CORRUPTED_LOG), st').
Proof.
  apply (empty_log_blocks_restart "T" (filled [] 400) 400).
  - by apply (filled_holds [] 400); [lia| |cbn; lia].
  - eexists. vm_compute. reflexivity.
Defined.

Definition five : list log_entry := abcd ++ [note "e"].

Lemma compaction_hides_last_entry_witness :
  let st' := (removeSegment 5 (filled five 40)).2 in
  (logs_getEntry 5 (filled five 40)).1 = Ok (Some (note "e")) /\ logs_getEntry 5 st' = (Ok None, st') /\
  last_log_index st' = 4 /\ (logs_appendEntry "T" (note "f") st').1 = Ok 6.
Proof.
  destruct (filled_holds five 40) as (Hh & Hf & _); [lia| |cbn; lia|].
  { apply Forall_app. split; [apply (abcd_ok 4)|]. constructor; [apply note_ok|constructor]. }
  assert (last_log_index (filled five 40) = 5) as El by (vm_compute; reflexivity).
  destruct (compaction_hides_last_entry (filled five 40) five 5 "T" (note "f") Hh) as (_ & H1 & H2 & H3).
  - rewrite Hf, El. lia.
  - apply note_ok.
  - rewrite El. lia.
  - rewrite El. vm_compute. reflexivity.
  - vm_compute. reflexivity.
  - cbv zeta. rewrite El in H1, H2, H3. split_and!; [vm_compute; reflexivity|exact H1|lia|exact H3].
Defined.

Lemma flushed_log_survives_crash_witness :
  exists st1 st2, logs_flush (filled abcd 400) = (Ok 4, st1) /\
    logs_init "U" (mkLogs (crash ∅ ∅ (log_disk st1)) 1 0 400 [] None) = (Ok tt, st2) /\
    logs_hold st2 abcd /\ first_log_index st2 = 1.
Proof.
  destruct (filled_holds abcd 400) as (Hh & Hf & Hm); [lia|apply (abcd_ok 4)|cbn; lia|].
  assert (last_log_index (filled abcd 400) = 4) as El by (vm_compute; reflexivity).
  destruct (flushed_log_survives_crash "U" (filled abcd 400) abcd Hh) as (st1 & E1 & Hcr).
  - discriminate.
  - split; [discriminate|reflexivity].
  - rewrite El. lia.
  - assert (closed_segments (filled abcd 400) = []) as -> by (vm_compute; reflexivity). constructor.
  - assert (st1 = (logs_flush (filled abcd 400)).2) as Est by (by rewrite E1).
    destruct (Hcr (crash ∅ ∅ (log_disk st1))) as (st2 & E2 & H1 & H2); [apply crash_is_left|rewrite Est; vm_compute; reflexivity|done|].
    exists st1, st2. rewrite El in E1. rewrite Hm in E2. rewrite Hf in H2. exact (conj E1 (conj E2 (conj H1 H2))).
Defined.

(** Two entries fill the first segment, and the third closes it. *)
Lemma unflushed_segment_lost_witness :
  exists st1 d st2, logs_flush (filled (take 3 abcd) 40) = (Ok 3, st1) /\
    crash_leaves (log_disk st1) d /\ dom (files d) = dom (files (log_disk st1)) /\
    logs_init "U" (mkLogs d 1 0 40 [] None) = (Fault (Throw CORRUPTED_LOG), st2).
Proof.
  destruct (filled_holds (take 3 abcd) 40) as (Hh & Hf & Hm); [lia|apply (abcd_ok 3)|cbn; lia|].
  assert (last_log_index (filled (take 3 abcd) 40) = 3) as El by (vm_compute; reflexivity).
  assert (exists t, closed_segments (filled (take 3 abcd) 40) = [t] /\ synced (log_disk (filled (take 3 abcd) 40)) !! file_name t = None /\
    is_Some (files (log_disk (filled (take 3 abcd) 40)) !! file_name t)) as (t & Et & Es & [c Ec]).
  { eexists. split; [vm_compute; reflexivity|]. split; [vm_compute; reflexivity|]. vm_compute. by eexists. }
  destruct (unflushed_segment_lost "U" _ _ t Hh) as (st1 & d & st2 & E1 & H1 & H2 & H3).
  - rewrite Et. by left.
  - intros E. unfold seg_synced in E. rewrite Es, Ec in E. discriminate.
  - exists st1, d, st2. rewrite El in E1. rewrite Hm in H3. exact (conj E1 (conj H1 (conj H2 H3))).
Defined.
