(* ===== verification/LogStore.v ===== *)
(** * The log store of the Raft server

    [LogEntryQueue] and [NuRaftFileLogStore] of
    [src/src/Service/NuRaftFileLogStore.h/.cpp]: the segments of the log behind a
    cache of the latest entries, with the modes in which they are made durable.
    The formats of [nuraft::log_entry] are parameters, [le_serialize] and
    [le_deserialize]. *)

From S2P Require Import Prelude Wire LogSegment LogSegmentStore.

(** ** LogEntryQueue *)

Definition BIT_SIZE : Z := 16.
Definition MAX_VECTOR_SIZE : Z := 65536.

(** A slot without an entry holds a null pointer. *)
Record LogEntryQueue := mkQueue {
  batch_index : Z;
  max_index : Z;
  entry_vec : gmap Z log_entry
}.

Definition queue_empty : LogEntryQueue := mkQueue 0 0 ∅.

Definition queue_slot (index : Z) : Z := Z.land index (MAX_VECTOR_SIZE - 1).

Definition queue_getEntry (index : Z) (q : LogEntryQueue) : option log_entry :=
  if decide (index > max_index q \/ max_index q - index >= MAX_VECTOR_SIZE) then None
  else if decide (Z.shiftr index BIT_SIZE = batch_index q \/ Z.shiftr index BIT_SIZE = u64 (batch_index q - 1))
  then entry_vec q !! queue_slot index
  else None.

Definition queue_putEntry (index : Z) (entry : log_entry) (q : LogEntryQueue) : LogEntryQueue :=
  mkQueue (Z.max (batch_index q) (Z.shiftr index BIT_SIZE)) (Z.max (max_index q) index)
    (<[queue_slot index := entry]> (entry_vec q)).

Definition queue_clear (q : LogEntryQueue) : LogEntryQueue := mkQueue 0 0 ∅.

(** ** NuRaftFileLogStore *)

Inductive FsyncMode :=
| FSYNC_PARALLEL
| FSYNC
| FSYNC_BATCH.

#[export] Instance FsyncMode_eq_dec : EqDecision FsyncMode.
Proof. solve_decision. Defined.

(** [fsync_event] is [parallel_fsync_event], which is reset when a thread has
    waited for it. *)
Record NuRaftFileLogStore := mkFileLog {
  segment_store : LogSegmentStore;
  log_queue : LogEntryQueue;
  last_log_entry : option log_entry;
  log_fsync_mode : FsyncMode;
  log_fsync_interval : Z;
  to_flush_count : Z;
  disk_last_durable_index : Z;
  fsync_event : bool;
  shutdown_called : bool
}.

Abbreviation FileM := (SM NuRaftFileLogStore).

Definition with_store (s : LogSegmentStore) (f : NuRaftFileLogStore) : NuRaftFileLogStore :=
  mkFileLog s (log_queue f) (last_log_entry f) (log_fsync_mode f) (log_fsync_interval f) (to_flush_count f)
    (disk_last_durable_index f) (fsync_event f) (shutdown_called f).

Definition with_queue (q : LogEntryQueue) (f : NuRaftFileLogStore) : NuRaftFileLogStore :=
  mkFileLog (segment_store f) q (last_log_entry f) (log_fsync_mode f) (log_fsync_interval f) (to_flush_count f)
    (disk_last_durable_index f) (fsync_event f) (shutdown_called f).

Definition with_last (e : option log_entry) (f : NuRaftFileLogStore) : NuRaftFileLogStore :=
  mkFileLog (segment_store f) (log_queue f) e (log_fsync_mode f) (log_fsync_interval f) (to_flush_count f)
    (disk_last_durable_index f) (fsync_event f) (shutdown_called f).

Definition with_flush_state (count durable : Z) (event : bool) (f : NuRaftFileLogStore) : NuRaftFileLogStore :=
  mkFileLog (segment_store f) (log_queue f) (last_log_entry f) (log_fsync_mode f) (log_fsync_interval f) count
    durable event (shutdown_called f).

(** A call of the segment store. *)
Definition on_store {A} (m : LogM A) : FileM A := fun f =>
  let '(a, s) := m (segment_store f) in (a, with_store s f).

(** [parallel_fsync_event->set()] *)
Definition set_event : FileM unit :=
  sm_modify (fun f => with_flush_state (to_flush_count f) (disk_last_durable_index f) true f).

Definition cloneLogEntry (entry : log_entry) : log_entry :=
  mkEntry (get_term entry) (get_val_type entry) (get_buf entry).

(** [cs_new<log_entry>(0, buffer::alloc(0))] *)
Definition dummy_entry : log_entry := mkEntry 0 app_log [].

(** The constructor on the segment store [s]; the maximal size is in [s]. *)
Definition FileLogStore_init `{IterOrder} (now : string) (s : LogSegmentStore) (mode : FsyncMode) (interval : Z)
    : outcome unit * NuRaftFileLogStore :=
  let f := mkFileLog s queue_empty None mode interval 0 0 false false in
  (on_store (logs_init now) ;;;
   lst <- sm_get (fun f => last_log_index (segment_store f)) ;;
   entry <- (if decide (lst < 1) then sm_ret (Some dummy_entry) else on_store (logs_getEntry lst)) ;;
   sm_modify (with_last entry) ;;;
   sm_modify (fun f => with_flush_state (to_flush_count f) lst (fsync_event f) f))%sm f.

Definition next_slot (f : NuRaftFileLogStore) : Z := u64 (last_log_index (segment_store f) + 1).
Definition start_index (f : NuRaftFileLogStore) : Z := first_log_index (segment_store f).

Definition last_entry (f : NuRaftFileLogStore) : log_entry :=
  match last_log_entry f with
  | Some e => cloneLogEntry e
  | None => dummy_entry
  end.

(** An entry that is not one of the application is flushed at once. *)
Definition wake_for (entry : log_entry) : FileM unit := fun f =>
  if decide (log_fsync_mode f = FSYNC_PARALLEL /\ get_val_type entry <> app_log) then set_event f else (Ok tt, f).

Definition append (now : string) (entry : log_entry) : FileM Z :=
  (let cloned := cloneLogEntry entry in
   log_index <- on_store (logs_appendEntry now entry) ;;
   sm_modify (fun f => with_queue (queue_putEntry log_index cloned (log_queue f)) f) ;;;
   sm_modify (with_last (Some cloned)) ;;;
   wake_for entry ;;;
   sm_ret log_index)%sm.

Definition write_at (now : string) (index : Z) (entry : log_entry) : FileM unit :=
  (on_store (writeAt now index entry) ;;;
   sm_modify (fun f => with_queue (queue_clear (log_queue f)) f) ;;;
   sm_modify (with_last (Some entry)) ;;;
   wake_for entry)%sm.

Definition log_flush : FileM bool := (_ <- on_store logs_flush ;; sm_ret true)%sm.

Definition end_of_append_batch (start cnt : Z) : FileM unit := fun f =>
  match log_fsync_mode f with
  | FSYNC_PARALLEL => set_event f
  | FSYNC_BATCH =>
      let count := u64 (to_flush_count f + cnt) in
      if decide (count >= log_fsync_interval f)
      then (_ <- log_flush ;; sm_ret tt)%sm (with_flush_state 0 (disk_last_durable_index f) (fsync_event f) f)
      else (Ok tt, with_flush_state count (disk_last_durable_index f) (fsync_event f) f)
  | FSYNC => (_ <- log_flush ;; sm_ret tt)%sm f
  end.

(** From the cache, or from the segments. *)
Definition entry_at (index : Z) : FileM (option log_entry) := fun f =>
  match queue_getEntry index (log_queue f) with
  | Some e => (Ok (Some (cloneLogEntry e)), f)
  | None => (res <- on_store (logs_getEntry index) ;; sm_ret (cloneLogEntry <$> res))%sm f
  end.

Definition term_at (index : Z) : FileM Z :=
  (entry <- entry_at index ;; sm_ret (from_option get_term 0 entry))%sm.

(** [for (i = start; i < end; i++)], of which [n] turns are left. *)
Fixpoint log_entries_loop (n : nat) (i : Z) : FileM (list (option log_entry)) :=
  match n with
  | O => sm_ret []
  | S n' =>
      (entry <- entry_at i ;;
       entries <- log_entries_loop n' (i + 1) ;;
       sm_ret (entry :: entries))%sm
  end.

Definition log_entries (start last : Z) : FileM (list (option log_entry)) :=
  log_entries_loop (Z.to_nat (last - start)) start.

(** [entry->get_buf().size() + sizeof(ulong) + sizeof(char)] *)
Definition entry_size (entry : log_entry) : Z := Z.of_nat (length (get_buf entry)) + 8 + 1.

Definition over_hint (hint get_size : Z) (entry : log_entry) : bool :=
  bool_decide (hint > 0 /\ get_size + entry_size entry > hint).

(** [None] is the null pointer: an entry could not be read. *)
Fixpoint log_entries_ext_loop (n : nat) (i hint get_size : Z) : FileM (option (list log_entry)) :=
  match n with
  | O => sm_ret (Some [])
  | S n' =>
      (entry <- entry_at i ;;
       match entry with
       | None => sm_ret None
       | Some e =>
           if over_hint hint get_size e then sm_ret (Some [])
           else (entries <- log_entries_ext_loop n' (i + 1) hint (get_size + entry_size e) ;;
                 sm_ret (cons e <$> entries))
       end)%sm
  end.

Definition log_entries_ext (start last hint : Z) : FileM (option (list log_entry)) :=
  log_entries_ext_loop (Z.to_nat (last - start)) start hint 0.

Fixpoint log_entries_version_loop (n : nat) (i hint get_size : Z) : FileM (option (list (Z * log_entry))) :=
  match n with
  | O => sm_ret (Some [])
  | S n' =>
      (entry <- entry_at i ;;
       match entry with
       | None => sm_ret None
       | Some e =>
           if over_hint hint get_size e then sm_ret (Some [])
           else (v <- on_store (logs_getVersion i) ;;
                 entries <- log_entries_version_loop n' (i + 1) hint (get_size + entry_size e) ;;
                 sm_ret (cons (v, e) <$> entries))
       end)%sm
  end.

Definition log_entries_version_ext (start last hint : Z) : FileM (option (list (Z * log_entry))) :=
  log_entries_version_loop (Z.to_nat (last - start)) start hint 0.

Definition compact (last_log_index' : Z) : FileM bool :=
  (_ <- on_store (removeSegment (u64 (last_log_index' + 1))) ;;
   sm_modify (fun f => with_queue (queue_clear (log_queue f)) f) ;;;
   sm_ret true)%sm.

Definition last_durable_index (f : NuRaftFileLogStore) : Z :=
  if decide (log_fsync_mode f <> FSYNC_PARALLEL) then u64 (next_slot f - 1) else disk_last_durable_index f.

(** One turn of [fsyncThread], which waits for the event; NuRaft is then told
    that the entries are durable. An exception ends the thread. *)
Definition fsync_turn : FileM unit := fun f =>
  if fsync_event f then
    (last_flush_index <- on_store logs_flush ;;
     if decide (last_flush_index = 0) then sm_ret tt
     else sm_modify (fun f => with_flush_state (to_flush_count f) last_flush_index (fsync_event f) f))%sm
    (with_flush_state (to_flush_count f) (disk_last_durable_index f) false f)
  else (Ok tt, f).

(** The thread, where it waits for the event, has a last turn before it is
    joined. *)
Definition shutdown : FileM unit := fun f =>
  if shutdown_called f then (Ok tt, f)
  else
    let f' := mkFileLog (segment_store f) (log_queue f) (last_log_entry f) (log_fsync_mode f) (log_fsync_interval f)
                (to_flush_count f) (disk_last_durable_index f) (fsync_event f) true in
    match log_fsync_mode f with
    | FSYNC_PARALLEL => (Ok tt, (fsync_turn (set_event f').2).2)
    | _ => (Ok tt, f')
    end.

(** ** Packs of entries *)

Section pack.
Context (le_serialize : log_entry -> bytes) (le_deserialize : bytes -> outcome log_entry).

(** A null pointer in the entries may not be dereferenced. *)
Fixpoint serialize_all (entries : list (option log_entry)) : outcome (list bytes) :=
  match entries with
  | [] => Ok []
  | None :: _ => Fault UndefinedBehaviour
  | Some e :: entries' => logs ← serialize_all entries'; Ok (le_serialize e :: logs)
  end.

(** The buffer: the count, then the size and the bytes of every entry; [cnt] is
    not negative. *)
Definition pack (index cnt : Z) : FileM bytes :=
  (entries <- log_entries index (index + cnt) ;;
   logs <- sm_lift (serialize_all entries) ;;
   sm_ret (le_bytes 4 cnt ++ (logs ≫= fun bb => le_bytes 4 (Z.of_nat (length bb)) ++ bb)))%sm.

(** [buffer::get_int] and [buffer::get(buf)] *)
Definition get_int (bs : bytes) : outcome (Z * bytes) :=
  if decide (length bs < 4)%nat then Fault (Throw STD_OVERFLOW_ERROR)
  else Ok (i32 (le_value (take 4 bs)), drop 4 bs).

Definition get_raw (n : Z) (bs : bytes) : outcome (bytes * bytes) :=
  if decide (Z.of_nat (length bs) < n) then Fault (Throw STD_OVERFLOW_ERROR)
  else Ok (take (Z.to_nat n) bs, drop (Z.to_nat n) bs).

(** [for (i = 0; i < num_logs; ++i)], of which [n] turns are left. *)
Fixpoint apply_pack_loop (now : string) (n : nat) (cur_idx : Z) (bs : bytes) : FileM unit :=
  match n with
  | O => sm_ret tt
  | S n' =>
      (p <- sm_lift (get_int bs) ;;
       q <- sm_lift (get_raw p.1 p.2) ;;
       le <- sm_lift (le_deserialize q.1) ;;
       on_store (writeAt now cur_idx le) ;;;
       apply_pack_loop now n' (u64 (cur_idx + 1)) q.2)%sm
  end.

Definition apply_pack (now : string) (index : Z) (bs : bytes) : FileM unit :=
  (p <- sm_lift (get_int bs) ;;
   apply_pack_loop now (Z.to_nat p.1) index p.2 ;;;
   fun f => if decide (log_fsync_mode f = FSYNC_PARALLEL) then set_event f else (Ok tt, f))%sm.
End pack.
