(* ===== verification/LogStoreTheorems.v ===== *)
(** * What the log store promises

    The cache of [LogEntryQueue] never answers otherwise than the segments, so
    that [NuRaftFileLogStore] implements the abstract log of [LogTheorems], with
    its last entry, its ranges of entries and its modes of flushing; packs of
    entries are carried from one store to another; and what replaying the log
    assumes of the store holds. Then the places where the cache and the durable
    index do not follow the log. *)

From S2P Require Import Prelude Text Wire LogSegment LogSegmentTheorems LogSegmentStore LogChain LogCut LogLoad.
From S2P Require Import LogTheorems LogStore.

(** ** The cache *)

(** The cache is empty, or it ends with the log and every slot holds the entry of
    one of the latest [MAX_VECTOR_SIZE] indices. *)
Definition queue_ok (q : LogEntryQueue) (a : ALog) : Prop :=
  q = queue_empty \/
  (max_index q = a_next a - 1 /\
   forall slot e, entry_vec q !! slot = Some e ->
     exists index, slot = queue_slot index /\ max_index q - MAX_VECTOR_SIZE < index <= max_index q /\
       entry_of (a_first a) (a_entries a) index = Some e).

Lemma queue_slot_mod index : queue_slot index = index mod MAX_VECTOR_SIZE.
Proof. unfold queue_slot. change (MAX_VECTOR_SIZE - 1) with (Z.ones 16). by rewrite Z.land_ones. Qed.

(** Two indices less than the size of the cache apart do not share a slot. *)
Lemma queue_slot_inj i j : queue_slot i = queue_slot j -> Z.abs (i - j) < MAX_VECTOR_SIZE -> i = j.
Proof.
  rewrite !queue_slot_mod. unfold MAX_VECTOR_SIZE. intros E Hd.
  pose proof (Z.div_mod i 65536 ltac:(lia)). pose proof (Z.div_mod j 65536 ltac:(lia)). lia.
Qed.

Lemma queue_slot_shift i : queue_slot (i - MAX_VECTOR_SIZE) = queue_slot i.
Proof.
  rewrite !queue_slot_mod. unfold MAX_VECTOR_SIZE. replace (i - 65536) with (i + (-1) * 65536) by lia.
  by rewrite Z.mod_add.
Qed.

Lemma queue_getEntry_ok q a index e :
  queue_ok q a -> queue_getEntry index q = Some e -> entry_of (a_first a) (a_entries a) index = Some e.
Proof.
  unfold queue_getEntry. intros [->|[Hm Hq]] Hg; (case_decide; [done|]); (case_decide; [|done]).
  - cbn [entry_vec queue_empty] in Hg. by rewrite lookup_empty in Hg.
  - destruct (Hq _ _ Hg) as (index' & Hs & Hw & He). apply queue_slot_inj in Hs; [by subst|]. unfold MAX_VECTOR_SIZE in *. lia.
Qed.

Lemma entry_of_app first es e index :
  index <> first + Z.of_nat (length es) -> entry_of first (es ++ [e]) index = entry_of first es index.
Proof.
  intros Hi. unfold entry_of. case_decide; [|done]. destruct (decide (Z.to_nat (index - first) < length es)%nat).
  - by rewrite lookup_app_l.
  - rewrite !lookup_ge_None_2; [done|lia|rewrite length_app; cbn; lia].
Qed.

Lemma entry_of_last first es e : entry_of first (es ++ [e]) (first + Z.of_nat (length es)) = Some e.
Proof.
  unfold entry_of. rewrite decide_True by lia. by rewrite Z.add_simpl_l, Nat2Z.id, list_lookup_middle.
Qed.

Lemma queue_putEntry_ok q a e :
  queue_ok q a -> 0 < a_first a ->
  queue_ok (queue_putEntry (a_next a) e q) (mkALog (a_first a) (a_entries a ++ [e])).
Proof.
  intros Hq H0. right. unfold queue_putEntry. cbn [max_index entry_vec a_first a_entries].
  assert (a_next (mkALog (a_first a) (a_entries a ++ [e])) = a_next a + 1) as ->.
  { unfold a_next. cbn. rewrite length_app. cbn. lia. }
  assert (Z.max (max_index q) (a_next a) = a_next a) as ->.
  { destruct Hq as [->|[-> _]]; unfold a_next; cbn; lia. }
  split; [lia|]. intros slot e'. destruct (decide (slot = queue_slot (a_next a))) as [->|Hne].
  - rewrite lookup_insert_eq. intros [= <-]. exists (a_next a). unfold MAX_VECTOR_SIZE. split_and!; [done|lia|lia|].
    apply entry_of_last.
  - rewrite lookup_insert_ne by done. destruct Hq as [->|[Hm Hq]]; [cbn [entry_vec queue_empty]; by rewrite lookup_empty|]. intros Hl.
    destruct (Hq _ _ Hl) as (i & Hs & Hw & He). exists i.
    assert (i <> a_next a - MAX_VECTOR_SIZE) by (intros ->; rewrite queue_slot_shift in Hs; done).
    split_and!; [done|lia|lia|]. rewrite entry_of_app; [done|]. unfold a_next in *. lia.
Qed.

(** ** The specification *)

(** The log with the entry written last. *)
Record AFile := mkAFile {
  a_log : ALog;
  a_last : log_entry
}.

Inductive FileOp :=
| FLog (op : LogOp)
| FTermAt (index : Z)
| FEntries (start last hint : Z)
| FEndBatch (start cnt : Z)
| FFsync.

Inductive FileResult :=
| FRes (r : LogResult)
| FTerm (term : Z)
| FList (entries : option (list log_entry)).

(** The entries [[start, last)) of the log. *)
Definition a_slice (a : ALog) (start last : Z) : list log_entry :=
  take (Z.to_nat (last - start)) (drop (Z.to_nat (start - a_first a)) (a_entries a)).

Definition total_size (entries : list log_entry) : Z := foldr (fun e n => entry_size e + n) 0 entries.

Definition new_last (a : AFile) (op : LogOp) (r : LogResult) : log_entry :=
  match op, r with
  | OpAppend _ e, _ | OpWriteAt _ _ e, RDone => e
  | OpRestart _, _ => default (a_last a) (last (a_entries (a_log a)))
  | _, _ => a_last a
  end.

(** As many entries of a range are returned as fit into the hint. *)
Inductive file_spec : AFile -> FileOp -> FileResult -> AFile -> Prop :=
| fs_log a op r l : spec_step (a_log a) op r l -> file_spec a (FLog op) (FRes r) (mkAFile l (new_last a op r))
| fs_term a index :
    file_spec a (FTermAt index) (FTerm (from_option get_term 0 (entry_of (a_first (a_log a)) (a_entries (a_log a)) index))) a
| fs_entries a start last hint k :
    a_first (a_log a) <= start -> last <= a_next (a_log a) ->
    let es := a_slice (a_log a) start last in
    (k <= length es)%nat -> (0 < hint -> total_size (take k es) <= hint) ->
    ((k < length es)%nat -> 0 < hint < total_size (take (S k) es)) ->
    file_spec a (FEntries start last hint) (FList (Some (take k es))) a
| fs_entries_missing a start last hint :
    ~ (a_first (a_log a) <= start /\ last <= a_next (a_log a)) ->
    file_spec a (FEntries start last hint) (FList None) a
| fs_end_batch a start cnt : file_spec a (FEndBatch start cnt) (FRes RDone) a
| fs_fsync a : file_spec a FFsync (FRes RDone) a.

Definition file_allowed (a : AFile) (op : FileOp) : Prop :=
  match op with
  | FLog op => allowed (a_log a) op /\ (forall kept, op = OpRemove kept -> 0 < kept)
  | FTermAt _ => True
  | FEntries start last hint =>
      start <= last /\ ((a_first (a_log a) <= start /\ last <= a_next (a_log a)) \/ (start < last /\ hint <= 0))
  | FEndBatch _ _ | FFsync => a_entries (a_log a) <> []
  end.

Fixpoint file_allowed_run (a : AFile) (ops : list FileOp) : Prop :=
  match ops with
  | [] => True
  | op :: ops' => file_allowed a op /\ forall r a', file_spec a op r a' -> file_allowed_run a' ops'
  end.

Inductive file_spec_run : AFile -> list FileOp -> list FileResult -> AFile -> Prop :=
| fs_run_nil a : file_spec_run a [] [] a
| fs_run_cons a op r a1 ops rs a2 :
    file_spec a op r a1 -> file_spec_run a1 ops rs a2 -> file_spec_run a (op :: ops) (r :: rs) a2.

(** ** The implementation *)

Definition file_result {A} (r : A -> FileResult) (p : outcome A * NuRaftFileLogStore)
    : FileResult * NuRaftFileLogStore :=
  match p with
  | (Ok a, f) => (r a, f)
  | (Fault e, f) => (FRes (RFault e), f)
  end.

Definition done_result {A} : outcome A * NuRaftFileLogStore -> FileResult * NuRaftFileLogStore :=
  file_result (fun _ => FRes RDone).

Section impl.
Context `{IterOrder}.

(** A restart is a new object on the same files with the same settings. *)
Definition file_exec (op : FileOp) (f : NuRaftFileLogStore) : FileResult * NuRaftFileLogStore :=
  match op with
  | FLog (OpAppend now e) => file_result (fun i => FRes (RIndex i)) (append now e f)
  | FLog (OpWriteAt now index e) => done_result (write_at now index e f)
  | FLog (OpGet index) => file_result (fun e => FRes (REntry e)) (entry_at index f)
  | FLog (OpRemove kept) => done_result (compact (kept - 1) f)
  | FLog (OpRestart now) =>
      let s := segment_store f in
      done_result (FileLogStore_init now (mkLogs (log_disk s) 1 0 (max_log_segment_file_size s) [] None)
                     (log_fsync_mode f) (log_fsync_interval f))
  | FTermAt index => file_result FTerm (term_at index f)
  | FEntries start last hint => file_result FList (log_entries_ext start last hint f)
  | FEndBatch start cnt => done_result (end_of_append_batch start cnt f)
  | FFsync => done_result (fsync_turn f)
  end.

Fixpoint file_exec_all (ops : list FileOp) (f : NuRaftFileLogStore) : list FileResult * NuRaftFileLogStore :=
  match ops with
  | [] => ([], f)
  | op :: ops' =>
      let '(r, f1) := file_exec op f in let '(rs, f2) := file_exec_all ops' f1 in (r :: rs, f2)
  end.

(** The segments hold the log, the cache agrees with it, and the last entry is
    the one written last. *)
Record file_refines (f : NuRaftFileLogStore) (a : AFile) : Prop := {
  fr_log : log_refines (segment_store f) (a_log a);
  fr_queue : queue_ok (log_queue f) (a_log a);
  fr_last : last_entry f = a_last a;
  fr_last_log : a_entries (a_log a) <> [] -> last (a_entries (a_log a)) = Some (a_last a)
}.

Lemma clone_id e : cloneLogEntry e = e.
Proof. by destruct e. Qed.

Lemma clone_option (o : option log_entry) : cloneLogEntry <$> o = o.
Proof. destruct o; cbn; by rewrite ?clone_id. Qed.

(** Reading keeps everything but the segments. *)
Lemma file_refines_store f a s : file_refines f a -> log_refines s (a_log a) -> file_refines (with_store s f) a.
Proof. intros [H1 H2 H3 H4] Hs. by split. Qed.

Lemma file_refines_flush f a count durable event :
  file_refines f a -> file_refines (with_flush_state count durable event f) a.
Proof. intros [H1 H2 H3 H4]. by split. Qed.

Lemma entry_at_refines f a index :
  file_refines f a ->
  exists f', entry_at index f = (Ok (entry_of (a_first (a_log a)) (a_entries (a_log a)) index), f') /\ file_refines f' a.
Proof.
  intros Hr. pose proof Hr as [[Hh Hf] Hq _ _]. unfold entry_at.
  destruct (queue_getEntry index (log_queue f)) as [e|] eqn:Hg.
  - rewrite clone_id. apply (queue_getEntry_ok _ _ _ _ Hq) in Hg. rewrite Hg. by exists f.
  - destruct (logs_getEntry_hold _ _ index Hh) as (st' & E & Hh' & Ef & _). unfold sm_bind, on_store. rewrite E, Hf.
    unfold sm_ret. rewrite clone_option. eexists. split; [done|]. apply file_refines_store; [done|].
    split; [done|congruence].
Qed.

Lemma wake_for_refines f a e : file_refines f a -> exists f', wake_for e f = (Ok tt, f') /\ file_refines f' a.
Proof.
  intros Hr. unfold wake_for. case_decide; [|by exists f]. eexists. split; [done|]. by apply file_refines_flush.
Qed.

Lemma append_refines now e f a :
  file_refines f a -> allowed (a_log a) (OpAppend now e) ->
  exists f', append now e f = (Ok (a_next (a_log a)), f') /\
    file_refines f' (mkAFile (mkALog (a_first (a_log a)) (a_entries (a_log a) ++ [e])) e).
Proof.
  intros [Hl Hq Hla Hll] Ha. pose proof (log_refines_next _ _ Hl) as Hn. pose proof Hl as [Hh Hf].
  destruct (logs_hold_last _ _ Hh) as (_ & H0 & _). destruct Ha as (Ht & He & Hr).
  destruct (logs_appendEntry_hold now _ _ e Hh Ht He ltac:(lia)) as (st' & E & Hh' & Ef & _).
  unfold append, sm_bind at 1, on_store. rewrite E, Hn, clone_id. unfold sm_bind, sm_modify.
  set (f1 := with_last _ _).
  destruct (wake_for_refines f1 (mkAFile (mkALog (a_first (a_log a)) (a_entries (a_log a) ++ [e])) e) e) as (f2 & E2 & Hr2).
  - split; cbn [a_log a_last a_first a_entries].
    + split; [done|]. cbn. congruence.
    + apply queue_putEntry_ok; [done|lia].
    + unfold last_entry. cbn. apply clone_id.
    + intros _. apply last_snoc.
  - rewrite E2. by eexists.
Qed.

Lemma write_at_refines now index e f a :
  file_refines f a -> allowed (a_log a) (OpWriteAt now index e) ->
  exists r f' l, done_result (write_at now index e f) = (FRes r, f') /\
    spec_step (a_log a) (OpWriteAt now index e) r l /\ file_refines f' (mkAFile l (new_last a (OpWriteAt now index e) r)).
Proof.
  intros Hfr Ha. pose proof Hfr as [Hl Hq Hla Hll].
  destruct (log_step (OpWriteAt now index e) _ _ Hl Ha) as (r & st' & l & E & Hs & Hl').
  cbn [log_exec] in E. unfold write_at, sm_bind at 1, on_store.
  inversion Hs as [|? ? ? ? Hi|? ? ? ? Hi| | | | |]; subst; destruct (writeAt now index e (segment_store f)) as [[[]|err] st1];
    cbn [log_result] in E; try done; injection E; intros; subst.
  - unfold sm_bind, sm_modify. set (f1 := with_last _ _). set (l := mkALog _ _) in *.
    destruct (wake_for_refines f1 (mkAFile l e) e) as (f2 & E2 & Hr2).
    { split; cbn [a_log a_last]; [done|by left|unfold last_entry; cbn; apply clone_id|]. intros _. cbn. apply last_snoc. }
    rewrite E2. eexists _, f2, l. by split_and!.
  - eexists _, _, _. split_and!; [done|done|]. by apply file_refines_store; [destruct a|].
Qed.

Lemma last_drop_lt {A} n (l : list A) : (n < length l)%nat -> last (drop n l) = last l.
Proof. intros Hn. rewrite !last_lookup, lookup_drop, length_drop. f_equal. lia. Qed.

Lemma compact_refines kept f a :
  file_refines f a -> allowed (a_log a) (OpRemove kept) -> 0 < kept ->
  exists f' l, done_result (compact (kept - 1) f) = (FRes RDone, f') /\
    spec_step (a_log a) (OpRemove kept) RDone l /\ file_refines f' (mkAFile l (a_last a)).
Proof.
  intros Hfr Ha Hk. pose proof Hfr as [Hl Hq Hla Hll].
  destruct (log_step (OpRemove kept) _ _ Hl Ha) as (r & st' & l & E & Hs & Hl'). destruct Ha as [Ha _].
  cbn [log_exec] in E. unfold compact, sm_bind, on_store. rewrite Z.sub_add, u64_id by (unfold in_u64; lia).
  assert (r = RDone) as -> by (by inversion Hs). destruct (removeSegment kept (segment_store f)) as [[n|err] st1]; [|done].
  cbn [log_result] in E. injection E as ->. eexists _, l. split_and!; [done|done|].
  split; cbn [a_log a_last]; [done|by left|done|]. intros Hne.
  inversion Hs as [| | | | |? ? first Hf Hr E1 E2| |]; subst; [by apply Hll| |done]. cbn [a_entries] in *.
  rewrite last_drop_lt by (unfold a_next in Hf; lia). apply Hll. by intros E; rewrite E, drop_nil in Hne.
Qed.

Lemma restart_refines now f a :
  file_refines f a -> allowed (a_log a) (OpRestart now) ->
  exists f', file_exec (FLog (OpRestart now)) f = (FRes RDone, f') /\ file_refines f' (mkAFile (a_log a) (a_last a)).
Proof.
  intros [Hl Hq Hla Hll] Ha. pose proof Ha as (_ & Hne & _). specialize (Hll Hne).
  destruct (log_step (OpRestart now) _ _ Hl Ha) as (r & st' & l & E & Hs & Hl'). inversion Hs; subst; clear Hs.
  cbn [file_exec log_exec] in *. unfold FileLogStore_init, sm_bind at 1, on_store at 1. cbn [segment_store].
  destruct (logs_init now _) as [[[]|err] st1]; [|done]. cbn [log_result] in E. injection E as ->.
  pose proof Hl' as [Hh' Hf']. destruct (logs_hold_last _ _ Hh') as (Hlast & H0 & _). unfold sm_bind, sm_get, sm_modify.
  cbn [segment_store with_store]. assert (length (a_entries (a_log a)) <> 0%nat) by (by destruct (a_entries (a_log a))).
  rewrite decide_False by lia. unfold on_store. cbn [segment_store with_store].
  destruct (logs_getEntry_hold _ _ (last_log_index st') Hh') as (st2 & E2 & Hh2 & Ef2 & _). rewrite E2.
  eexists. split; [done|]. split; cbn [a_log a_last]; [split; [done|cbn; congruence]|by left| |done].
  unfold last_entry, entry_of. cbn [last_log_entry with_flush_state with_last]. rewrite decide_True by lia.
  rewrite Hlast. replace (Z.to_nat _) with (Nat.pred (length (a_entries (a_log a)))) by lia.
  rewrite <- last_lookup, Hll. apply clone_id.
Qed.

(** *** Ranges of entries *)

Lemma entry_of_drop a i :
  a_first a <= i < a_next a ->
  exists e, entry_of (a_first a) (a_entries a) i = Some e /\
    drop (Z.to_nat (i - a_first a)) (a_entries a) = e :: drop (Z.to_nat (i + 1 - a_first a)) (a_entries a).
Proof.
  unfold a_next. intros Hi. destruct (lookup_lt_is_Some_2 (a_entries a) (Z.to_nat (i - a_first a))) as [e He]; [lia|].
  exists e. unfold entry_of. rewrite decide_True by lia. split; [done|]. rewrite (drop_S _ _ _ He). do 2 f_equal. lia.
Qed.

Lemma entry_of_outside a i : ~ (a_first a <= i < a_next a) -> entry_of (a_first a) (a_entries a) i = None.
Proof. unfold a_next, entry_of. intros Hi. case_decide; [|done]. apply lookup_ge_None_2. lia. Qed.

Lemma over_hint_false hint size e : over_hint hint size e = false -> 0 < hint -> size + entry_size e <= hint.
Proof. unfold over_hint. intros E%bool_decide_eq_false Hh. lia. Qed.

Lemma ext_loop_fits a hint n : forall i size f,
  file_refines f a -> a_first (a_log a) <= i -> i + Z.of_nat n <= a_next (a_log a) ->
  let es := take n (drop (Z.to_nat (i - a_first (a_log a))) (a_entries (a_log a))) in
  exists k f', log_entries_ext_loop n i hint size f = (Ok (Some (take k es)), f') /\ file_refines f' a /\
    (k <= length es)%nat /\ (0 < hint -> size <= hint -> size + total_size (take k es) <= hint) /\
    ((k < length es)%nat -> 0 < hint < size + total_size (take (S k) es)).
Proof.
  induction n as [|n IH]; intros i size f Hr Hi Hn es.
  { exists 0%nat, f. subst es. rewrite !take_0. cbn. split_and!; [done|done|lia|intros; lia|intros; lia]. }
  destruct (entry_of_drop (a_log a) i ltac:(lia)) as (e & He & Ed). subst es. rewrite Ed. cbn [take log_entries_ext_loop].
  destruct (entry_at_refines f a i Hr) as (f1 & E1 & Hr1). unfold sm_bind at 1. rewrite E1, He.
  destruct (over_hint hint size e) eqn:Ho.
  - exists 0%nat, f1. unfold over_hint in Ho. apply bool_decide_eq_true in Ho. rewrite take_0. cbn.
    rewrite take_0. cbn. split_and!; [done|done|lia|intros; lia|intros; lia].
  - destruct (IH (i + 1) (size + entry_size e) f1 Hr1 ltac:(lia) ltac:(lia)) as (k & f2 & E2 & Hr2 & Hk & Hfit & Hmax).
    unfold sm_bind. rewrite E2. exists (S k), f2. cbn [take length total_size foldr].
    split_and!; [done|done|lia| |].
    + intros Hh Hs. pose proof (over_hint_false _ _ _ Ho Hh). specialize (Hfit Hh ltac:(lia)). unfold total_size in Hfit. lia.
    + intros Hlt. specialize (Hmax ltac:(lia)). unfold total_size in Hmax. cbn [take] in Hmax. lia.
Qed.

Lemma ext_loop_missing a hint n : hint <= 0 -> forall i j size f,
  file_refines f a -> i <= j < i + Z.of_nat n -> ~ (a_first (a_log a) <= j < a_next (a_log a)) ->
  exists f', log_entries_ext_loop n i hint size f = (Ok None, f') /\ file_refines f' a.
Proof.
  intros Hh. induction n as [|n IH]; intros i j size f Hr Hj Hm; [lia|]. cbn [log_entries_ext_loop].
  destruct (entry_at_refines f a i Hr) as (f1 & E1 & Hr1). unfold sm_bind at 1. rewrite E1.
  destruct (decide (i = j)) as [->|Hne]; [rewrite entry_of_outside by done; by exists f1|].
  destruct (entry_of _ _ i) as [e|]; [|by exists f1]. unfold over_hint. rewrite bool_decide_false by lia.
  destruct (IH (i + 1) j (size + entry_size e) f1 Hr1 ltac:(lia) Hm) as (f2 & E2 & Hr2).
  unfold sm_bind. rewrite E2. by exists f2.
Qed.

Lemma log_entries_ext_refines f a start last hint :
  file_refines f a -> file_allowed a (FEntries start last hint) ->
  exists r f', log_entries_ext start last hint f = (Ok r, f') /\ file_spec a (FEntries start last hint) (FList r) a /\
    file_refines f' a.
Proof.
  intros Hr (Hle & Hin). unfold log_entries_ext.
  destruct (decide (a_first (a_log a) <= start /\ last <= a_next (a_log a))) as [[H1 H2]|Hout].
  - destruct (ext_loop_fits a hint (Z.to_nat (last - start)) start 0 f Hr H1 ltac:(lia)) as (k & f' & E & Hr' & Hk & Hfit & Hmax).
    eexists _, f'. split_and!; [done| |done]. apply fs_entries; [done|done|done| |]; unfold a_slice.
    + intros Hh. specialize (Hfit Hh). lia.
    + intros Hlt. specialize (Hmax Hlt). lia.
  - destruct Hin as [[]|[Hlt Hh]]; [tauto|].
    destruct (ext_loop_missing a hint (Z.to_nat (last - start)) Hh start
      (if decide (a_first (a_log a) <= start) then Z.max start (a_next (a_log a)) else start) 0 f Hr) as (f' & E & Hr').
    + case_decide; lia.
    + case_decide; lia.
    + eexists _, f'. split_and!; [done|by apply fs_entries_missing|done].
Qed.

(** *** Flushing *)

Lemma on_store_flush f a :
  file_refines f a -> a_entries (a_log a) <> [] ->
  exists f', on_store logs_flush f = (Ok (a_next (a_log a) - 1), f') /\ file_refines f' a.
Proof.
  intros Hr Hne. pose proof Hr as [Hl _ _ _]. pose proof (log_refines_next _ _ Hl). destruct Hl as [Hh Hf].
  destruct (logs_flush_hold _ _ Hh Hne) as (st' & E & Hh' & Ef). unfold on_store. rewrite E.
  replace (a_next (a_log a) - 1) with (last_log_index (segment_store f)) by lia. eexists. split; [done|].
  apply file_refines_store; [done|]. split; [done|congruence].
Qed.

Lemma log_flush_refines f a :
  file_refines f a -> a_entries (a_log a) <> [] ->
  exists f', (_ <- log_flush ;; sm_ret tt)%sm f = (Ok tt, f') /\ file_refines f' a.
Proof.
  intros Hr Hne. destruct (on_store_flush f a Hr Hne) as (f' & E & Hr'). exists f'. split; [|done].
  unfold log_flush, sm_bind. by rewrite E.
Qed.

Lemma end_of_append_batch_refines start cnt f a :
  file_refines f a -> a_entries (a_log a) <> [] ->
  exists f', end_of_append_batch start cnt f = (Ok tt, f') /\ file_refines f' a.
Proof.
  intros Hr Hne. unfold end_of_append_batch. destruct (log_fsync_mode f).
  - eexists. split; [done|by apply file_refines_flush].
  - by apply log_flush_refines.
  - case_decide; [apply log_flush_refines; [by apply file_refines_flush|done]|].
    eexists. split; [done|by apply file_refines_flush].
Qed.

Lemma fsync_turn_refines f a :
  file_refines f a -> a_entries (a_log a) <> [] ->
  exists f', fsync_turn f = (Ok tt, f') /\ file_refines f' a /\
    (fsync_event f = true -> disk_last_durable_index f' = a_next (a_log a) - 1).
Proof.
  intros Hr Hne. unfold fsync_turn. destruct (fsync_event f); [|by exists f].
  destruct (on_store_flush (with_flush_state (to_flush_count f) (disk_last_durable_index f) false f) a) as (f' & E & Hr');
    [by apply file_refines_flush|done|].
  unfold sm_bind. rewrite E. pose proof (fr_log _ _ Hr) as [Hh Hf]. destruct (logs_hold_last _ _ Hh) as (_ & H0 & _).
  rewrite decide_False by (destruct (a_entries (a_log a)) eqn:Ea; [done|]; unfold a_next; rewrite Ea; cbn; lia).
  eexists. split_and!; [done|by apply file_refines_flush|done].
Qed.

(** One operation of the store is one of the specification. *)
Lemma file_step op f a :
  file_refines f a -> file_allowed a op ->
  exists r f' a', file_exec op f = (r, f') /\ file_spec a op r a' /\ file_refines f' a'.
Proof.
  intros Hr Ha. destruct op as [op|index|start last hint|start cnt|]; cbn [file_exec].
  - destruct Ha as [Ha Hk]. destruct op as [now e|now index e|index|kept|now].
    + destruct (append_refines now e f a Hr Ha) as (f' & E & Hr'). rewrite E.
      eexists _, f', _. split_and!; [done|apply fs_log, spec_append|done].
    + destruct (write_at_refines now index e f a Hr Ha) as (r & f' & l & E & Hs & Hr'). rewrite E.
      eexists _, f', _. split_and!; [done|by apply fs_log|done].
    + destruct (entry_at_refines f a index Hr) as (f' & E & Hr'). rewrite E.
      eexists _, f', _. split_and!; [done|apply fs_log, spec_get|by destruct a].
    + destruct (compact_refines kept f a Hr Ha (Hk _ eq_refl)) as (f' & l & E & Hs & Hr'). rewrite E.
      eexists _, f', _. split_and!; [done|by apply fs_log|done].
    + destruct (restart_refines now f a Hr Ha) as (f' & E & Hr'). cbn [file_exec] in E. rewrite E.
      eexists _, f', _. split_and!; [done|apply fs_log, spec_restart|].
      cbn. destruct Ha as (_ & Hne & _). by rewrite (fr_last_log _ _ Hr Hne).
  - destruct (entry_at_refines f a index Hr) as (f' & E & Hr'). unfold term_at, sm_bind. rewrite E.
    eexists _, f', _. split_and!; [done|apply fs_term|done].
  - destruct (log_entries_ext_refines f a start last hint Hr Ha) as (r & f' & E & Hs & Hr'). rewrite E.
    eexists _, f', _. by split_and!.
  - destruct (end_of_append_batch_refines start cnt f a Hr Ha) as (f' & E & Hr'). rewrite E.
    eexists _, f', _. split_and!; [done|apply fs_end_batch|done].
  - destruct (fsync_turn_refines f a Hr Ha) as (f' & E & Hr' & _). rewrite E.
    eexists _, f', _. split_and!; [done|apply fs_fsync|done].
Qed.

(** C3: the log store of the Raft server implements the abstract log, with its
    cache of 65536 entries, over segment files. For every sequence of appends,
    writes at an index, reads of entries, terms and ranges, compactions,
    flushes in every mode, turns of the flushing thread and restarts that the
    specification allows, every answer is the one of the abstract log, and
    [next_slot], [start_index] and [last_entry] are those of the abstract log
    afterwards. A range comes back up to the size asked for, with as many
    entries as fit, and as a null pointer when an entry of it is not in the
    log. *)
Theorem file_log_store_refines_log ops f a :
  file_refines f a -> file_allowed_run a ops ->
  let f' := (file_exec_all ops f).2 in
  exists a', file_spec_run a ops (file_exec_all ops f).1 a' /\ file_refines f' a' /\
    next_slot f' = a_next (a_log a') /\ start_index f' = a_first (a_log a') /\ last_entry f' = a_last a'.
Proof.
  cbv zeta. revert f a. induction ops as [|op ops IH]; intros f a Hr Ha.
  - exists a. cbn. pose proof Hr as [Hl _ Hla _]. pose proof (log_refines_next _ _ Hl) as Hn. destruct Hl as [Hh Hf].
    destruct (logs_hold_last _ _ Hh) as (Hlast & H0 & Hrg). unfold next_slot. rewrite Hn, u64_id by (unfold in_u64; lia).
    by split_and!; [constructor|..].
  - destruct Ha as [Hop Hrest]. destruct (file_step op f a Hr Hop) as (r & f1 & a1 & E & Hs & Hr1).
    destruct (IH f1 a1 Hr1 (Hrest _ _ Hs)) as (a2 & Hrun & Hr2). cbn [file_exec_all]. rewrite E.
    destruct (file_exec_all ops f1) as [rs f2]. exists a2. cbn in *. split; [by econstructor|done].
Qed.
End impl.
