(* ===== verification/LogPack.v ===== *)
(** * Packs of log entries, and the log that is replayed

    A pack of entries made by one log store and applied to another gives it the
    same entries; what [Replay] reads of the log is what the log store returns;
    and runs in which the cache or the durable index do not follow the log. *)

From S2P Require Import Prelude Text Wire WireRequests Replay LogSegment LogSegmentTheorems LogSegmentStore.
From S2P Require Import LogChain LogCut LogLoad LogTheorems LogStore LogStoreTheorems.

(** ** Entries of a log that is held *)

Lemma chain_entries_ok d start segs cs : chain d start segs cs -> Forall entry_ok (concat cs).
Proof.
  revert start cs. induction segs as [|s segs IH]; intros start [|c cs]; cbn [chain]; try done.
  intros (_ & Hs & Hc). cbn [concat]. apply Forall_app. split; [apply (sh_entries _ _ _ Hs)|by eapply IH].
Qed.

Lemma log_refines_entries_ok st a : log_refines st a -> Forall entry_ok (a_entries a).
Proof. intros [(cs & Hc & _ & ->) _]. eapply chain_entries_ok, (lc_chain _ _ Hc). Qed.

Lemma a_slice_ok st a start last : log_refines st a -> Forall entry_ok (a_slice a start last).
Proof. intros Hr. apply Forall_take, Forall_drop. by eapply log_refines_entries_ok. Qed.

Lemma length_a_slice a start last :
  a_first a <= start <= last -> last <= a_next a -> length (a_slice a start last) = Z.to_nat (last - start).
Proof. unfold a_next, a_slice. intros. rewrite length_take, length_drop. lia. Qed.

Section packs.
Context `{IterOrder}.
Context (le_serialize : log_entry -> bytes) (le_deserialize : bytes -> outcome log_entry).

Lemma log_entries_loop_refines a n : forall i f,
  file_refines f a -> a_first (a_log a) <= i -> i + Z.of_nat n <= a_next (a_log a) ->
  exists f', log_entries_loop n i f =
    (Ok (Some <$> take n (drop (Z.to_nat (i - a_first (a_log a))) (a_entries (a_log a)))), f') /\ file_refines f' a.
Proof.
  induction n as [|n IH]; intros i f Hr Hi Hn; [exists f; by rewrite take_0|].
  destruct (entry_of_drop (a_log a) i ltac:(lia)) as (e & He & Ed). rewrite Ed. cbn [take log_entries_loop].
  destruct (entry_at_refines f a i Hr) as (f1 & E1 & Hr1). unfold sm_bind at 1. rewrite E1, He.
  destruct (IH (i + 1) f1 Hr1 ltac:(lia) ltac:(lia)) as (f2 & E2 & Hr2). unfold sm_bind. rewrite E2. by exists f2.
Qed.

Lemma serialize_all_some es : serialize_all le_serialize (Some <$> es) = Ok (le_serialize <$> es).
Proof. induction es as [|e es IH]; [done|]. cbn. cbn in IH. by rewrite IH. Qed.

(** The bytes of a pack after the count. *)
Definition pack_body (es : list log_entry) : bytes :=
  (le_serialize <$> es) ≫= fun bb => le_bytes 4 (Z.of_nat (length bb)) ++ bb.

Lemma pack_refines a index cnt f :
  file_refines f a -> a_first (a_log a) <= index -> 0 <= cnt -> index + cnt <= a_next (a_log a) ->
  exists f', pack le_serialize index cnt f =
    (Ok (le_bytes 4 cnt ++ pack_body (a_slice (a_log a) index (index + cnt))), f') /\ file_refines f' a.
Proof.
  intros Hr Hi Hc Hn. unfold pack, log_entries, a_slice. rewrite Z.add_simpl_l.
  destruct (log_entries_loop_refines a (Z.to_nat cnt) index f Hr Hi ltac:(lia)) as (f' & E & Hr').
  unfold sm_bind. rewrite E, serialize_all_some. exists f'. split; [|done]. done.
Qed.

Lemma get_int_bytes x bs : in_i32 x -> get_int (le_bytes 4 x ++ bs) = Ok (x, bs).
Proof.
  intros Hx. unfold get_int. rewrite length_app, length_le_bytes, decide_False by lia.
  rewrite take_app_length', drop_app_length' by (by rewrite length_le_bytes). rewrite le_value_bytes.
  change (256 ^ Z.of_nat 4) with (2 ^ 32). do 2 f_equal. int_lia.
Qed.

Lemma get_raw_bytes bs rest : get_raw (Z.of_nat (length bs)) (bs ++ rest) = Ok (bs, rest).
Proof.
  unfold get_raw. rewrite length_app, decide_False by lia. rewrite Nat2Z.id.
  by rewrite take_app_length, drop_app_length.
Qed.

(** NuRaft reads back an entry it has serialized. *)
Context (le_roundtrip : forall e, entry_ok e -> le_deserialize (le_serialize e) = Ok e).

Lemma apply_pack_loop_refines now rest : time_ok now -> forall es index f l,
  log_refines (segment_store f) l -> Forall entry_ok es ->
  Forall (fun e => in_i32 (Z.of_nat (length (le_serialize e)))) es -> es <> [] ->
  a_first l <= index <= a_next l -> index + Z.of_nat (length es) < 2 ^ 64 - 1 ->
  exists f', apply_pack_loop le_deserialize now (length es) index (pack_body es ++ rest) f = (Ok tt, f') /\
    log_refines (segment_store f') (mkALog (a_first l) (take (Z.to_nat (index - a_first l)) (a_entries l) ++ es)).
Proof.
  intros Ht. induction es as [|e es IH]; intros index f l Hr Hok Hsz Hne Hi Hlen; [done|].
  apply Forall_cons in Hok as [He Hok]. apply Forall_cons in Hsz as [Hse Hsz]. cbn [length] in Hlen.
  assert (pack_body (e :: es) ++ rest =
    le_bytes 4 (Z.of_nat (length (le_serialize e))) ++ le_serialize e ++ (pack_body es ++ rest)) as ->.
  { unfold pack_body. cbn. by rewrite <- !app_assoc. }
  cbn [length apply_pack_loop]. unfold sm_bind, sm_lift. rewrite get_int_bytes by done. cbn [fst snd].
  rewrite get_raw_bytes. cbn [fst snd]. rewrite le_roundtrip by done. pose proof Hr as [Hh Hf].
  pose proof (log_refines_next _ _ Hr) as Hn. destruct (logs_hold_last _ _ Hh) as (_ & H0 & _).
  destruct (writeAt_hold now _ _ index e Hh Ht He ltac:(lia) ltac:(lia)) as (st' & E & Hh' & Ef & _).
  unfold on_store. rewrite E, u64_id by (unfold in_u64; lia). rewrite Hf in Hh', Ef.
  set (l1 := mkALog (a_first l) (take (Z.to_nat (index - a_first l)) (a_entries l) ++ [e])).
  assert (a_next l1 = index + 1) as Hn1.
  { unfold a_next, l1. cbn. rewrite length_app, length_take. cbn. unfold a_next in *. lia. }
  destruct (decide (es = [])) as [->|Hes].
  - eexists. split; [done|]. by split.
  - destruct (IH (index + 1) (with_store st' f) l1) as (f' & E' & Hr'); [by split|done..|cbn; lia|lia|].
    exists f'. split; [done|]. cbn [a_first l1 a_entries] in Hr'. rewrite take_ge in Hr'.
    + by rewrite <- app_assoc in Hr'.
    + unfold a_next in Hn1. cbn in Hn1. lia.
Qed.

(** A pack of entries made by one log store and applied to another, from the
    index of its first entry on, leaves there the entries before that index
    followed by the entries packed. Packing reads nothing but the log, and the
    count and the sizes have 32 bits. *)
Theorem pack_apply_pack now f1 a1 f2 l2 index cnt :
  let es := a_slice (a_log a1) index (index + cnt) in
  file_refines f1 a1 -> a_first (a_log a1) <= index -> 0 < cnt < 2 ^ 31 -> index + cnt <= a_next (a_log a1) ->
  Forall (fun e => in_i32 (Z.of_nat (length (le_serialize e)))) es ->
  log_refines (segment_store f2) l2 -> a_first l2 <= index <= a_next l2 -> index + cnt < 2 ^ 64 - 1 -> time_ok now ->
  exists bs f1' f2', pack le_serialize index cnt f1 = (Ok bs, f1') /\ file_refines f1' a1 /\
    apply_pack le_deserialize now index bs f2 = (Ok tt, f2') /\
    log_refines (segment_store f2') (mkALog (a_first l2) (take (Z.to_nat (index - a_first l2)) (a_entries l2) ++ es)).
Proof.
  intros es Hr1 Hi Hc Hn Hsz Hr2 Hi2 Hmax Ht.
  destruct (pack_refines a1 index cnt f1 Hr1 Hi ltac:(lia) Hn) as (f1' & E1 & Hr1').
  assert (length es = Z.to_nat cnt) as Hlen by (unfold es; rewrite length_a_slice by lia; lia).
  destruct (apply_pack_loop_refines now [] Ht es index f2 l2 Hr2) as (f2' & E2 & Hr2'); [|done| |done|lia|].
  { eapply a_slice_ok, (fr_log _ _ Hr1). }
  { intros E. rewrite E in Hlen. cbn in Hlen. lia. }
  eexists _, f1', (if decide (log_fsync_mode f2' = FSYNC_PARALLEL) then (set_event f2').2 else f2').
  split_and!; [exact E1|done| |by case_decide].
  unfold apply_pack, sm_bind, sm_lift. rewrite get_int_bytes by (split; lia). cbn [fst snd].
  rewrite app_nil_r, Hlen in E2. fold es. rewrite E2. by case_decide.
Qed.
End packs.

(** ** What replaying reads *)

(** What [Replay] takes of an entry: the content, for one of the application. *)
Definition app_content (e : log_entry) : option bytes :=
  if decide (get_val_type e = app_log) then Some (get_buf e) else None.

Definition replay_log (a : ALog) (index : Z) : option bytes :=
  entry_of (a_first a) (a_entries a) index ≫= app_content.

Section replay_reads.
Context `{IterOrder}.

Lemma getVersion_refines f a i :
  file_refines f a -> a_first (a_log a) <= i < a_next (a_log a) -> exists v, on_store (logs_getVersion i) f = (Ok v, f).
Proof.
  intros Hr Hi. pose proof (fr_log _ _ Hr) as Hl. pose proof (log_refines_next _ _ Hl) as Hn. destruct Hl as [(cs & Hc & _) Hf].
  destruct (getSegment_hold _ _ i Hc ltac:(lia)) as (r & s & c & Eg & Es & _). exists (version s).
  unfold on_store, logs_getVersion. rewrite Eg, (on_segment_get _ _ _ _ Es). by destruct f.
Qed.

Lemma version_loop_refines a n : forall i size f,
  file_refines f a -> a_first (a_log a) <= i -> i + Z.of_nat n <= a_next (a_log a) ->
  exists l f', log_entries_version_loop n i 0 size f = (Ok (Some l), f') /\ file_refines f' a /\
    l.*2 = take n (drop (Z.to_nat (i - a_first (a_log a))) (a_entries (a_log a))) /\
    app_content <$> l.*2 = replay_log (a_log a) <$> seqZ i (Z.of_nat n).
Proof.
  induction n as [|n IH]; intros i size f Hr Hi Hn; [exists [], f; by rewrite take_0|].
  destruct (entry_of_drop (a_log a) i ltac:(lia)) as (e & He & Ed). rewrite Ed. cbn [take log_entries_version_loop].
  destruct (entry_at_refines f a i Hr) as (f1 & E1 & Hr1). unfold sm_bind at 1. rewrite E1, He.
  unfold over_hint. rewrite bool_decide_false by lia. destruct (getVersion_refines f1 a i Hr1 ltac:(lia)) as (v & Ev).
  destruct (IH (i + 1) (size + entry_size e) f1 Hr1 ltac:(lia) ltac:(lia)) as (l & f2 & E2 & Hr2 & El & Ea).
  unfold sm_bind. rewrite Ev, E2. exists ((v, e) :: l), f2. rewrite seqZ_cons by lia.
  replace (Z.pred (Z.of_nat (S n))) with (Z.of_nat n) by lia. change (Z.succ i) with (i + 1). cbn [fmap list_fmap snd].
  split_and!; [done|done|by f_equal|]. f_equal; [unfold replay_log; by rewrite He|done].
Qed.

(** C24: what replaying assumes of the log holds of the log store. Once the checks
    of [replayLogs] have passed, every batch its loader asks for is in the log:
    [log_entries_version_ext] returns it in full, and decoding what it returned
    is what the loader of the model does with the entries of the abstract
    log. *)
Theorem replay_reads_log_store f a from to start :
  file_refines f a -> replay_checks (start_index f) (next_slot f) from to = Ok true ->
  from <= start <= to -> to + REPLAY_BATCH < 2 ^ 64 ->
  exists l f', log_entries_version_ext start (end_index to start) 0 f = (Ok (Some l), f') /\ file_refines f' a /\
    l.*2 = a_slice (a_log a) start (end_index to start) /\
    load_batch (replay_log (a_log a)) to start =
      (rs ← decode_all (app_content <$> l.*2); Ok (mkReplayBatch start (end_index to start) rs)).
Proof.
  intros Hr Hck Hst Hto. pose proof (fr_log _ _ Hr) as Hl. pose proof (log_refines_next _ _ Hl) as Hn.
  destruct Hl as [Hh Hf]. destruct (logs_hold_last _ _ Hh) as (Hlast & H0 & Hrg).
  unfold replay_checks, start_index, next_slot in Hck. rewrite Hn in Hck.
  rewrite (u64_id (a_next _)), u64_id in Hck by (unfold in_u64; lia). repeat (case_decide; [done|]).
  assert (start < end_index to start <= a_next (a_log a)) as He.
  { unfold end_index, REPLAY_BATCH in *. rewrite !u64_id by (unfold in_u64; lia). case_decide; lia. }
  destruct (version_loop_refines a (Z.to_nat (end_index to start - start)) start 0 f Hr ltac:(lia) ltac:(lia))
    as (l & f' & E & Hr' & El & Ea).
  exists l, f'. split_and!; [done|done|done|]. unfold load_batch, Replay.log_entries. rewrite Ea. by rewrite Z2Nat.id by lia.
Qed.
End replay_reads.

(** ** Where the cache and the durable index do not follow the log *)

Lemma apply_pack_loop_cache ds now n : forall index bs f,
  let f' := (apply_pack_loop ds now n index bs f).2 in
  log_queue f' = log_queue f /\ last_log_entry f' = last_log_entry f.
Proof.
  induction n as [|n IH]; intros index bs f; cbn [apply_pack_loop]; [done|]. unfold sm_bind, sm_lift, on_store.
  destruct (get_int bs) as [p|]; [|done]. destruct (get_raw p.1 p.2) as [q|]; [|done].
  destruct (ds q.1) as [le|]; [|done]. destruct (writeAt now index le (segment_store f)) as [[[]|] s']; [|done].
  apply (IH _ _ (with_store s' f)).
Qed.

(** Applying a pack of entries does not touch the cache nor the last entry.
    An entry that was in the cache is still returned for its index when the pack
    has replaced it, and [last_entry] is the one from before the pack, whose
    term NuRaft compares. *)
Theorem apply_pack_keeps_stale_cache le_deserialize now index bs i e f :
  queue_getEntry i (log_queue f) = Some e ->
  let f' := (apply_pack le_deserialize now index bs f).2 in
  entry_at i f' = (Ok (Some e), f') /\ last_entry f' = last_entry f.
Proof.
  intros Hq f'. assert (log_queue f' = log_queue f /\ last_log_entry f' = last_log_entry f) as [Eq El].
  { subst f'. unfold apply_pack, sm_bind, sm_lift. destruct (get_int bs) as [p|]; [|done].
    pose proof (apply_pack_loop_cache le_deserialize now (Z.to_nat p.1) index p.2 f) as Hc.
    destruct (apply_pack_loop _ _ _ _ _ _) as [[[]|] f1]; [|done]. by case_decide. }
  unfold entry_at, last_entry. rewrite Eq, Hq, El. by destruct e.
Qed.

Section runs.

Definition start_file (mode : FsyncMode) (max : Z) (d : Disk) : outcome unit * NuRaftFileLogStore :=
  FileLogStore_init "T" (mkLogs d 1 0 max [] None) mode 1000.

Fixpoint file_fill (entries : list log_entry) : FileM unit :=
  match entries with
  | [] => sm_ret tt
  | e :: entries' => (_ <- append "T" e ;; file_fill entries')%sm
  end.

Definition file_filled (mode : FsyncMode) (entries : list log_entry) (max : Z) : NuRaftFileLogStore :=
  (file_fill entries (start_file mode max empty_disk).2).2.

Lemma file_fill_refines entries : Forall entry_ok entries -> forall f pre,
  file_refines f (mkAFile (mkALog 1 pre) (default dummy_entry (last pre))) ->
  Z.of_nat (length pre + length entries) < 2 ^ 33 ->
  file_refines (file_fill entries f).2 (mkAFile (mkALog 1 (pre ++ entries)) (default dummy_entry (last (pre ++ entries)))).
Proof.
  induction 1 as [|e entries He Hes IH]; intros f pre Hr Hlen; [by rewrite app_nil_r|]. cbn [length] in Hlen.
  destruct (append_refines "T" e f _ Hr) as (f1 & E & Hr1).
  { split_and!; [done..|]. unfold a_next. cbn. lia. }
  cbn [file_fill]. unfold sm_bind. rewrite E, (cons_middle e pre entries), app_assoc. apply IH.
  - cbn [a_log a_first a_entries] in Hr1. by rewrite last_snoc.
  - rewrite length_app. cbn. lia.
Qed.

Lemma file_filled_refines mode entries max :
  9 <= max -> Forall entry_ok entries -> Z.of_nat (length entries) < 2 ^ 32 ->
  file_refines (file_filled mode entries max) (mkAFile (mkALog 1 entries) (default dummy_entry (last entries))).
Proof.
  intros Hm He Hl. assert (time_ok "T") as Ht by done.
  destruct (logs_init_empty "T" empty_disk max eq_refl ltac:(by intros ? [? ?]) Ht Hm) as (st & E & Hh & Hf & Hmx).
  destruct (logs_hold_last _ _ Hh) as (Hlast & _). cbn in Hlast. unfold file_filled, start_file, FileLogStore_init, sm_bind, on_store.
  cbn [segment_store]. rewrite E. unfold sm_get. cbn [segment_store with_store]. rewrite decide_True by lia.
  unfold sm_modify. cbn [fst snd sm_ret]. clear E.
  match goal with |- file_refines (file_fill _ ?f).2 _ => set (f0 := f) end.
  apply (file_fill_refines entries He f0 []); [|cbn; lia]. split; cbn; [by split|by left|done|done].
Qed.

(** The durable index is not lowered when entries are overwritten. After four
    entries were flushed, the second is replaced and two more are appended
    without a flush, the log store still reports that all four are durable, but
    when the machine stops the second entry is the old one again. *)
Theorem durable_index_overstated :
  let f := (fsync_turn (set_event (file_filled FSYNC_PARALLEL abcd 400)).2).2 in
  let f' := (file_fill (note <$> ["y"; "z"]%char) (write_at "T" 2 (note "x") f).2).2 in
  last_durable_index f = 4 /\ last_durable_index f' = 4 /\ (entry_at 2 f').1 = Ok (Some (note "x")) /\
  let restarted := start_file FSYNC_PARALLEL 400 (crash ∅ ∅ (log_disk (segment_store f'))) in
  restarted.1 = Ok tt /\ (entry_at 2 restarted.2).1 = Ok (Some (note "b")).
Proof. vm_compute. done. Qed.

(** The thread that flushes ends when it is woken while the log has no open
    segment, as after a compaction of all entries: nothing becomes durable any
    more. *)
Theorem fsync_thread_ended :
  let f := (compact 10 (end_of_append_batch 1 4 (file_filled FSYNC_PARALLEL abcd 400)).2).2 in
  fsync_event f = true /\ (fsync_turn f).1 = Fault (Throw LOGICAL_ERROR).
Proof. vm_compute. done. Qed.

(** [log_entries] returns null pointers for entries that are not in the log, and
    [pack] dereferences them. *)
Theorem pack_past_the_end ser :
  (pack ser 4 2 (file_filled FSYNC abcd 400)).1 = Fault UndefinedBehaviour.
Proof. vm_compute. done. Qed.

Lemma file_allowed_cons a op ops :
  file_allowed a op -> (forall r a', file_spec a op r a' -> file_allowed_run a' ops) -> file_allowed_run a (op :: ops).
Proof. done. Qed.

Definition demo_file_ops : list FileOp :=
  [FLog (OpAppend "T" (note "e")); FEndBatch 5 1; FLog (OpRestart "U"); FLog (OpWriteAt "V" 3 (note "x"));
   FLog (OpGet 3); FTermAt 2; FFsync; FEntries 1 4 21; FEntries 2 9 0].

Lemma file_log_store_refines_log_witness :
  let f' := (file_exec_all demo_file_ops (file_filled FSYNC abcd 40)).2 in
  exists a', file_spec_run (mkAFile (mkALog 1 abcd) (note "d")) demo_file_ops
      (file_exec_all demo_file_ops (file_filled FSYNC abcd 40)).1 a' /\ file_refines f' a' /\
    next_slot f' = a_next (a_log a') /\ start_index f' = a_first (a_log a') /\ last_entry f' = a_last a'.
Proof.
  apply file_log_store_refines_log.
  - apply (file_filled_refines FSYNC abcd 40); [lia|apply (abcd_ok 4)|cbn; lia].
  - pose proof note_ok as He. unfold demo_file_ops.
    repeat (apply file_allowed_cons; [cbn [file_allowed allowed]|]; cycle 1;
      [intros r a' Hs; inversion Hs; subst; clear Hs;
       repeat match goal with H : spec_step _ _ _ _ |- _ => inversion H; subst; clear H end; cbn in * |- ; try lia;
       match goal with |- file_allowed_run ?a ?ops =>
         let a' := eval vm_compute in a in change (file_allowed_run a' ops) end|
       first [exact I|discriminate|split; [lia|cbn; unfold a_next; cbn; lia]|
         split; [repeat split; try apply He; cbn; try discriminate; unfold a_next; cbn; lia|intros ? [= <-]; lia]]]); exact I.
Defined.

(** A format of entries that can be read back. *)
Definition demo_serialize (e : log_entry) : bytes := le_bytes 8 (get_term e) ++ body_serialize e.

Definition demo_deserialize (bs : bytes) : outcome log_entry :=
  e ← body_deserialize (drop 8 bs); Ok (mkEntry (le_value (take 8 bs)) (get_val_type e) (get_buf e)).

Lemma demo_roundtrip e : entry_ok e -> demo_deserialize (demo_serialize e) = Ok e.
Proof.
  intros (Ht & Hv & _). unfold demo_deserialize, demo_serialize.
  rewrite take_app_length', drop_app_length' by (by rewrite length_le_bytes). rewrite le_value_bytes.
  cbn [body_serialize body_deserialize mbind outcome_bind get_val_type get_buf]. destruct e as [t v b]. cbn [get_term get_val_type get_buf] in *.
  rewrite of_byte_of. unfold in_u64, in_u8 in *. do 2 f_equal; by apply Z.mod_small.
Qed.

Definition xyz : list log_entry := note <$> ["w"; "x"; "y"; "z"]%char.

Lemma xyz_ok : Forall entry_ok xyz.
Proof. apply Forall_forall. intros e (c & -> & _)%list_elem_of_fmap. apply note_ok. Qed.

Lemma pack_apply_pack_witness :
  let es := [note "x"; note "y"] in
  exists bs f1' f2', pack demo_serialize 2 2 (file_filled FSYNC xyz 40) = (Ok bs, f1') /\
    file_refines f1' (mkAFile (mkALog 1 xyz) (note "z")) /\
    apply_pack demo_deserialize "U" 2 bs (file_filled FSYNC abcd 400) = (Ok tt, f2') /\
    log_refines (segment_store f2') (mkALog 1 (note "a" :: es)).
Proof.
  apply (pack_apply_pack demo_serialize demo_deserialize demo_roundtrip "U" (file_filled FSYNC xyz 40)
    (mkAFile (mkALog 1 xyz) (note "z")) (file_filled FSYNC abcd 400) (mkALog 1 abcd) 2 2).
  - apply (file_filled_refines FSYNC xyz 40); [lia|apply xyz_ok|cbn; lia].
  - cbn. lia.
  - lia.
  - unfold a_next. cbn. lia.
  - repeat constructor; cbn; lia.
  - apply (fr_log _ _ (file_filled_refines FSYNC abcd 400 ltac:(lia) (abcd_ok 4) ltac:(cbn; lia))).
  - unfold a_next. cbn. lia.
  - lia.
  - split; [discriminate|reflexivity].
Defined.

(** The second entry is replaced by a pack, but the old one is returned until the
    next restart. *)
Lemma apply_pack_keeps_stale_cache_witness :
  let bs := default [] (match (pack demo_serialize 2 2 (file_filled FSYNC xyz 40)).1 with Ok bs => Some bs | _ => None end) in
  let f' := (apply_pack demo_deserialize "U" 2 bs (file_filled FSYNC abcd 400)).2 in
  entry_at 2 f' = (Ok (Some (note "b")), f') /\ last_entry f' = note "d" /\
  (logs_getEntry 2 (segment_store f')).1 = Ok (Some (note "x")) /\ next_slot f' = 4.
Proof.
  intros bs f'.
  destruct (apply_pack_keeps_stale_cache demo_deserialize "U" 2 bs 2 (note "b") (file_filled FSYNC abcd 400)) as [H1 H2].
  - vm_compute. reflexivity.
  - split; [exact H1|split; [|split; vm_compute; reflexivity]]. unfold f'. rewrite H2. vm_compute. reflexivity.
Defined.

Lemma replay_reads_log_store_witness :
  exists l f', log_entries_version_ext 2 5 0 (file_filled FSYNC abcd 40) = (Ok (Some l), f') /\
    file_refines f' (mkAFile (mkALog 1 abcd) (note "d")) /\ l.*2 = drop 1 abcd.
Proof.
  destruct (replay_reads_log_store (file_filled FSYNC abcd 40) (mkAFile (mkALog 1 abcd) (note "d")) 2 4 2)
    as (l & f' & H1 & H2 & H3 & _).
  - apply (file_filled_refines FSYNC abcd 40); [lia|apply (abcd_ok 4)|cbn; lia].
  - vm_compute. reflexivity.
  - lia.
  - unfold REPLAY_BATCH. lia.
  - exists l, f'. exact (conj H1 (conj H2 H3)).
Defined.
End runs.
