(* ===== verification/SnapshotFormat.v ===== *)
(** * Snapshot objects: the file format

    [src/src/Service/SnapshotCommon.h/.cpp] and [parseObject] of
    [NuRaftLogSnapshot.cpp]. A snapshot is a set of object files, each a header,
    batches of elements guarded by a checksum, and a tail. A file being written
    is the list of bytes written so far; a file being read is the list of bytes
    from the read position on. *)

From S2P Require Import Prelude Coordination Paths AclMap Sessions DataTree Store Wire Crc.

(** ** Versions and batches *)

Inductive SnapshotVersion := V0 | V1 | V2 | UNKNOWN.

Definition SnapshotVersion_code (v : SnapshotVersion) : Z :=
  match v with V0 => 0 | V1 => 1 | V2 => 2 | UNKNOWN => 255 end.

Definition CURRENT_SNAPSHOT_VERSION : SnapshotVersion := V2.

#[global] Instance SnapshotVersion_eq_dec : EqDecision SnapshotVersion.
Proof. solve_decision. Defined.

(** The enumerators, and any other number a file may hold. *)
Inductive SnapshotBatchType :=
| SNAPSHOT_TYPE_DATA
| SNAPSHOT_TYPE_DATA_EPHEMERAL
| SNAPSHOT_TYPE_CONFIG
| SNAPSHOT_TYPE_SERVER
| SNAPSHOT_TYPE_SESSION
| SNAPSHOT_TYPE_STRINGMAP
| SNAPSHOT_TYPE_UINTMAP
| SNAPSHOT_TYPE_ACLMAP
| SNAPSHOT_TYPE_OTHER (code : Z).

Definition SnapshotBatchType_code (t : SnapshotBatchType) : Z :=
  match t with
  | SNAPSHOT_TYPE_DATA => 0
  | SNAPSHOT_TYPE_DATA_EPHEMERAL => 1
  | SNAPSHOT_TYPE_CONFIG => 2
  | SNAPSHOT_TYPE_SERVER => 3
  | SNAPSHOT_TYPE_SESSION => 4
  | SNAPSHOT_TYPE_STRINGMAP => 5
  | SNAPSHOT_TYPE_UINTMAP => 6
  | SNAPSHOT_TYPE_ACLMAP => 7
  | SNAPSHOT_TYPE_OTHER code => code
  end.

(** [static_cast<SnapshotBatchType>] *)
Definition SnapshotBatchType_of (code : Z) : SnapshotBatchType :=
  match code with
  | 0 => SNAPSHOT_TYPE_DATA
  | 1 => SNAPSHOT_TYPE_DATA_EPHEMERAL
  | 2 => SNAPSHOT_TYPE_CONFIG
  | 3 => SNAPSHOT_TYPE_SERVER
  | 4 => SNAPSHOT_TYPE_SESSION
  | 5 => SNAPSHOT_TYPE_STRINGMAP
  | 6 => SNAPSHOT_TYPE_UINTMAP
  | 7 => SNAPSHOT_TYPE_ACLMAP
  | _ => SNAPSHOT_TYPE_OTHER code
  end.

Record SnapshotBatchBody := mkBatch {
  batch_type : SnapshotBatchType;
  elements : list bytes
}.

(** [cs_new<SnapshotBatchBody>()] is value-initialised: the type is 0. *)
Definition SnapshotBatchBody0 : SnapshotBatchBody := mkBatch SNAPSHOT_TYPE_DATA [].

(** [batch->add(element)] through a pointer that may be null. *)
Definition batch_add (element : bytes) (batch : option SnapshotBatchBody) : outcome SnapshotBatchBody :=
  match batch with
  | Some b => Ok (mkBatch (batch_type b) (elements b ++ [element]))
  | None => Fault UndefinedBehaviour
  end.

Definition element_write (element : bytes) : bytes :=
  writeIntBinary_i32 (Z.of_nat (length element)) ++ element.

Definition batch_serialize (batch_body : SnapshotBatchBody) : bytes :=
  writeIntBinary_i32 (SnapshotBatchType_code (batch_type batch_body)) ++
  writeIntBinary_i32 (Z.of_nat (length (elements batch_body))) ++
  (elements batch_body ≫= element_write).

(** A negative size converts to a [size_t] no string can have. *)
Definition element_read : Reader bytes :=
  (element_size <- readIntBinary_i32 ;;
   if element_size <? 0 then sm_fault (Throw STD_LENGTH_ERROR)
   else readStrict (Z.to_nat element_size))%sm.

Definition batch_parse (data : bytes) : outcome SnapshotBatchBody :=
  ((type <- readIntBinary_i32 ;;
   element_count <- readIntBinary_i32 ;;
   if element_count <? 0 then sm_fault (Throw STD_LENGTH_ERROR)
   else
     es <- read_elems element_read (Z.to_nat element_count) ;;
     sm_ret (mkBatch (SnapshotBatchType_of type) es))%sm data).1.

(** ** Nodes *)

Definition serializeKeeperNode (path : string) (node : KeeperNode) (version : SnapshotVersion) : bytes :=
  write_string path ++ write_string (data node) ++
  (if decide (version = V0) then write_vector write_ACL [] else write_u64 (acl_id node)) ++
  write_bool (is_ephemeral node) ++ write_bool (is_sequential node) ++ write_Stat (stat node).

(** In V0 the list is read and dropped; the number stays value-initialised. *)
Definition read_acl_id (version : SnapshotVersion) : Reader Z :=
  if decide (version = V0) then (_ <- read_vector read_ACL ;; sm_ret 0)%sm else read_u64.

(** [children.reserve(n)] is a hint, but a negative count converts to a size
    near 2^64: the bundled library converts the quotient by the load factor, a
    float, back to an integer it does not fit in. *)
Definition children_reserve (n : Z) : Reader unit :=
  if n <? 0 then sm_fault UndefinedBehaviour else sm_ret tt.

Definition parseKeeperNode (buf : bytes) (version : SnapshotVersion) : outcome (string * KeeperNode) :=
  ((path <- read_string ;;
   data' <- read_string ;;
   acl_id' <- read_acl_id version ;;
   is_ephemeral' <- read_bool ;;
   is_sequential' <- read_bool ;;
   stat' <- read_Stat ;;
   children_reserve (numChildren stat') ;;;
   sm_ret (path, mkKeeperNode data' acl_id' is_ephemeral' is_sequential' stat' ∅))%sm buf).1.

(** ** Writing an object file *)

Definition MAGIC_SNAPSHOT_TAIL : bytes := list_ascii_of_string "SnapTail".
Definition MAGIC_SNAPSHOT_HEAD : bytes := list_ascii_of_string "SnapHead".

(** The union reads the characters as a host-order integer. *)
Definition isSnapshotFileHeader (magic : Z) : bool := bool_decide (magic = le_value MAGIC_SNAPSHOT_HEAD).
Definition isSnapshotFileTail (magic : Z) : bool := bool_decide (magic = le_value MAGIC_SNAPSHOT_TAIL).

Definition openFileAndWriteHeader (version : SnapshotVersion) : bytes :=
  MAGIC_SNAPSHOT_HEAD ++ write_u8 (SnapshotVersion_code version).

Definition writeTailAndClose (out : bytes) (checksum : Z) : bytes :=
  out ++ MAGIC_SNAPSHOT_TAIL ++ le_bytes 4 checksum.

Definition updateCheckSum (checksum data_crc : Z) : Z :=
  getCRC32 (le_bytes 4 checksum ++ le_bytes 4 data_crc).

(** The length is kept in a [UInt32], and that many bytes are written. *)
Definition saveBatchV2 (out : bytes) (batch : option SnapshotBatchBody) : bytes * Z :=
  let str_buf := batch_serialize (default SnapshotBatchBody0 batch) in
  let data_length := u32 (Z.of_nat (length str_buf)) in
  let data_crc := getCRC32 str_buf in
  (out ++ le_bytes 4 data_length ++ le_bytes 4 data_crc ++ take (Z.to_nat data_length) str_buf, data_crc).

(** The file, the batch being filled and the running checksum. *)
Record Writer := mkWriter {
  w_out : bytes;
  w_batch : option SnapshotBatchBody;
  w_checksum : Z
}.

Definition saveBatchAndUpdateCheckSumV2 (w : Writer) : Writer :=
  let r := saveBatchV2 (w_out w) (w_batch w) in
  mkWriter r.1 (Some SnapshotBatchBody0) (updateCheckSum (w_checksum w) r.2).

(** [index % save_batch_size]; dividing by zero is undefined. *)
Definition divides (save_batch_size index : Z) : outcome bool :=
  if decide (save_batch_size = 0) then Fault UndefinedBehaviour
  else Ok (bool_decide (index mod save_batch_size = 0)).

(** The loop the writers of the sessions, the lists and the maps share. *)
Fixpoint batch_loop {A} (type : SnapshotBatchType) (enc : A -> bytes) (save_batch_size : Z)
    (xs : list A) (index : Z) (w : Writer) : outcome Writer :=
  match xs with
  | [] => Ok w
  | x :: xs' =>
      flush ← divides save_batch_size index;
      let w1 := if flush : bool then
                  let w' := if decide (index <> 0) then saveBatchAndUpdateCheckSumV2 w else w in
                  mkWriter (w_out w') (Some (mkBatch type [])) (w_checksum w')
                else w in
      batch ← batch_add (enc x) (w_batch w1);
      batch_loop type enc save_batch_size xs' (u64 (index + 1))
        (mkWriter (w_out w1) (Some batch) (w_checksum w1))
  end.

Definition serialize_object {A} (type : SnapshotBatchType) (enc : A -> bytes) (xs : list A)
    (save_batch_size : Z) (version : SnapshotVersion) : outcome bytes :=
  w ← batch_loop type enc save_batch_size xs 0 (mkWriter (openFileAndWriteHeader version) None 0);
  let w' := saveBatchAndUpdateCheckSumV2 w in
  Ok (writeTailAndClose (w_out w') (w_checksum w')).

Definition acl_element (p : Z * list ACL) : bytes := write_u64 p.1 ++ write_vector write_ACL p.2.
Definition session_element (p : Z * (Z * list AuthID)) : bytes :=
  write_i64 p.1 ++ write_i64 p.2.1 ++ write_vector write_AuthID p.2.2.
Definition map_element (p : string * Z) : bytes := write_string p.1 ++ write_i64 p.2.

Section write.
Context `{IterOrder}.

(** The entries of an [unordered_map], in its iteration order. *)
Definition iter_entries {V} (m : gmap Z V) : list (Z * V) :=
  omap (fun k => v ← m !! k; Some (k, v)) (iter_Z (dom m)).
Definition iter_str_entries {V} (m : gmap string V) : list (string * V) :=
  omap (fun k => v ← m !! k; Some (k, v)) (iter_str (dom m)).

Definition serializeAclsV2 (acls : gmap Z (list ACL)) : Z -> SnapshotVersion -> outcome bytes :=
  serialize_object SNAPSHOT_TYPE_ACLMAP acl_element (iter_entries acls).

Definition serializeSessionsV2 (timeouts : gmap Z Z) (auths : gmap Z (list AuthID))
    : Z -> SnapshotVersion -> outcome bytes :=
  serialize_object SNAPSHOT_TYPE_SESSION session_element
    ((fun p : Z * Z => (p.1, (p.2, default [] (auths !! p.1)))) <$> iter_entries timeouts).

Definition serializeMapV2 (snap_map : gmap string Z) : Z -> SnapshotVersion -> outcome bytes :=
  serialize_object SNAPSHOT_TYPE_UINTMAP map_element (iter_str_entries snap_map).
End write.

(** ** Reading an object file *)

(** What parsing an object changes: the store, the count read from the object
    with the numbers, and the object's own edges and nodes by bucket. *)
Record LoadState := mkLoad {
  ls_store : KeeperStore;
  loaded_objects_count : option Z;
  buckets_edges : BucketEdges;
  bucket_nodes : BucketNodes
}.

Definition load_store (f : KeeperStore -> KeeperStore) (st : LoadState) : LoadState :=
  mkLoad (f (ls_store st)) (loaded_objects_count st) (buckets_edges st) (bucket_nodes st).

(** [catch (...)] *)
Definition catch_corrupted {A} (m : outcome A) : outcome A :=
  match m with
  | Fault (Throw _) => Fault (Throw CORRUPTED_SNAPSHOT)
  | _ => m
  end.

(** [vec[i].emplace_back(x)] *)
Definition emplace_back {A} (i : nat) (x : A) (vec : list (list A)) : list (list A) :=
  alter (fun b => b ++ [x]) i vec.

Definition with_acl_id (x : Z) (n : KeeperNode) : KeeperNode :=
  mkKeeperNode (data n) x (is_ephemeral n) (is_sequential n) (stat n) (children n).

(** The loops over the elements of a batch. *)
Fixpoint element_loop (parse : bytes -> LoadState -> outcome LoadState) (es : list bytes) (st : LoadState)
    : outcome LoadState :=
  match es with
  | [] => Ok st
  | e :: es' => st' ← parse e st; element_loop parse es' st'
  end.

Section read.
Context (hash : string -> Z) (now : Z).

Local Abbreviation idx := (getBucketIndex hash DATA_TREE_BUCKET_NUM).

(** [rslash_pos < 0] is never true of a [size_t]; the rest of the computation
    of the parent's path and of the name is that of [getParentPath] and
    [getBaseName]. *)
Definition parse_node_element (version : SnapshotVersion) (element : bytes) (st : LoadState)
    : outcome LoadState :=
  pn ← catch_corrupted (parseKeeperNode element version);
  let path : string := pn.1 in
  let node1 := if decide (version = V0) then with_acl_id 0 pn.2 else pn.2 in
  let node := if decide (acl_id node1 = 2 ^ 64 - 1) then with_acl_id 0 node1 else node1 in
  let st1 := load_store (with_acl (addUsage (acl_id node) 1)) st in
  let ephemeral_owner := ephemeralOwner (stat node) in
  let st2 := if decide (ephemeral_owner <> 0)
             then load_store (with_ephemerals (mset_add ephemeral_owner path)) st1 else st1 in
  Ok (mkLoad (ls_store st2) (loaded_objects_count st2)
        (if decide (path <> "/")
         then emplace_back (idx (getParentPath path)) (getParentPath path, getBaseName path) (buckets_edges st2)
         else buckets_edges st2)
        (emplace_back (idx path) (path, node) (bucket_nodes st2))).

Definition parseBatchDataV2 (version : SnapshotVersion) (batch : SnapshotBatchBody)
    : LoadState -> outcome LoadState :=
  element_loop (parse_node_element version) (elements batch).

Definition read_session (version : SnapshotVersion) : Reader (Z * (Z * list AuthID)) :=
  (session_id <- read_i64 ;;
   timeout <- read_i64 ;;
   ids <- (if 1 <=? SnapshotVersion_code version then read_vector read_AuthID else sm_ret []) ;;
   sm_ret (session_id, (timeout, ids)))%sm.

Definition parse_session_element (version : SnapshotVersion) (element : bytes) (st : LoadState)
    : outcome LoadState :=
  p ← catch_corrupted (read_session version element).1;
  let st1 := if decide (p.2.2 <> []) then load_store (with_auth (insert p.1 p.2.2)) st else st in
  m ← addSessionID now p.1 p.2.1 (session_manager (ls_store st1));
  Ok (load_store (with_sessions m) st1).

Definition parseBatchSessionV2 (version : SnapshotVersion) (batch : SnapshotBatchBody)
    : LoadState -> outcome LoadState :=
  element_loop (parse_session_element version) (elements batch).

Definition read_acl_entry : Reader (Z * list ACL) :=
  (acl_id' <- read_u64 ;; acls <- read_vector read_ACL ;; sm_ret (acl_id', acls))%sm.

Definition parse_acl_element (element : bytes) (st : LoadState) : outcome LoadState :=
  p ← catch_corrupted (read_acl_entry element).1;
  Ok (load_store (with_acl (addMapping p.1 p.2)) st).

Definition parseBatchAclMapV2 (version : SnapshotVersion) (batch : SnapshotBatchBody) (st : LoadState)
    : outcome LoadState :=
  if 1 <=? SnapshotVersion_code version then element_loop parse_acl_element (elements batch) st else Ok st.

Definition read_map_entry : Reader (string * Z) :=
  (key <- read_string ;; value <- read_i64 ;; sm_ret (key, value))%sm.

(** [int_map[key] = value] for every element. *)
Fixpoint int_map_loop (es : list bytes) (int_map : gmap string Z) : outcome (gmap string Z) :=
  match es with
  | [] => Ok int_map
  | e :: es' =>
      p ← catch_corrupted (read_map_entry e).1;
      int_map_loop es' (<[p.1 := p.2]> int_map)
  end.

(** The caller resets the count first. *)
Definition parseBatchIntMapV2 (batch : SnapshotBatchBody) (st : LoadState) : outcome LoadState :=
  int_map ← int_map_loop (elements batch) ∅;
  let s := ls_store st in
  let s1 := match int_map !! "ZXID" with Some x => with_zxid x s | None => s end in
  let s2 := match int_map !! "SESSIONID" with
            | Some x => with_sessions (setSessionIDCounter x (session_manager s1)) s1
            | None => s1
            end in
  Ok (mkLoad s2 (u32 <$> int_map !! "OBJECTCOUNT") (buckets_edges st) (bucket_nodes st)).

Definition parse_batch_of_type (version : SnapshotVersion) (batch : SnapshotBatchBody) (st : LoadState)
    : outcome LoadState :=
  match batch_type batch with
  | SNAPSHOT_TYPE_DATA => parseBatchDataV2 version batch st
  | SNAPSHOT_TYPE_SESSION => parseBatchSessionV2 version batch st
  | SNAPSHOT_TYPE_ACLMAP => parseBatchAclMapV2 version batch st
  | SNAPSHOT_TYPE_UINTMAP => parseBatchIntMapV2 batch st
  | _ => Ok st
  end.

Definition parseBatchBodyV2 (body_string : bytes) (version : SnapshotVersion) (st : LoadState)
    : outcome LoadState :=
  batch ← batch_parse body_string; parse_batch_of_type version batch st.

(** A batch from the read position on: the position behind it and the checksum.
    A short read leaves the stream in a state in which the next read fails. *)
Definition parse_batch (version : SnapshotVersion) (checksum : Z) (fs : bytes) (st : LoadState)
    : outcome (bytes * Z * LoadState) :=
  if decide (length fs < 8)%nat then Fault (Throw CORRUPTED_SNAPSHOT)
  else
    let data_length := le_value (take 4 fs) in
    let data_crc := le_value (take 4 (drop 4 fs)) in
    let body_buf := drop 8 fs in
    if Z.of_nat (length body_buf) <? data_length then Fault (Throw CORRUPTED_SNAPSHOT)
    else
      let body_string := take (Z.to_nat data_length) body_buf in
      if negb (verifyCRC32 body_string data_crc) then Fault (Throw CORRUPTED_SNAPSHOT)
      else
        st' ← parseBatchBodyV2 body_string version st;
        Ok (drop (Z.to_nat data_length) body_buf, updateCheckSum checksum data_crc, st').

Definition version_of (x : Z) : SnapshotVersion :=
  match x with 0 => V0 | 1 => V1 | 2 => V2 | _ => UNKNOWN end.

(** The loop of [parseObject]. Every turn ends the loop or reads at least the
    eight bytes of a batch header, so the length of the file is enough fuel. *)
Fixpoint parse_loop (fuel : nat) (version_from_obj : SnapshotVersion) (checksum : Z) (fs : bytes)
    (st : LoadState) : outcome LoadState :=
  match fuel with
  | O => Fault Deadlock
  | S fuel' =>
      let continue_with version fs' :=
        r ← parse_batch version checksum fs' st;
        parse_loop fuel' version r.1.2 r.1.1 r.2 in
      if decide (length fs < 8)%nat then
        if decide (version_from_obj = V0) then Ok st else Fault (Throw CORRUPTED_SNAPSHOT)
      else
        let magic := le_value (take 8 fs) in
        let rest := drop 8 fs in
        if isSnapshotFileHeader magic then
          match rest with
          | [] =>
              if SnapshotVersion_code CURRENT_SNAPSHOT_VERSION <? SnapshotVersion_code version_from_obj
              then Fault (Throw UNKNOWN_FORMAT_VERSION) else continue_with version_from_obj []
          | c :: rest' =>
              if SnapshotVersion_code CURRENT_SNAPSHOT_VERSION <? of_byte c
              then Fault (Throw UNKNOWN_FORMAT_VERSION) else continue_with (version_of (of_byte c)) rest'
          end
        else if isSnapshotFileTail magic then
          (** [file_checksum] is not initialised before a read that may fail *)
          if decide (length rest < 4)%nat then Fault UndefinedBehaviour
          else if decide (le_value (take 4 rest) <> checksum) then Fault (Throw CHECKSUM_DOESNT_MATCH)
          else Ok st
        else continue_with (if decide (version_from_obj = UNKNOWN) then V0 else version_from_obj) fs
  end.

Definition parseObject (file : bytes) (st : LoadState) : outcome LoadState :=
  parse_loop (S (length file)) UNKNOWN 0 file st.
End read.

(** ** The format read back *)

Definition bytes_fit (bs : bytes) : Prop := Z.of_nat (length bs) < 2 ^ 31.

#[export] Instance wire_element : WireFormat element_write element_read bytes_fit.
Proof.
  intros e rest He. unfold bytes_fit in He. unfold element_read, element_write. rewrite <- app_assoc.
  rewrite (wire_bind (write := writeIntBinary_i32)) by (unfold in_i32; lia).
  cbn beta. rewrite (proj2 (Z.ltb_ge _ _)) by lia. rewrite Nat2Z.id. apply readStrict_app.
Qed.

Definition batch_fits (b : SnapshotBatchBody) : Prop :=
  SnapshotBatchType_of (SnapshotBatchType_code (batch_type b)) = batch_type b /\
  in_i32 (SnapshotBatchType_code (batch_type b)) /\
  Z.of_nat (length (elements b)) < 2 ^ 31 /\ Forall bytes_fit (elements b).

Lemma batch_parse_serialize b : batch_fits b -> batch_parse (batch_serialize b) = Ok b.
Proof.
  intros (Ht & Hc & Hn & He). unfold batch_parse, batch_serialize.
  rewrite (wire_bind (write := writeIntBinary_i32)) by done. cbn beta.
  rewrite (wire_bind (write := writeIntBinary_i32)) by (unfold in_i32; lia). cbn beta.
  rewrite (proj2 (Z.ltb_ge _ _)), Nat2Z.id by lia.
  rewrite <- (app_nil_r (elements b ≫= element_write)). cbn [sm_bind].
  rewrite read_elems_write by done. cbn [sm_ret fst]. rewrite Ht. by destruct b.
Qed.

(** What the fields of a node must fit into. *)
Record node_fits (path : string) (n : KeeperNode) : Prop := {
  nf_path : string_fits path;
  nf_data : string_fits (data n);
  nf_acl : 0 <= acl_id n < 2 ^ 64 - 1;
  nf_stat : Stat_fits (stat n);
  nf_children : 0 <= numChildren (stat n)
}.

(** A node is read back without its children. *)
Lemma parse_serialize_node path n version :
  node_fits path n -> version <> V0 ->
  parseKeeperNode (serializeKeeperNode path n version) version = Ok (path, cloneWithoutChildren n).
Proof.
  intros [Hp Hd Ha Hs Hc] Hv. unfold parseKeeperNode, serializeKeeperNode, read_acl_id, children_reserve.
  rewrite !decide_False by done. rewrite <- (app_nil_r (write_Stat (stat n))).
  rewrite (wire_bind (write := write_string)) by done. cbn beta.
  rewrite (wire_bind (write := write_string)) by done. cbn beta.
  rewrite (wire_bind (write := write_u64)) by (unfold in_u64; lia). cbn beta. wire.
  by rewrite (proj2 (Z.ltb_ge _ _)).
Qed.

(** *** Objects: a header, batches and a tail *)

Definition batch_frame (b : SnapshotBatchBody) : bytes :=
  le_bytes 4 (Z.of_nat (length (batch_serialize b))) ++
  le_bytes 4 (getCRC32 (batch_serialize b)) ++ batch_serialize b.

Definition batches_checksum (checksum : Z) (bs : list SnapshotBatchBody) : Z :=
  fold_left (fun c b => updateCheckSum c (getCRC32 (batch_serialize b))) bs checksum.

Definition object_file (version : SnapshotVersion) (bs : list SnapshotBatchBody) : bytes :=
  writeTailAndClose (openFileAndWriteHeader version ++ (bs ≫= batch_frame)) (batches_checksum 0 bs).

(** Below a gigabyte the length of a batch is not taken for a magic. *)
Definition frame_fits (b : SnapshotBatchBody) : Prop :=
  batch_fits b /\ Z.of_nat (length (batch_serialize b)) < 2 ^ 30.

Lemma le_value_app a b : le_value (a ++ b) = le_value a + 256 ^ Z.of_nat (length a) * le_value b.
Proof.
  induction a as [|c a IH]; [simpl; lia|]. cbn [app le_value length].
  rewrite IH, Nat2Z.inj_succ, Z.pow_succ_r by lia. lia.
Qed.

(** The two integers before a body, and the body. *)
Lemma frame_parts l c body :
  take 4 (le_bytes 4 l ++ le_bytes 4 c ++ body) = le_bytes 4 l /\
  take 4 (drop 4 (le_bytes 4 l ++ le_bytes 4 c ++ body)) = le_bytes 4 c /\
  take 8 (le_bytes 4 l ++ le_bytes 4 c ++ body) = le_bytes 4 l ++ le_bytes 4 c /\
  drop 8 (le_bytes 4 l ++ le_bytes 4 c ++ body) = body.
Proof.
  split_and!.
  - by rewrite take_app_le, take_ge by (rewrite length_le_bytes; lia).
  - rewrite drop_app_le, drop_ge by (rewrite length_le_bytes; lia). cbn [app].
    by rewrite take_app_le, take_ge by (rewrite length_le_bytes; lia).
  - rewrite app_assoc, take_app_le, take_ge by (rewrite length_app, !length_le_bytes; lia). done.
  - rewrite app_assoc, drop_app_le, drop_ge by (rewrite length_app, !length_le_bytes; lia). done.
Qed.

Lemma batch_frame_app b rest :
  batch_frame b ++ rest =
  le_bytes 4 (Z.of_nat (length (batch_serialize b))) ++ le_bytes 4 (getCRC32 (batch_serialize b)) ++
  batch_serialize b ++ rest.
Proof. unfold batch_frame. by rewrite <- !app_assoc. Qed.

Lemma magic_values :
  le_value MAGIC_SNAPSHOT_HEAD = 1885433427 + 4294967296 * 1684104520 /\
  le_value MAGIC_SNAPSHOT_TAIL = 1885433427 + 4294967296 * 1818845524.
Proof. by vm_compute. Qed.

(** The first eight bytes of a batch are no magic. *)
Lemma frame_no_magic b rest :
  frame_fits b ->
  isSnapshotFileHeader (le_value (take 8 (batch_frame b ++ rest))) = false /\
  isSnapshotFileTail (le_value (take 8 (batch_frame b ++ rest))) = false.
Proof.
  intros [_ Hl]. rewrite batch_frame_app.
  destruct (frame_parts (Z.of_nat (length (batch_serialize b))) (getCRC32 (batch_serialize b)) (batch_serialize b ++ rest))
    as (_ & _ & -> & _).
  rewrite le_value_app, length_le_bytes, !le_value_32.
  2:{ apply getCRC32_u32. } 2:{ unfold in_u32. lia. }
  pose proof (getCRC32_u32 (batch_serialize b)) as Hc. unfold in_u32 in Hc.
  unfold isSnapshotFileHeader, isSnapshotFileTail. rewrite (proj1 magic_values), (proj2 magic_values).
  replace (256 ^ Z.of_nat 4) with 4294967296 by done.
  split; apply bool_decide_eq_false; lia.
Qed.

Section objects.
Context (hash : string -> Z) (now : Z).

Fixpoint parse_batches (version : SnapshotVersion) (bs : list SnapshotBatchBody) (st : LoadState)
    : outcome LoadState :=
  match bs with
  | [] => Ok st
  | b :: bs' => st' ← parse_batch_of_type hash now version b st; parse_batches version bs' st'
  end.

(** The checks of [parse_batch] on a body of the length the header says. *)
Lemma parse_batch_parts version c crc body rest st :
  in_u32 crc -> Z.of_nat (length body) < 2 ^ 32 ->
  parse_batch hash now version c
    (le_bytes 4 (Z.of_nat (length body)) ++ le_bytes 4 crc ++ body ++ rest) st =
  if negb (verifyCRC32 body crc) then Fault (Throw CORRUPTED_SNAPSHOT)
  else st' ← parseBatchBodyV2 hash now body version st; Ok (rest, updateCheckSum c crc, st').
Proof.
  intros Hc Hl. destruct (frame_parts (Z.of_nat (length body)) crc (body ++ rest)) as (E1 & E2 & _ & E3).
  unfold parse_batch. rewrite E1, E2, E3. rewrite decide_False by (rewrite !length_app, !length_le_bytes; lia).
  rewrite !le_value_32; [|done|unfold in_u32; lia].
  rewrite (proj2 (Z.ltb_ge _ _)) by (rewrite length_app; lia). by rewrite Nat2Z.id, take_app_length, drop_app_length.
Qed.

Lemma parse_batch_frame version c b rest st :
  frame_fits b ->
  parse_batch hash now version c (batch_frame b ++ rest) st =
  st' ← parse_batch_of_type hash now version b st;
  Ok (rest, updateCheckSum c (getCRC32 (batch_serialize b)), st').
Proof.
  intros [Hb Hl]. rewrite batch_frame_app, parse_batch_parts by (first [apply getCRC32_u32 | lia]). unfold verifyCRC32. rewrite bool_decide_true by done. cbn [negb].
  unfold parseBatchBodyV2. by rewrite batch_parse_serialize by done.
Qed.

Definition tail_bytes (checksum : Z) : bytes := MAGIC_SNAPSHOT_TAIL ++ le_bytes 4 checksum.

Lemma batches_checksum_u32 c bs : in_u32 c -> in_u32 (batches_checksum c bs).
Proof.
  revert c. induction bs as [|b bs IH]; intros c Hc; [done|]. apply IH, getCRC32_u32.
Qed.

Lemma parse_loop_tail fuel version c st :
  in_u32 c -> (0 < fuel)%nat -> parse_loop hash now fuel version c (tail_bytes c) st = Ok st.
Proof.
  intros Hc Hf. destruct fuel as [|fuel]; [lia|]. cbn [parse_loop].
  change (length (tail_bytes c)) with 12%nat. rewrite decide_False by lia.
  change (take 8 (tail_bytes c)) with MAGIC_SNAPSHOT_TAIL. change (drop 8 (tail_bytes c)) with (le_bytes 4 c).
  change (isSnapshotFileHeader (le_value MAGIC_SNAPSHOT_TAIL)) with false.
  change (isSnapshotFileTail (le_value MAGIC_SNAPSHOT_TAIL)) with true. cbn iota.
  rewrite length_le_bytes, decide_False by lia. rewrite take_ge by (rewrite length_le_bytes; lia).
  rewrite le_value_32 by done. by rewrite decide_False by naive_solver.
Qed.

Lemma parse_loop_batches version bs : forall fuel c st,
  version <> UNKNOWN -> Forall frame_fits bs -> in_u32 c -> (length bs < fuel)%nat ->
  parse_loop hash now fuel version c ((bs ≫= batch_frame) ++ tail_bytes (batches_checksum c bs)) st =
  parse_batches version bs st.
Proof.
  induction bs as [|b bs IH]; intros fuel c st Hv Hbs Hc Hf; [by apply parse_loop_tail|].
  apply Forall_cons in Hbs as [Hb Hbs]. destruct fuel as [|fuel]; [simpl in Hf; lia|].
  rewrite bind_cons, <- app_assoc. set (rest := _ ++ tail_bytes _). cbn [parse_loop].
  destruct (frame_no_magic b rest Hb) as [-> ->]. rewrite decide_False.
  2:{ unfold batch_frame. rewrite !length_app, !length_le_bytes. lia. }
  cbn iota. rewrite decide_False by done. rewrite parse_batch_frame by done. cbn [parse_batches].
  destruct (parse_batch_of_type hash now version b st) as [st'|f]; [|done]. cbn [mbind outcome_bind fst snd].
  apply IH; [done..|apply getCRC32_u32|simpl in Hf; lia].
Qed.

Lemma header_is_header : isSnapshotFileHeader (le_value MAGIC_SNAPSHOT_HEAD) = true.
Proof. by vm_compute. Qed.

Lemma parse_loop_header fuel v0 c version x rest st :
  of_byte x = SnapshotVersion_code version -> version = V1 \/ version = V2 ->
  parse_loop hash now (S fuel) v0 c (MAGIC_SNAPSHOT_HEAD ++ x :: rest) st =
  r ← parse_batch hash now version c rest st; parse_loop hash now fuel version r.1.2 r.1.1 r.2.
Proof.
  intros Hx Hv. cbn [parse_loop]. rewrite decide_False by (rewrite length_app; simpl; lia).
  assert (take 8 (MAGIC_SNAPSHOT_HEAD ++ x :: rest) = MAGIC_SNAPSHOT_HEAD) as -> by done.
  assert (drop 8 (MAGIC_SNAPSHOT_HEAD ++ x :: rest) = x :: rest) as -> by done.
  rewrite header_is_header, Hx. by destruct Hv as [-> | ->].
Qed.

(** An object with at least one batch is read as the sequence of its batches. *)
Lemma parseObject_file version bs st :
  version = V1 \/ version = V2 -> bs <> [] -> Forall frame_fits bs ->
  parseObject hash now (object_file version bs) st = parse_batches version bs st.
Proof.
  intros Hv Hne Hbs. destruct bs as [|b bs]; [done|]. apply Forall_cons in Hbs as [Hb Hbs].
  assert (exists x, of_byte x = SnapshotVersion_code version /\
    object_file version (b :: bs) = MAGIC_SNAPSHOT_HEAD ++ x :: batch_frame b ++ (bs ≫= batch_frame) ++
      tail_bytes (batches_checksum (updateCheckSum 0 (getCRC32 (batch_serialize b))) bs)) as (x & Hx & ->).
  { exists (byte_of (SnapshotVersion_code version)). split; [by destruct Hv as [-> | ->]|].
    unfold object_file, writeTailAndClose, openFileAndWriteHeader. by rewrite bind_cons, <- !app_assoc. }
  unfold parseObject. rewrite (parse_loop_header _ _ _ version) by done.
  rewrite parse_batch_frame by done. cbn [parse_batches].
  destruct (parse_batch_of_type hash now version b st) as [st'|f]; [|done]. cbn [mbind outcome_bind fst snd].
  apply parse_loop_batches; [by destruct Hv as [-> | ->]|done|apply getCRC32_u32|].
  assert (length bs <= length (bs ≫= batch_frame))%nat.
  { clear. induction bs as [|b bs IH]; [done|]. rewrite bind_cons, length_app. unfold batch_frame at 1.
    rewrite length_app, length_le_bytes. simpl. lia. }
  rewrite !length_app. cbn [length]. rewrite !length_app. lia.
Qed.
End objects.

(** *** What the writers leave behind *)

(** The writer that has written the batches [written] and is filling [cur]. *)
Definition writer_of (version : SnapshotVersion) (written : list SnapshotBatchBody)
    (cur : option SnapshotBatchBody) : Writer :=
  mkWriter (openFileAndWriteHeader version ++ (written ≫= batch_frame)) cur (batches_checksum 0 written).

Lemma batches_checksum_snoc c bs b :
  batches_checksum c (bs ++ [b]) = updateCheckSum (batches_checksum c bs) (getCRC32 (batch_serialize b)).
Proof. unfold batches_checksum. by rewrite fold_left_app. Qed.

Lemma save_batch_writer version written cur :
  Z.of_nat (length (batch_serialize (default SnapshotBatchBody0 cur))) < 2 ^ 32 ->
  saveBatchAndUpdateCheckSumV2 (writer_of version written cur) =
  writer_of version (written ++ [default SnapshotBatchBody0 cur]) (Some SnapshotBatchBody0).
Proof.
  intros Hl. unfold saveBatchAndUpdateCheckSumV2, saveBatchV2, writer_of. cbn [w_out w_batch w_checksum fst snd].
  set (b := default _ cur) in *. unfold u32, wrap_u. rewrite Z.mod_small by lia.
  rewrite Nat2Z.id, take_ge by lia. rewrite bind_app, batches_checksum_snoc. cbn [mbind list_bind].
  by rewrite app_nil_r, <- !app_assoc.
Qed.

Lemma close_writer version written cur :
  frame_fits (default SnapshotBatchBody0 cur) ->
  let w := saveBatchAndUpdateCheckSumV2 (writer_of version written cur) in
  writeTailAndClose (w_out w) (w_checksum w) =
  object_file version (written ++ [default SnapshotBatchBody0 cur]).
Proof. intros [_ Hl]. cbv zeta. by rewrite save_batch_writer by lia. Qed.

(** Every run of at most [k] elements makes a batch that fits. *)
Definition windows_fit (type : SnapshotBatchType) (k : Z) (es : list bytes) : Prop :=
  forall a ys b, es = a ++ ys ++ b -> Z.of_nat (length ys) <= k -> frame_fits (mkBatch type ys).

Lemma windows_fit_suffix type k a es : windows_fit type k (a ++ es) -> windows_fit type k es.
Proof. intros Hw b ys c -> Hl. apply (Hw (a ++ b) ys c); [by rewrite app_assoc|done]. Qed.

Lemma windows_fit_prefix type k ys es :
  windows_fit type k (ys ++ es) -> Z.of_nat (length ys) <= k -> frame_fits (mkBatch type ys).
Proof. intros Hw. by apply (Hw [] ys es). Qed.

(** A batch of nothing, or of the type asked for. *)
Definition batch_of (type : SnapshotBatchType) (b : SnapshotBatchBody) : Prop :=
  frame_fits b /\ (batch_type b = type \/ b = SnapshotBatchBody0).

Lemma succ_mod_full k index : 0 < k -> 0 < index -> index mod k = 0 -> (index - 1) mod k = k - 1.
Proof.
  intros Hk Hi Hm. apply Z.mod_divide in Hm as [q ->]; [|lia].
  replace (q * k - 1) with (k - 1 + (q - 1) * k) by lia. rewrite Z_mod_plus_full. apply Z.mod_small. lia.
Qed.

Lemma succ_mod_part k index : 0 < k -> 0 < index -> index mod k <> 0 -> (index - 1) mod k + 1 = index mod k.
Proof.
  intros Hk Hi Hm. pose proof (Z.mod_pos_bound index k Hk). rewrite (Z.div_mod index k) at 1 by lia.
  replace (k * (index / k) + index mod k - 1) with (index mod k - 1 + (index / k) * k) by lia.
  rewrite Z_mod_plus_full, Z.mod_small by lia. lia.
Qed.

Lemma batch_loop_spec {A} type (enc : A -> bytes) k version xs : 0 < k ->
  forall index written ces,
  0 < index -> index + Z.of_nat (length xs) < 2 ^ 64 -> Z.of_nat (length ces) = (index - 1) mod k + 1 ->
  windows_fit type k (ces ++ (enc <$> xs)) ->
  exists full last,
    batch_loop type enc k xs index (writer_of version written (Some (mkBatch type ces))) =
      Ok (writer_of version (written ++ full) (Some last)) /\
    Forall (batch_of type) (full ++ [last]) /\
    concat (elements <$> full ++ [last]) = ces ++ (enc <$> xs).
Proof.
  intros Hk. induction xs as [|x xs IH]; intros index written ces Hi Hn Hl Hw.
  { exists [], (mkBatch type ces). rewrite !app_nil_r in *. split_and!; [done| |cbn; by rewrite app_nil_r].
    apply Forall_singleton. split; [|by left]. apply (Hw [] ces []); [by rewrite app_nil_r|].
    pose proof (Z.mod_pos_bound (index - 1) k Hk). lia. }
  cbn [batch_loop]. unfold divides. rewrite (decide_False (P := k = 0)) by lia. cbn [mbind outcome_bind].
  cbn [length] in Hn. rewrite fmap_cons in Hw |- *. rewrite u64_id by (unfold in_u64; lia).
  destruct (bool_decide_reflect (index mod k = 0)) as [Hm|Hm].
  - rewrite (succ_mod_full k index) in Hl by done.
    assert (frame_fits (mkBatch type ces)) as Hf by (apply (Hw [] ces (enc x :: (enc <$> xs))); [done|lia]).
    rewrite decide_True by lia. rewrite save_batch_writer by (apply (Z.lt_trans _ (2 ^ 30)); [exact (proj2 Hf)|lia]).
    cbn [default batch_add w_out w_batch w_checksum writer_of mbind outcome_bind batch_type elements app].
    destruct (IH (index + 1) (written ++ [mkBatch type ces]) [enc x]) as (full & last & E & Hall & Hc);
      [lia|lia|rewrite Z.add_simpl_r, Hm; done|by apply windows_fit_suffix in Hw|].
    exists (mkBatch type ces :: full), last. split_and!.
    + rewrite <- app_assoc in E. exact E.
    + constructor; [split; [done|by left]|done].
    + cbn. rewrite Hc. done.
  - rewrite (succ_mod_part k index) in Hl by done.
    cbn [batch_add w_out w_batch w_checksum writer_of mbind outcome_bind batch_type elements].
    destruct (IH (index + 1) written (ces ++ [enc x])) as (full & last & E & Hall & Hc);
      [lia|lia|rewrite Z.add_simpl_r, length_app; cbn [length]; lia|by rewrite <- app_assoc|].
    exists full, last. split_and!; [exact E|done|by rewrite Hc, <- app_assoc].
Qed.

Lemma empty_batch_fits : frame_fits SnapshotBatchBody0.
Proof.
  split; [|by vm_compute]. split_and!; [done|by unfold in_i32|by simpl|constructor].
Qed.

Lemma batch_loop_first {A} type (enc : A -> bytes) k version x xs :
  0 < k ->
  batch_loop type enc k (x :: xs) 0 (writer_of version [] None) =
  batch_loop type enc k xs 1 (writer_of version [] (Some (mkBatch type [enc x]))).
Proof.
  intros Hk. cbn [batch_loop]. unfold divides. rewrite (decide_False (P := k = 0)) by lia.
  cbn [mbind outcome_bind]. by rewrite Z.mod_0_l, bool_decide_true by (done || lia).
Qed.

(** The writers of the sessions, the lists and the numbers write an object that
    holds their elements in order. *)
Lemma serialize_object_spec {A} type (enc : A -> bytes) xs k version :
  0 < k -> Z.of_nat (length xs) < 2 ^ 64 -> windows_fit type k (enc <$> xs) ->
  exists bs, serialize_object type enc xs k version = Ok (object_file version bs) /\
    bs <> [] /\ Forall (batch_of type) bs /\ concat (elements <$> bs) = enc <$> xs.
Proof.
  intros Hk Hn Hw. unfold serialize_object.
  assert (mkWriter (openFileAndWriteHeader version) None 0 = writer_of version [] None) as -> by done.
  destruct xs as [|x xs].
  { exists [SnapshotBatchBody0]. cbn [batch_loop mbind outcome_bind].
    rewrite (close_writer version [] None) by apply empty_batch_fits.
    split_and!; [done|done| |done]. apply Forall_singleton. split; [apply empty_batch_fits|by right]. }
  rewrite batch_loop_first by done. cbn [length] in Hn.
  destruct (batch_loop_spec type enc k version xs Hk 1 [] [enc x]) as (full & last & -> & Hall & Hc);
    [lia|lia|by rewrite Z.mod_0_l by lia|done|]. cbn [mbind outcome_bind].
  exists (full ++ [last]).
  rewrite (close_writer version ([] ++ full) (Some last)).
  2:{ apply Forall_app in Hall as [_ Hall]. by apply Forall_singleton in Hall as [? _]. }
  split_and!; [done|by destruct full|done|done].
Qed.

(** Few elements make one batch. *)
Lemma batch_loop_single {A} type (enc : A -> bytes) k version xs : 
  forall index ces, 0 < index -> index + Z.of_nat (length xs) <= k < 2 ^ 64 ->
  batch_loop type enc k xs index (writer_of version [] (Some (mkBatch type ces))) =
  Ok (writer_of version [] (Some (mkBatch type (ces ++ (enc <$> xs))))).
Proof.
  induction xs as [|x xs IH]; intros index ces Hi Hk; [by rewrite app_nil_r|]. cbn [length] in Hk.
  cbn [batch_loop]. unfold divides. rewrite (decide_False (P := k = 0)) by lia. cbn [mbind outcome_bind].
  rewrite bool_decide_false by (rewrite Z.mod_small by lia; lia).
  cbn [batch_add w_out w_batch w_checksum writer_of mbind outcome_bind batch_type elements].
  rewrite u64_id by (unfold in_u64; lia). fold (writer_of version [] (Some (mkBatch type (ces ++ [enc x])))).
  etransitivity; [apply (IH (index + 1) (ces ++ [enc x])); lia|]. by rewrite <- app_assoc.
Qed.

Lemma serialize_object_single {A} type (enc : A -> bytes) xs k version :
  xs <> [] -> Z.of_nat (length xs) <= k < 2 ^ 64 -> frame_fits (mkBatch type (enc <$> xs)) ->
  serialize_object type enc xs k version = Ok (object_file version [mkBatch type (enc <$> xs)]).
Proof.
  intros Hne Hk Hf. destruct xs as [|x xs]; [done|]. cbn [length] in Hk. unfold serialize_object.
  assert (mkWriter (openFileAndWriteHeader version) None 0 = writer_of version [] None) as -> by done.
  rewrite batch_loop_first by lia. rewrite batch_loop_single by lia. cbn [mbind outcome_bind].
  by rewrite (close_writer version [] (Some (mkBatch type ([enc x] ++ (enc <$> xs))))).
Qed.
