(* ===== verification/Snapshot.v ===== *)
(** * Snapshots

    [KeeperSnapshotStore] of [src/src/Service/NuRaftLogSnapshot.h/.cpp]: the
    objects a store is written to and how they are loaded again. The files of a
    snapshot are a finite map from the object id to the content;
    [objects_path] and the file system are folded into it. *)

From S2P Require Import Prelude Coordination Paths AclMap Sessions DataTree Store StoreTree Wire Crc.
From S2P Require Import SnapshotFormat.

(** What the code uses of [nuraft::snapshot]. *)
Record SnapMeta := mkMeta {
  last_log_term : Z;
  last_log_idx : Z;
  meta_size : Z
}.

Abbreviation Objects := (gmap Z bytes).

Definition MAX_OBJECT_NODE_SIZE : Z := 1000000.
Definition SAVE_BATCH_SIZE : Z := 10000.

(** The sizes a [KeeperSnapshotStore] works with: its constructor replaces an
    object size of zero. *)
Record SnapConfig := mkConfig {
  snap_version : SnapshotVersion;
  max_object_node_size : Z;
  save_batch_size : Z
}.

Definition KeeperSnapshotStore_config (max_object_node_size_ save_batch_size_ : Z)
    (version : SnapshotVersion) : SnapConfig :=
  mkConfig version (if decide (max_object_node_size_ = 0) then MAX_OBJECT_NODE_SIZE else max_object_node_size_)
    save_batch_size_.

(** ** Writing the data tree *)

(** The objects finished so far, the id of the one [out] writes to ([None] is
    the null pointer), the file with its batch, and the nodes processed. *)
Record TreeWriter := mkTree {
  closed : list (Z * bytes);
  cur_id : option Z;
  cur : Writer;
  processed : Z
}.

Definition TreeWriter0 : TreeWriter := mkTree [] None (mkWriter [] None 0) 0.

(** [saveBatchAndUpdateCheckSumV2(out, batch, checksum)]; [out] may be null. *)
Definition flush_batch (w : TreeWriter) : outcome TreeWriter :=
  match cur_id w with
  | None => Fault UndefinedBehaviour
  | Some _ => Ok (mkTree (closed w) (cur_id w) (saveBatchAndUpdateCheckSumV2 (cur w)) (processed w))
  end.

(** [writeTailAndClose(out, checksum)] *)
Definition close_out (w : TreeWriter) : outcome TreeWriter :=
  match cur_id w with
  | None => Fault UndefinedBehaviour
  | Some id =>
      Ok (mkTree (closed w ++ [(id, writeTailAndClose (w_out (cur w)) (w_checksum (cur w)))])
            (cur_id w) (cur w) (processed w))
  end.

(** The data objects follow the three others. *)
Definition open_object (version : SnapshotVersion) (object_id : Z) (w : TreeWriter) : TreeWriter :=
  mkTree (closed w) (Some object_id)
    (mkWriter (openFileAndWriteHeader version) (w_batch (cur w)) (w_checksum (cur w))) (processed w).

Definition reset_checksum (w : TreeWriter) : TreeWriter :=
  mkTree (closed w) (cur_id w) (mkWriter (w_out (cur w)) (w_batch (cur w)) 0) (processed w).

Definition with_batch (batch : SnapshotBatchBody) (w : TreeWriter) : TreeWriter :=
  mkTree (closed w) (cur_id w) (mkWriter (w_out (cur w)) (Some batch) (w_checksum (cur w))) (processed w).

Definition new_object (c : SnapConfig) (w : TreeWriter) : outcome TreeWriter :=
  time_to_create ← divides (max_object_node_size c) (processed w);
  if time_to_create : bool then
    let obj_id := processed w / max_object_node_size c in
    w' ← (if decide (obj_id <> 0)
          then w1 ← flush_batch w; w2 ← close_out w1; Ok (reset_checksum w2) else Ok w);
    Ok (open_object (snap_version c) (obj_id + 4) w')
  else Ok w.

Definition new_batch (c : SnapConfig) (w : TreeWriter) : outcome TreeWriter :=
  flush ← divides (save_batch_size c) (processed w);
  if flush : bool then
    if decide (processed w <> 0) then flush_batch w
    else Ok (with_batch (default SnapshotBatchBody0 (w_batch (cur w))) w)
  else Ok w.

(** The node is written field by field the way [serializeKeeperNode] does. *)
Definition appendNodeToBatchV2 (batch : option SnapshotBatchBody) (path : string) (node : KeeperNode)
    (version : SnapshotVersion) : outcome SnapshotBatchBody :=
  batch_add (serializeKeeperNode path node version) batch.

(** The body of the loop of [serializeNodeAsync], which [serializeNodeV2] shares. *)
Definition append_node (c : SnapConfig) (p : string * KeeperNode) (w : TreeWriter) : outcome TreeWriter :=
  w1 ← new_object c w;
  w2 ← new_batch c w1;
  batch ← appendNodeToBatchV2 (w_batch (cur w2)) p.1 p.2 (snap_version c);
  let w3 := with_batch batch w2 in
  Ok (mkTree (closed w3) (cur_id w3) (cur w3) (u64 (processed w3 + 1))).

Fixpoint append_nodes (c : SnapConfig) (nodes : list (string * KeeperNode)) (w : TreeWriter)
    : outcome TreeWriter :=
  match nodes with
  | [] => Ok w
  | p :: nodes' => w' ← append_node c p w; append_nodes c nodes' w'
  end.

Definition serializeNodeAsync (c : SnapConfig) (nodes : BucketNodes) : outcome TreeWriter :=
  append_nodes c (concat nodes) TreeWriter0.

(** Ends the last object. *)
Definition finish_tree (w : TreeWriter) : outcome (list (Z * bytes)) :=
  w1 ← flush_batch w; w2 ← close_out w1; Ok (closed w2).

Definition serializeDataTreeAsync (c : SnapConfig) (nodes : BucketNodes) : outcome (list (Z * bytes)) :=
  w ← serializeNodeAsync c nodes; finish_tree w.

Section create.
Context `{IterOrder} (hash : string -> Z).

(** [for (child : node->children) serializeNodeV2(..., path_with_slash + child, ...)] *)
Definition serialize_children (serialize : string -> TreeWriter -> outcome TreeWriter) (path_with_slash : string)
    : list string -> TreeWriter -> outcome TreeWriter :=
  fix children_loop cs w :=
    match cs with
    | [] => Ok w
    | child :: cs' => w' ← serialize (path_with_slash ++ child)%string w; children_loop cs' w'
    end.

(** The synchronous variant walks the tree from the root. The depth of the
    tree bounds the recursion. *)
Fixpoint serializeNodeV2 (fuel : nat) (c : SnapConfig) (t : Tree) (path : string) (w : TreeWriter)
    : outcome TreeWriter :=
  match fuel with
  | O => Fault Deadlock
  | S fuel' =>
      match t !! path with
      | None => Ok w
      | Some node =>
          w1 ← append_node c (path, clone node) w;
          let path_with_slash := if decide (path <> "/") then (path ++ "/")%string else path in
          serialize_children (serializeNodeV2 fuel' c t) path_with_slash (iter_str (children node)) w1
      end
  end.

Definition serializeDataTreeV2 (c : SnapConfig) (t : Tree) : outcome (list (Z * bytes)) :=
  w ← serializeNodeV2 (S (size t)) c t "/" TreeWriter0; finish_tree w.

(** ** The objects of a snapshot *)

(** The buckets a finite map is spread over, and back. *)
Definition node_map_of (t : Tree) : KeeperNodeMap KeeperNode :=
  mkNodeMap ((fun i => filter (fun p => getBucketIndex hash DATA_TREE_BUCKET_NUM p.1 = i) t) <$>
             seq 0 DATA_TREE_BUCKET_NUM) (u64 (Z.of_nat (size t))).

Definition tree_of (m : KeeperNodeMap KeeperNode) : Tree := foldr (∪) ∅ (buckets m).

(** What is taken from the store before the objects are written. *)
Record SnapTask := mkTask {
  next_zxid : Z;
  next_session_id : Z;
  nodes_count : Z;
  ephemeral_nodes_count : Z;
  session_count : Z;
  task_timeouts : gmap Z Z;
  task_acl_map : gmap Z (list ACL);
  task_auths : gmap Z (list AuthID);
  buckets_nodes : BucketNodes
}.

Definition SnapTask_of (s : KeeperStore) : SnapTask :=
  mkTask (zxid s) (session_id_counter (session_manager s)) (getNodesCount s)
    (getTotalEphemeralNodesCount s) (getSessionCount (session_manager s))
    (session_and_timeout (session_manager s)) (num_to_acl (acl_map s)) (session_and_auth s)
    (dumpDataTree (node_map_of (data_tree s))).

Definition int_map_of (zxid' session_id total_obj_count : Z) : gmap string Z :=
  <["OBJECTCOUNT" := i64 total_obj_count]> (<["SESSIONID" := session_id]> (<["ZXID" := zxid']> ∅)).

(** The three objects before the data. *)
Definition create_header_objects (c : SnapConfig) (int_map : gmap string Z) (timeouts : gmap Z Z)
    (auths : gmap Z (list AuthID)) (acls : gmap Z (list ACL)) : outcome (list (Z * bytes)) :=
  o1 ← serializeMapV2 int_map (save_batch_size c) (snap_version c);
  o2 ← serializeSessionsV2 timeouts auths (save_batch_size c) (snap_version c);
  o3 ← serializeAclsV2 acls (save_batch_size c) (snap_version c);
  Ok [(1, o1); (2, o2); (3, o3)].

Definition createObjectsAsyncImpl (c : SnapConfig) (meta : SnapMeta) (t : SnapTask) : outcome Objects :=
  if decide (meta_size meta = 0) then Ok ∅
  else
    let data_object_count :=
      i64 (nodes_count t + max_object_node_size c - 1) / max_object_node_size c in
    head ← create_header_objects c (int_map_of (next_zxid t) (next_session_id t) (data_object_count + 3))
             (task_timeouts t) (task_auths t) (task_acl_map t);
    data ← serializeDataTreeAsync c (buckets_nodes t);
    Ok (list_to_map (head ++ data)).

Definition createObjectsV2 (c : SnapConfig) (meta : SnapMeta) (s : KeeperStore) (zxid' session_id : Z)
    : outcome Objects :=
  if decide (meta_size meta = 0) then Ok ∅
  else
    let data_object_count :=
      getNodesCount s / max_object_node_size c +
      (if decide (getNodesCount s mod max_object_node_size c <> 0) then 1 else 0) in
    head ← create_header_objects c (int_map_of zxid' session_id (data_object_count + 3))
             (session_and_timeout (session_manager s)) (session_and_auth s) (num_to_acl (acl_map s));
    data ← serializeDataTreeV2 c (data_tree s);
    Ok (list_to_map (head ++ data)).

(** ** Loading *)

(** The state the parsing threads share: the store and the count read, and a
    slot for the edges and the nodes of every object. *)
Record ParseState := mkParse {
  ps_store : KeeperStore;
  ps_count : option Z;
  all_objects_edges : list BucketEdges;
  all_objects_nodes : list BucketNodes
}.

Definition no_buckets {A} : list (list A) := replicate DATA_TREE_BUCKET_NUM [].

(** Parses the object in position [obj_idx] of [objects_path]. *)
Definition parse_object_at (now : Z) (files : list bytes) (obj_idx : nat) (ps : ParseState)
    : outcome ParseState :=
  match files !! obj_idx with
  | None => Ok ps
  | Some file =>
      st ← parseObject hash now file (mkLoad (ps_store ps) (ps_count ps) no_buckets no_buckets);
      Ok (mkParse (ls_store st) (loaded_objects_count st)
            (<[obj_idx := buckets_edges st]> (all_objects_edges ps))
            (<[obj_idx := bucket_nodes st]> (all_objects_nodes ps)))
  end.

Fixpoint parse_objects (now : Z) (files : list bytes) (order : list nat) (ps : ParseState)
    : outcome ParseState :=
  match order with
  | [] => Ok ps
  | i :: order' => ps' ← parse_object_at now files i ps; parse_objects now files order' ps'
  end.

(** [objects_path] is an ordered map: its values by increasing id. *)
Definition object_files (objs : Objects) : list bytes :=
  omap (fun id => objs !! id) (sorted_keys objs).

(** [begin()->first] and [rbegin()->first] of an empty map are undefined, and
    the third disjunct of the test compares a size with itself. [order] and
    [ids] are the orders in which the threads take the objects and the buckets;
    an object is parsed, and a bucket filled, as a whole. *)
Definition loadLatestSnapshot (now : Z) (order ids : list nat) (objs : Objects) (s : KeeperStore)
    : outcome KeeperStore :=
  let objects_cnt := Z.of_nat (size objs) in
  match head (sorted_keys objs), last (sorted_keys objs) with
  | Some first_id, Some last_id =>
      if decide (first_id <> 1 \/ last_id <> objects_cnt)
      then Fault (Throw SNAPSHOT_OBJECT_INCOMPLETE)
      else
        ps ← parse_objects now (object_files objs) order
               (mkParse s None (replicate (size objs) no_buckets) (replicate (size objs) no_buckets));
        if negb (from_option (Z.eqb objects_cnt) true (ps_count ps))
        then Fault (Throw SNAPSHOT_OBJECT_INCOMPLETE)
        else
          m ← load_buckets hash (all_objects_nodes ps) (all_objects_edges ps) ids
                (node_map_of (data_tree (ps_store ps)));
          Ok (with_tree (fun _ => tree_of m) (ps_store ps))
  | _, _ => Fault UndefinedBehaviour
  end.

(** ** Buckets and trees *)

Local Abbreviation idx := (getBucketIndex hash DATA_TREE_BUCKET_NUM).
Local Abbreviation rel := (node_rel hash DATA_TREE_BUCKET_NUM).

Lemma node_map_of_bucket t i k :
  getMap i (node_map_of t) !! k = if decide (idx k = i) then t !! k else None.
Proof.
  unfold getMap, node_map_of. cbn [buckets]. rewrite list_lookup_fmap.
  destruct (seq 0 DATA_TREE_BUCKET_NUM !! i) as [j|] eqn:Ei; cbn.
  - apply lookup_seq in Ei as [-> Hi]. rewrite Nat.add_0_l. rewrite map_lookup_filter.
    destruct (t !! k) as [n|]; cbn; by case_decide; cbn; repeat case_guard.
  - apply lookup_ge_None in Ei. rewrite length_seq in Ei. rewrite lookup_empty. case_decide as Hk; [|done].
    pose proof (getBucketIndex_lt hash DATA_TREE_BUCKET_NUM bucket_num_pos k). lia.
Qed.

Lemma node_map_of_rel t : rel (node_map_of t) t.
Proof.
  split.
  - unfold node_map_of. cbn [buckets]. by rewrite length_fmap, length_seq.
  - intros k. unfold node_get. rewrite node_map_of_bucket. by rewrite decide_True.
  - intros i k. rewrite node_map_of_bucket. case_decide; [done|by intros []].
  - done.
Qed.

Lemma lookup_tree_of (bs : list Tree) k n :
  (foldr (∪) ∅ bs : Tree) !! k = Some n ->
  exists i b, bs !! i = Some b /\ b !! k = Some n.
Proof.
  induction bs as [|b bs IH]; cbn [foldr]; [by rewrite lookup_empty|].
  intros [Hb|[_ Hb]]%lookup_union_Some_raw; [by exists 0%nat, b|].
  destruct (IH Hb) as (i & b' & ? & ?). by exists (S i), b'.
Qed.

Lemma lookup_tree_of_None (bs : list Tree) k :
  (foldr (∪) ∅ bs : Tree) !! k = None -> forall i b, bs !! i = Some b -> b !! k = None.
Proof.
  induction bs as [|b bs IH]; cbn [foldr]; [done|]. intros [Hb Hbs]%lookup_union_None [|i] b' Hi.
  - by injection Hi as <-.
  - by eapply IH.
Qed.

Lemma tree_of_rel m t : rel m t -> tree_of m = t.
Proof.
  intros Hr. apply map_eq. intros k. rewrite <- (nr_lookup _ _ _ _ Hr k). unfold node_get, getMap.
  destruct (tree_of m !! k) as [n|] eqn:E.
  - apply lookup_tree_of in E as (i & b & Hi & Hb).
    assert (idx k = i) as ->.
    { apply (nr_placed _ _ _ _ Hr). unfold getMap. by rewrite Hi. }
    by rewrite Hi.
  - destruct (buckets m !! idx k) as [b|] eqn:Hb; cbn; [|by rewrite lookup_empty].
    symmetry. by eapply lookup_tree_of_None.
Qed.
End create.

(** ** The objects the tree is written to *)

Section tree_writer.
Context (c : SnapConfig).
Hypothesis max_pos : 0 < max_object_node_size c.
Hypothesis batch_pos : 0 < save_batch_size c.

Local Abbreviation v := (snap_version c).
Local Abbreviation data_batch := (mkBatch SNAPSHOT_TYPE_DATA).
Local Abbreviation node_bytes := (fun p : string * KeeperNode => serializeKeeperNode p.1 p.2 v).

(** The data objects holding the batches [objs], numbered from 4. *)
Definition data_files (objs : list (list SnapshotBatchBody)) : list (Z * bytes) :=
  imap (fun i bs => (Z.of_nat i + 4, object_file v bs)) objs.

Definition tree_state (objs : list (list SnapshotBatchBody)) (written : list SnapshotBatchBody)
    (ces : list bytes) (p : Z) : TreeWriter :=
  mkTree (data_files objs) (Some (Z.of_nat (length objs) + 4)) (writer_of v written (Some (data_batch ces))) p.

(** The elements of an unfinished sequence of objects, in order. *)
Definition contents (objs : list (list SnapshotBatchBody)) : list bytes :=
  concat (elements <$> concat objs).

Lemma contents_app o1 o2 : contents (o1 ++ o2) = contents o1 ++ contents o2.
Proof. unfold contents. by rewrite concat_app, fmap_app, concat_app. Qed.

Lemma contents_single written ces : contents [written ++ [data_batch ces]] = concat (elements <$> written) ++ ces.
Proof. unfold contents. cbn. by rewrite app_nil_r, fmap_app, concat_app; cbn; rewrite app_nil_r. Qed.

Lemma data_files_snoc objs bs :
  data_files (objs ++ [bs]) = data_files objs ++ [(Z.of_nat (length objs) + 4, object_file v bs)].
Proof. unfold data_files. rewrite imap_app. cbn. by rewrite Nat.add_0_r. Qed.

Lemma frame_small b : frame_fits b -> Z.of_nat (length (batch_serialize b)) < 2 ^ 32.
Proof. intros [_ Hb]. lia. Qed.

Lemma flush_state objs written ces p :
  frame_fits (data_batch ces) ->
  flush_batch (tree_state objs written ces p) = Ok (tree_state objs (written ++ [data_batch ces]) [] p).
Proof.
  intros Hf. unfold flush_batch, tree_state. cbn [cur_id closed cur processed].
  rewrite save_batch_writer; [done|]. by apply frame_small.
Qed.

Lemma new_object_state objs written ces p :
  0 < p -> Z.of_nat (length objs) = (p - 1) / max_object_node_size c -> frame_fits (data_batch ces) ->
  new_object c (tree_state objs written ces p) =
  Ok (if decide (p mod max_object_node_size c = 0)
      then tree_state (objs ++ [written ++ [data_batch ces]]) [] [] p else tree_state objs written ces p).
Proof.
  intros Hp Hl Hf. unfold new_object, divides. rewrite (decide_False (P := max_object_node_size c = 0)) by lia.
  cbn [mbind outcome_bind processed tree_state]. destruct (decide (p mod max_object_node_size c = 0)) as [Hm|Hm];
    [|by rewrite (bool_decide_false _ Hm)].
  rewrite bool_decide_true by done. set (M := max_object_node_size c) in *.
  assert (p / M = Z.of_nat (length objs) + 1) as Hq.
  { apply Z.mod_divide in Hm as [q ->]; [|lia]. rewrite Z.div_mul by lia. rewrite Hl.
    replace (q * M - 1) with (M - 1 + (q - 1) * M) by lia. rewrite Z.div_add, Z.div_small by lia. lia. }
  rewrite decide_True by lia. fold (tree_state objs written ces p). rewrite flush_state by done.
  cbn [mbind outcome_bind close_out cur_id tree_state]. unfold reset_checksum, open_object, tree_state.
  cbn [closed cur_id cur processed w_out w_batch w_checksum writer_of].
  rewrite data_files_snoc, length_app, Hq. unfold writer_of. cbn [length w_out w_batch w_checksum]. do 2 f_equal.
  f_equal. lia.
Qed.

Lemma new_batch_state objs written ces p :
  0 < p -> frame_fits (data_batch ces) ->
  new_batch c (tree_state objs written ces p) =
  Ok (if decide (p mod save_batch_size c = 0)
      then tree_state objs (written ++ [data_batch ces]) [] p else tree_state objs written ces p).
Proof.
  intros Hp Hf. unfold new_batch, divides. rewrite (decide_False (P := save_batch_size c = 0)) by lia.
  cbn [mbind outcome_bind processed tree_state]. destruct (decide (p mod save_batch_size c = 0)) as [Hm|Hm];
    [|by rewrite (bool_decide_false _ Hm)].
  rewrite bool_decide_true, decide_True by (done || lia). by apply flush_state.
Qed.

Lemma div_pred_stay M p : 0 < M -> 0 < p -> p mod M <> 0 -> (p - 1) / M = p / M.
Proof.
  intros HM Hp Hm. pose proof (Z.mod_pos_bound p M HM). rewrite (Z.div_mod p M) at 1 by lia.
  replace (M * (p / M) + p mod M - 1) with (p mod M - 1 + (p / M) * M) by lia.
  rewrite Z.div_add, Z.div_small by lia. lia.
Qed.

Lemma div_pred_next M p : 0 < M -> 0 < p -> p mod M = 0 -> (p - 1) / M + 1 = p / M.
Proof.
  intros HM Hp Hm. apply Z.mod_divide in Hm as [q ->]; [|lia]. rewrite Z.div_mul by lia.
  replace (q * M - 1) with (M - 1 + (q - 1) * M) by lia. rewrite Z.div_add, Z.div_small by lia. lia.
Qed.

(** One node: the objects and batches it closes, and the batch it joins. *)
Lemma append_node_state objs written ces p x :
  0 < p < 2 ^ 64 - 1 -> Z.of_nat (length objs) = (p - 1) / max_object_node_size c ->
  Z.of_nat (length ces) <= (p - 1) mod save_batch_size c + 1 -> frame_fits (data_batch ces) ->
  Forall (batch_of SNAPSHOT_TYPE_DATA) written ->
  exists more written1 ces1,
    append_node c x (tree_state objs written ces p) =
      Ok (tree_state (objs ++ more) written1 (ces1 ++ [node_bytes x]) (p + 1)) /\
    contents (more ++ [written1 ++ [data_batch ces1]]) = contents [written ++ [data_batch ces]] /\
    (ces1 = ces \/ ces1 = []) /\ Z.of_nat (length ces1) <= p mod save_batch_size c /\
    Forall (fun bs => bs <> []) more /\ Z.of_nat (length (objs ++ more)) = p / max_object_node_size c /\
    Forall (batch_of SNAPSHOT_TYPE_DATA) (concat more ++ written1).
Proof.
  intros Hp Hl Hc Hf Hw. set (M := max_object_node_size c) in *. set (k := save_batch_size c) in *.
  pose proof (Z.mod_pos_bound p k batch_pos) as Hk.
  assert (forall objs' written' ces', append_node c x (tree_state objs written ces p) =
    (let w := tree_state objs' written' ces' p in
     batch ← batch_add (node_bytes x) (w_batch (cur w));
     let w3 := with_batch batch w in Ok (mkTree (closed w3) (cur_id w3) (cur w3) (u64 (processed w3 + 1)))) ->
    append_node c x (tree_state objs written ces p) =
      Ok (tree_state objs' written' (ces' ++ [node_bytes x]) (p + 1))) as Hadd.
  { intros objs' written' ces' ->. cbn. rewrite u64_id by (unfold in_u64; lia). done. }
  assert (batch_of SNAPSHOT_TYPE_DATA (data_batch ces)) as Hb by (split; [done|by left]).
  assert (append_node c x (tree_state objs written ces p) = append_node c x (tree_state objs written ces p)) as E by done.
  unfold append_node at 2 in E. rewrite new_object_state in E by (done || lia). fold M in E.
  destruct (decide (p mod M = 0)) as [Hm|Hm]; cbn [mbind outcome_bind] in E;
    (rewrite new_batch_state in E; [|lia|first [exact Hf|exact empty_batch_fits]]); fold k in E;
    (destruct (decide (p mod k = 0)) as [Hm'|Hm']; cbn [mbind outcome_bind] in E; apply Hadd in E).
  - exists [written ++ [data_batch ces]], [data_batch []], []. split_and!; [exact E| |by right|simpl; lia|..].
    + rewrite contents_app, (contents_single [data_batch []] []). cbn. by rewrite app_nil_r.
    + apply Forall_singleton. by destruct written.
    + rewrite length_app. cbn [length]. pose proof (div_pred_next M p max_pos). lia.
    + cbn. rewrite app_nil_r, <- app_assoc. rewrite !Forall_app, !Forall_singleton.
      split_and!; [done|done|split; [apply empty_batch_fits|by right]].
  - exists [written ++ [data_batch ces]], [], []. split_and!; [exact E| |by right|simpl; lia|..].
    + rewrite contents_app, (contents_single [] []). cbn. by rewrite app_nil_r.
    + apply Forall_singleton. by destruct written.
    + rewrite length_app. cbn [length]. pose proof (div_pred_next M p max_pos). lia.
    + cbn. rewrite !app_nil_r, !Forall_app, !Forall_singleton. done.
  - exists [], (written ++ [data_batch ces]), []. rewrite app_nil_r. split_and!; [exact E| |by right|simpl; lia|done|..].
    + rewrite !app_nil_l, !contents_single, fmap_app, concat_app. cbn. by rewrite !app_nil_r.
    + pose proof (div_pred_stay M p max_pos). lia.
    + cbn. by rewrite Forall_app, Forall_singleton.
  - exists [], written, ces. rewrite app_nil_r. split_and!; [exact E|done|by left| |done| |done].
    + pose proof (succ_mod_part k p batch_pos). lia.
    + pose proof (div_pred_stay M p max_pos). lia.
Qed.

Lemma append_nodes_state L : forall objs written ces p,
  0 < p -> p + Z.of_nat (length L) < 2 ^ 64 -> Z.of_nat (length objs) = (p - 1) / max_object_node_size c ->
  Z.of_nat (length ces) <= (p - 1) mod save_batch_size c + 1 ->
  windows_fit SNAPSHOT_TYPE_DATA (save_batch_size c) (ces ++ (node_bytes <$> L)) ->
  Forall (batch_of SNAPSHOT_TYPE_DATA) written ->
  exists more written1 ces1,
    append_nodes c L (tree_state objs written ces p) =
      Ok (tree_state (objs ++ more) written1 ces1 (p + Z.of_nat (length L))) /\
    contents (more ++ [written1 ++ [data_batch ces1]]) =
      contents [written ++ [data_batch ces]] ++ (node_bytes <$> L) /\
    Forall (fun bs => bs <> []) more /\
    Z.of_nat (length (objs ++ more)) = (p + Z.of_nat (length L) - 1) / max_object_node_size c /\
    Forall (batch_of SNAPSHOT_TYPE_DATA) (concat more ++ written1 ++ [data_batch ces1]).
Proof.
  induction L as [|x L IH]; intros objs written ces p Hp Hn Hl Hc Hf Hw;
    pose proof (Z.mod_pos_bound (p - 1) (save_batch_size c) batch_pos) as Hk;
    assert (frame_fits (data_batch ces)) as Hces by
      (eapply windows_fit_prefix; [exact Hf|lia]).
  - exists [], written, ces. rewrite Z.add_0_r, !app_nil_r. split_and!; [done|done|done|done|].
    cbn [concat app]. rewrite Forall_app, Forall_singleton. split; [done|]. split; [done|by left].
  - cbn [append_nodes length] in *. rewrite fmap_cons in Hf |- *.
    destruct (append_node_state objs written ces p x) as (m1 & w1 & c1 & -> & Ec & Hc1 & Hlen & Hne & Hl1 & Hb);
      [lia|done..|]. cbn [mbind outcome_bind].
    apply Forall_app in Hb as [Hb1 Hb2].
    destruct (IH (objs ++ m1) w1 (c1 ++ [node_bytes x]) (p + 1)) as (m2 & w2 & c2 & E & Ec2 & Hne2 & Hl2 & Hb3).
    + lia.
    + lia.
    + by rewrite Z.add_simpl_r.
    + rewrite Z.add_simpl_r, length_app. cbn [length]. lia.
    + rewrite <- app_assoc. destruct Hc1 as [-> | ->]; [done|]. by apply windows_fit_suffix in Hf.
    + done.
    + exists (m1 ++ m2), w2, c2. rewrite E, <- !app_assoc.
      replace (p + Z.of_nat (S (length L))) with (p + 1 + Z.of_nat (length L)) by lia.
      split_and!; [done| |by apply Forall_app|by rewrite app_assoc|].
      * rewrite contents_app, Ec2, !contents_single. rewrite contents_app, contents_single in Ec.
        rewrite contents_single in Ec. rewrite <- Ec, <- !app_assoc. done.
      * rewrite concat_app, <- app_assoc. by apply Forall_app.
Qed.

Lemma append_first x : append_node c x TreeWriter0 = Ok (tree_state [] [] [node_bytes x] 1).
Proof.
  assert (new_object c TreeWriter0 = Ok (open_object v 4 TreeWriter0)) as E1.
  { unfold new_object, divides. rewrite (decide_False (P := max_object_node_size c = 0)) by lia.
    cbn [mbind outcome_bind processed TreeWriter0].
    by rewrite Z.mod_0_l, Z.div_0_l by lia. }
  assert (new_batch c (open_object v 4 TreeWriter0) =
    Ok (with_batch SnapshotBatchBody0 (open_object v 4 TreeWriter0))) as E2.
  { unfold new_batch, divides. rewrite (decide_False (P := save_batch_size c = 0)) by lia.
    cbn [mbind outcome_bind processed TreeWriter0 open_object]. by rewrite Z.mod_0_l by lia. }
  unfold append_node. rewrite E1. cbn [mbind outcome_bind]. by rewrite E2.
Qed.

(** The nodes are spread over objects of [max_object_node_size] nodes, in
    batches that the loader can read, and none is lost. *)
Lemma tree_objects_spec L :
  L <> [] -> Z.of_nat (length L) < 2 ^ 64 ->
  windows_fit SNAPSHOT_TYPE_DATA (save_batch_size c) (node_bytes <$> L) ->
  exists objs, (w ← append_nodes c L TreeWriter0; finish_tree w) = Ok (data_files objs) /\
    Forall (fun bs => bs <> []) objs /\ Forall (batch_of SNAPSHOT_TYPE_DATA) (concat objs) /\
    contents objs = node_bytes <$> L /\
    Z.of_nat (length objs) = (Z.of_nat (length L) - 1) / max_object_node_size c + 1.
Proof.
  intros Hne Hn Hf. destruct L as [|x L]; [done|]. cbn [append_nodes length] in *.
  rewrite append_first. cbn [mbind outcome_bind]. rewrite fmap_cons in Hf |- *.
  destruct (append_nodes_state L [] [] [node_bytes x] 1) as (more & w1 & c1 & -> & Ec & Hm & Hl & Hb);
    [lia|lia|by rewrite Z.div_0_l by lia|rewrite Z.mod_0_l by lia; cbn [length]; lia|done|done|].
  cbn [mbind outcome_bind app] in *. unfold finish_tree. rewrite flush_state.
  2:{ rewrite !Forall_app, Forall_singleton in Hb. by destruct Hb as (_ & _ & [? _]). }
  cbn [mbind outcome_bind close_out cur_id tree_state closed].
  exists (more ++ [w1 ++ [data_batch c1]]). split_and!.
  - by rewrite data_files_snoc.
  - apply Forall_app. split; [done|]. apply Forall_singleton. by destruct w1.
  - rewrite concat_app. cbn. by rewrite app_nil_r.
  - by rewrite Ec.
  - rewrite length_app. cbn [length]. replace (Z.of_nat (S (length L)) - 1) with (1 + Z.of_nat (length L) - 1) by lia. lia.
Qed.
End tree_writer.
