(* ===== verification/SnapshotLoad.v ===== *)
(** * Snapshots are loaded as they were written

    What parsing the objects does to the store, as a sequence of operations
    that does not depend on the order in which the threads take the objects,
    and the round trip from a store to the objects and back. *)

From S2P Require Import Prelude Coordination Paths AclMap Sessions Watches DataTree Store StoreTree Wire Crc.
From S2P Require Import SnapshotFormat Snapshot.

(** ** The operations an object stands for *)

Inductive LoadOp :=
| OpNode (path : string) (node : KeeperNode)
| OpSession (session_id timeout : Z) (ids : list AuthID)
| OpAcl (acl_id : Z) (acls : list ACL)
| OpNumbers (zxid session_id_counter : Z).

Definition node_effect (path : string) (node : KeeperNode) (s : KeeperStore) : KeeperStore :=
  let s1 := with_acl (addUsage (acl_id node) 1) s in
  if decide (ephemeralOwner (stat node) <> 0)
  then with_ephemerals (mset_add (ephemeralOwner (stat node)) path) s1 else s1.

Section ops.
Context (now : Z).

Definition apply_op (o : LoadOp) (s : KeeperStore) : outcome KeeperStore :=
  match o with
  | OpNode path node => Ok (node_effect path node s)
  | OpSession session_id timeout ids =>
      let s1 := if decide (ids <> []) then with_auth (insert session_id ids) s else s in
      m ← addSessionID now session_id timeout (session_manager s1); Ok (with_sessions m s1)
  | OpAcl acl_id' acls => Ok (with_acl (addMapping acl_id' acls) s)
  | OpNumbers z counter =>
      let s1 := with_zxid z s in Ok (with_sessions (setSessionIDCounter counter (session_manager s1)) s1)
  end.

Fixpoint apply_ops (ops : list LoadOp) (s : KeeperStore) : outcome KeeperStore :=
  match ops with
  | [] => Ok s
  | o :: ops' => s' ← apply_op o s; apply_ops ops' s'
  end.

Lemma apply_ops_app ops1 ops2 s :
  apply_ops (ops1 ++ ops2) s = s' ← apply_ops ops1 s; apply_ops ops2 s'.
Proof.
  revert s. induction ops1 as [|o ops1 IH]; intros s; [done|]. cbn [app apply_ops].
  destruct (apply_op o s) as [s'|f]; [apply IH|done].
Qed.

(** *** The state after a set of operations *)

Definition nodes_of : list LoadOp -> list (string * KeeperNode) :=
  omap (fun o => match o with OpNode p n => Some (p, n) | _ => None end).
Definition sessions_of : list LoadOp -> list (Z * (Z * list AuthID)) :=
  omap (fun o => match o with OpSession i t a => Some (i, (t, a)) | _ => None end).
Definition acls_of : list LoadOp -> list (Z * list ACL) :=
  omap (fun o => match o with OpAcl i a => Some (i, a) | _ => None end).
Definition numbers_of : list LoadOp -> list (Z * Z) :=
  omap (fun o => match o with OpNumbers z c => Some (z, c) | _ => None end).

(** How many nodes use a list. *)
Definition uses (i : Z) (nodes : list (string * KeeperNode)) : Z :=
  Z.of_nat (length (filter (fun p => acl_id p.2 = i) nodes)).

(** [s] is [s0] after [ops], in any order. *)
Record loaded (s0 : KeeperStore) (ops : list LoadOp) (s : KeeperStore) : Prop := {
  lo_tree : data_tree s = data_tree s0;
  lo_frame : watch_manager s = watch_manager s0 /\ finalized s = finalized s0 /\ super_digest s = super_digest s0;
  lo_timeouts : forall i t, session_and_timeout (session_manager s) !! i = Some t <->
    exists a, (i, (t, a)) ∈ sessions_of ops;
  lo_sessions : sessions_wf (session_manager s);
  lo_auth : forall i a, session_and_auth s !! i = Some a <-> a <> [] /\ exists t, (i, (t, a)) ∈ sessions_of ops;
  lo_num : forall i a, num_to_acl (acl_map s) !! i = Some a <-> (i, a) ∈ acls_of ops;
  lo_acl : forall i a, acl_to_num (acl_map s) !! a = Some i <-> (i, a) ∈ acls_of ops;
  lo_max : 1 <= max_acl_id (acl_map s) < 2 ^ 64 /\
    forall i a, (i, a) ∈ acls_of ops -> i < max_acl_id (acl_map s);
  lo_uses : forall i, i <> 0 -> usage_counter (acl_map s) !! i =
    if decide (uses i (nodes_of ops) = 0) then None else Some (uses i (nodes_of ops));
  lo_zero : usage_counter (acl_map s) !! 0 = None;
  lo_eph : forall i p, p ∈ mset_get i (ephemerals s) <->
    exists n, (p, n) ∈ nodes_of ops /\ ephemeralOwner (stat n) = i /\ i <> 0;
  lo_numbers : forall z c, (z, c) ∈ numbers_of ops -> zxid s = z /\ session_id_counter (session_manager s) = c
}.

(** No session, no list and no number of a list is loaded twice. *)
Record distinct_ops (ops : list LoadOp) : Prop := {
  do_sessions : NoDup (sessions_of ops).*1;
  do_nums : NoDup (acls_of ops).*1;
  do_acls : NoDup (acls_of ops).*2;
  do_numbers : (length (numbers_of ops) <= 1)%nat;
  do_range : forall i a, (i, a) ∈ acls_of ops -> 0 <= i < 2 ^ 64 - 1;
  do_count : Z.of_nat (length (nodes_of ops)) < 2 ^ 64
}.

Lemma distinct_ops_perm ops ops' : ops ≡ₚ ops' -> distinct_ops ops -> distinct_ops ops'.
Proof.
  intros HP [H1 H2 H3 H4 H5 H6]. unfold nodes_of, sessions_of, acls_of, numbers_of in *.
  split; try (by rewrite <- HP). intros i a Hi. apply (H5 i a). unfold acls_of. by rewrite HP.
Qed.

(** Splits the lists of a sequence and one more operation. *)
Ltac parts :=
  unfold nodes_of, sessions_of, acls_of, numbers_of in *; rewrite !omap_app in *;
  cbn [omap list_omap] in *; rewrite ?app_nil_r in *.

Lemma distinct_ops_prefix ops o : distinct_ops (ops ++ [o]) -> distinct_ops ops.
Proof.
  intros [H1 H2 H3 H4 H5 H6]. parts. rewrite !fmap_app, ?length_app in *.
  split; unfold nodes_of, sessions_of, acls_of, numbers_of.
  - by apply NoDup_app in H1 as [? _].
  - by apply NoDup_app in H2 as [? _].
  - by apply NoDup_app in H3 as [? _].
  - lia.
  - intros i a Hi. apply (H5 i a), elem_of_app. by left.
  - lia.
Qed.

Lemma uses_snoc i ns p n : uses i (ns ++ [(p, n)]) = uses i ns + (if decide (acl_id n = i) then 1 else 0).
Proof.
  unfold uses. rewrite filter_app, length_app, filter_cons. cbn [snd].
  case_decide; rewrite filter_nil; cbn [length]; lia.
Qed.

Lemma uses_range i ns : 0 <= uses i ns <= Z.of_nat (length ns).
Proof. unfold uses. pose proof (length_filter (fun p => acl_id p.2 = i) ns). lia. Qed.

Lemma node_effect_frame path n s :
  data_tree (node_effect path n s) = data_tree s /\ session_manager (node_effect path n s) = session_manager s /\
  watch_manager (node_effect path n s) = watch_manager s /\ finalized (node_effect path n s) = finalized s /\
  super_digest (node_effect path n s) = super_digest s /\ zxid (node_effect path n s) = zxid s /\
  session_and_auth (node_effect path n s) = session_and_auth s /\
  acl_map (node_effect path n s) = addUsage (acl_id n) 1 (acl_map s).
Proof. unfold node_effect. by case_decide. Qed.

Lemma addUsage_frame i m :
  num_to_acl (addUsage i 1 m) = num_to_acl m /\ acl_to_num (addUsage i 1 m) = acl_to_num m /\
  max_acl_id (addUsage i 1 m) = max_acl_id m.
Proof. unfold addUsage. by case_decide. Qed.

Lemma loaded_node s0 ops s path n :
  loaded s0 ops s -> distinct_ops (ops ++ [OpNode path n]) ->
  loaded s0 (ops ++ [OpNode path n]) (node_effect path n s).
Proof.
  intros [Ht Hf Hto Hs Ha Hn Hl Hm Hu Hz He Hnum] [_ _ _ _ _ Hc].
  destruct (node_effect_frame path n s) as (E1 & E2 & E3 & E4 & E5 & E6 & E7 & E8).
  destruct (addUsage_frame (acl_id n) (acl_map s)) as (E9 & E10 & E11). parts. rewrite length_app in Hc. cbn [length] in Hc.
  split; unfold nodes_of, sessions_of, acls_of, numbers_of; rewrite ?omap_app; cbn [omap list_omap]; rewrite ?app_nil_r;
    rewrite ?E1, ?E2, ?E3, ?E4, ?E5, ?E6, ?E7, ?E8, ?E9, ?E10, ?E11; try done.
  - intros i Hi. rewrite uses_snoc. unfold addUsage.
    pose proof (uses_range i (nodes_of ops)) as Hr. unfold nodes_of in Hr. specialize (Hu i Hi).
    destruct (decide (acl_id n = 0)) as [E|E].
    { rewrite (decide_False (P := acl_id n = i)) by congruence. by rewrite Z.add_0_r. }
    cbn [usage_counter]. rewrite lookup_insert. destruct (decide (acl_id n = i)) as [->|Hne].
    + rewrite decide_False by lia. rewrite Hu. f_equal.
      case_decide as H0; cbn [default from_option]; [rewrite H0|]; apply u64_id; unfold in_u64; lia.
    + by rewrite Z.add_0_r.
  - unfold addUsage. case_decide; cbn [usage_counter]; [done|]. by rewrite lookup_insert_ne.
  - intros i p. unfold node_effect. setoid_rewrite elem_of_app. setoid_rewrite list_elem_of_singleton.
    case_decide as Ho; cbn [ephemerals with_ephemerals with_acl]; [rewrite elem_of_mset_add|]; rewrite He;
      naive_solver.
Qed.

Lemma emplace_insert {V} k (x : V) m : m !! k = None -> emplace k x m = <[k := x]> m.
Proof. unfold emplace. by intros ->. Qed.

(** Adding a session that is new. *)
Lemma addSessionID_new i t m :
  sessions_wf m -> session_and_timeout m !! i = None ->
  exists m', addSessionID now i t m = Ok m' /\ sessions_wf m' /\
    session_and_timeout m' = <[i := t]> (session_and_timeout m) /\ session_id_counter m' = session_id_counter m.
Proof.
  intros Hm Hi. destruct (session_call_wf (CallAddSession now i t) m Hm) as ([ids m'] & E & Hm').
  cbn [session_call] in E. unfold addSessionID in *. rewrite emplace_insert in * by done.
  destruct (addNewSessionOrUpdate _ _ _ _) as [q|]; [|done]. cbn in E. injection E as <- <-.
  by eexists.
Qed.

Lemma not_in_prefix {A B} (f : A -> B) (l : list A) x y :
  NoDup (f <$> (l ++ [x])) -> y ∈ l -> f y <> f x.
Proof.
  rewrite fmap_app. intros (_ & Hd & _)%NoDup_app Hy Heq. apply (Hd (f y)); [by apply list_elem_of_fmap_2|].
  rewrite Heq. cbn. by left.
Qed.

Lemma loaded_session s0 ops s i t a :
  loaded s0 ops s -> distinct_ops (ops ++ [OpSession i t a]) ->
  exists s', apply_op (OpSession i t a) s = Ok s' /\ loaded s0 (ops ++ [OpSession i t a]) s'.
Proof.
  intros [Ht Hf Hto Hs Ha Hn Hl Hm Hu Hz He Hnum] [Hd _ _ _ _ _]. parts.
  assert (forall t' a', (i, (t', a')) ∈ sessions_of ops -> False) as Hnew.
  { intros t' a' Hin. by apply (not_in_prefix fst _ _ _ Hd Hin). }
  assert (session_and_timeout (session_manager s) !! i = None) as Hi.
  { apply eq_None_not_Some. intros [x Hx]. apply Hto in Hx as [a' Hx]. by apply Hnew in Hx. }
  cbn [apply_op]. set (s1 := if decide (a <> []) then _ else _).
  assert (session_manager s1 = session_manager s /\ acl_map s1 = acl_map s /\ data_tree s1 = data_tree s /\
    watch_manager s1 = watch_manager s /\ finalized s1 = finalized s /\ super_digest s1 = super_digest s /\
    zxid s1 = zxid s /\ ephemerals s1 = ephemerals s) as (E0 & E1 & E2 & E3 & E4 & E5 & E6 & E7)
    by (unfold s1; by case_decide).
  rewrite E0. destruct (addSessionID_new i t (session_manager s) Hs Hi) as (m & -> & Hm' & Em & Ec).
  eexists; split; [done|]. split; unfold nodes_of, sessions_of, acls_of, numbers_of;
    rewrite ?omap_app; cbn [omap list_omap]; rewrite ?app_nil_r;
    cbn [data_tree session_manager watch_manager ephemerals zxid session_and_auth acl_map finalized super_digest
      with_sessions]; rewrite ?E1, ?E2, ?E3, ?E4, ?E5, ?E6, ?E7, ?Em, ?Ec; try done.
  - intros j x. rewrite lookup_insert. setoid_rewrite elem_of_app. setoid_rewrite list_elem_of_singleton.
    destruct (decide (i = j)) as [<-|Hj]; [|rewrite Hto; naive_solver]. split; [intros [= <-]; eauto|].
    intros [a' [Hin|[= -> _]]]; [by apply Hnew in Hin|done].
  - intros j x. setoid_rewrite elem_of_app. setoid_rewrite list_elem_of_singleton. unfold s1.
    destruct (decide (a <> [])) as [Hne|Hne]; cbn [session_and_auth with_auth].
    + rewrite lookup_insert. destruct (decide (i = j)) as [<-|Hj]; [|rewrite Ha; naive_solver].
      split; [intros [= <-]; eauto|]. intros [Hx [t' [Hin|[= _ ->]]]]; [by apply Hnew in Hin|done].
    + rewrite Ha. naive_solver.
Qed.

Lemma loaded_acl s0 ops s i a :
  loaded s0 ops s -> distinct_ops (ops ++ [OpAcl i a]) ->
  loaded s0 (ops ++ [OpAcl i a]) (with_acl (addMapping i a) s).
Proof.
  intros [Ht Hf Hto Hs Ha Hn Hl Hm Hu Hz He Hnum] [_ Hd1 Hd2 _ Hr _]. parts.
  destruct (Hr i a) as [Hi0 Hi1]; [apply elem_of_app; right; by apply list_elem_of_singleton|].
  assert (forall j b, (j, b) ∈ acls_of ops -> j <> i /\ b <> a) as Hnew.
  { intros j b Hin. split; [exact (not_in_prefix fst _ _ _ Hd1 Hin)|exact (not_in_prefix snd _ _ _ Hd2 Hin)]. }
  split; unfold nodes_of, sessions_of, acls_of, numbers_of; rewrite ?omap_app; cbn [omap list_omap]; rewrite ?app_nil_r;
    cbn [data_tree session_manager watch_manager ephemerals zxid session_and_auth acl_map finalized super_digest
      with_acl addMapping num_to_acl acl_to_num max_acl_id usage_counter]; try done.
  - intros j b. rewrite lookup_insert, elem_of_app, list_elem_of_singleton.
    destruct (decide (i = j)) as [<-|Hj]; [|rewrite Hn; naive_solver].
    split; [intros [= <-]; by right|]. intros [Hin|[= ->]]; [by apply Hnew in Hin as [? _]|done].
  - intros j b. rewrite lookup_insert, elem_of_app, list_elem_of_singleton.
    destruct (decide (a = b)) as [<-|Hj]; [|rewrite Hl; naive_solver].
    split; [intros [= <-]; by right|]. intros [Hin|[= ->]]; [by apply Hnew in Hin as [_ ?]|done].
  - rewrite u64_id by (unfold in_u64; lia). destruct Hm as [Hm1 Hm2]. split; [lia|].
    intros j b [Hin|Hin%list_elem_of_singleton]%elem_of_app; [apply Hm2 in Hin; lia|].
    injection Hin as -> ->. lia.
Qed.

Lemma loaded_numbers s0 ops s z c :
  loaded s0 ops s -> distinct_ops (ops ++ [OpNumbers z c]) ->
  exists s', apply_op (OpNumbers z c) s = Ok s' /\ loaded s0 (ops ++ [OpNumbers z c]) s'.
Proof.
  intros [Ht Hf Hto Hs Ha Hn Hl Hm Hu Hz He Hnum] [_ _ _ Hd _ _]. parts. rewrite length_app in Hd. cbn [length] in Hd.
  assert (numbers_of ops = []) as Hnil by (apply nil_length_inv; unfold numbers_of; lia).
  eexists; split; [done|].
  split; unfold nodes_of, sessions_of, acls_of, numbers_of; rewrite ?omap_app; cbn [omap list_omap]; rewrite ?app_nil_r;
    cbn [data_tree session_manager watch_manager ephemerals zxid session_and_auth acl_map finalized super_digest
      with_sessions with_zxid setSessionIDCounter session_and_timeout session_id_counter]; try done.
  - by destruct Hs.
  - unfold numbers_of in Hnil. rewrite Hnil. intros z' c'. cbn [app]. rewrite list_elem_of_singleton.
    by intros [= -> ->].
Qed.

(** Whatever the order, the operations succeed and leave the same content. *)
Lemma apply_ops_loaded s0 ops2 : forall ops1 s,
  loaded s0 ops1 s -> distinct_ops (ops1 ++ ops2) ->
  exists s', apply_ops ops2 s = Ok s' /\ loaded s0 (ops1 ++ ops2) s'.
Proof.
  induction ops2 as [|o ops2 IH]; intros ops1 s Hl Hd; [rewrite app_nil_r; by exists s|].
  rewrite cons_middle, app_assoc in Hd |- *.
  assert (distinct_ops (ops1 ++ [o])) as Hd1.
  { clear -Hd. revert Hd. generalize (ops1 ++ [o]). intros ops. induction ops2 as [|o' ops2 IH] using rev_ind.
    - by rewrite app_nil_r.
    - rewrite app_assoc. intros Hd%distinct_ops_prefix. by apply IH. }
  assert (exists s1, apply_op o s = Ok s1 /\ loaded s0 (ops1 ++ [o]) s1) as (s1 & E & Hl1).
  { destruct o; [eexists; split; [done|by apply loaded_node]|by apply loaded_session|
      eexists; split; [done|by apply loaded_acl]|by apply loaded_numbers]. }
  cbn [apply_ops]. rewrite E. cbn [mbind outcome_bind]. by apply IH.
Qed.
End ops.

(** ** From the elements to the operations *)

Section entries.
Context {K V : Type} `{Countable K}.

Lemma elem_of_entries (m : gmap K V) (l : list K) k x :
  (k, x) ∈ omap (fun k => v ← m !! k; Some (k, v)) l <-> k ∈ l /\ m !! k = Some x.
Proof.
  rewrite list_elem_of_omap. split.
  - intros (k' & Hk & E). destruct (m !! k') eqn:Em; [|done]. cbn in E. injection E as -> ->. done.
  - intros [Hk Hx]. exists k. by rewrite Hx.
Qed.

Lemma entries_keys (m : gmap K V) (l : list K) :
  (forall k, k ∈ l -> is_Some (m !! k)) -> (omap (fun k => v ← m !! k; Some (k, v)) l).*1 = l.
Proof.
  induction l as [|k l IH]; intros Hl; [done|]. cbn. destruct (Hl k) as [x Hx]; [by left|].
  rewrite Hx. cbn. f_equal. apply IH. intros k' Hk'. apply Hl. by right.
Qed.

(** The entries are listed once each, in some order. *)
Lemma entries_perm (m : gmap K V) (l : list K) :
  l ≡ₚ base.elements (dom m) -> omap (fun k => v ← m !! k; Some (k, v)) l ≡ₚ map_to_list m.
Proof.
  intros Hl. assert (forall k, k ∈ l <-> is_Some (m !! k)) as Hk.
  { intros k. rewrite Hl, elem_of_elements, elem_of_dom. done. }
  apply NoDup_Permutation.
  - apply (NoDup_fmap_1 fst). rewrite entries_keys by (by intros k ?%Hk). rewrite Hl. apply NoDup_elements.
  - apply NoDup_map_to_list.
  - intros [k x]. rewrite elem_of_entries, elem_of_map_to_list, Hk. naive_solver.
Qed.
End entries.

Section reading.
Context `{IterOrder} (hash : string -> Z) (now : Z).

Lemma iter_entries_perm {V} (m : gmap Z V) : iter_entries m ≡ₚ map_to_list m.
Proof. apply entries_perm, iter_Z_perm. Qed.

Lemma iter_str_entries_perm {V} (m : gmap string V) : iter_str_entries m ≡ₚ map_to_list m.
Proof. apply entries_perm, iter_str_perm. Qed.

Local Abbreviation idx := (getBucketIndex hash DATA_TREE_BUCKET_NUM).

(** The slots of the nodes and of the edges an operation adds to. *)
Definition push_node (nodes : BucketNodes) (o : LoadOp) : BucketNodes :=
  match o with OpNode p n => emplace_back (idx p) (p, cloneWithoutChildren n) nodes | _ => nodes end.
Definition push_edge (edges : BucketEdges) (o : LoadOp) : BucketEdges :=
  match o with
  | OpNode p n =>
      if decide (p <> "/") then emplace_back (idx (getParentPath p)) (getParentPath p, getBaseName p) edges else edges
  | _ => edges
  end.

Definition op_effect (o : LoadOp) (st : LoadState) : outcome LoadState :=
  s' ← apply_op now o (ls_store st);
  Ok (mkLoad s' (loaded_objects_count st) (push_edge (buckets_edges st) o) (push_node (bucket_nodes st) o)).

Lemma element_loop_ops {A} parse (enc : A -> bytes) (op : A -> LoadOp) (fits : A -> Prop) xs :
  (forall x st, fits x -> parse (enc x) st = op_effect (op x) st) -> Forall fits xs ->
  forall st, element_loop parse (enc <$> xs) st =
    s' ← apply_ops now (op <$> xs) (ls_store st);
    Ok (mkLoad s' (loaded_objects_count st) (fold_left push_edge (op <$> xs) (buckets_edges st))
          (fold_left push_node (op <$> xs) (bucket_nodes st))).
Proof.
  intros Hp Hxs. induction Hxs as [|x xs Hx Hxs IH]; intros st.
  { destruct st; done. }
  rewrite !fmap_cons. cbn [element_loop apply_ops fold_left]. rewrite Hp by done. unfold op_effect at 1.
  destruct (apply_op now (op x) (ls_store st)) as [s'|f]; [|done]. cbn [mbind outcome_bind]. by rewrite IH.
Qed.

(** *** The three kinds of elements *)

Lemma read_node p st :
  node_fits p.1 p.2 ->
  parse_node_element hash V2 (serializeKeeperNode p.1 p.2 V2) st = op_effect (OpNode p.1 p.2) st.
Proof.
  intros Hf. unfold parse_node_element, op_effect. rewrite parse_serialize_node by done.
  cbn [catch_corrupted mbind outcome_bind fst snd apply_op push_edge push_node].
  rewrite (decide_False (P := V2 = V0)) by done. destruct Hf as [_ _ Ha _ _]. destruct p as [p n]. cbn [fst snd] in *.
  rewrite (decide_False (P := acl_id (cloneWithoutChildren n) = _)) by (cbn [acl_id cloneWithoutChildren]; lia).
  unfold node_effect. cbn [stat acl_id cloneWithoutChildren].
  destruct (decide (ephemeralOwner (stat n) <> 0)); by destruct st.
Qed.

Definition session_fits (x : Z * (Z * list AuthID)) : Prop :=
  in_i64 x.1 /\ in_i64 x.2.1 /\ vector_fits AuthID_fits x.2.2.

Lemma read_session_element x st :
  session_fits x ->
  parse_session_element now V2 (session_element x) st = op_effect (OpSession x.1 x.2.1 x.2.2) st.
Proof.
  intros (H1 & H2 & H3). unfold parse_session_element, op_effect, read_session, session_element.
  change (1 <=? SnapshotVersion_code V2) with true. cbn iota.
  rewrite <- (app_nil_r (write_vector write_AuthID _)).
  rewrite (wire_bind (write := write_i64)) by done. cbn beta.
  rewrite (wire_bind (write := write_i64)) by done. cbn beta.
  rewrite (wire_bind (write := write_vector write_AuthID)) by done.
  cbn [sm_ret fst snd catch_corrupted mbind outcome_bind apply_op push_edge push_node].
  destruct x as [i [t a]]. cbn [fst snd].
  destruct (decide (a <> [])); cbn [load_store ls_store];
    destruct (addSessionID _ _ _ _); by destruct st.
Qed.

Definition acl_fits (x : Z * list ACL) : Prop := in_u64 x.1 /\ vector_fits ACL_fits x.2.

Lemma read_acl_element x st :
  acl_fits x -> parse_acl_element (acl_element x) st = op_effect (OpAcl x.1 x.2) st.
Proof.
  intros [H1 H2]. unfold parse_acl_element, op_effect, read_acl_entry, acl_element.
  rewrite <- (app_nil_r (write_vector write_ACL _)).
  rewrite (wire_bind (write := write_u64)) by done. cbn beta.
  rewrite (wire_bind (write := write_vector write_ACL)) by done. by destruct st, x.
Qed.

(** *** Whole objects *)

Lemma element_loop_app parse es1 es2 st :
  element_loop parse (es1 ++ es2) st = st' ← element_loop parse es1 st; element_loop parse es2 st'.
Proof.
  revert st. induction es1 as [|e es1 IH]; intros st; [done|]. cbn [app element_loop].
  destruct (parse e st); [apply IH|done].
Qed.

Lemma parse_batches_elements type parse bs :
  (forall b st, batch_type b = type -> parse_batch_of_type hash now V2 b st = element_loop parse (elements b) st) ->
  Forall (batch_of type) bs ->
  forall st, parse_batches hash now V2 bs st = element_loop parse (concat (elements <$> bs)) st.
Proof.
  intros Hp Hbs. induction Hbs as [|b bs [_ Hb] Hbs IH]; intros st; [done|].
  cbn [parse_batches fmap list_fmap concat]. rewrite element_loop_app.
  assert (parse_batch_of_type hash now V2 b st = element_loop parse (elements b) st) as ->.
  { destruct Hb as [Hb| ->]; [by apply Hp|done]. }
  destruct (element_loop parse (elements b) st); [apply IH|done].
Qed.

(** Parsing the file applies the operations and, for the object with the
    numbers, sets the count. *)
Definition reads (file : bytes) (ops : list LoadOp) (count : option Z) : Prop :=
  forall s c, parseObject hash now file (mkLoad s c no_buckets no_buckets) =
    s' ← apply_ops now ops s;
    Ok (mkLoad s' (match count with Some x => Some x | None => c end)
          (fold_left push_edge ops no_buckets) (fold_left push_node ops no_buckets)).

Lemma reads_elements {A} type parse (enc : A -> bytes) (op : A -> LoadOp) (fits : A -> Prop) bs xs :
  (forall b st, batch_type b = type -> parse_batch_of_type hash now V2 b st = element_loop parse (elements b) st) ->
  (forall x st, fits x -> parse (enc x) st = op_effect (op x) st) ->
  bs <> [] -> Forall (batch_of type) bs -> concat (elements <$> bs) = enc <$> xs -> Forall fits xs ->
  reads (object_file V2 bs) (op <$> xs) None.
Proof.
  intros Hb Hp Hne Hbs Hc Hxs s c. rewrite parseObject_file; [|by right|done|].
  2:{ eapply Forall_impl; [exact Hbs|]. by intros b [? _]. }
  rewrite (parse_batches_elements type parse) by done. rewrite Hc.
  by rewrite (element_loop_ops parse enc op fits xs) by done.
Qed.

Lemma read_map_element x : string_fits x.1 -> in_i64 x.2 -> (read_map_entry (map_element x)).1 = Ok x.
Proof.
  intros H1 H2. unfold read_map_entry, map_element. rewrite <- (app_nil_r (write_i64 _)).
  rewrite (wire_bind (write := write_string)) by done. cbn beta.
  rewrite (wire_bind (write := write_i64)) by done. by destruct x.
Qed.

Lemma int_map_loop_spec xs : forall m,
  Forall (fun x : string * Z => string_fits x.1 /\ in_i64 x.2) xs -> NoDup xs.*1 ->
  int_map_loop (map_element <$> xs) m = Ok (list_to_map xs ∪ m).
Proof.
  induction xs as [|x xs IH]; intros m Hf Hd; [cbn; by rewrite (left_id_L ∅ (∪))|].
  apply Forall_cons in Hf as [[H1 H2] Hf]. apply NoDup_cons in Hd as [Hn Hd].
  rewrite fmap_cons. cbn [int_map_loop]. rewrite read_map_element by done.
  cbn [catch_corrupted mbind outcome_bind]. rewrite IH by done. destruct x as [k v]. cbn [fst snd list_to_map foldr].
  rewrite <- insert_union_l, <- insert_union_r; [done|]. by apply not_elem_of_list_to_map_1.
Qed.

Lemma int_map_entries z c n :
  iter_str_entries (int_map_of z c n) ≡ₚ [("OBJECTCOUNT", i64 n); ("SESSIONID", c); ("ZXID", z)].
Proof. rewrite iter_str_entries_perm. unfold int_map_of. by rewrite !map_to_list_insert, map_to_list_empty by done. Qed.

(** The object with the numbers. *)
Lemma reads_numbers z c n :
  in_i64 z -> in_i64 c -> 0 <= n < 2 ^ 32 ->
  let b := mkBatch SNAPSHOT_TYPE_UINTMAP (map_element <$> iter_str_entries (int_map_of z c n)) in
  frame_fits b -> reads (object_file V2 [b]) [OpNumbers z c] (Some n).
Proof.
  intros Hz Hc Hn b Hb s count. rewrite parseObject_file; [|by right|done|by apply Forall_singleton].
  cbn [parse_batches]. assert (parse_batch_of_type hash now V2 b = parseBatchIntMapV2 b) as -> by done.
  unfold parseBatchIntMapV2. cbn [elements b]. pose proof (int_map_entries z c n) as Hp.
  rewrite int_map_loop_spec.
  - assert (list_to_map (iter_str_entries (int_map_of z c n)) = int_map_of z c n) as ->.
    { rewrite <- (list_to_map_to_list (int_map_of z c n)) at 2. apply list_to_map_proper; [|apply iter_str_entries_perm].
      rewrite Hp. apply (bool_decide_unpack _); by vm_compute. }
    rewrite (right_id_L ∅ (∪)). cbn [mbind outcome_bind]. unfold int_map_of. rewrite lookup_insert_ne by done.
    simpl_map. cbn. do 2 f_equal. unfold u32, wrap_u. rewrite i64_id by (unfold in_i64; lia).
    by rewrite Z.mod_small by lia.
  - rewrite Hp, !Forall_cons, Forall_nil. cbn [fst snd]. unfold string_fits, MAX_STRING_OR_ARRAY_SIZE.
    cbn [String.length]. split_and!; first [done|lia|apply i64_range].
  - rewrite Hp. apply (bool_decide_unpack _); by vm_compute.
Qed.

(** *** The slots after the operations *)

Local Abbreviation cloned := (fun p : string * KeeperNode => (p.1, cloneWithoutChildren p.2)).

Lemma lookup_emplace_back {A} i (x : A) vec j :
  (i < length vec)%nat ->
  default [] (emplace_back i x vec !! j) = default [] (vec !! j) ++ (if decide (i = j) then [x] else []).
Proof.
  intros Hi. unfold emplace_back. destruct (decide (i = j)) as [<-|Hij].
  - rewrite list_lookup_alter_eq. destruct (lookup_lt_is_Some_2 vec i Hi) as [b ->]. done.
  - by rewrite list_lookup_alter_ne, app_nil_r.
Qed.

Lemma length_emplace_back {A} i (x : A) vec : length (emplace_back i x vec) = length vec.
Proof. apply length_alter. Qed.

Lemma push_nodes_slots ops : forall b i,
  length b = DATA_TREE_BUCKET_NUM ->
  default [] (fold_left push_node ops b !! i) =
  default [] (b !! i) ++ filter (fun p => idx p.1 = i) (cloned <$> nodes_of ops).
Proof.
  induction ops as [|o ops IH]; intros b i Hb; [by rewrite app_nil_r|].
  destruct o as [p n| | |]; cbn [fold_left push_node nodes_of omap list_omap]; try (by apply IH).
  rewrite IH by (by rewrite length_emplace_back). fold (nodes_of ops).
  rewrite lookup_emplace_back by (rewrite Hb; apply getBucketIndex_lt, bucket_num_pos).
  rewrite fmap_cons, filter_cons. cbn [fst]. rewrite <- app_assoc. by case_decide.
Qed.

Lemma push_edges_slots ops : forall b i p c,
  length b = DATA_TREE_BUCKET_NUM ->
  (p, c) ∈ default [] (fold_left push_edge ops b !! i) <->
  (p, c) ∈ default [] (b !! i) \/
  (idx p = i /\ exists q n, (q, n) ∈ nodes_of ops /\ q <> "/" /\ getParentPath q = p /\ getBaseName q = c).
Proof.
  induction ops as [|o ops IH]; intros b i p c Hb.
  { cbn [fold_left nodes_of omap list_omap]. split; [by left|]. intros [?|(_ & q & n & Hq & _)]; [done|].
    by apply elem_of_nil in Hq. }
  destruct o as [q n| | |]; cbn [fold_left push_edge nodes_of omap list_omap]; try (by apply IH).
  fold (nodes_of ops). setoid_rewrite elem_of_cons. destruct (decide (q <> "/")) as [Hq|Hq].
  - rewrite IH by (by rewrite length_emplace_back).
    rewrite lookup_emplace_back by (rewrite Hb; apply getBucketIndex_lt, bucket_num_pos).
    rewrite elem_of_app. case_decide as Hi; [rewrite list_elem_of_singleton|rewrite elem_of_nil]; split.
    + intros [[?|[= -> ->]]|(? & q' & n' & ? & ?)]; [by left|right..]; split; eauto 10.
    + intros [?|(Hp & q' & n' & [[= -> ->]|?] & ? & E1 & E2)]; [by left; left|left; right; congruence|right; eauto 10].
    + intros [[?|[]]|(? & q' & n' & ? & ?)]; [by left|right; split; eauto 10].
    + intros [?|(Hp & q' & n' & [[= -> ->]|?] & ? & E1 & E2)]; [by left; left|congruence|right; eauto 10].
  - rewrite IH by done. split; intros [?|(Hp & q' & n' & Hin & ?)]; [by left|right; eauto 10|by left|].
    destruct Hin as [[= -> ->]|Hin]; [naive_solver|right; eauto 10].
Qed.

(** *** All objects, in any order *)

(** An object: the file, what it stands for, and the count it sets. *)
Local Abbreviation ObjectSpec := (bytes * (list LoadOp * option Z))%type.

Definition ops_at (objs : list ObjectSpec) (i : nat) : list LoadOp := from_option (fun o => o.2.1) [] (objs !! i).

Fixpoint count_after (objs : list ObjectSpec) (order : list nat) (c : option Z) : option Z :=
  match order with
  | [] => c
  | i :: order' =>
      count_after objs order' (match from_option (fun o => o.2.2) None (objs !! i) with Some x => Some x | None => c end)
  end.

Lemma parse_objects_spec objs order : forall ps,
  Forall (fun o : ObjectSpec => reads o.1 o.2.1 o.2.2) objs ->
  Forall (fun i => (i < length objs)%nat) order ->
  parse_objects hash now objs.*1 order ps =
  s' ← apply_ops now (order ≫= ops_at objs) (ps_store ps);
  Ok (mkParse s' (count_after objs order (ps_count ps))
        (fold_left (fun l i => <[i := fold_left push_edge (ops_at objs i) no_buckets]> l) order (all_objects_edges ps))
        (fold_left (fun l i => <[i := fold_left push_node (ops_at objs i) no_buckets]> l) order (all_objects_nodes ps))).
Proof.
  induction order as [|i order IH]; intros ps Ho Hlt; [by destruct ps|].
  apply Forall_cons in Hlt as [Hi Hlt]. cbn [parse_objects]. unfold parse_object_at.
  destruct (lookup_lt_is_Some_2 objs i Hi) as [o Eo]. rewrite list_lookup_fmap, Eo. cbn [fmap option_fmap option_map].
  rewrite Forall_lookup in Ho. rewrite (Ho i o Eo). rewrite bind_cons, apply_ops_app.
  assert (ops_at objs i = o.2.1) as E by (unfold ops_at; by rewrite Eo).
  cbn [fold_left count_after]. rewrite E, Eo. cbn [from_option].
  destruct (apply_ops now o.2.1 (ps_store ps)) as [s'|f]; [|done]. cbn [mbind outcome_bind].
  rewrite IH; [|by apply Forall_lookup|done]. done.
Qed.
End reading.
