(* ===== verification/SnapshotTheorems.v ===== *)
(** * A snapshot restores the store

    The loader of [src/src/Service/NuRaftLogSnapshot.cpp] run on the objects the
    same file's writers produce. *)

From S2P Require Import Prelude Coordination Paths AclMap Sessions Watches DataTree Store StoreTree Wire Crc.
From S2P Require Import SnapshotFormat Snapshot SnapshotLoad.

(** ** The numbering of the objects *)

Definition numbered (fs : list bytes) : list (Z * bytes) := imap (fun i f => (Z.of_nat i + 1, f)) fs.

Lemma numbered_keys fs : (numbered fs).*1 = seqZ 1 (Z.of_nat (length fs)).
Proof.
  unfold numbered. rewrite fmap_imap. unfold seqZ. rewrite Nat2Z.id. apply list_eq. intros i.
  rewrite list_lookup_imap, list_lookup_fmap.
  destruct (fs !! i) as [f|] eqn:E; cbn.
  - apply lookup_lt_Some in E. by rewrite lookup_seq_lt by lia.
  - apply lookup_ge_None in E. by rewrite lookup_ge_None_2 by (rewrite length_seq; lia).
Qed.

Lemma numbered_NoDup fs : NoDup (numbered fs).*1.
Proof. rewrite numbered_keys. apply NoDup_seqZ. Qed.

Definition numbered_map (fs : list bytes) : Objects := list_to_map (numbered fs).

Lemma seqZ_sorted m n : StronglySorted Z.le (seqZ m (Z.of_nat n)).
Proof.
  revert m. induction n as [|n IH]; intros m; [constructor|]. rewrite seqZ_cons by lia.
  replace (Z.pred (Z.of_nat (S n))) with (Z.of_nat n) by lia. constructor; [apply IH|].
  apply Forall_forall. intros x [? ?]%elem_of_seqZ. lia.
Qed.

Lemma numbered_sorted fs : sorted_keys (numbered_map fs) = seqZ 1 (Z.of_nat (length fs)).
Proof.
  apply (StronglySorted_unique Z.le).
  - apply sorted_keys_sorted.
  - apply seqZ_sorted.
  - rewrite sorted_keys_perm. unfold numbered_map. rewrite dom_list_to_map_L, numbered_keys.
    rewrite elements_list_to_set by apply NoDup_seqZ. done.
Qed.

Lemma numbered_size fs : size (numbered_map fs) = length fs.
Proof.
  unfold numbered_map. rewrite <- length_map_to_list, map_to_list_to_map by apply numbered_NoDup.
  unfold numbered. by rewrite length_imap.
Qed.

Lemma numbered_files fs : object_files (numbered_map fs) = fs.
Proof.
  unfold object_files. rewrite numbered_sorted, <- numbered_keys.
  assert (forall l, (forall p, p ∈ l -> numbered_map fs !! p.1 = Some p.2) ->
    omap (fun id => numbered_map fs !! id) l.*1 = l.*2) as Hl.
  { induction l as [|[i f] l IH]; intros Hp; [done|]. pose proof (Hp (i, f) ltac:(by left)) as Hi.
    cbn in Hi |- *. rewrite Hi. f_equal. apply IH. intros p Hin. apply Hp. by right. }
  rewrite Hl.
  - unfold numbered. rewrite fmap_imap. apply list_eq. intros i. rewrite list_lookup_imap. by destruct (fs !! i).
  - intros [i f] Hin. apply elem_of_list_to_map_1; [apply numbered_NoDup|done].
Qed.

(** ** Slots filled in any order *)

Lemma fold_insert_lookup {A} (f : nat -> A) order n : forall l j,
  length l = n -> Forall (fun i => (i < n)%nat) order ->
  fold_left (fun l i => <[i := f i]> l) order l !! j = if decide (j ∈ order) then Some (f j) else l !! j.
Proof.
  induction order as [|i order IH]; intros l j Hn Hl; [done|]. apply Forall_cons in Hl as [Hi Hl].
  cbn [fold_left]. rewrite IH by (rewrite ?length_insert; done).
  destruct (decide (j ∈ order)) as [Hj|Hj]; [by rewrite decide_True by (by right)|].
  destruct (decide (i = j)) as [<-|Hij].
  - rewrite decide_True by (by left). by rewrite list_lookup_insert_eq by lia.
  - rewrite list_lookup_insert_ne by done. rewrite decide_False; [done|]. by intros [?|?]%elem_of_cons.
Qed.

Lemma fold_insert_all {A} (f : nat -> A) order l :
  order ≡ₚ seq 0 (length l) -> fold_left (fun l i => <[i := f i]> l) order l = f <$> seq 0 (length l).
Proof.
  intros Ho. assert (Forall (fun i => (i < length l)%nat) order) as Hlt.
  { rewrite Ho. apply Forall_seq. lia. }
  apply list_eq. intros j. rewrite (fold_insert_lookup f order (length l)) by done. rewrite list_lookup_fmap.
  destruct (decide (j < length l)%nat) as [Hj|Hj].
  - rewrite lookup_seq_lt by done. rewrite decide_True; [done|]. rewrite Ho. apply elem_of_seq. lia.
  - rewrite decide_False by (rewrite Ho, elem_of_seq; lia).
    rewrite !lookup_ge_None_2 by (rewrite ?length_seq; lia). done.
Qed.

(** ** Loading objects that stand for operations *)

Section load.
Context `{IterOrder} (hash : string -> Z) (now : Z).

Local Abbreviation idx := (getBucketIndex hash DATA_TREE_BUCKET_NUM).
Local Abbreviation ObjectSpec := (bytes * (list LoadOp * option Z))%type.
Local Abbreviation cloned := (fun p : string * KeeperNode => (p.1, cloneWithoutChildren p.2)).

(** The list holds every node of the tree once. *)
Definition lists_tree (L : list (string * KeeperNode)) (t : Tree) : Prop :=
  NoDup L.*1 /\
  forall k x, (k, x) ∈ cloned <$> L <-> exists n, t !! k = Some n /\ x = cloneWithoutChildren n.

(** A store nothing was loaded into: new, or after a reset. *)
Record fresh_store (s : KeeperStore) : Prop := {
  fs_tree : start_tree (data_tree s);
  fs_timeouts : session_and_timeout (session_manager s) = ∅;
  fs_sessions : sessions_wf (session_manager s);
  fs_auth : session_and_auth s = ∅;
  fs_acl : acl_map s = ACLMap_init;
  fs_eph : forall i, mset_get i (ephemerals s) = ∅
}.

Lemma fresh_loaded s : fresh_store s -> loaded s [] s.
Proof.
  intros [_ Ht Hs Ha Hacl He].
  split; rewrite ?Ht, ?Ha, ?Hacl; cbn; try done.
  - intros i t. rewrite lookup_empty. split; [done|]. by intros [a Hi%elem_of_nil].
  - intros i a. rewrite lookup_empty. split; [done|]. by intros [_ [t Hi%elem_of_nil]].
  - intros i a. rewrite lookup_empty. split; [done|]. by intros Hi%elem_of_nil.
  - intros i a. rewrite lookup_empty. split; [done|]. by intros Hi%elem_of_nil.
  - split; [lia|]. by intros i a Hi%elem_of_nil.
  - intros i p. rewrite He. split; [by intros Hp%elem_of_empty|]. by intros (n & Hn%elem_of_nil & _).
  - by intros z c Hi%elem_of_nil.
Qed.

Lemma loaded_perm s0 ops ops' s : ops ≡ₚ ops' -> loaded s0 ops s -> loaded s0 ops' s.
Proof.
  intros HP [H1 H2 H3 H4 H5 H6 H7 H8 H9 H10 H11 H12].
  assert (forall i, uses i (nodes_of ops') = uses i (nodes_of ops)) as Hu.
  { intros i. unfold uses, nodes_of. by rewrite HP. }
  unfold nodes_of, sessions_of, acls_of, numbers_of in *.
  split; try done; unfold nodes_of, sessions_of, acls_of, numbers_of;
    try (setoid_rewrite <- HP; assumption).
  - intros i Hi. specialize (Hu i). unfold nodes_of in Hu. rewrite Hu. by apply H9.
Qed.

Lemma nodes_of_concat (opss : list (list LoadOp)) : nodes_of (concat opss) = concat (nodes_of <$> opss).
Proof.
  induction opss as [|ops opss IH]; [done|]. cbn [concat fmap list_fmap]. rewrite <- IH. apply omap_app.
Qed.

Lemma ops_at_all (objs : list ObjectSpec) : ops_at objs <$> seq 0 (length objs) = (fun o => o.2.1) <$> objs.
Proof.
  apply list_eq. intros i. rewrite !list_lookup_fmap. destruct (decide (i < length objs)%nat) as [Hi|Hi].
  - rewrite lookup_seq_lt by done. cbn. unfold ops_at. destruct (lookup_lt_is_Some_2 objs i Hi) as [o ->]. done.
  - rewrite !lookup_ge_None_2 by (rewrite ?length_seq; lia). done.
Qed.

Lemma ops_at_slots {A} (objs : list ObjectSpec) (g : list LoadOp -> A) :
  (fun i => g (ops_at objs i)) <$> seq 0 (length objs) = g <$> ((fun o => o.2.1) <$> objs).
Proof. rewrite <- ops_at_all. apply list_fmap_compose. Qed.

(** The slots hold the nodes and the edges of the tree. *)
Lemma slots_objects_of (opss : list (list LoadOp)) m t :
  node_rel hash DATA_TREE_BUCKET_NUM m t -> lists_tree (nodes_of (concat opss)) t ->
  objects_of ((fun ops => fold_left (push_node hash) ops no_buckets) <$> opss) (dumpDataTree m).
Proof.
  intros Hr [Hnd Hin] i Hi.
  assert (concat ((fun nodes : BucketNodes => default [] (nodes !! i)) <$>
      ((fun ops => fold_left (push_node hash) ops no_buckets) <$> opss)) =
    filter (fun p => idx p.1 = i) (cloned <$> nodes_of (concat opss))) as ->.
  { rewrite nodes_of_concat. clear -Hi. induction opss as [|ops opss IH]; [done|].
    rewrite !fmap_cons. cbn [concat]. rewrite IH, fmap_app, filter_app. f_equal.
    rewrite push_nodes_slots by apply length_replicate. unfold no_buckets.
    by rewrite lookup_replicate_2 by done. }
  apply NoDup_Permutation.
  - apply NoDup_filter, (NoDup_fmap_1 fst). rewrite <- list_fmap_compose. exact Hnd.
  - apply (NoDup_fmap_1 fst), NoDup_dump_keys.
  - intros [k x]. rewrite list_elem_of_filter, Hin. rewrite (elem_of_dump hash m t i k x Hr Hi). cbn [fst].
    naive_solver.
Qed.

Lemma slots_edges_of (opss : list (list LoadOp)) t :
  lists_tree (nodes_of (concat opss)) t ->
  edges_of hash ((fun ops => fold_left (push_edge hash) ops no_buckets) <$> opss) t.
Proof.
  intros [_ Hin] i p c Hi.
  assert ((p, c) ∈ concat ((fun edges : BucketEdges => default [] (edges !! i)) <$>
      ((fun ops => fold_left (push_edge hash) ops no_buckets) <$> opss)) <->
    idx p = i /\ exists q n, (q, n) ∈ nodes_of (concat opss) /\ q <> "/" /\ getParentPath q = p /\ getBaseName q = c) as ->.
  { rewrite nodes_of_concat. clear -Hi. induction opss as [|ops opss IH].
    - cbn. split; [by intros Hn%elem_of_nil|]. by intros (_ & q & n & Hn%elem_of_nil & _).
    - rewrite !fmap_cons. cbn [concat]. rewrite elem_of_app, IH, push_edges_slots by apply length_replicate.
      unfold no_buckets. rewrite lookup_replicate_2 by done. cbn [default from_option id].
      setoid_rewrite elem_of_app. setoid_rewrite elem_of_nil. naive_solver. }
  split.
  - intros (Hp & q & n & Hq & Hne & E). split; [done|]. exists q. split; [|done].
    destruct (Hin q (cloneWithoutChildren n)) as [Hin1 _]. destruct Hin1 as (n' & Hn' & _); [|eauto].
    apply list_elem_of_fmap. by exists (q, n).
  - intros (Hp & q & [n Hq] & Hne & E). split; [done|].
    destruct (Hin q (cloneWithoutChildren n)) as [_ Hin2].
    specialize (Hin2 (ex_intro _ n (conj Hq eq_refl))). apply list_elem_of_fmap in Hin2 as ([q' n'] & [= -> _] & Hin').
    by exists q', n'.
Qed.

Lemma head_last_seqZ n :
  (0 < n)%nat -> head (seqZ 1 (Z.of_nat n)) = Some 1 /\ last (seqZ 1 (Z.of_nat n)) = Some (Z.of_nat n).
Proof.
  intros Hn. split; [by rewrite seqZ_cons by lia|]. rewrite last_lookup, length_seqZ, Nat2Z.id.
  apply lookup_seqZ. lia.
Qed.

Lemma bind_concat {A B} (f : A -> list B) (l : list A) : l ≫= f = concat (f <$> l).
Proof. induction l as [|x l IH]; [done|]. cbn. f_equal. exact IH. Qed.

(** Whatever order the threads take the objects and the buckets in, the loader
    applies the operations of all objects and builds the tree. *)
Lemma load_spec (objs : list ObjectSpec) order ids t s0 :
  Forall (fun o : ObjectSpec => reads hash now o.1 o.2.1 o.2.2) objs -> objs <> [] ->
  order ≡ₚ seq 0 (length objs) -> ids ≡ₚ seq 0 DATA_TREE_BUCKET_NUM ->
  fresh_store s0 -> distinct_ops (concat ((fun o => o.2.1) <$> objs)) ->
  lists_tree (nodes_of (concat ((fun o => o.2.1) <$> objs))) t -> tree_wf t ->
  count_after objs order None = Some (Z.of_nat (length objs)) ->
  exists s1, loaded s0 (concat ((fun o => o.2.1) <$> objs)) s1 /\
    loadLatestSnapshot hash now order ids (numbered_map objs.*1) s0 = Ok (with_tree (fun _ => t) s1).
Proof.
  intros Ho Hne Hord Hids Hf Hd Hl Hwf Hc. set (opss := (fun o => o.2.1) <$> objs) in *.
  assert (order ≫= ops_at objs ≡ₚ concat opss) as HP.
  { rewrite Hord, bind_concat, ops_at_all. done. }
  unfold loadLatestSnapshot. rewrite numbered_size, numbered_sorted, numbered_files, length_fmap.
  destruct (head_last_seqZ (length objs)) as [-> ->]; [by destruct objs; [|simpl; lia]|].
  rewrite decide_False by naive_solver.
  rewrite parse_objects_spec; [|done|rewrite Hord; apply Forall_seq; lia].
  destruct (apply_ops_loaded now s0 (order ≫= ops_at objs) [] s0) as (s1 & E & Hs1);
    [by apply fresh_loaded|by eapply distinct_ops_perm|].
  cbn [ps_store ps_count all_objects_edges all_objects_nodes]. rewrite E. cbn [mbind outcome_bind].
  cbn [ps_store ps_count all_objects_edges all_objects_nodes]. rewrite Hc. cbn [from_option].
  rewrite Z.eqb_refl. cbn [negb app] in *.
  rewrite !fold_insert_all by (by rewrite length_replicate). rewrite !length_replicate.
  rewrite (ops_at_slots objs (fun ops => fold_left (push_edge hash) ops no_buckets)).
  rewrite (ops_at_slots objs (fun ops => fold_left (push_node hash) ops no_buckets)). fold opss.
  exists s1. split; [by eapply loaded_perm|].
  destruct (dump_and_rebuild_identity hash
    ((fun ops => fold_left (push_node hash) ops no_buckets) <$> opss)
    ((fun ops => fold_left (push_edge hash) ops no_buckets) <$> opss) ids
    (node_map_of hash t) (node_map_of hash (data_tree s1)) t (data_tree s1)) as (m' & -> & Hr).
  - apply node_map_of_rel.
  - done.
  - eapply slots_objects_of; [apply node_map_of_rel|done].
  - by apply slots_edges_of.
  - done.
  - apply node_map_of_rel.
  - rewrite (lo_tree _ _ _ Hs1). by destruct Hf.
  - cbn [mbind outcome_bind]. by rewrite (tree_of_rel hash m' t Hr).
Qed.
End load.

(** ** Stores a snapshot can hold *)

(** The bytes of a batch without its header. *)
Definition batch_size (es : list bytes) : Z := Z.of_nat (length (es ≫= element_write)).

(** However the container is iterated, no batch of [k] elements reaches a
    gigabyte. *)
Definition batches_fit {A} (enc : A -> bytes) (k : Z) (X : list A) : Prop :=
  forall W, W ⊆+ X -> Z.of_nat (length W) <= k -> batch_size (enc <$> W) < 2 ^ 30 - 8.

Lemma batch_size_elements es :
  4 * Z.of_nat (length es) <= batch_size es /\ Forall (fun e => Z.of_nat (length e) <= batch_size es) es.
Proof.
  unfold batch_size. induction es as [|e es [IH1 IH2]]; [done|]. rewrite bind_cons, length_app.
  unfold element_write at 1 3. rewrite length_app. unfold writeIntBinary_i32. rewrite length_le_bytes. cbn [length].
  split; [lia|]. constructor; [lia|]. eapply Forall_impl; [exact IH2|]. cbn. intros. lia.
Qed.

(** The types the writers use. *)
Definition written_type (type : SnapshotBatchType) : Prop :=
  type = SNAPSHOT_TYPE_DATA \/ type = SNAPSHOT_TYPE_SESSION \/ type = SNAPSHOT_TYPE_ACLMAP \/
  type = SNAPSHOT_TYPE_UINTMAP.

Lemma frame_fits_size type es :
  written_type type -> batch_size es < 2 ^ 30 - 8 -> frame_fits (mkBatch type es).
Proof.
  intros Ht Hs. destruct (batch_size_elements es) as [H1 H2].
  assert (SnapshotBatchType_of (SnapshotBatchType_code type) = type /\ in_i32 (SnapshotBatchType_code type)) as [Ht1 Ht2].
  { by destruct Ht as [-> | [-> | [-> | ->]]]. }
  split.
  - split_and!; cbn [batch_type elements]; [done|done|lia|].
    eapply Forall_impl; [exact H2|]. cbn. intros e He. unfold bytes_fit. lia.
  - unfold batch_serialize. cbn [batch_type elements]. rewrite !length_app. unfold writeIntBinary_i32.
    rewrite !length_le_bytes. unfold batch_size in Hs. lia.
Qed.

Lemma windows_of_batches {A} type (enc : A -> bytes) k X xs :
  written_type type -> batches_fit enc k X -> xs ≡ₚ X -> windows_fit type k (enc <$> xs).
Proof.
  intros Ht Hf HP a ys b E Hl. apply fmap_app_inv in E as (a' & r & -> & E & ->).
  symmetry in E. apply fmap_app_inv in E as (W & b' & -> & -> & ->). rewrite length_fmap in Hl.
  apply frame_fits_size; [done|]. apply Hf; [|done]. rewrite <- HP.
  by apply submseteq_inserts_l, submseteq_inserts_r.
Qed.

Section roundtrip.
Context `{IterOrder} (hash : string -> Z) (now : Z).

Local Abbreviation node_bytes := (fun p : string * KeeperNode => serializeKeeperNode p.1 p.2 V2).
Local Abbreviation cloned := (fun p : string * KeeperNode => (p.1, cloneWithoutChildren p.2)).
Local Abbreviation ObjectSpec := (bytes * (list LoadOp * option Z))%type.

(** The sessions with the identities they are written with. *)
Definition session_entries (s : KeeperStore) : gmap Z (Z * list AuthID) :=
  map_imap (fun i t => Some (t, default [] (session_and_auth s !! i))) (session_and_timeout (session_manager s)).

Record snapshot_fits (c : SnapConfig) (s : KeeperStore) : Prop := {
  sn_version : snap_version c = V2;
  sn_max : 0 < max_object_node_size c;
  sn_batch : 3 <= save_batch_size c < 2 ^ 32;
  sn_tree : tree_wf (data_tree s);
  sn_nodes : forall p n, data_tree s !! p = Some n -> node_fits p n;
  sn_size : Z.of_nat (size (data_tree s)) < 2 ^ 32 - 4 /\ max_object_node_size c < 2 ^ 32;
  sn_sessions : forall x, x ∈ map_to_list (session_entries s) -> session_fits x;
  sn_sessions_size : Z.of_nat (size (session_and_timeout (session_manager s))) < 2 ^ 64;
  sn_acl_wf : acl_wf (acl_map s);
  sn_acls : forall i a, num_to_acl (acl_map s) !! i = Some a -> vector_fits ACL_fits a;
  sn_acls_size : Z.of_nat (size (num_to_acl (acl_map s))) < 2 ^ 64;
  sn_numbers : in_i64 (zxid s) /\ in_i64 (session_id_counter (session_manager s));
  sn_node_batches : batches_fit node_bytes (save_batch_size c) (cloned <$> map_to_list (data_tree s));
  sn_session_batches : batches_fit session_element (save_batch_size c) (map_to_list (session_entries s));
  sn_acl_batches : batches_fit acl_element (save_batch_size c) (map_to_list (num_to_acl (acl_map s)))
}.

(** The same in three parts: the tree is in order, the number of children that a
    node states is not negative, and the sizes are within what the format can hold.
    The last is what a configuration and the limits of the protocol ensure. *)
Definition counted (s : KeeperStore) : Prop := forall p n, data_tree s !! p = Some n -> 0 <= numChildren (stat n).

Record snapshot_sizes (c : SnapConfig) (s : KeeperStore) : Prop := {
  sz_max : 0 < max_object_node_size c < 2 ^ 32;
  sz_batch : 3 <= save_batch_size c < 2 ^ 32;
  sz_nodes : forall p n, data_tree s !! p = Some n ->
    string_fits p /\ string_fits (data n) /\ 0 <= acl_id n < 2 ^ 64 - 1 /\ Stat_fits (stat n);
  sz_size : Z.of_nat (size (data_tree s)) < 2 ^ 32 - 4;
  sz_sessions : forall x, x ∈ map_to_list (session_entries s) -> session_fits x;
  sz_sessions_size : Z.of_nat (size (session_and_timeout (session_manager s))) < 2 ^ 64;
  sz_acl_wf : acl_wf (acl_map s);
  sz_acls : forall i a, num_to_acl (acl_map s) !! i = Some a -> vector_fits ACL_fits a;
  sz_acls_size : Z.of_nat (size (num_to_acl (acl_map s))) < 2 ^ 64;
  sz_numbers : in_i64 (zxid s) /\ in_i64 (session_id_counter (session_manager s));
  sz_node_batches : batches_fit node_bytes (save_batch_size c) (cloned <$> map_to_list (data_tree s));
  sz_session_batches : batches_fit session_element (save_batch_size c) (map_to_list (session_entries s));
  sz_acl_batches : batches_fit acl_element (save_batch_size c) (map_to_list (num_to_acl (acl_map s)))
}.

Lemma sizes_fit c s :
  snap_version c = V2 -> tree_wf (data_tree s) -> counted s -> snapshot_sizes c s -> snapshot_fits c s.
Proof.
  intros Hv Ht Hc [Hmax Hb Hn Hsz Hs Hss Hw Ha Has Hnum Hnb Hsb Hab]. split; try done; try lia.
  intros p n Hp. destruct (Hn p n Hp) as (H1 & H2 & H3 & H4). split; try done. by eapply Hc.
Qed.

(** What a loaded store has in common with the one the snapshot was taken of:
    everything clients see but their watches. Identities of closed sessions and
    the number of the next list are not kept; the usage of the lists is counted
    afresh. *)
Record restored (s s' : KeeperStore) : Prop := {
  re_tree : data_tree s' = data_tree s;
  re_zxid : zxid s' = zxid s;
  re_counter : session_id_counter (session_manager s') = session_id_counter (session_manager s);
  re_timeouts : session_and_timeout (session_manager s') = session_and_timeout (session_manager s);
  re_sessions : sessions_wf (session_manager s');
  re_auth : forall i a, session_and_auth s' !! i = Some a <->
    session_and_auth s !! i = Some a /\ a <> [] /\ is_Some (session_and_timeout (session_manager s) !! i);
  re_num : num_to_acl (acl_map s') = num_to_acl (acl_map s);
  re_acl : acl_to_num (acl_map s') = acl_to_num (acl_map s);
  re_uses : forall i, i <> 0 -> default 0 (usage_counter (acl_map s') !! i) = uses i (map_to_list (data_tree s));
  re_eph : forall i p, p ∈ mset_get i (ephemerals s') <->
    i <> 0 /\ exists n, data_tree s !! p = Some n /\ ephemeralOwner (stat n) = i
}.

(** *** The objects of the data tree *)

Lemma split_concat {A B} (f : A -> B) (ls : list (list B)) : forall L : list A,
  concat ls = f <$> L -> exists Ls : list (list A), concat Ls = L /\ ls = (fun l : list A => f <$> l) <$> Ls.
Proof.
  induction ls as [|l ls IH]; intros L E.
  - exists []. symmetry in E. by apply fmap_nil_inv in E as ->.
  - cbn [concat] in E. symmetry in E. apply fmap_app_inv in E as (L1 & L2 & -> & E & ->).
    destruct (IH L2 E) as (Ls & <- & ->). by exists (L1 :: Ls).
Qed.

Lemma tree_nonempty t : tree_wf t -> (1 <= size t)%nat.
Proof.
  intros Hwf. destruct (tw_root _ Hwf) as [n Hroot]. destruct (size t) eqn:E; [|lia].
  apply map_size_empty_inv in E. by rewrite E, lookup_empty in Hroot.
Qed.

(** The list a writer goes through holds the nodes of the tree. *)
Definition nodes_listed (L : list (string * KeeperNode)) (t : Tree) : Prop :=
  cloned <$> L ≡ₚ cloned <$> map_to_list t.

Lemma nodes_listed_tree L t : nodes_listed L t -> lists_tree L t.
Proof.
  intros HP. split.
  - assert (L.*1 = (cloned <$> L).*1) as -> by (by rewrite <- list_fmap_compose).
    rewrite HP, <- list_fmap_compose. apply NoDup_fst_map_to_list.
  - intros k x. rewrite HP, list_elem_of_fmap. split.
    + intros ([k' n] & [= -> ->] & Hn%elem_of_map_to_list). by exists n.
    + intros (n & Hn & ->). exists (k, n). split; [done|]. by apply elem_of_map_to_list.
Qed.

Lemma nodes_listed_fits c s L :
  snapshot_fits c s -> nodes_listed L (data_tree s) -> Forall (fun p => node_fits p.1 p.2) L.
Proof.
  intros Hs [_ Hin]%nodes_listed_tree. apply Forall_forall. intros [p n] Hp.
  destruct (Hin p (cloneWithoutChildren n)) as [(n' & Hn' & E) _]; [apply list_elem_of_fmap; by exists (p, n)|].
  apply (sn_nodes c s Hs) in Hn' as [H1 H2 H3 H4 H5]. injection E as E1 E2 E3 E4 E5.
  split; cbn [fst snd]; congruence.
Qed.

Definition node_ops : list (string * KeeperNode) -> list LoadOp := fmap (fun p => OpNode p.1 p.2).

Lemma data_objects_read objs : forall Ls : list (list (string * KeeperNode)),
  Forall (fun bs => bs <> []) objs -> Forall (batch_of SNAPSHOT_TYPE_DATA) (concat objs) ->
  (fun bs => concat (elements <$> bs)) <$> objs = (fun l : list (string * KeeperNode) => node_bytes <$> l) <$> Ls ->
  Forall (fun p => node_fits p.1 p.2) (concat Ls) ->
  Forall2 (fun f l => reads hash now f (node_ops l) None) (object_file V2 <$> objs) Ls.
Proof.
  induction objs as [|bs objs IH]; intros [|l Ls] Hne Hall E Hf; try done.
  apply Forall_cons in Hne as [Hbs Hne]. cbn [concat] in *. apply Forall_app in Hall as [Hb Hall].
  apply Forall_app in Hf as [Hfl Hf]. cbn [fmap list_fmap] in E |- *. injection E as E1 E2.
  constructor; [|by apply IH].
  apply (reads_elements hash now SNAPSHOT_TYPE_DATA (parse_node_element hash V2) node_bytes
    (fun p => OpNode p.1 p.2) (fun p => node_fits p.1 p.2) bs l); try done.
  - intros b st Hty. unfold parse_batch_of_type. by rewrite Hty.
  - intros p st. apply read_node.
Qed.

Lemma data_objects c s L :
  snapshot_fits c s -> nodes_listed L (data_tree s) ->
  exists fs Ls, (w ← append_nodes c L TreeWriter0; finish_tree w) = Ok (imap (fun i f => (Z.of_nat i + 4, f)) fs) /\
    Forall2 (fun f l => reads hash now f (node_ops l) None) fs Ls /\ concat Ls = L /\
    Z.of_nat (length fs) = (Z.of_nat (size (data_tree s)) - 1) / max_object_node_size c + 1.
Proof.
  intros Hs HL. pose proof Hs as [Hv Hm Hb Hwf _ [Hn _] _ _ _ _ _ _ Hfit _ _].
  assert (length L = size (data_tree s)) as Hlen.
  { apply Permutation_length in HL. rewrite !length_fmap, length_map_to_list in HL. done. }
  destruct (tree_objects_spec c Hm ltac:(lia) L) as (objs & -> & Hne & Hall & Hc & Hl).
  - intros ->. pose proof (tree_nonempty _ Hwf). cbn [length] in Hlen. lia.
  - lia.
  - rewrite Hv. rewrite <- (list_fmap_ext (fun p => serializeKeeperNode (cloned p).1 (cloned p).2 V2)) by done.
    rewrite (list_fmap_compose cloned node_bytes). eapply windows_of_batches; [by left|exact Hfit|done].
  - unfold contents in Hc. rewrite Hv in Hc.
    assert (concat ((fun bs => concat (elements <$> bs)) <$> objs) = node_bytes <$> L) as Hc'.
    { rewrite <- Hc. clear. induction objs as [|bs objs IH]; [done|]. cbn [concat].
      rewrite fmap_app, concat_app, <- IH. done. }
    apply split_concat in Hc' as (Ls & HLs & E).
    exists (object_file V2 <$> objs), Ls. split_and!.
    + unfold data_files. rewrite Hv, imap_fmap. done.
    + apply data_objects_read; [done..|]. rewrite HLs. by eapply nodes_listed_fits.
    + done.
    + by rewrite length_fmap, Hl, Hlen.
Qed.

(** *** The three objects before them *)

Definition session_ops : list (Z * (Z * list AuthID)) -> list LoadOp := fmap (fun x => OpSession x.1 x.2.1 x.2.2).
Definition acl_ops : list (Z * list ACL) -> list LoadOp := fmap (fun x => OpAcl x.1 x.2).

Lemma elem_of_session_entries s i t a :
  (i, (t, a)) ∈ map_to_list (session_entries s) <->
  session_and_timeout (session_manager s) !! i = Some t /\ a = default [] (session_and_auth s !! i).
Proof.
  rewrite elem_of_map_to_list. unfold session_entries. rewrite map_lookup_imap.
  destruct (session_and_timeout (session_manager s) !! i) as [t'|]; cbn; naive_solver.
Qed.

Lemma session_entries_perm s :
  (fun p : Z * Z => (p.1, (p.2, default [] (session_and_auth s !! p.1)))) <$>
    iter_entries (session_and_timeout (session_manager s)) ≡ₚ map_to_list (session_entries s).
Proof.
  rewrite iter_entries_perm. apply NoDup_Permutation.
  - apply (NoDup_fmap_1 fst). rewrite <- list_fmap_compose. apply NoDup_fst_map_to_list.
  - apply NoDup_map_to_list.
  - intros [i [t a]]. rewrite elem_of_session_entries, list_elem_of_fmap. split.
    + intros ([i' t'] & [= -> -> ->] & Hi%elem_of_map_to_list). done.
    + intros [Hi ->]. exists (i, t). split; [done|]. by apply elem_of_map_to_list.
Qed.

Lemma numbers_frame z c n :
  frame_fits (mkBatch SNAPSHOT_TYPE_UINTMAP (map_element <$> iter_str_entries (int_map_of z c n))).
Proof.
  apply frame_fits_size; [by right; right; right|]. unfold batch_size.
  rewrite (int_map_entries z c n). cbn [fmap list_fmap mbind list_bind]. unfold element_write, map_element, write_string.
  unfold writeIntBinary_i32, write_i32, write_i64.
  repeat rewrite ?length_app, ?length_le_bytes, ?length_write_int. cbn. lia.
Qed.

Lemma header_objects c s total :
  snapshot_fits c s -> 0 <= total < 2 ^ 32 ->
  exists o1 o2 o3 X Y,
    create_header_objects c (int_map_of (zxid s) (session_id_counter (session_manager s)) total)
      (session_and_timeout (session_manager s)) (session_and_auth s) (num_to_acl (acl_map s)) =
      Ok [(1, o1); (2, o2); (3, o3)] /\
    reads hash now o1 [OpNumbers (zxid s) (session_id_counter (session_manager s))] (Some total) /\
    reads hash now o2 (session_ops X) None /\ X ≡ₚ map_to_list (session_entries s) /\
    reads hash now o3 (acl_ops Y) None /\ Y ≡ₚ map_to_list (num_to_acl (acl_map s)).
Proof.
  intros [Hv Hm Hb Hwf _ [Hn _] Hsf Hsn Hacl Haf Han [Hz Hc] Hfit Hsb Hab] Ht.
  unfold create_header_objects. rewrite Hv. unfold serializeMapV2, serializeSessionsV2, serializeAclsV2.
  pose proof (int_map_entries (zxid s) (session_id_counter (session_manager s)) total) as HP.
  rewrite (serialize_object_single SNAPSHOT_TYPE_UINTMAP map_element
    (iter_str_entries (int_map_of (zxid s) (session_id_counter (session_manager s)) total))).
  2:{ intros E. rewrite E in HP. by apply Permutation_nil in HP. }
  2:{ rewrite HP. cbn [length]. lia. }
  2:{ apply numbers_frame. }
  cbn [mbind outcome_bind].
  set (X := (fun p : Z * Z => _) <$> iter_entries _). pose proof (session_entries_perm s) as HX. fold X in HX.
  set (Y := iter_entries (num_to_acl _)). pose proof (iter_entries_perm (num_to_acl (acl_map s))) as HY. fold Y in HY.
  destruct (serialize_object_spec SNAPSHOT_TYPE_SESSION session_element X (save_batch_size c) V2)
    as (bs2 & -> & Hne2 & Hall2 & Hc2); [lia| |eapply windows_of_batches; [right; by left|exact Hsb|done]|].
  { unfold X. rewrite length_fmap, iter_entries_perm, length_map_to_list. done. }
  destruct (serialize_object_spec SNAPSHOT_TYPE_ACLMAP acl_element Y (save_batch_size c) V2)
    as (bs3 & -> & Hne3 & Hall3 & Hc3); [lia| |eapply windows_of_batches; [right; right; by left|exact Hab|done]|].
  { rewrite HY, length_map_to_list. done. }
  cbn [mbind outcome_bind]. eexists _, _, _, X, Y. split_and!; [done|..|done].
  - apply reads_numbers; [done..|apply numbers_frame].
  - apply (reads_elements hash now SNAPSHOT_TYPE_SESSION (parse_session_element now V2) session_element
      (fun x => OpSession x.1 x.2.1 x.2.2) session_fits bs2 X); try done.
    + intros b st Hty. unfold parse_batch_of_type. by rewrite Hty.
    + intros x st. apply read_session_element.
    + apply Forall_forall. intros x Hx. apply Hsf. by rewrite <- HX.
  - done.
  - apply (reads_elements hash now SNAPSHOT_TYPE_ACLMAP parse_acl_element acl_element
      (fun x => OpAcl x.1 x.2) acl_fits bs3 Y); try done.
    + intros b st Hty. unfold parse_batch_of_type. by rewrite Hty.
    + intros x st. apply read_acl_element.
    + apply Forall_forall. intros [i a] Hx. rewrite HY, elem_of_map_to_list in Hx.
      split; cbn [fst snd]; [|by eapply Haf]. apply (wf_range _ Hacl) in Hx. pose proof (wf_next _ Hacl).
      unfold in_u64. lia.
Qed.

(** *** Together *)

Definition all_ops (s : KeeperStore) X Y L : list LoadOp :=
  [OpNumbers (zxid s) (session_id_counter (session_manager s))] ++ session_ops X ++ acl_ops Y ++ node_ops L.

Lemma all_ops_parts s X Y L :
  sessions_of (all_ops s X Y L) = X /\ acls_of (all_ops s X Y L) = Y /\ nodes_of (all_ops s X Y L) = L /\
  numbers_of (all_ops s X Y L) = [(zxid s, session_id_counter (session_manager s))].
Proof.
  unfold all_ops, sessions_of, acls_of, nodes_of, numbers_of. rewrite !omap_app.
  assert (forall {B} (f : LoadOp -> option B) l, (forall x, x ∈ l -> f x = None) -> omap f l = []) as Hnil.
  { intros B f l. induction l as [|x l IH]; intros Hf; [done|]. cbn. rewrite Hf by (by left).
    apply IH. intros y Hy. apply Hf. by right. }
  assert (forall {A B} (f : LoadOp -> option B) (g : A -> LoadOp) (l : list A),
    (forall a, f (g a) = None) -> omap f (g <$> l) = []) as Hg.
  { intros A B f g l Hf. apply Hnil. intros x (a & -> & _)%list_elem_of_fmap. apply Hf. }
  assert (forall {A} (f : LoadOp -> option A) (g : A -> LoadOp) (l : list A),
    (forall a, f (g a) = Some a) -> omap f (g <$> l) = l) as Hid.
  { intros A f g l Hf. induction l as [|a l IH]; [done|]. cbn. rewrite Hf. by f_equal. }
  unfold session_ops, acl_ops, node_ops.
  split_and!; repeat first [rewrite Hid by (first [by intros [? ?] | by intros [? [? ?]]]) | rewrite Hg by done];
    cbn; by rewrite ?app_nil_r.
Qed.

Lemma all_ops_distinct c s X Y L :
  snapshot_fits c s -> X ≡ₚ map_to_list (session_entries s) -> Y ≡ₚ map_to_list (num_to_acl (acl_map s)) ->
  nodes_listed L (data_tree s) -> distinct_ops (all_ops s X Y L).
Proof.
  intros [Hv Hm Hb Hwf _ [Hn _] Hsf Hsn Hacl Haf Han [Hz Hc] Hfit Hsb Hab] HX HY HL.
  destruct (all_ops_parts s X Y L) as (E1 & E2 & E3 & E4). split; rewrite ?E1, ?E2, ?E3, ?E4.
  - rewrite HX. apply NoDup_fst_map_to_list.
  - rewrite HY. apply NoDup_fst_map_to_list.
  - rewrite HY. apply NoDup_fmap_2_strong; [|apply NoDup_map_to_list].
    intros [i a] [j b] Hi%elem_of_map_to_list Hj%elem_of_map_to_list [= <-].
    apply (wf_inverse _ Hacl) in Hi, Hj. congruence.
  - done.
  - intros i a Hi. rewrite HY, elem_of_map_to_list in Hi.
    apply (wf_range _ Hacl) in Hi. pose proof (wf_next _ Hacl). lia.
  - apply Permutation_length in HL. rewrite !length_fmap, length_map_to_list in HL. lia.
Qed.

Lemma uses_cloned i L : uses i (cloned <$> L) = uses i L.
Proof.
  unfold uses. induction L as [|p L IH]; [done|]. rewrite fmap_cons, !filter_cons. cbn [snd].
  change (acl_id (cloneWithoutChildren p.2)) with (acl_id p.2). case_decide; cbn [length]; lia.
Qed.

Lemma loaded_restored c s s0 X Y L s1 :
  snapshot_fits c s -> X ≡ₚ map_to_list (session_entries s) -> Y ≡ₚ map_to_list (num_to_acl (acl_map s)) ->
  nodes_listed L (data_tree s) -> loaded s0 (all_ops s X Y L) s1 ->
  restored s (with_tree (fun _ => data_tree s) s1).
Proof.
  intros Hs HX HY HL [_ _ Hto Hsw Ha Hn Hl _ Hu _ He Hnum].
  destruct (all_ops_parts s X Y L) as (E1 & E2 & E3 & E4). rewrite E1 in Hto, Ha. rewrite E2 in Hn, Hl.
  rewrite E3 in Hu, He. rewrite E4 in Hnum. setoid_rewrite HX in Hto. setoid_rewrite HX in Ha.
  setoid_rewrite HY in Hn. setoid_rewrite HY in Hl.
  destruct (Hnum (zxid s) (session_id_counter (session_manager s))) as [Hz Hc]; [by left|].
  split; cbn [data_tree session_manager ephemerals zxid session_and_auth acl_map with_tree]; try done.
  - apply map_eq. intros i. apply option_eq. intros t. rewrite Hto. setoid_rewrite elem_of_session_entries. naive_solver.
  - intros i a. rewrite Ha. setoid_rewrite elem_of_session_entries. split.
    + intros (Hne & t & Ht & ->). destruct (session_and_auth s !! i); [eauto|done].
    + intros (-> & Hne & [t Ht]). split; [done|]. by exists t.
  - apply map_eq. intros i. apply option_eq. intros a. by rewrite Hn, elem_of_map_to_list.
  - apply map_eq. intros a. apply option_eq. intros i. rewrite Hl, elem_of_map_to_list.
    symmetry. apply (wf_inverse _ (sn_acl_wf c s Hs)).
  - intros i Hi. rewrite Hu by done.
    assert (uses i L = uses i (map_to_list (data_tree s))) as ->.
    { rewrite <- (uses_cloned i L), <- (uses_cloned i (map_to_list _)). unfold uses. by rewrite HL. }
    by case_decide.
  - intros i p. rewrite He. apply nodes_listed_tree in HL as [_ Hin]. split.
    + intros (n & Hp & Ho & Hi). split; [done|].
      destruct (Hin p (cloneWithoutChildren n)) as [(n' & Hn' & E) _]; [apply list_elem_of_fmap; by exists (p, n)|].
      exists n'. split; [done|]. injection E as _ _ _ _ E. congruence.
    + intros (Hi & n & Hp & Ho). destruct (Hin p (cloneWithoutChildren n)) as [_ Hin'].
      specialize (Hin' (ex_intro _ n (conj Hp eq_refl))). apply list_elem_of_fmap in Hin' as ([p' n'] & E & Hin').
      injection E as -> _ _ _ _ E. exists n'. split_and!; [done| |done]. congruence.
Qed.

(** *** The whole snapshot *)

Lemma numbered_cons3 o1 o2 o3 fs :
  [(1, o1); (2, o2); (3, o3)] ++ imap (fun i f => (Z.of_nat i + 4, f)) fs = numbered (o1 :: o2 :: o3 :: fs).
Proof.
  unfold numbered. cbn [imap app]. do 3 f_equal. apply imap_ext. intros i f _. cbn. f_equal. lia.
Qed.

Lemma count_after_total (objs : list ObjectSpec) total order : forall c,
  from_option (fun o => o.2.2) None (objs !! 0%nat) = Some total ->
  (forall i o, objs !! S i = Some o -> o.2.2 = None) ->
  0%nat ∈ order \/ c = Some total -> count_after objs order c = Some total.
Proof.
  induction order as [|i order IH]; intros c H0 Hr Hin; cbn [count_after].
  - destruct Hin as [Hin|]; [by apply elem_of_nil in Hin|done].
  - apply IH; [done..|]. destruct i as [|i]; [rewrite H0; by right|].
    assert (from_option (fun o : ObjectSpec => o.2.2) None (objs !! S i) = None) as ->.
    { destruct (objs !! S i) as [o|] eqn:E; [by apply Hr in E|done]. }
    destruct Hin as [[?|?]%elem_of_cons| ->]; [done|by left|by right].
Qed.

(** What the objects of a snapshot are worth: there are as many as the first
    one says, and loading them into a new store, in any order of the threads,
    gives the content back. *)
Definition restores (s : KeeperStore) (objs : Objects) : Prop :=
  forall s0 order ids,
    fresh_store s0 -> order ≡ₚ seq 0 (size objs) -> ids ≡ₚ seq 0 DATA_TREE_BUCKET_NUM ->
    exists s', loadLatestSnapshot hash now order ids objs s0 = Ok s' /\ restored s s'.

Lemma objects_restore c s L :
  snapshot_fits c s -> nodes_listed L (data_tree s) ->
  let total := (Z.of_nat (size (data_tree s)) - 1) / max_object_node_size c + 4 in
  exists objs,
    (head ← create_header_objects c (int_map_of (zxid s) (session_id_counter (session_manager s)) total)
              (session_and_timeout (session_manager s)) (session_and_auth s) (num_to_acl (acl_map s));
     data ← (w ← append_nodes c L TreeWriter0; finish_tree w);
     Ok (list_to_map (head ++ data) : Objects)) = Ok objs /\
    Z.of_nat (size objs) = total /\ (exists fs, objs = numbered_map fs) /\ restores s objs.
Proof.
  intros Hs HL total. pose proof Hs as [_ Hmax _ Hwf _ [Hn _] _ _ _ _ _ _ _ _ _].
  pose proof (tree_nonempty _ Hwf) as Hpos.
  assert (4 <= total <= Z.of_nat (size (data_tree s)) + 3) as Ht.
  { unfold total. pose proof (Z.div_pos (Z.of_nat (size (data_tree s)) - 1) (max_object_node_size c)).
    pose proof (Z.div_le_upper_bound (Z.of_nat (size (data_tree s)) - 1) (max_object_node_size c)
      (Z.of_nat (size (data_tree s)) - 1)). nia. }
  destruct (header_objects c s total Hs) as (o1 & o2 & o3 & X & Y & -> & R1 & R2 & HX & R3 & HY); [lia|].
  destruct (data_objects c s L Hs HL) as (fs & Ls & -> & HR & HLs & Hlen).
  cbn [mbind outcome_bind]. rewrite numbered_cons3. fold (numbered_map (o1 :: o2 :: o3 :: fs)).
  eexists; split; [done|]. rewrite numbered_size. split; [cbn [length]; lia|]. split; [by eexists|].
  intros s0 order ids Hf Hord Hids. rewrite numbered_size in Hord.
  set (objs := (o1, ([OpNumbers (zxid s) (session_id_counter (session_manager s))], Some total)) ::
    (o2, (session_ops X, None)) :: (o3, (acl_ops Y, None)) ::
    zip_with (fun f l => (f, (node_ops l, None))) fs Ls : list ObjectSpec).
  assert (length fs = length Ls) as Hll by (by eapply Forall2_length).
  assert (objs.*1 = o1 :: o2 :: o3 :: fs) as Efs.
  { unfold objs. cbn. do 3 f_equal. rewrite fmap_zip_with_l; [done|done|]. lia. }
  assert (concat ((fun o => o.2.1) <$> objs) = all_ops s X Y L) as Eops.
  { unfold objs, all_ops. cbn. do 3 f_equal. rewrite <- HLs. clear -Hll.
    revert Ls Hll. induction fs as [|f fs IH]; intros [|l Ls] Hll; try done. cbn in *.
    rewrite IH by lia. unfold node_ops. by rewrite fmap_app. }
  assert (length objs = length (o1 :: o2 :: o3 :: fs)) as El by (by rewrite <- Efs, length_fmap).
  destruct (load_spec hash now objs order ids (data_tree s) s0) as (s1 & Hl & E).
  - unfold objs. repeat (constructor; [done|]). clear -HR. induction HR; cbn; by constructor.
  - done.
  - by rewrite El.
  - done.
  - done.
  - rewrite Eops. by eapply all_ops_distinct.
  - rewrite Eops. destruct (all_ops_parts s X Y L) as (_ & _ & -> & _). by apply nodes_listed_tree.
  - done.
  - rewrite El. replace (Z.of_nat (length (o1 :: o2 :: o3 :: fs))) with total by (cbn [length]; lia).
    apply count_after_total; [done| |left; rewrite Hord; apply elem_of_seq; cbn [length]; lia].
    intros i o Ho. unfold objs in Ho. destruct i as [|[|i]]; cbn in Ho; [by injection Ho as <-..|].
    apply lookup_zip_with_Some in Ho as (f & l & -> & _). done.
  - rewrite Efs in E. rewrite E. eexists; split; [done|]. rewrite Eops in Hl. by eapply loaded_restored.
Qed.
End roundtrip.
