(* ===== verification/SnapshotRoundtrip.v ===== *)
(** * Both ways of taking a snapshot restore the store

    The asynchronous writer of [src/src/Service/NuRaftLogSnapshot.cpp] goes
    through a dump of the buckets, the synchronous one walks the tree from the
    root: both list every node once, and what they write is loaded again. *)

From S2P Require Import Prelude Coordination Paths AclMap Sessions Watches DataTree Store StoreTree Wire Crc.
From S2P Require Import StoreTheorems SnapshotFormat Snapshot SnapshotLoad SnapshotTheorems.

(** ** Descendants in a well-formed tree *)

Section tree_paths.
Context (t : Tree) (Hwf : tree_wf t).

Lemma prefix_exists l k :
  Forall valid_name (l ++ k) -> is_Some (t !! path_of (l ++ k)) -> is_Some (t !! path_of l).
Proof.
  induction k as [|c k IH] using rev_ind; [by rewrite app_nil_r|]. rewrite app_assoc.
  intros Hv Hs. apply Forall_app in Hv as [Hv [[Hc1 Hc2] _]%Forall_cons]. apply IH; [done|].
  rewrite path_of_snoc in Hs.
  destruct (tw_parent t Hwf _ Hs) as (n & Hn & _); [by apply child_of_ne_root|].
  rewrite getParentPath_child in Hn by done. eauto.
Qed.

(** A descendant is below a child the node lists. *)
Lemma descendant_child l c k n :
  Forall valid_name (l ++ c :: k) -> t !! path_of l = Some n -> is_Some (t !! path_of (l ++ c :: k)) ->
  c ∈ children n.
Proof.
  rewrite cons_middle, app_assoc. intros Hv Hn Hs. apply prefix_exists in Hs; [|done].
  apply Forall_app in Hv as [[_ [[Hc1 Hc2] _]%Forall_cons]%Forall_app _]. rewrite path_of_snoc in Hs.
  destruct (tw_parent t Hwf _ Hs) as (n' & Hn' & Hin); [by apply child_of_ne_root|].
  rewrite getParentPath_child, getBaseName_child in * by done. congruence.
Qed.

(** A node and its ancestors are different nodes, so the depth is bounded. *)
Lemma depth_bound l : Forall valid_name l -> is_Some (t !! path_of l) -> (length l < size t)%nat.
Proof.
  intros Hv Hs. set (ps := (fun i => path_of (take i l)) <$> seq 0 (S (length l))).
  assert (list_to_set ps ⊆ dom t) as Hsub.
  { intros p. rewrite elem_of_list_to_set, elem_of_dom. unfold ps.
    intros (i & -> & [_ Hi]%elem_of_seq)%list_elem_of_fmap. apply (prefix_exists _ (drop i l)); by rewrite take_drop. }
  apply subseteq_size in Hsub. rewrite size_dom, size_list_to_set in Hsub.
  - unfold ps in Hsub. rewrite length_fmap, length_seq in Hsub. lia.
  - apply NoDup_fmap_2_strong; [|apply NoDup_seq]. intros i j [_ Hi]%elem_of_seq [_ Hj]%elem_of_seq E.
    apply path_of_inj in E; [|by apply Forall_take..].
    apply (f_equal length) in E. rewrite !length_take in E. lia.
Qed.
End tree_paths.

(** ** The walk *)

Section walk.
Context `{IterOrder} (c : SnapConfig) (t : Tree) (Hwf : tree_wf t).

Lemma append_nodes_app L1 L2 w :
  append_nodes c (L1 ++ L2) w = w' ← append_nodes c L1 w; append_nodes c L2 w'.
Proof.
  revert w. induction L1 as [|p L1 IH]; intros w; [done|]. cbn [app append_nodes].
  destruct (append_node c p w); [apply IH|done].
Qed.

(** [run] appends, in some order and each once, the nodes that satisfy [P]. *)
Definition appends (run : TreeWriter -> outcome TreeWriter) (P : string -> Prop) : Prop :=
  exists L, (forall w, run w = append_nodes c L w) /\ NoDup L.*1 /\
    forall q n, (q, n) ∈ L <-> t !! q = Some n /\ P q.

Definition below (l : list string) (q : string) : Prop := exists k, Forall valid_name k /\ q = path_of (l ++ k).

Lemma appends_nil P : (forall q, P q -> t !! q = None) -> appends Ok P.
Proof.
  intros HP. exists []. split_and!; [done|constructor|]. intros q n. split; [by intros Hn%elem_of_nil|].
  intros [Hq Hp]. rewrite HP in Hq; done.
Qed.

Lemma appends_seq run1 run2 P1 P2 P :
  appends run1 P1 -> appends run2 P2 -> (forall q, P1 q -> P2 q -> False) ->
  (forall q, is_Some (t !! q) -> P q <-> P1 q \/ P2 q) -> appends (fun w => w' ← run1 w; run2 w') P.
Proof.
  intros (L1 & E1 & N1 & M1) (L2 & E2 & N2 & M2) Hd HP. exists (L1 ++ L2). split_and!.
  - intros w. rewrite append_nodes_app, E1. destruct (append_nodes c L1 w); [apply E2|done].
  - rewrite fmap_app. apply NoDup_app. split_and!; [done| |done].
    intros q ([q1 n1] & -> & [_ H1]%M1)%list_elem_of_fmap ([q2 n2] & E & [_ H2]%M2)%list_elem_of_fmap.
    cbn in E. subst q2. by eapply Hd.
  - intros q n. rewrite elem_of_app, M1, M2. split.
    + intros [[? ?]|[? ?]]; (split; [done|]); apply HP; eauto.
    + intros [Hq Hp]. apply HP in Hp as [?|?]; eauto.
Qed.

Lemma children_appends serialize l cs :
  Forall valid_name l -> Forall valid_name cs -> NoDup cs ->
  (forall child, child ∈ cs -> appends (serialize (path_of (l ++ [child]))) (below (l ++ [child]))) ->
  appends (serialize_children serialize (if decide (path_of l <> "/") then (path_of l ++ "/")%string else path_of l) cs)
    (fun q => exists child, child ∈ cs /\ below (l ++ [child]) q).
Proof.
  intros Hl Hcs Hnd. induction cs as [|child cs IH]; intros Hs.
  { apply appends_nil. intros q (child & Hc%elem_of_nil & _). done. }
  apply NoDup_cons in Hnd as [Hnin Hnd]. pose proof Hcs as [Hc Hcs']%Forall_cons. cbn [serialize_children].
  assert ((if decide (path_of l <> "/") then (path_of l ++ "/")%string else path_of l) ++ child = path_of (l ++ [child]))%string as ->.
  { rewrite path_of_snoc, <- join_path_of by done. unfold join_path.
    destruct (decide (path_of l = "/")) as [->|Hne]; [done|]. rewrite decide_True by done. apply app_assoc_str. }
  eapply (appends_seq _ _ (below (l ++ [child]))).
  - apply Hs. by left.
  - apply IH; [done..|]. intros x Hx. apply Hs. by right.
  - intros q (k & Hk & ->) (x & Hx & k' & Hk' & E). rewrite <- !app_assoc in E.
    apply path_of_inj in E; [|apply Forall_app; split; [done|by constructor]|].
    2:{ apply Forall_app; split; [done|]. constructor; [|done]. rewrite Forall_forall in Hcs'. by apply Hcs'. }
    apply app_inv_head in E. injection E as -> _. done.
  - intros q _. setoid_rewrite elem_of_cons. naive_solver.
Qed.

Lemma walk_appends fuel : forall l,
  Forall valid_name l -> is_Some (t !! path_of l) -> (size t < length l + fuel)%nat ->
  appends (serializeNodeV2 fuel c t (path_of l)) (below l).
Proof.
  induction fuel as [|fuel IH]; intros l Hl [n Hn] Hf.
  { pose proof (depth_bound t Hwf l Hl (ex_intro _ n Hn)). lia. }
  assert (forall child, child ∈ children n -> valid_name child /\ is_Some (t !! path_of (l ++ [child]))) as Hch.
  { intros child Hin. destruct (tw_child t Hwf _ _ _ Hn Hin) as [Hv Hs]. split; [done|].
    by rewrite path_of_snoc, <- join_path_of. }
  assert (appends (fun w => w1 ← append_node c (path_of l, clone n) w; 
      serialize_children (serializeNodeV2 fuel c t)
        (if decide (path_of l <> "/") then (path_of l ++ "/")%string else path_of l) (iter_str (children n)) w1)
      (below l)) as Happ.
  2:{ destruct Happ as (L & E & Hrest). exists L. split; [|done]. intros w. cbn [serializeNodeV2]. by rewrite Hn, <- E. }
  eapply (appends_seq _ _ (fun q => q = path_of l)).
  - exists [(path_of l, clone n)]. split_and!; [by intros w; cbn; destruct (append_node _ _ _)|apply NoDup_singleton|].
    intros q m. rewrite list_elem_of_singleton. destruct n; unfold clone; cbn. naive_solver.
  - apply children_appends; [done| |apply NoDup_iter_str|].
    + apply Forall_forall. intros child Hin%elem_of_iter_str. by apply Hch.
    + intros child Hin%elem_of_iter_str. apply Hch in Hin as [Hv Hs]. apply IH; [|done|rewrite length_app; cbn; lia].
      apply Forall_app. by split; [|constructor].
  - intros q -> (child & Hin%elem_of_iter_str & k & Hk & E). apply Hch in Hin as [Hv _].
    rewrite <- app_assoc in E. apply path_of_inj in E; [|done|apply Forall_app; split; [done|by constructor]].
    apply (f_equal length) in E. rewrite length_app in E. cbn in E. lia.
  - intros q Hq. split.
    + intros (k & Hk & ->). destruct k as [|child k]; [left; by rewrite app_nil_r|right].
      exists child. rewrite elem_of_iter_str. split; [|exists k; rewrite <- app_assoc; split; [by inversion Hk|done]].
      eapply (descendant_child t Hwf l child k); [by apply Forall_app|done|done].
    + intros [->|(child & Hin%elem_of_iter_str & k & Hk & ->)]; [exists []; by rewrite app_nil_r|].
      exists (child :: k). rewrite <- app_assoc. split; [|done]. constructor; [|done]. by apply Hch.
Qed.
End walk.

(** ** The two writers *)

Section snapshots.
Context `{IterOrder} (hash : string -> Z) (now : Z).

Local Abbreviation cloned := (fun p : string * KeeperNode => (p.1, cloneWithoutChildren p.2)).

(** Spreading a list over buckets keeps its elements. *)
Lemma partition_perm {A} (f : A -> nat) (l : list A) n :
  concat ((fun i => filter (fun x => f x = i) l) <$> seq 0 n) ≡ₚ filter (fun x => (f x < n)%nat) l.
Proof.
  induction n as [|n IH].
  - cbn. induction l as [|x l IHl]; [done|]. rewrite filter_cons, decide_False by lia. exact IHl.
  - rewrite seq_S, fmap_app, concat_app, IH. cbn. rewrite app_nil_r. clear IH.
    induction l as [|x l IHl]; [done|]. rewrite !filter_cons.
    destruct (decide (f x < n)%nat).
    + rewrite decide_False, decide_True by lia. cbn. by rewrite IHl.
    + destruct (decide (f x = n)).
      * rewrite decide_True by lia. rewrite <- Permutation_middle. by rewrite IHl.
      * rewrite decide_False by lia. done.
Qed.

Lemma filter_entries {V} (P : string * V -> Prop) `{forall x, Decision (P x)} (m : gmap string V) :
  map_to_list (filter P m) ≡ₚ filter P (map_to_list m).
Proof.
  apply NoDup_Permutation; [apply NoDup_map_to_list|apply NoDup_filter, NoDup_map_to_list|].
  intros [k x]. rewrite elem_of_map_to_list, map_lookup_filter_Some, list_elem_of_filter, elem_of_map_to_list.
  naive_solver.
Qed.

Lemma dump_listed t : nodes_listed (concat (dumpDataTree (node_map_of hash t))) t.
Proof.
  unfold nodes_listed. set (f := fun p : string * KeeperNode => getBucketIndex hash DATA_TREE_BUCKET_NUM p.1).
  assert (concat (dumpDataTree (node_map_of hash t)) ≡ₚ
    cloned <$> concat ((fun i => filter (fun p => f p = i) (map_to_list t)) <$> seq 0 DATA_TREE_BUCKET_NUM)) as ->.
  { unfold dumpDataTree, node_map_of. cbn [buckets]. rewrite <- list_fmap_compose.
    generalize (seq 0 DATA_TREE_BUCKET_NUM) as js. induction js as [|i js IH]; [done|].
    rewrite !fmap_cons. cbn [concat]. rewrite IH, fmap_app. f_equiv. cbn [compose].
    unfold iter_nodes. rewrite (entries_perm _ _ (iter_str_perm _)). by rewrite filter_entries. }
  rewrite partition_perm.
  assert (filter (fun x => (f x < DATA_TREE_BUCKET_NUM)%nat) (map_to_list t) = map_to_list t) as ->.
  { induction (map_to_list t) as [|x l IHl]; [done|]. rewrite filter_cons.
    by rewrite decide_True, IHl by (unfold f; apply getBucketIndex_lt, bucket_num_pos). }
  rewrite <- list_fmap_compose. done.
Qed.

Lemma walk_listed c t : tree_wf t ->
  exists L, (forall w, serializeNodeV2 (S (size t)) c t "/" w = append_nodes c L w) /\ nodes_listed L t.
Proof.
  intros Hwf. destruct (walk_appends c t Hwf (S (size t)) []) as (L & E & Hnd & Hin);
    [constructor|apply (tw_root t Hwf)|cbn; lia|].
  exists L. split; [exact E|]. unfold nodes_listed. apply fmap_Permutation, NoDup_Permutation.
  - by apply (NoDup_fmap_1 fst).
  - apply NoDup_map_to_list.
  - intros [q n]. rewrite Hin, elem_of_map_to_list. split; [by intros []|]. intros Hq. split; [done|].
    destruct (tw_valid t Hwf q) as (l & Hl & ->); [eauto|]. by exists l.
Qed.

(** The two formulas for the number of objects. *)
Lemma object_count n M :
  0 < M -> 1 <= n -> (n + M - 1) / M = (n - 1) / M + 1 /\
  n / M + (if decide (n mod M <> 0) then 1 else 0) = (n - 1) / M + 1.
Proof.
  intros HM Hn. split.
  - replace (n + M - 1) with (n - 1 + 1 * M) by lia. rewrite Z.div_add by lia. done.
  - destruct (decide (n mod M <> 0)) as [Hm|Hm].
    + by rewrite div_pred_stay by lia.
    + rewrite Z.add_0_r. rewrite div_pred_next by lia. done.
Qed.

(** Both writers number their objects from 1. *)
Lemma async_objects c s meta :
  snapshot_fits c s -> meta_size meta <> 0 ->
  exists objs, createObjectsAsyncImpl c meta (SnapTask_of hash s) = Ok objs /\
    Z.of_nat (size objs) = (Z.of_nat (size (data_tree s)) - 1) / max_object_node_size c + 4 /\
    (exists fs, objs = numbered_map fs) /\ restores hash now s objs.
Proof.
  intros Hs Hm. pose proof Hs as [_ Hmax _ Hwf _ [Hn HM] _ _ _ _ _ _ _ _ _].
  destruct (objects_restore hash now c s _ Hs (dump_listed (data_tree s))) as (objs & E & Hr).
  exists objs. split; [|done]. unfold createObjectsAsyncImpl. rewrite decide_False by done.
  cbn [nodes_count SnapTask_of next_zxid next_session_id task_timeouts task_auths task_acl_map buckets_nodes].
  unfold getNodesCount. rewrite i64_id by (unfold in_i64; lia).
  destruct (object_count (Z.of_nat (size (data_tree s))) (max_object_node_size c)) as [-> _]; [done| |].
  - pose proof (tree_nonempty _ Hwf). lia.
  - unfold serializeDataTreeAsync, serializeNodeAsync. rewrite <- E. do 3 f_equal. lia.
Qed.

Lemma sync_objects c s meta :
  snapshot_fits c s -> meta_size meta <> 0 ->
  exists objs, createObjectsV2 c meta s (zxid s) (session_id_counter (session_manager s)) = Ok objs /\
    Z.of_nat (size objs) = (Z.of_nat (size (data_tree s)) - 1) / max_object_node_size c + 4 /\
    (exists fs, objs = numbered_map fs) /\ restores hash now s objs.
Proof.
  intros Hs Hm. pose proof Hs as [_ Hmax _ Hwf _ [Hn HM] _ _ _ _ _ _ _ _ _].
  destruct (walk_listed c (data_tree s) Hwf) as (L & EL & HL).
  destruct (objects_restore hash now c s L Hs HL) as (objs & E & Hr).
  exists objs. split; [|done]. unfold createObjectsV2. rewrite decide_False by done. unfold getNodesCount.
  destruct (object_count (Z.of_nat (size (data_tree s))) (max_object_node_size c)) as [_ ->]; [done| |].
  - pose proof (tree_nonempty _ Hwf). lia.
  - unfold serializeDataTreeV2. rewrite EL, <- E. do 3 f_equal. lia.
Qed.

(** C20: a snapshot taken asynchronously and loaded into a new store, with the
    objects parsed and the buckets filled in any order, restores the tree, the
    sessions, the credentials, the access lists, the ephemeral nodes and the
    counters; there are as many objects as the first of them announces. This is so
    for the newest version of the format, a tree that is in order and in which no
    node states a negative number of children, and sizes that the fields of the
    format can hold. *)
Theorem async_snapshot_restores c s meta :
  snap_version c = V2 -> tree_wf (data_tree s) -> counted s -> snapshot_sizes c s -> meta_size meta <> 0 ->
  exists objs, createObjectsAsyncImpl c meta (SnapTask_of hash s) = Ok objs /\
    Z.of_nat (size objs) = (Z.of_nat (size (data_tree s)) - 1) / max_object_node_size c + 4 /\
    restores hash now s objs.
Proof.
  intros Hv Ht Hc Hs Hm. destruct (async_objects c s meta (sizes_fit c s Hv Ht Hc Hs) Hm) as (objs & E & Hn & _ & Hr). by exists objs.
Qed.

(** The same holds for a snapshot taken synchronously, by walking the tree. *)
Theorem sync_snapshot_restores c s meta :
  snapshot_fits c s -> meta_size meta <> 0 ->
  exists objs, createObjectsV2 c meta s (zxid s) (session_id_counter (session_manager s)) = Ok objs /\
    Z.of_nat (size objs) = (Z.of_nat (size (data_tree s)) - 1) / max_object_node_size c + 4 /\
    restores hash now s objs.
Proof.
  intros Hs Hm. destruct (sync_objects c s meta Hs Hm) as (objs & E & Hn & _ & Hr). by exists objs.
Qed.
End snapshots.

(** ** Stores to load into *)

Lemma fresh_init period digest : 0 < period < 2 ^ 63 -> fresh_store (KeeperStore_init period digest).
Proof.
  intros Hp. split; [| |by apply sessions_wf_init|..]; try done.
  intros k [n Hn]. cbn in Hn. unfold root_tree in Hn. by apply lookup_singleton_Some in Hn as [? _].
Qed.

(** Whatever the store held, a reset leaves nothing to get in the way. *)
Lemma fresh_reset s s' :
  sessions_wf (session_manager s) -> store_reset s = (Ok tt, s') -> fresh_store s'.
Proof.
  intros Hs. unfold store_reset. cbn [sm_bind sm_modify watch_op].
  unfold watch_op. destruct (no_result _) as [[u w]|f]; [|done]. intros [= <-]. split; cbn; try done.
  - intros k [n Hn]. by rewrite lookup_empty in Hn.
  - by destruct (session_call_wf CallReset (session_manager s) Hs) as (r & [= <-] & Hr).
Qed.

(** ** Damage *)

(** C35: a batch whose body was damaged within four consecutive bytes is never
    parsed: the loader throws, whatever follows in the file. *)
Theorem damaged_batch_rejected hash now version checksum pre a b post rest st batch :
  batch_serialize batch = pre ++ a ++ post -> length a = length b -> (length a <= 4)%nat -> a <> b ->
  frame_fits batch ->
  parse_batch hash now version checksum
    (le_bytes 4 (Z.of_nat (length (batch_serialize batch))) ++ le_bytes 4 (getCRC32 (batch_serialize batch)) ++
     (pre ++ b ++ post) ++ rest) st = Fault (Throw CORRUPTED_SNAPSHOT).
Proof.
  intros E Hl H4 Hne [_ Hf].
  assert (length (batch_serialize batch) = length (pre ++ b ++ post)) as Elen by (rewrite E, !length_app; lia).
  rewrite Elen, parse_batch_parts by (apply getCRC32_u32 || lia).
  unfold verifyCRC32. rewrite bool_decide_false; [done|]. rewrite E. by apply crc_detects_burst.
Qed.

Lemma damaged_batch_rejected_witness :
  parse_batch (fun _ => 0) 0 V2 0
    (le_bytes 4 8 ++ le_bytes 4 (getCRC32 (batch_serialize SnapshotBatchBody0)) ++
     ([] ++ [byte_of 1] ++ replicate 7 (byte_of 0)) ++ []) (mkLoad (KeeperStore_init 500 "") None [] []) =
  Fault (Throw CORRUPTED_SNAPSHOT).
Proof.
  apply (damaged_batch_rejected (fun _ => 0) 0 V2 0 [] [byte_of 0] [byte_of 1] (replicate 7 (byte_of 0)) []
    (mkLoad (KeeperStore_init 500 "") None [] []) SnapshotBatchBody0); [done|done|cbn; lia|done|apply empty_batch_fits].
Defined.

(** ** A store with a session, credentials and an access list *)

Definition demo_acl : list ACL := [mkACL 31 "digest" "u:h"].
Definition demo_store : KeeperStore :=
  mkStore root_tree (mkSessionManager {[7 := 30000]} (SessionExpiryQueue_init 500) 8) WatchManager_init ∅ 5
    {[7 := [mkAuthID "digest" "u:h"]]} (mkACLMap {[demo_acl := 1]} {[1 := demo_acl]} ∅ 2) false "".
Definition demo_config : SnapConfig := KeeperSnapshotStore_config 1 3 V2.

(** Few bytes in all are few bytes in every batch. *)
Lemma batches_fit_total {A} (enc : A -> bytes) k X :
  batch_size (enc <$> X) < 2 ^ 30 - 8 -> batches_fit enc k X.
Proof.
  intros Hx W [Y HP]%submseteq_Permutation _. unfold batch_size in *.
  rewrite HP, fmap_app, bind_app, length_app in Hx. lia.
Qed.

Lemma demo_wf_tree : tree_wf (data_tree demo_store).
Proof. apply root_tree_wf. Qed.

Lemma demo_counted : counted demo_store.
Proof. intros p n. cbn. unfold root_tree. by intros [<- <-]%lookup_singleton_Some. Qed.

Lemma demo_sizes_with c :
  0 < max_object_node_size c < 2 ^ 32 -> 3 <= save_batch_size c < 2 ^ 32 -> snapshot_sizes c demo_store.
Proof.
  intros Hmax Hb.
  assert (session_entries demo_store = {[7 := (30000, [mkAuthID "digest" "u:h"])]}) as Es by (by vm_compute).
  split; rewrite ?Es; cbn [data_tree session_manager session_and_timeout acl_map num_to_acl demo_store zxid
    session_id_counter]; rewrite ?map_to_list_singleton; try done; try lia.
  - intros p n. unfold root_tree. intros [<- <-]%lookup_singleton_Some. by split_and!; [..|split].
  - intros x ->%list_elem_of_singleton. split_and!; cbn; [by unfold in_i64..|]. split; [done|].
    apply Forall_singleton. by split.
  - split; cbn [acl_to_num num_to_acl usage_counter max_acl_id].
    + intros acls n. rewrite !lookup_singleton_Some. naive_solver.
    + intros n acls [<- <-]%lookup_singleton_Some. lia.
    + lia.
    + by intros n acls [<- <-]%lookup_singleton_Some.
    + intros n c0. by rewrite lookup_empty.
  - intros i a [<- <-]%lookup_singleton_Some. split; [done|]. apply Forall_singleton. by split; [unfold in_i32|split].
  - by apply batches_fit_total; vm_compute.
  - by apply batches_fit_total; vm_compute.
  - by apply batches_fit_total; vm_compute.
Qed.

Lemma demo_sizes : snapshot_sizes demo_config demo_store.
Proof. by apply demo_sizes_with. Qed.

Lemma demo_fits : snapshot_fits demo_config demo_store.
Proof. apply sizes_fit; [done|apply demo_wf_tree|apply demo_counted|apply demo_sizes]. Qed.

Lemma async_snapshot_restores_witness :
  exists objs, createObjectsAsyncImpl demo_config (mkMeta 1 10 1) (SnapTask_of (fun _ => 3) demo_store) = Ok objs /\
    exists s', loadLatestSnapshot (fun _ => 3) 0 [3; 1; 0; 2]%nat (rev (seq 0 DATA_TREE_BUCKET_NUM)) objs
      (KeeperStore_init 500 "") = Ok s' /\ restored demo_store s'.
Proof.
  destruct (async_snapshot_restores (fun _ => 3) 0 demo_config demo_store (mkMeta 1 10 1) eq_refl demo_wf_tree demo_counted demo_sizes ltac:(done))
    as (objs & E & Hn & Hr).
  exists objs. split; [done|]. apply Hr.
  - exact (fresh_init 500 "" ltac:(lia)).
  - replace (size objs) with 4%nat by (vm_compute (_ / _ + _) in Hn; lia).
    apply (bool_decide_unpack _). by vm_compute.
  - symmetry. apply Permutation_rev.
Defined.

Lemma sync_snapshot_restores_witness :
  exists objs, createObjectsV2 demo_config (mkMeta 1 10 1) demo_store 5 8 = Ok objs /\ size objs = 4%nat.
Proof.
  destruct (sync_snapshot_restores (fun _ => 3) 0 demo_config demo_store (mkMeta 1 10 1) demo_fits ltac:(done))
    as (objs & E & Hn & Hr).
  exists objs. split; [exact E|]. vm_compute (_ / _ + _) in Hn. lia.
Defined.

(** The system nodes are added without being counted by their parents.
    When a client removes one, the parent's count is -1, and the next snapshot
    cannot be loaded: the loader reserves room for that many children. *)
Theorem removed_system_node_breaks_snapshot :
  let st := (demo_steps [NewSessionRequest 1 30000 1; RemoveRequest "/keeper/api_version" (-1)]
    ((initializeSystemNodes false (KeeperStore_init 500 "")).2, [])).2 in
  (fun n => numChildren (stat n)) <$> (data_tree st.1 !! "/keeper") = Some (-1) /\
  exists objs,
    createObjectsAsyncImpl demo_config (mkMeta 1 10 (getNodesCount st.1)) (SnapTask_of (fun _ => 3) st.1) = Ok objs /\
    loadLatestSnapshot (fun _ => 3) 1000 (seq 0 (size objs)) (seq 0 DATA_TREE_BUCKET_NUM) objs
      (KeeperStore_init 500 "") = Fault UndefinedBehaviour.
Proof.
  intros st. split; [vm_compute; reflexivity|].
  assert (match createObjectsAsyncImpl demo_config (mkMeta 1 10 (getNodesCount st.1)) (SnapTask_of (fun _ => 3) st.1) with
    | Ok objs =>
        match loadLatestSnapshot (fun _ => 3) 1000 (seq 0 (size objs)) (seq 0 DATA_TREE_BUCKET_NUM) objs
          (KeeperStore_init 500 "") with
        | Fault UndefinedBehaviour => true
        | _ => false
        end
    | _ => false
    end = true) as E by (vm_compute; reflexivity).
  destruct (createObjectsAsyncImpl _ _ _) as [objs|]; [|done]. exists objs. split; [done|].
  by destruct (loadLatestSnapshot _ _ _ _ objs _) as [|[]].
Qed.
