(* ===== verification/SnapshotManager.v ===== *)
(** * The snapshots of a server

    [SnapObject], the files of a [KeeperSnapshotStore] and
    [KeeperSnapshotManager] of [src/src/Service/NuRaftLogSnapshot.h/.cpp]: how
    objects are named, found again at start, sent to another server and removed.
    The snapshot directory is part of the state, a finite map from the name of a
    file to its content; the operations take the time [init] reads as an
    argument. *)

From stdpp Require Import pretty.
From S2P Require Import Prelude Coordination Paths Text AclMap Sessions DataTree Store StoreTree Wire Crc.
From S2P Require Import SnapshotFormat Snapshot.

Local Infix "+++" := String.append (at level 60, right associativity).

(** ** Names of objects *)

Record SnapObject := mkObject {
  create_time : string;
  log_last_term : Z;
  log_last_index : Z;
  object_id : Z
}.

Definition SnapObject0 : SnapObject := mkObject "" 1 1 1.

(** [SNAPSHOT_FILE_NAME_V1] *)
Definition getObjectName (o : SnapObject) : string :=
  "snapshot_" +++ create_time o +++ String underscore (decimal (log_last_term o) +++
  String underscore (decimal (log_last_index o) +++ String underscore (decimal (object_id o)))).

(** [None] is [false]: the callers then drop the object. A name without a term
    leaves the one [o] has. *)
Definition parseInfoFromObjectName (object_name : string) (o : SnapObject) : option SnapObject :=
  match splitInto underscore object_name with
  | [_; time; index; id] =>
      log_last_index' ← from_chars_u64 index;
      object_id' ← from_chars_u64 id;
      Some (mkObject time (log_last_term o) log_last_index' object_id')
  | [_; time; term; index; id] =>
      log_last_term' ← from_chars_u64 term;
      log_last_index' ← from_chars_u64 index;
      object_id' ← from_chars_u64 id;
      Some (mkObject time log_last_term' log_last_index' object_id')
  | _ => None
  end.

(** ** Keys: [term << 64 | index], 128 bits *)

Definition getSnapshotStoreMapKeyImpl (log_term log_idx : Z) : Z :=
  Z.lor (wrap_u 128 (Z.shiftl log_term 64)) log_idx.

Definition meta_key (meta : SnapMeta) : Z := getSnapshotStoreMapKeyImpl (last_log_term meta) (last_log_idx meta).
Definition object_key (o : SnapObject) : Z := getSnapshotStoreMapKeyImpl (log_last_term o) (log_last_index o).

Definition getTermLogFromSnapshotStoreMapKey (key : Z) : Z * Z :=
  (u64 (Z.shiftr key 64), u64 (Z.land key 0xFFFFFFFFFFFFFFFF)).

(** ** KeeperSnapshotStore *)

(** [objects_path] keeps the names without the directory. *)
Record KeeperSnapshotStore := mkSnapStore {
  ks_config : SnapConfig;
  snap_meta : SnapMeta;
  curr_time : string;
  objects_path : gmap Z string
}.

Definition getObjectPath (st : KeeperSnapshotStore) (id : Z) : string :=
  getObjectName (mkObject (curr_time st) (last_log_term (snap_meta st)) (last_log_idx (snap_meta st)) id).

Definition addObjectPath (id : Z) (path : string) (st : KeeperSnapshotStore) : KeeperSnapshotStore :=
  mkSnapStore (ks_config st) (snap_meta st) (curr_time st) (<[id := path]> (objects_path st)).

Definition existObject (id : Z) (st : KeeperSnapshotStore) : bool :=
  bool_decide (is_Some (objects_path st !! id)).

Abbreviation Dir := (gmap string bytes).

(** [openFileForRead] throws for a file that is not there. *)
Definition loadObject (id : Z) (st : KeeperSnapshotStore) (files : Dir) : outcome bytes :=
  match objects_path st !! id with
  | None => Fault (Throw SNAPSHOT_OBJECT_NOT_EXISTS)
  | Some path =>
      match files !! path with
      | None => Fault (Throw CORRUPTED_SNAPSHOT)
      | Some content => Ok content
      end
  end.

(** The file is opened without [O_TRUNC]: what was behind the end of the buffer
    stays. *)
Definition pwrite_all (buffer old : bytes) : bytes := buffer ++ drop (length buffer) old.

Definition saveObject (id : Z) (buffer : bytes) (st : KeeperSnapshotStore) (files : Dir)
    : KeeperSnapshotStore * Dir :=
  let obj_path := getObjectPath st id in
  (addObjectPath id obj_path st, <[obj_path := pwrite_all buffer (default [] (files !! obj_path))]> files).

(** The files [createObjects] leaves: each is opened with [O_TRUNC]. *)
Definition write_objects (st : KeeperSnapshotStore) (objs : Objects) (files : Dir) : Dir :=
  foldr (fun p => <[getObjectPath st p.1 := p.2]>) files (map_to_list objs).

(** [for (i = 1; i < total_obj_count + 1; i++)], up to the id of the last object. *)
Definition add_object_paths (objs : Objects) (st : KeeperSnapshotStore) : KeeperSnapshotStore :=
  foldr (fun i => addObjectPath i (getObjectPath st i)) st (seqZ 1 (default 0 (last (sorted_keys objs)))).

(** The contents of the objects, for the loader. *)
Fixpoint read_objects (files : Dir) (paths : list (Z * string)) : outcome Objects :=
  match paths with
  | [] => Ok ∅
  | (id, path) :: paths' =>
      match files !! path with
      | None => Fault (Throw CORRUPTED_SNAPSHOT)
      | Some content => rest ← read_objects files paths'; Ok (<[id := content]> rest)
      end
  end.

Definition objects_of (st : KeeperSnapshotStore) (files : Dir) : outcome Objects :=
  read_objects files (map_to_list (objects_path st)).

(** ** KeeperSnapshotManager *)

Record KeeperSnapshotManager := mkManager {
  keep_max_snapshot_count : Z;
  object_node_size : Z;
  snapshots : gmap Z KeeperSnapshotStore;
  snap_dir : Dir
}.

Definition with_snapshots (f : gmap Z KeeperSnapshotStore -> gmap Z KeeperSnapshotStore) (files : Dir)
    (m : KeeperSnapshotManager) : KeeperSnapshotManager :=
  mkManager (keep_max_snapshot_count m) (object_node_size m) (f (snapshots m)) files.

Definition set_size (size : Z) (meta : SnapMeta) : SnapMeta :=
  mkMeta (last_log_term meta) (last_log_idx meta) size.

(** [KeeperSnapshotStore(snap_dir, meta, object_node_size, ...)] and [init(time)]. *)
Definition new_store (m : KeeperSnapshotManager) (version : SnapshotVersion) (time : string) (meta : SnapMeta)
    : KeeperSnapshotStore :=
  mkSnapStore (KeeperSnapshotStore_config (object_node_size m) SAVE_BATCH_SIZE version) meta time ∅.

Section manager.
Context `{IterOrder} (hash : string -> Z).

(** Both ways of taking a snapshot, the second result being the number of
    objects; [meta] has its size set before. *)
Definition install_objects (st : KeeperSnapshotStore) (objs : Objects) (m : KeeperSnapshotManager)
    : KeeperSnapshotManager * Z :=
  (with_snapshots <[meta_key (snap_meta st) := add_object_paths objs st]> (write_objects st objs (snap_dir m)) m,
   default 0 (last (sorted_keys objs))).

Definition createSnapshotAsync (time : string) (meta : SnapMeta) (task : SnapTask) (version : SnapshotVersion)
    (m : KeeperSnapshotManager) : outcome (KeeperSnapshotManager * Z) :=
  let meta' := set_size (nodes_count task) meta in
  let snap_store := new_store m version time meta' in
  objs ← createObjectsAsyncImpl (ks_config snap_store) meta' task;
  Ok (install_objects snap_store objs m).

Definition createSnapshot (time : string) (meta : SnapMeta) (s : KeeperStore) (zxid' session_id : Z)
    (version : SnapshotVersion) (m : KeeperSnapshotManager) : outcome (KeeperSnapshotManager * Z) :=
  let meta' := set_size (getNodesCount s) meta in
  let snap_store := new_store m version time meta' in
  objs ← createObjectsV2 (ks_config snap_store) meta' s zxid' session_id;
  Ok (install_objects snap_store objs m).

Definition receiveSnapshotMeta (time : string) (meta : SnapMeta) (m : KeeperSnapshotManager)
    : KeeperSnapshotManager :=
  with_snapshots <[meta_key meta := new_store m CURRENT_SNAPSHOT_VERSION time meta]> (snap_dir m) m.

Definition existSnapshot (meta : SnapMeta) (m : KeeperSnapshotManager) : bool :=
  bool_decide (is_Some (snapshots m !! meta_key meta)).

Definition existSnapshotObject (meta : SnapMeta) (id : Z) (m : KeeperSnapshotManager) : bool :=
  from_option (existObject id) false (snapshots m !! meta_key meta).

Definition loadSnapshotObject (meta : SnapMeta) (id : Z) (m : KeeperSnapshotManager) : outcome bytes :=
  match snapshots m !! meta_key meta with
  | None => Fault (Throw SNAPSHOT_NOT_EXISTS)
  | Some st => loadObject id st (snap_dir m)
  end.

(** A snapshot not known yet gets a store with the default sizes. *)
Definition saveSnapshotObject (time : string) (meta : SnapMeta) (id : Z) (buffer : bytes)
    (m : KeeperSnapshotManager) : KeeperSnapshotManager :=
  let st := default (mkSnapStore (KeeperSnapshotStore_config MAX_OBJECT_NODE_SIZE SAVE_BATCH_SIZE
                                    CURRENT_SNAPSHOT_VERSION) (set_size 0 meta) time ∅)
              (snapshots m !! meta_key meta) in
  let r := saveObject id buffer st (snap_dir m) in
  with_snapshots <[meta_key meta := r.1]> r.2 m.

(** The ids are checked before a file is opened. *)
Definition ids_consecutive (paths : gmap Z string) : bool :=
  bool_decide (head (sorted_keys paths) = Some 1 /\ last (sorted_keys paths) = Some (Z.of_nat (size paths))).

Definition parseSnapshot (now : Z) (order ids : list nat) (meta : SnapMeta) (m : KeeperSnapshotManager)
    (s : KeeperStore) : outcome KeeperStore :=
  match snapshots m !! meta_key meta with
  | None => Fault (Throw SNAPSHOT_NOT_EXISTS)
  | Some st =>
      match objects_of st (snap_dir m) with
      | Ok objs => loadLatestSnapshot hash now order ids objs s
      | Fault f => if ids_consecutive (objects_path st) then Fault f
                   else Fault (Throw SNAPSHOT_OBJECT_INCOMPLETE)
      end
  end.

(** One file of the directory at start. [nuraft::snapshot]'s size defaults to 0. *)
Definition load_meta (m : KeeperSnapshotManager) (file : string) (snaps : gmap Z KeeperSnapshotStore)
    : outcome (gmap Z KeeperSnapshotStore) :=
  if String.prefix "snapshot_" file then
    match parseInfoFromObjectName file SnapObject0 with
    | None => Fault (Throw INVALID_SNAPSHOT_FILE_NAME)
    | Some s_obj =>
        let st := default (new_store m CURRENT_SNAPSHOT_VERSION (create_time s_obj)
                             (mkMeta (log_last_term s_obj) (log_last_index s_obj) 0))
                    (snaps !! object_key s_obj) in
        Ok (<[object_key s_obj := addObjectPath (object_id s_obj) file st]> snaps)
    end
  else Ok snaps.

Fixpoint load_metas (m : KeeperSnapshotManager) (files : list string) (snaps : gmap Z KeeperSnapshotStore)
    : outcome (gmap Z KeeperSnapshotStore) :=
  match files with
  | [] => Ok snaps
  | file :: files' => snaps' ← load_meta m file snaps; load_metas m files' snaps'
  end.

Definition loadSnapshotMetas (m : KeeperSnapshotManager) : outcome KeeperSnapshotManager :=
  snaps ← load_metas m (iter_str (dom (snap_dir m))) ∅;
  Ok (with_snapshots (fun _ => snaps) (snap_dir m) m).

(** [None] is the null pointer. *)
Definition lastSnapshot (m : KeeperSnapshotManager) : option SnapMeta :=
  key ← last (sorted_keys (snapshots m)); snap_meta <$> snapshots m !! key.

(** One file of the directory while the snapshot [key] is removed. *)
Definition remove_file (key : Z) (file : string) (m : KeeperSnapshotManager) : KeeperSnapshotManager :=
  if decide (String.index 0 "snapshot_" file = None) then m
  else match parseInfoFromObjectName file SnapObject0 with
       | None => m
       | Some s_obj =>
           if decide (key = object_key s_obj)
           then with_snapshots (delete key) (delete file (snap_dir m)) m else m
       end.

Definition remove_files (key : Z) (m : KeeperSnapshotManager) : KeeperSnapshotManager :=
  fold_left (fun m file => remove_file key file m) (iter_str (dom (snap_dir m))) m.

(** [begin()] of an empty map may not be dereferenced. *)
Fixpoint remove_loop (remove_count : nat) (m : KeeperSnapshotManager) : outcome KeeperSnapshotManager :=
  match remove_count with
  | O => Ok m
  | S n =>
      match head (sorted_keys (snapshots m)) with
      | None => Fault UndefinedBehaviour
      | Some key => remove_loop n (remove_files key m)
      end
  end.

Definition removeSnapshots (m : KeeperSnapshotManager) : outcome KeeperSnapshotManager :=
  remove_loop (Z.to_nat (Z.of_nat (size (snapshots m)) - keep_max_snapshot_count m)) m.
End manager.

(** ** Names and keys are unambiguous *)

Definition object_fits (o : SnapObject) : Prop :=
  without underscore (create_time o) /\ in_u64 (log_last_term o) /\ in_u64 (log_last_index o) /\ in_u64 (object_id o).

Lemma from_chars_decimal x : in_u64 x -> from_chars_u64 (decimal x) = Some x.
Proof. intros [??]. unfold decimal. rewrite from_chars_pretty; rewrite Z2N.id; done. Qed.

Lemma object_name_parsed o o' : object_fits o -> parseInfoFromObjectName (getObjectName o) o' = Some o.
Proof.
  intros (Ht & Hterm & Hidx & Hid).
  assert (forall x, without underscore (decimal x)) as Hd by (intros; by apply pretty_without).
  unfold parseInfoFromObjectName, getObjectName.
  change ("snapshot_" +++ ?x) with ("snapshot" +++ String underscore x).
  rewrite !splitInto_token, splitInto_last by first [done|apply Hd|apply pretty_ne].
  rewrite !from_chars_decimal by done. by destruct o.
Qed.

Lemma key_value term idx : in_u64 term -> in_u64 idx -> getSnapshotStoreMapKeyImpl term idx = term * 2 ^ 64 + idx.
Proof.
  intros Ht Hi. unfold getSnapshotStoreMapKeyImpl. rewrite Z.shiftl_mul_pow2 by lia.
  unfold wrap_u. rewrite Z.mod_small by (unfold in_u64 in *; lia).
  assert (Z.land (term * 2 ^ 64) idx = 0) as E; [|pose proof (Z.add_lor_land (term * 2 ^ 64) idx); lia].
  apply Z.bits_inj'. intros n Hn. rewrite Z.land_spec, Z.bits_0.
  destruct (decide (n < 64)); [by rewrite Z.mul_pow2_bits_low|].
  destruct (decide (idx = 0)) as [->|]; [by rewrite Z.bits_0, andb_false_r|].
  rewrite (Z.bits_above_log2 idx n), andb_false_r; [done|unfold in_u64 in *; lia|].
  apply Z.log2_lt_pow2; [unfold in_u64 in *; lia|]. unfold in_u64 in Hi.
  pose proof (Z.pow_le_mono_r 2 64 n). lia.
Qed.

Lemma key_inj term idx term' idx' :
  in_u64 term -> in_u64 idx -> in_u64 term' -> in_u64 idx' ->
  getSnapshotStoreMapKeyImpl term idx = getSnapshotStoreMapKeyImpl term' idx' -> term = term' /\ idx = idx'.
Proof. intros. rewrite !key_value in * by done. unfold in_u64 in *. lia. Qed.

Lemma getObjectName_inj o o' : object_fits o -> object_fits o' -> getObjectName o = getObjectName o' -> o = o'.
Proof.
  intros Ho Ho' E. pose proof (object_name_parsed o SnapObject0 Ho) as E1.
  rewrite E, object_name_parsed in E1 by done. congruence.
Qed.

Lemma object_name_prefix o : String.prefix "snapshot_" (getObjectName o) = true.
Proof. unfold getObjectName. cbn. by destruct (create_time o +++ _). Qed.

Lemma object_name_found o : String.index 0 "snapshot_" (getObjectName o) <> None.
Proof. unfold getObjectName. cbn. by destruct (create_time o +++ _). Qed.

(** ** The directory and the snapshots agree *)

Definition store_object (st : KeeperSnapshotStore) (id : Z) : SnapObject :=
  mkObject (curr_time st) (last_log_term (snap_meta st)) (last_log_idx (snap_meta st)) id.

(** A store under its key, its objects under their names. *)
Record store_wf (key : Z) (st : KeeperSnapshotStore) : Prop := {
  st_key : key = meta_key (snap_meta st);
  st_fits : object_fits (store_object st 0);
  st_paths : forall id path, objects_path st !! id = Some path -> in_u64 id /\ path = getObjectPath st id
}.

(** Every object has its file, and every file that looks like an object is one
    of a known snapshot. *)
Record manager_wf (m : KeeperSnapshotManager) : Prop := {
  mw_stores : forall key st, snapshots m !! key = Some st -> store_wf key st;
  mw_files : forall key st id path, snapshots m !! key = Some st -> objects_path st !! id = Some path ->
    is_Some (snap_dir m !! path);
  mw_objects : forall file, is_Some (snap_dir m !! file) -> String.index 0 "snapshot_" file <> None ->
    exists key st id, snapshots m !! key = Some st /\ objects_path st !! id = Some file
}.

Lemma store_object_fits st id : object_fits (store_object st 0) -> in_u64 id -> object_fits (store_object st id).
Proof. by intros (? & ? & ? & _) ?. Qed.

Lemma store_object_key st id : object_key (store_object st id) = meta_key (snap_meta st).
Proof. done. Qed.

Lemma store_path_parsed key st id path :
  store_wf key st -> objects_path st !! id = Some path ->
  parseInfoFromObjectName path SnapObject0 = Some (store_object st id) /\ object_key (store_object st id) = key /\
  String.prefix "snapshot_" path = true /\ String.index 0 "snapshot_" path <> None.
Proof.
  intros [Hk Hf Hp] Hid. apply Hp in Hid as [Hu ->]. split_and!.
  - apply object_name_parsed, store_object_fits; done.
  - by rewrite Hk.
  - apply object_name_prefix.
  - apply object_name_found.
Qed.

Lemma manager_wf_init keep size : manager_wf (mkManager keep size ∅ ∅).
Proof.
  split; cbn; intros *; rewrite ?lookup_empty; try done; by intros [? [=]].
Qed.
