(* ===== verification/SnapshotManagerTheorems.v ===== *)
(** * What the snapshot manager promises

    [KeeperSnapshotManager] of [src/src/Service/NuRaftLogSnapshot.cpp]: old
    snapshots are removed with their files, a restart finds the snapshots again,
    and a snapshot sent to another server restores the store there. *)

From S2P Require Import Prelude Coordination Paths Text AclMap Sessions DataTree Store StoreTree Wire Crc.
From S2P Require Import StoreTheorems SnapshotFormat Snapshot SnapshotLoad SnapshotTheorems SnapshotRoundtrip.
From S2P Require Import SnapshotManager.

(** ** Removal *)

(** The files removed with the snapshot [key]. *)
Definition belongs (key : Z) (file : string) : bool :=
  bool_decide (String.index 0 "snapshot_" file <> None) &&
  from_option (fun o => bool_decide (key = object_key o)) false (parseInfoFromObjectName file SnapObject0).

Lemma remove_file_belongs key file m :
  remove_file key file m =
  if belongs key file then with_snapshots (delete key) (delete file (snap_dir m)) m else m.
Proof.
  unfold remove_file, belongs. case_decide as E; [by rewrite bool_decide_false by tauto|].
  rewrite bool_decide_true by done. destruct (parseInfoFromObjectName _ _) as [o|]; cbn; [|done].
  case_decide; [by rewrite bool_decide_true|by rewrite bool_decide_false].
Qed.

Lemma store_path_belongs key key' st id path :
  store_wf key' st -> objects_path st !! id = Some path -> belongs key path = bool_decide (key = key').
Proof.
  intros Hst Hid. destruct (store_path_parsed _ _ _ _ Hst Hid) as (Hp & Hk & _ & Hi).
  unfold belongs. rewrite Hp, bool_decide_true by done. cbn. by rewrite Hk.
Qed.

Definition remove_all (key : Z) (files : list string) (m : KeeperSnapshotManager) : KeeperSnapshotManager :=
  fold_left (fun m file => remove_file key file m) files m.

Lemma remove_all_spec key files : forall m,
  keep_max_snapshot_count (remove_all key files m) = keep_max_snapshot_count m /\
  snapshots (remove_all key files m) =
    (if existsb (belongs key) files then delete key (snapshots m) else snapshots m) /\
  forall f, snap_dir (remove_all key files m) !! f =
    if decide (f ∈ files /\ belongs key f = true) then None else snap_dir m !! f.
Proof.
  unfold remove_all. induction files as [|file files IH]; intros m; cbn [fold_left existsb]; [done|].
  rewrite remove_file_belongs. destruct (belongs key file) eqn:Eb; cbn [orb].
  - destruct (IH (with_snapshots (delete key) (delete file (snap_dir m)) m)) as (Hk & Hs & Hd).
    cbn in *. split_and!; [done| |].
    + rewrite Hs. destruct (existsb _ _); [apply delete_delete_eq|done].
    + intros f. rewrite Hd. destruct (decide (f = file)) as [->|Hne].
      * rewrite lookup_delete_eq, (decide_True (P := _ ∈ file :: _ /\ _)) by (split; [by left|done]). by case_decide.
      * rewrite lookup_delete_ne by done. apply decide_ext. rewrite elem_of_cons. naive_solver.
  - destruct (IH m) as (Hk & Hs & Hd). split_and!; [done|done|].
    intros f. rewrite Hd. apply decide_ext. rewrite elem_of_cons.
    split; [naive_solver|]. intros [[->|?] ?]; [congruence|done].
Qed.

Section removal.
Context `{IterOrder}.

(** A snapshot that has an object goes with its files; nothing else changes. *)
Lemma remove_files_spec key st m :
  manager_wf m -> snapshots m !! key = Some st -> objects_path st <> ∅ ->
  manager_wf (remove_files key m) /\
  keep_max_snapshot_count (remove_files key m) = keep_max_snapshot_count m /\
  snapshots (remove_files key m) = delete key (snapshots m) /\
  forall f, snap_dir (remove_files key m) !! f = if belongs key f then None else snap_dir m !! f.
Proof.
  intros [Hw Hf Ho] Hst Hne.
  destruct (remove_all_spec key (iter_str (dom (snap_dir m))) m) as (Hk & Hs & Hd).
  change (remove_all key (iter_str (dom (snap_dir m))) m) with (remove_files key m) in Hk, Hs, Hd.
  assert (forall f, snap_dir (remove_files key m) !! f = if belongs key f then None else snap_dir m !! f) as Hd'.
  { intros f. rewrite Hd. destruct (belongs key f); [|by rewrite decide_False by (by intros [_ ?])].
    case_decide as E; [done|]. destruct (snap_dir m !! f) eqn:Ef; [|done].
    destruct E. split; [|done]. apply elem_of_iter_str, elem_of_dom. by eexists. }
  assert (snapshots (remove_files key m) = delete key (snapshots m)) as Hs'.
  { rewrite Hs. apply map_choose in Hne as (id & path & Hid).
    rewrite (proj2 (existsb_exists _ _)); [done|]. exists path. split.
    - apply list_elem_of_In, elem_of_iter_str, elem_of_dom. by eapply Hf.
    - rewrite (store_path_belongs _ _ _ _ _ (Hw _ _ Hst) Hid). by apply bool_decide_true. }
  split_and!; [|done|done|done]. split.
  - intros k s'. rewrite Hs'. intros [_ Hk']%lookup_delete_Some. by apply Hw.
  - intros k s' id path. rewrite Hs'. intros [Hkk Hk']%lookup_delete_Some Hid. rewrite Hd'.
    rewrite (store_path_belongs _ _ _ _ _ (Hw _ _ Hk') Hid), bool_decide_false by done. by eapply Hf.
  - intros f. rewrite Hd'. destruct (belongs key f) eqn:Eb; [by intros [? [=]]|]. intros Hin Hi.
    destruct (Ho f Hin Hi) as (k & s' & id & Hk' & Hid). exists k, s', id. split; [|done].
    rewrite Hs'. apply lookup_delete_Some. split; [|done]. intros <-.
    rewrite (store_path_belongs _ _ _ _ _ (Hw _ _ Hk') Hid), bool_decide_true in Eb; done.
Qed.

Definition nonempty_snapshots (m : KeeperSnapshotManager) : Prop :=
  forall key st, snapshots m !! key = Some st -> objects_path st <> ∅.

(** What is left is part of what was there, and newer than what is gone. *)
Record newest_of (m m' : KeeperSnapshotManager) : Prop := {
  no_sub : snapshots m' ⊆ snapshots m;
  no_new : forall k k', is_Some (snapshots m !! k) -> snapshots m' !! k = None -> is_Some (snapshots m' !! k') -> k < k';
  no_files : forall k st id path, snapshots m' !! k = Some st -> objects_path st !! id = Some path ->
    snap_dir m' !! path = snap_dir m !! path
}.

Lemma remove_loop_spec n : forall m,
  manager_wf m -> nonempty_snapshots m -> (n <= size (snapshots m))%nat ->
  exists m', remove_loop n m = Ok m' /\ manager_wf m' /\ newest_of m m' /\
    size (snapshots m') = (size (snapshots m) - n)%nat.
Proof.
  induction n as [|n IH]; intros m Hm Hne Hn; cbn [remove_loop].
  { exists m. split_and!; [done|done| |lia]. split; [done| |done]. intros k k' [? Hk]. by rewrite Hk. }
  destruct (sorted_keys (snapshots m)) as [|key rest] eqn:Ek; cbn [head].
  { assert (size (snapshots m) = 0%nat) as E0; [|lia]. apply map_size_empty_iff, map_empty. intros k.
    destruct (snapshots m !! k) eqn:E; [|done].
    assert (k ∈ sorted_keys (snapshots m)) as Hk by (apply elem_of_sorted_keys; by eexists).
    rewrite Ek in Hk. by apply elem_of_nil in Hk. }
  assert (is_Some (snapshots m !! key)) as [st Hst] by (apply elem_of_sorted_keys; rewrite Ek; by left).
  destruct (remove_files_spec key st m Hm Hst (Hne _ _ Hst)) as (Hw & _ & Hs & Hd).
  destruct (IH (remove_files key m)) as (m' & -> & Hw' & [Hsub Hnew Hfil] & Hsz).
  { done. }
  { intros k s'. rewrite Hs. intros [_ ?]%lookup_delete_Some. by eapply Hne. }
  { rewrite Hs, map_size_delete_Some by (by eexists). lia. }
  exists m'. split_and!; [done|done| |rewrite Hsz, Hs, map_size_delete_Some by (by eexists); lia].
  rewrite Hs in *. split.
  - etrans; [exact Hsub|apply delete_subseteq].
  - intros k k' Hk Hgone Hk'. destruct (decide (k = key)) as [->|Hkk].
    + destruct Hk' as [s' Hs']. pose proof (lookup_weaken _ _ _ _ Hs' Hsub) as [Hne' Hin]%lookup_delete_Some.
      pose proof (sorted_keys_sorted (snapshots m)) as Hsort. rewrite Ek in Hsort. inversion_clear Hsort as [|?? _ Hall].
      assert (k' ∈ key :: rest) as [->|Hr]%elem_of_cons by (rewrite <- Ek; apply elem_of_sorted_keys; by eexists); [done|].
      rewrite Forall_forall in Hall. specialize (Hall _ Hr). lia.
    + apply Hnew; [|done|done]. by rewrite lookup_delete_ne.
  - intros k s' id path Hk Hid. rewrite (Hfil k s' id path Hk Hid), Hd.
    pose proof (lookup_weaken _ _ _ _ Hk Hsub) as [Hne' Hin]%lookup_delete_Some.
    destruct Hm as [Hw0 _ _]. by rewrite (store_path_belongs _ _ _ _ _ (Hw0 _ _ Hin) Hid), bool_decide_false.
Qed.

(** When every snapshot has an object, removal ends with as many snapshots
    as are to be kept, the newest by term and index, with their files
    untouched and no file of a removed one left. *)
Theorem old_snapshots_removed m :
  manager_wf m -> nonempty_snapshots m -> 0 <= keep_max_snapshot_count m ->
  exists m', removeSnapshots m = Ok m' /\ manager_wf m' /\ newest_of m m' /\
    Z.of_nat (size (snapshots m')) = Z.of_nat (size (snapshots m)) `min` keep_max_snapshot_count m.
Proof.
  intros Hm Hne Hk. unfold removeSnapshots.
  set (n := Z.to_nat (Z.of_nat (size (snapshots m)) - keep_max_snapshot_count m)).
  destruct (remove_loop_spec n m Hm Hne) as (m' & E & Hw & Hnew & Hsz); [lia|].
  exists m'. split_and!; [done|done|done|]. rewrite Hsz. lia.
Qed.

Lemma nothing_removed key m :
  manager_wf m -> (forall st, snapshots m !! key = Some st -> objects_path st = ∅) -> remove_files key m = m.
Proof.
  intros [Hw Hf Ho] Hempty.
  assert (forall f, f ∈ iter_str (dom (snap_dir m)) -> belongs key f = false) as Hb.
  { intros f Hin%elem_of_iter_str%elem_of_dom. destruct (decide (String.index 0 "snapshot_" f = None)) as [E|E].
    - unfold belongs. by rewrite bool_decide_false by tauto.
    - destruct (Ho f Hin E) as (k & st & id & Hst & Hid).
      rewrite (store_path_belongs _ _ _ _ _ (Hw _ _ Hst) Hid). apply bool_decide_false. intros <-.
      by rewrite (Hempty _ Hst), lookup_empty in Hid. }
  unfold remove_files. revert Hb. generalize (iter_str (dom (snap_dir m))). clear.
  induction l as [|f l IH]; intros Hb; [done|]. cbn [fold_left].
  rewrite remove_file_belongs, Hb by (by left). apply IH. intros g Hg. apply Hb. by right.
Qed.

(** An oldest snapshot without an object, as a transfer that stopped after
    its first message leaves it, is never removed, and neither is any other. *)
Theorem empty_snapshot_blocks_removal m key st :
  manager_wf m -> head (sorted_keys (snapshots m)) = Some key -> snapshots m !! key = Some st ->
  objects_path st = ∅ -> removeSnapshots m = Ok m.
Proof.
  intros Hm Hh Hst He. unfold removeSnapshots.
  induction (Z.to_nat _) as [|n IH]; cbn [remove_loop]; [done|]. rewrite Hh.
  rewrite nothing_removed; [done|done|]. intros st' Hst'. congruence.
Qed.
End removal.

(** ** Restart *)

Section restart.
Context `{IterOrder}.

(** A store as it is found again through the files [P]. *)
Definition found_paths (P : list string) (st : KeeperSnapshotStore) : gmap Z string :=
  filter (fun q => q.2 ∈ P) (objects_path st).

Definition found_store (m : KeeperSnapshotManager) (P : list string) (st : KeeperSnapshotStore)
    : option KeeperSnapshotStore :=
  if decide (found_paths P st = ∅) then None
  else Some (mkSnapStore (ks_config (new_store m CURRENT_SNAPSHOT_VERSION "" (snap_meta st)))
               (set_size 0 (snap_meta st)) (curr_time st) (found_paths P st)).

Definition found (m : KeeperSnapshotManager) (P : list string) : gmap Z KeeperSnapshotStore :=
  omap (found_store m P) (snapshots m).

Lemma found_paths_app P f st id :
  (forall i, objects_path st !! i = Some f -> i = id) -> objects_path st !! id = Some f ->
  found_paths (P ++ [f]) st = <[id := f]> (found_paths P st).
Proof.
  intros Huniq Hid. apply map_eq. intros i. apply option_eq. intros p. unfold found_paths.
  rewrite lookup_insert_Some, !map_lookup_filter_Some. cbn. rewrite elem_of_app, list_elem_of_singleton.
  destruct (decide (id = i)) as [<-|]; naive_solver.
Qed.

Lemma found_paths_other P f st :
  (forall i, objects_path st !! i <> Some f) -> found_paths (P ++ [f]) st = found_paths P st.
Proof.
  intros Hno. apply map_eq. intros i. apply option_eq. intros p. unfold found_paths.
  rewrite !map_lookup_filter_Some. cbn. rewrite elem_of_app, list_elem_of_singleton. naive_solver.
Qed.

(** A file belongs to one object only. *)
Lemma store_path_unique key key' st st' id id' path :
  store_wf key st -> store_wf key' st' ->
  objects_path st !! id = Some path -> objects_path st' !! id' = Some path -> key = key' /\ id = id'.
Proof.
  intros Hw Hw' H1 H2. destruct (store_path_parsed _ _ _ _ Hw H1) as (E1 & K1 & _).
  destruct (store_path_parsed _ _ _ _ Hw' H2) as (E2 & K2 & _). rewrite E1 in E2.
  injection E2 as Et Eterm Eidx Eid. split; [|done]. rewrite <- K1, <- K2. unfold object_key. cbn. congruence.
Qed.

Lemma found_other m P f :
  (forall key st id, snapshots m !! key = Some st -> objects_path st !! id <> Some f) ->
  found m (P ++ [f]) = found m P.
Proof.
  intros Hno. apply map_eq. intros k. unfold found. rewrite !lookup_omap.
  destruct (snapshots m !! k) as [st|] eqn:Hst; [|done]. cbn. unfold found_store.
  by rewrite found_paths_other by (intros i; by eapply Hno).
Qed.

Lemma load_meta_found m P f key st id :
  manager_wf m -> snapshots m !! key = Some st -> objects_path st !! id = Some f ->
  load_meta m f (found m P) = Ok (found m (P ++ [f])).
Proof.
  intros [Hw _ _] Hst Hid. destruct (store_path_parsed _ _ _ _ (Hw _ _ Hst) Hid) as (Hp & Hk & Hpre & _).
  unfold load_meta. rewrite Hpre, Hp. f_equal. rewrite Hk. apply map_eq. intros k.
  destruct (decide (k = key)) as [->|Hne].
  - rewrite lookup_insert_eq. unfold found. rewrite !lookup_omap, Hst. cbn [mbind option_bind].
    unfold found_store. rewrite (found_paths_app P f st id); [|by intros i Hi; eapply store_path_unique; eauto|done].
    rewrite (decide_False (P := <[id := f]> _ = ∅)) by apply insert_non_empty.
    case_decide as E; unfold addObjectPath; cbn; [by rewrite E|done].
  - rewrite lookup_insert_ne by done. unfold found. rewrite !lookup_omap.
    destruct (snapshots m !! k) as [st'|] eqn:Hst'; [|done]. cbn. unfold found_store.
    rewrite found_paths_other; [done|]. intros i Hi. apply Hne.
    by destruct (store_path_unique _ _ _ _ _ _ _ (Hw _ _ Hst') (Hw _ _ Hst) Hi Hid).
Qed.

Lemma prefix_found f : String.prefix "snapshot_" f = true -> String.index 0 "snapshot_" f <> None.
Proof.
  intros Hf E. destruct f as [|c f]; [done|]. cbn [String.index] in E. by rewrite Hf in E.
Qed.

Lemma load_metas_found m L : forall P,
  manager_wf m -> (forall f, f ∈ L -> is_Some (snap_dir m !! f)) ->
  load_metas m L (found m P) = Ok (found m (P ++ L)).
Proof.
  induction L as [|f L IH]; intros P Hm HL; cbn [load_metas]; [by rewrite app_nil_r|].
  assert (load_meta m f (found m P) = Ok (found m (P ++ [f]))) as E.
  { destruct (String.prefix "snapshot_" f) eqn:Hpre.
    - pose proof Hm as [_ _ Ho]. destruct (Ho f) as (key & st & id & Hst & Hid);
        [apply HL; by left|by apply prefix_found|]. by eapply load_meta_found.
    - rewrite found_other; [unfold load_meta; by rewrite Hpre|]. intros key st id Hst Hid.
      pose proof Hm as [Hw _ _]. destruct (store_path_parsed _ _ _ _ (Hw _ _ Hst) Hid) as (_ & _ & Hp & _). congruence. }
  rewrite E. cbn [mbind outcome_bind]. rewrite IH by first [done|intros g Hg; apply HL; by right].
  by rewrite <- app_assoc.
Qed.

Lemma found_none m : found m [] = ∅.
Proof.
  apply map_eq. intros k. unfold found. rewrite lookup_omap, lookup_empty.
  destruct (snapshots m !! k); [|done]. cbn. unfold found_store. rewrite decide_True; [done|].
  apply map_empty. intros i. unfold found_paths. apply map_lookup_filter_None. right. intros p _. cbn. apply not_elem_of_nil.
Qed.

(** What a new process finds: every snapshot that has an object, with all of them. *)
Definition survives (m : KeeperSnapshotManager) : gmap Z KeeperSnapshotStore :=
  omap (fun st => if decide (objects_path st = ∅) then None
                  else Some (mkSnapStore (ks_config (new_store m CURRENT_SNAPSHOT_VERSION "" (snap_meta st)))
                               (set_size 0 (snap_meta st)) (curr_time st) (objects_path st))) (snapshots m).

Lemma restart_finds m snaps :
  manager_wf m ->
  loadSnapshotMetas (with_snapshots (fun _ => snaps) (snap_dir m) m) =
  Ok (with_snapshots (fun _ => survives m) (snap_dir m) m).
Proof.
  intros Hm. unfold loadSnapshotMetas. cbn [snap_dir with_snapshots].
  set (m0 := with_snapshots (fun _ => snaps) (snap_dir m) m).
  assert (forall L s, load_metas m0 L s = load_metas m L s) as E.
  { induction L as [|f L IH]; intros s; [done|]. cbn [load_metas].
    change (load_meta m0 f s) with (load_meta m f s). destruct (load_meta m f s); [apply IH|done]. }
  rewrite E, <- (found_none m), load_metas_found; [|done|by intros f ?%elem_of_iter_str%elem_of_dom].
  cbn [mbind outcome_bind]. f_equal. unfold with_snapshots, m0; cbn. f_equal.
  apply map_eq. intros k. unfold found, survives. rewrite !lookup_omap.
  destruct (snapshots m !! k) as [st|] eqn:Hst; [|done]. cbn. unfold found_store.
  match goal with |- context [found_paths ?P st] => assert (found_paths P st = objects_path st) as -> end; [|done].
  apply map_filter_id. intros i p Hp. cbn. apply elem_of_iter_str, elem_of_dom.
  pose proof Hm as [_ Hf _]. by eapply Hf.
Qed.
End restart.

(** ** Taking a snapshot *)

Lemma read_objects_spec files l :
  NoDup l.*1 -> (forall p, p ∈ l -> is_Some (files !! p.2)) ->
  exists r, read_objects files l = Ok r /\
    forall id, r !! id = (list_to_map (M := gmap Z string) l !! id) ≫= (fun path => files !! path).
Proof.
  induction l as [|[i p] l IH]; intros Hnd Hin.
  - exists ∅. split; [done|]. intros id. by rewrite lookup_empty.
  - cbn [fmap list_fmap fst] in Hnd. apply NoDup_cons in Hnd as [_ Hnd].
    destruct IH as (r & E & Hr); [done|intros q Hq; apply Hin; by right|].
    destruct (Hin (i, p) ltac:(by left)) as [c Hc]. cbn in Hc. exists (<[i := c]> r). split.
    + cbn [read_objects]. by rewrite Hc, E.
    + intros id. cbn. destruct (decide (id = i)) as [->|Hne].
      * by rewrite !lookup_insert_eq.
      * by rewrite !lookup_insert_ne by done.
Qed.

Lemma objects_of_spec st files objs :
  (forall id path, objects_path st !! id = Some path -> is_Some (files !! path)) ->
  (forall id, objs !! id = objects_path st !! id ≫= (fun path => files !! path)) ->
  objects_of st files = Ok objs.
Proof.
  intros Hf Ho. unfold objects_of.
  destruct (read_objects_spec files (map_to_list (objects_path st))) as (r & -> & Hr).
  - apply NoDup_fst_map_to_list.
  - intros [i p] Hip%elem_of_map_to_list. by eapply Hf.
  - f_equal. apply map_eq. intros id. by rewrite Hr, list_to_map_to_list, Ho.
Qed.

Lemma add_object_paths_spec objs st n :
  last (sorted_keys objs) = Some n ->
  ks_config (add_object_paths objs st) = ks_config st /\ snap_meta (add_object_paths objs st) = snap_meta st /\
  curr_time (add_object_paths objs st) = curr_time st /\
  forall id, objects_path (add_object_paths objs st) !! id =
    if decide (1 <= id <= n) then Some (getObjectPath st id) else objects_path st !! id.
Proof.
  intros E. unfold add_object_paths. rewrite E. cbn [default].
  assert (forall l : list Z, let st' := foldr (fun i => addObjectPath i (getObjectPath st i)) st l in
    ks_config st' = ks_config st /\ snap_meta st' = snap_meta st /\ curr_time st' = curr_time st /\
    forall id, objects_path st' !! id = if decide (id ∈ l) then Some (getObjectPath st id) else objects_path st !! id) as Hl.
  { induction l as [|i l (IH1 & IH2 & IH3 & IH)]; cbn zeta; [done|]. cbn [foldr]. split_and!; [done..|].
    intros id. cbn [objects_path addObjectPath]. destruct (decide (id = i)) as [->|Hne].
    - rewrite lookup_insert_eq, decide_True by (by left). done.
    - rewrite lookup_insert_ne, IH by done. apply decide_ext. rewrite elem_of_cons. naive_solver. }
  destruct (Hl (seqZ 1 n)) as (? & ? & ? & Hp). split_and!; [done..|].
  intros id. rewrite Hp. apply decide_ext. rewrite elem_of_seqZ. lia.
Qed.

Lemma path_inj st id id' :
  object_fits (store_object st 0) -> in_u64 id -> in_u64 id' -> getObjectPath st id = getObjectPath st id' -> id = id'.
Proof.
  intros Hf Hi Hi' E. apply (getObjectName_inj (store_object st id) (store_object st id')) in E;
    [by injection E|by apply store_object_fits..].
Qed.

Lemma write_objects_spec st objs files :
  object_fits (store_object st 0) -> (forall id, is_Some (objs !! id) -> in_u64 id) ->
  (forall id c, objs !! id = Some c -> write_objects st objs files !! getObjectPath st id = Some c) /\
  (forall f, (forall id, is_Some (objs !! id) -> f <> getObjectPath st id) -> write_objects st objs files !! f = files !! f).
Proof.
  intros Hf Hu. unfold write_objects.
  assert (forall l : list (Z * bytes), NoDup l.*1 -> (forall p, p ∈ l -> in_u64 p.1) ->
    (forall id c, (id, c) ∈ l ->
       foldr (fun p => <[getObjectPath st p.1 := p.2]>) files l !! getObjectPath st id = Some c) /\
    (forall f, (forall id c, (id, c) ∈ l -> f <> getObjectPath st id) ->
       foldr (fun p => <[getObjectPath st p.1 := p.2]>) files l !! f = files !! f)) as Hl.
  { induction l as [|[i b] l IH]; intros Hnd Hin; [split; [by intros ?? ?%elem_of_nil|done]|].
    cbn [fmap list_fmap fst] in Hnd. apply NoDup_cons in Hnd as [Hni Hnd].
    destruct IH as [IH1 IH2]; [done|intros q Hq; apply Hin; by right|]. cbn [foldr fst snd]. split.
    - intros id c [[= -> ->]|Hic]%elem_of_cons; [apply lookup_insert_eq|]. rewrite lookup_insert_ne; [by apply IH1|].
      intros E. apply Hni. apply path_inj in E as ->; [by apply (list_elem_of_fmap_2 fst _ (id, c))|done| |].
      + apply (Hin (i, b)). by left.
      + apply (Hin (id, c)). by right.
    - intros f Hno. rewrite lookup_insert_ne by (intros E; apply (Hno i b); [by left|done]).
      apply IH2. intros id c Hic. apply (Hno id c). by right. }
  destruct (Hl (map_to_list objs)) as [H1 H2].
  - apply NoDup_fst_map_to_list.
  - intros [i b] Hib%elem_of_map_to_list. apply Hu. by eexists.
  - split.
    + intros id c Hc. apply H1. by apply elem_of_map_to_list.
    + intros f Hno. apply H2. intros id c Hc%elem_of_map_to_list. apply Hno. by eexists.
Qed.

Lemma numbered_last fs : fs <> [] -> last (sorted_keys (numbered_map fs)) = Some (Z.of_nat (length fs)).
Proof.
  intros Hne. rewrite numbered_sorted. destruct (length fs) as [|n] eqn:E; [by apply length_zero_iff_nil in E|].
  rewrite Nat2Z.inj_succ, <- Z.add_1_r, seqZ_app by lia. rewrite last_app. cbn. f_equal. lia.
Qed.

Lemma numbered_range fs id : is_Some (numbered_map fs !! id) <-> 1 <= id <= Z.of_nat (length fs).
Proof. rewrite <- elem_of_sorted_keys, numbered_sorted, elem_of_seqZ. lia. Qed.

(** A new snapshot under a new key. *)
Section install.
Context (m : KeeperSnapshotManager) (st : KeeperSnapshotStore) (fs : list bytes).
Context (Hm : manager_wf m) (Hf : object_fits (store_object st 0)) (Hp0 : objects_path st = ∅).
Context (Hnew : snapshots m !! meta_key (snap_meta st) = None).
Context (Hne : fs <> []) (Hlen : Z.of_nat (length fs) < 2 ^ 64).

Local Abbreviation objs := (numbered_map fs).
Local Abbreviation m1 := (install_objects st objs m).1.
Local Abbreviation st1 := (add_object_paths objs st).

Lemma installed_ids id : is_Some (objs !! id) -> in_u64 id.
Proof. intros Hid%numbered_range. unfold in_u64. lia. Qed.

Lemma installed_paths id :
  objects_path st1 !! id = if decide (1 <= id <= Z.of_nat (length fs)) then Some (getObjectPath st id) else None.
Proof.
  destruct (add_object_paths_spec objs st _ (numbered_last fs Hne)) as (_ & _ & _ & ->). rewrite Hp0. by case_decide.
Qed.

Lemma installed_path id path :
  objects_path st1 !! id = Some path -> is_Some (objs !! id) /\ path = getObjectPath st id.
Proof.
  rewrite installed_paths. case_decide; [|done]. intros [= <-]. split; [by apply numbered_range|done].
Qed.

Lemma installed_meta : snap_meta st1 = snap_meta st.
Proof. by destruct (add_object_paths_spec objs st _ (numbered_last fs Hne)) as (_ & -> & _). Qed.

Lemma installed_wf : store_wf (meta_key (snap_meta st)) st1.
Proof.
  destruct (add_object_paths_spec objs st _ (numbered_last fs Hne)) as (_ & Hme & Ht & _). split.
  - by rewrite Hme.
  - unfold store_object. by rewrite Hme, Ht.
  - intros id path [Hid ->]%installed_path. split; [by apply installed_ids|].
    unfold getObjectPath. by rewrite Hme, Ht.
Qed.

Lemma installed_nonempty : objects_path st1 <> ∅.
Proof.
  intros E. pose proof (installed_paths 1) as E1. rewrite E, lookup_empty, decide_True in E1; [done|].
  clear -Hne. destruct fs; [done|cbn; lia].
Qed.

Lemma installed_files :
  (forall id c, objs !! id = Some c -> snap_dir m1 !! getObjectPath st id = Some c) /\
  (forall f, (forall id, is_Some (objs !! id) -> f <> getObjectPath st id) -> snap_dir m1 !! f = snap_dir m !! f).
Proof. apply (write_objects_spec st objs (snap_dir m) Hf installed_ids). Qed.

Lemma installed_old key st' id path :
  snapshots m !! key = Some st' -> objects_path st' !! id = Some path -> snap_dir m1 !! path = snap_dir m !! path.
Proof.
  intros Hst' Hid. apply installed_files. intros id' Hid' ->. pose proof Hm as [Hw _ _].
  assert (objects_path st1 !! id' = Some (getObjectPath st id')) as Hid1.
  { rewrite installed_paths, decide_True; [done|by apply numbered_range]. }
  destruct (store_path_unique _ _ _ _ _ _ _ (Hw _ _ Hst') installed_wf Hid Hid1) as [-> _]. congruence.
Qed.

Lemma installed_objects : objects_of st1 (snap_dir m1) = Ok objs.
Proof.
  destruct installed_files as [Hin _]. apply objects_of_spec.
  - intros id path [[c Hc] ->]%installed_path. rewrite (Hin _ _ Hc). by eexists.
  - intros id. rewrite installed_paths. case_decide as Hd.
    + destruct (proj2 (numbered_range fs id) Hd) as [c Hc]. rewrite Hc. symmetry. by apply Hin.
    + destruct (objs !! id) eqn:E; [|done]. destruct Hd. apply numbered_range. by eexists.
Qed.

Lemma install_wf : manager_wf m1.
Proof.
  pose proof Hm as [Hw Hfl Ho]. destruct installed_files as [Hin Hout]. split.
  - intros key st'. cbn. intros [[<- <-]|[_ Hst']]%lookup_insert_Some; [apply installed_wf|by apply Hw].
  - intros key st' id path Hst Hid. cbn in Hst. apply lookup_insert_Some in Hst as [[<- <-]|[_ Hst']].
    + destruct (installed_path _ _ Hid) as [[c Hc] ->]. rewrite (Hin _ _ Hc). by eexists.
    + rewrite (installed_old _ _ _ _ Hst' Hid). by eapply Hfl.
  - intros f Hfile Hi.
    destruct (decide (Exists (fun id => f = getObjectPath st id) (seqZ 1 (Z.of_nat (length fs))))) as [He|Hno].
    + apply Exists_exists in He as (id & Hid%elem_of_seqZ & ->). exists (meta_key (snap_meta st)), st1, id.
      cbn. rewrite lookup_insert_eq, installed_paths, decide_True by lia. done.
    + assert (snap_dir m1 !! f = snap_dir m !! f) as E.
      { apply Hout. intros id Hid%numbered_range ->. apply Hno, Exists_exists. exists id.
        rewrite elem_of_seqZ. split; [lia|done]. }
      rewrite E in Hfile. destruct (Ho f Hfile Hi) as (key & st' & id & Hst' & Hid). exists key, st', id.
      cbn. rewrite lookup_insert_ne by congruence. done.
Qed.
End install.

Lemma last_sorted_key {V} (m : gmap Z V) k :
  is_Some (m !! k) -> (forall k', is_Some (m !! k') -> k' <= k) -> last (sorted_keys m) = Some k.
Proof.
  intros Hk Hmax. pose proof (proj2 (elem_of_sorted_keys m k) Hk) as Hin.
  destruct (last (sorted_keys m)) as [k'|] eqn:E.
  - f_equal. assert (k' <= k) as Hle by (apply Hmax, elem_of_sorted_keys; by apply last_Some_elem_of).
    apply last_Some in E as [l E]. pose proof (sorted_keys_sorted m) as Hs. rewrite E in Hs, Hin.
    apply elem_of_app in Hin as [Hin|Hin%list_elem_of_singleton]; [|done].
    assert (k <= k') as Hge; [|lia]. eapply (StronglySorted_app_1_elem_of Z.le); [exact Hs|exact Hin|by left].
  - apply last_None in E. rewrite E in Hin. by apply elem_of_nil in Hin.
Qed.

Section survival.
Context `{IterOrder} (hash : string -> Z) (now : Z).

(** A snapshot that can be taken next: the sizes fit, the time is one the names
    can hold, and the log position is new and later than those known. *)
Record can_snapshot (m : KeeperSnapshotManager) (time : string) (meta : SnapMeta) (s : KeeperStore) : Prop := {
  cs_sizes : snapshot_sizes (KeeperSnapshotStore_config (object_node_size m) SAVE_BATCH_SIZE V2) s;
  cs_time : without underscore time;
  cs_term : in_u64 (last_log_term meta);
  cs_idx : in_u64 (last_log_idx meta);
  cs_newest : forall key, is_Some (snapshots m !! key) -> key < meta_key meta
}.

(** What a manager that has the snapshot can be asked for. *)
Definition offers (m : KeeperSnapshotManager) (meta : SnapMeta) (n : Z) (s : KeeperStore) : Prop :=
  forall s0 order ids,
    fresh_store s0 -> order ≡ₚ seq 0 (Z.to_nat n) -> ids ≡ₚ seq 0 DATA_TREE_BUCKET_NUM ->
    exists s', parseSnapshot hash now order ids meta m s0 = Ok s' /\ restored s s'.

Lemma offers_objects m meta st objs s :
  snapshots m !! meta_key meta = Some st -> objects_of st (snap_dir m) = Ok objs -> restores hash now s objs ->
  offers m meta (Z.of_nat (size objs)) s.
Proof.
  intros Hst Ho Hr s0 order ids Hf Hord Hids. rewrite Nat2Z.id in Hord. unfold parseSnapshot.
  rewrite Hst, Ho. by apply Hr.
Qed.

Lemma created m time meta s :
  manager_wf m -> tree_wf (data_tree s) -> counted s -> can_snapshot m time meta s ->
  exists fs, let st := new_store m V2 time (set_size (getNodesCount s) meta) in
    createSnapshotAsync time meta (SnapTask_of hash s) V2 m =
      Ok ((install_objects st (numbered_map fs) m).1, Z.of_nat (length fs)) /\
    fs <> [] /\ Z.of_nat (length fs) < 2 ^ 64 - 1 /\ restores hash now s (numbered_map fs) /\
    object_fits (store_object st 0) /\ snapshots m !! meta_key (snap_meta st) = None.
Proof.
  intros Hm Hwt Hcount [Hs%sizes_fit Ht Hte Hi Hk]; [|done..]. pose proof Hs as [_ Hmax _ Hwf _ [Hn _] _ _ _ _ _ _ _ _ _].
  pose proof (tree_nonempty _ Hwf) as Hpos.
  destruct (async_objects hash now (KeeperSnapshotStore_config (object_node_size m) SAVE_BATCH_SIZE V2) s
    (set_size (getNodesCount s) meta) Hs) as (objs & E & Hsz & (fs & ->) & Hr).
  { cbn. unfold getNodesCount. lia. }
  rewrite numbered_size in Hsz. set (M := max_object_node_size _) in *.
  pose proof (Z.div_pos (Z.of_nat (size (data_tree s)) - 1) M).
  pose proof (Z.div_le_upper_bound (Z.of_nat (size (data_tree s)) - 1) M (Z.of_nat (size (data_tree s)) - 1)).
  assert (fs <> []) as Hne by (intros ->; cbn [length] in Hsz; lia).
  exists fs. cbn zeta. split_and!; [| |nia|done|done|].
  - unfold createSnapshotAsync. cbn [nodes_count SnapTask_of ks_config new_store]. rewrite E.
    cbn [mbind outcome_bind]. unfold install_objects. by rewrite (numbered_last fs Hne).
  - done.
  - destruct (snapshots m !! _) as [k|] eqn:Ek; [|done].
    assert (meta_key meta < meta_key meta); [|lia]. apply Hk. exists k. exact Ek.
Qed.

(** C36: a snapshot that was taken is there after a restart: the new process
    finds it in the directory, takes it for the latest, and loads the store it
    was taken of. The tree is in order, no node of it states a negative number of
    children, its sizes fit the format, and the log position is later than those of
    the snapshots that are there. *)
Theorem snapshot_survives_restart m time meta s :
  manager_wf m -> tree_wf (data_tree s) -> counted s -> can_snapshot m time meta s ->
  exists m1 n, createSnapshotAsync time meta (SnapTask_of hash s) V2 m = Ok (m1, n) /\ manager_wf m1 /\
    forall snaps, exists m2 meta2,
      loadSnapshotMetas (with_snapshots (fun _ => snaps) (snap_dir m1) m1) = Ok m2 /\
      lastSnapshot m2 = Some meta2 /\ meta_key meta2 = meta_key meta /\ offers m2 meta2 n s.
Proof.
  intros Hm Hwt Hcount Hc. destruct (created m time meta s Hm Hwt Hcount Hc) as (fs & E & Hne & Hlen & Hr & Hf & Hnew).
  assert (Z.of_nat (length fs) < 2 ^ 64) as Hlen' by lia.
  set (st := new_store m V2 time (set_size (getNodesCount s) meta)) in *.
  set (m1 := (install_objects st (numbered_map fs) m).1) in *. set (st1 := add_object_paths (numbered_map fs) st).
  assert (manager_wf m1) as Hw1 by (by apply install_wf).
  exists m1, (Z.of_nat (length fs)). split_and!; [done|done|]. intros snaps.
  set (st2 := mkSnapStore (ks_config (new_store m1 CURRENT_SNAPSHOT_VERSION "" (snap_meta st1)))
    (set_size 0 (snap_meta st1)) (curr_time st1) (objects_path st1)).
  set (m2 := with_snapshots (fun _ => survives m1) (snap_dir m1) m1).
  assert (snapshots m2 !! meta_key meta = Some st2) as Hst2.
  { cbn. unfold survives. rewrite lookup_omap. cbn. rewrite lookup_insert_eq. cbn.
    by rewrite decide_False by (by apply installed_nonempty). }
  assert (snap_meta st1 = snap_meta st) as Hme by (by apply installed_meta).
  assert (meta_key (snap_meta st2) = meta_key meta) as Hkey by (cbn; by rewrite Hme).
  exists m2, (snap_meta st2). split_and!; [by apply restart_finds| |done|].
  - unfold lastSnapshot. rewrite (last_sorted_key _ (meta_key meta)); [cbn [mbind option_bind]; by rewrite Hst2|by eexists|].
    intros k [st' Hk]. cbn in Hk. unfold survives in Hk. rewrite lookup_omap in Hk.
    destruct (decide (k = meta_key meta)) as [->|Hkk]; [lia|].
    cbn in Hk. rewrite lookup_insert_ne in Hk by done. apply bind_Some in Hk as (st0 & Hk & _).
    destruct Hc as [_ _ _ _ Hlt]. specialize (Hlt k ltac:(by eexists)). lia.
  - rewrite <- (numbered_size fs). eapply (offers_objects m2 _ st2); [by rewrite Hkey| |done].
    by apply installed_objects.
Qed.
End survival.

(** ** Examples *)

Lemma receive_wf m time meta :
  manager_wf m -> object_fits (mkObject time (last_log_term meta) (last_log_idx meta) 0) ->
  snapshots m !! meta_key meta = None -> manager_wf (receiveSnapshotMeta time meta m).
Proof.
  intros [Hw Hfl Ho] Hf Hnew. split.
  - intros key st'. cbn. intros [[<- <-]|[_ Hst']]%lookup_insert_Some; [|by apply Hw].
    split; [done|done|]. intros id path Hid. cbn in Hid. by rewrite lookup_empty in Hid.
  - intros key st' id path Hst Hid. cbn in Hst. apply lookup_insert_Some in Hst as [[<- <-]|[_ Hst']].
    + cbn in Hid. by rewrite lookup_empty in Hid.
    + by eapply Hfl.
  - intros f Hfile Hi. destruct (Ho f Hfile Hi) as (key & st' & id & Hst' & Hid). exists key, st', id.
    cbn. rewrite lookup_insert_ne by congruence. done.
Qed.

Definition demo_time : string := "20240101000000".
Definition demo_manager : KeeperSnapshotManager := mkManager 1 1 ∅ ∅.
Definition demo_snapshot (idx : Z) (m : KeeperSnapshotManager) : KeeperSnapshotManager :=
  (install_objects (new_store m V2 demo_time (mkMeta 1 idx 1)) (numbered_map [[byte_of 0]]) m).1.

Lemma demo_snapshot_wf idx m :
  manager_wf m -> in_u64 idx -> snapshots m !! meta_key (mkMeta 1 idx 1) = None -> manager_wf (demo_snapshot idx m).
Proof. intros Hm Hi Hn. by apply install_wf. Qed.

Lemma demo_wf : manager_wf (demo_snapshot 20 (demo_snapshot 10 demo_manager)).
Proof.
  apply demo_snapshot_wf; [apply demo_snapshot_wf; [apply manager_wf_init|..]|..];
    first [by unfold in_u64|by vm_compute].
Qed.

Lemma demo_snapshot_nonempty idx m : nonempty_snapshots m -> nonempty_snapshots (demo_snapshot idx m).
Proof.
  intros Hm key st. unfold demo_snapshot, install_objects. cbn [fst snapshots with_snapshots].
  intros [[_ <-]|[_ Hst]]%lookup_insert_Some; [by apply installed_nonempty|by eapply Hm].
Qed.

Lemma old_snapshots_removed_witness :
  exists m', removeSnapshots (demo_snapshot 20 (demo_snapshot 10 demo_manager)) = Ok m' /\ size (snapshots m') = 1%nat.
Proof.
  destruct (old_snapshots_removed (demo_snapshot 20 (demo_snapshot 10 demo_manager)) demo_wf) as (m' & E & _ & _ & Hsz).
  - apply demo_snapshot_nonempty, demo_snapshot_nonempty. intros key st Hst. cbn in Hst. by rewrite lookup_empty in Hst.
  - done.
  - exists m'. split; [done|]. assert (size (snapshots (demo_snapshot 20 (demo_snapshot 10 demo_manager))) = 2%nat) as E2
      by (by vm_compute). rewrite E2 in Hsz. cbn in Hsz. lia.
Defined.

Definition demo_blocked : KeeperSnapshotManager :=
  demo_snapshot 30 (demo_snapshot 20 (receiveSnapshotMeta demo_time (mkMeta 1 10 1) demo_manager)).

Lemma demo_blocked_wf : manager_wf demo_blocked.
Proof.
  apply demo_snapshot_wf; [apply demo_snapshot_wf; [apply receive_wf; [apply manager_wf_init|..]|..]|..];
    first [by unfold in_u64|by vm_compute|by split_and!; [..|unfold in_u64|unfold in_u64|unfold in_u64]].
Qed.

Lemma empty_snapshot_blocks_removal_witness :
  removeSnapshots demo_blocked = Ok demo_blocked /\ size (snapshots demo_blocked) = 3%nat /\
  keep_max_snapshot_count demo_blocked = 1.
Proof.
  split_and!; [|by vm_compute|done].
  apply (empty_snapshot_blocks_removal demo_blocked (meta_key (mkMeta 1 10 1))
    (new_store demo_manager V2 demo_time (mkMeta 1 10 1)) demo_blocked_wf); by vm_compute.
Defined.

Lemma snapshot_survives_restart_witness :
  exists m1 n m2 meta2, createSnapshotAsync demo_time (mkMeta 1 10 0) (SnapTask_of (fun _ => 3) demo_store) V2 demo_manager
      = Ok (m1, n) /\ loadSnapshotMetas (with_snapshots (fun _ => ∅) (snap_dir m1) m1) = Ok m2 /\ lastSnapshot m2 = Some meta2 /\
    meta_key meta2 = meta_key (mkMeta 1 10 0) /\ offers (fun _ => 3) 0 m2 meta2 n demo_store.
Proof.
  destruct (snapshot_survives_restart (fun _ => 3) 0 demo_manager demo_time (mkMeta 1 10 0) demo_store)
    as (m1 & n & E & Hw & Hr); [apply manager_wf_init|apply demo_wf_tree|apply demo_counted| |].
  - split; [by apply demo_sizes_with|done|done|done|]. intros key [? Hk]. cbn in Hk. by rewrite lookup_empty in Hk.
  - destruct (Hr ∅) as (m2 & meta2 & E2 & H). exists m1, n, m2, meta2. split; [exact E|]. split; [exact E2|exact H].
Defined.
