(* ===== verification/StateMachine.v ===== *)
(** * The Raft state machine

    [NuRaftStateMachine] and [LastCommittedIndexManager]
    ([src/src/Service/NuRaftStateMachine.h/.cpp],
    [LastCommittedIndexManager.h/.cpp]): committing log entries, taking
    snapshots, and sending a snapshot to another server. NuRaft calls these
    operations; the theorems are about sequences of calls. *)

From S2P Require Import Prelude Coordination Paths Text AclMap Sessions Watches DataTree Store StoreTree.
From S2P Require Import StoreOps StoreRequest StoreTheorems Wire WireRequests Crc.
From S2P Require Import SnapshotFormat Snapshot SnapshotLoad SnapshotTheorems SnapshotRoundtrip.
From S2P Require Import SnapshotManager SnapshotManagerTheorems.

(** ** LastCommittedIndexManager *)

Record LastCommittedIndexManager := mkIndexManager {
  last_committed_index : Z;
  previous_persist_index : Z;
  persist_file : bytes
}.

(** A new process finds the file. *)
Definition LastCommittedIndexManager_init (file : bytes) : LastCommittedIndexManager := mkIndexManager 0 0 file.

Definition index_push (index : Z) (m : LastCommittedIndexManager) : LastCommittedIndexManager :=
  mkIndexManager index (previous_persist_index m) (persist_file m).

Definition index_get (m : LastCommittedIndexManager) : outcome Z :=
  if decide (persist_file m = []) then Ok 0
  else ((bs <- readStrict 8 ;; sm_ret (le_value bs))%sm (persist_file m)).1.

(** One turn of the persisting thread. *)
Definition index_persist (m : LastCommittedIndexManager) : LastCommittedIndexManager :=
  let current_index := last_committed_index m in
  if decide (previous_persist_index m = current_index) then m
  else mkIndexManager current_index current_index (pwrite_all (le_bytes 8 current_index) (persist_file m)).

(** ** NuRaftStateMachine *)

(** [commit_queue] is the queue of the request processor, [None] without one;
    [snap_task] the task the snapshot thread is to take. *)
Record StateMachine := mkStateMachine {
  sm_server : Server;
  commit_queue : option (list RequestForSession);
  last_committed_idx : Z;
  committed_log_manager : LastCommittedIndexManager;
  snap_mgr : KeeperSnapshotManager;
  in_snapshot : bool;
  snap_task : option (SnapMeta * SnapTask)
}.

Definition with_server (f : Server -> Server) (m : StateMachine) : StateMachine :=
  mkStateMachine (f (sm_server m)) (commit_queue m) (last_committed_idx m) (committed_log_manager m) (snap_mgr m)
    (in_snapshot m) (snap_task m).
Definition with_committed (idx : Z) (m : StateMachine) : StateMachine :=
  mkStateMachine (sm_server m) (commit_queue m) idx (committed_log_manager m) (snap_mgr m) (in_snapshot m) (snap_task m).
Definition with_index_manager (f : LastCommittedIndexManager -> LastCommittedIndexManager) (m : StateMachine)
    : StateMachine :=
  mkStateMachine (sm_server m) (commit_queue m) (last_committed_idx m) (f (committed_log_manager m)) (snap_mgr m)
    (in_snapshot m) (snap_task m).
Definition with_snap_mgr (mgr : KeeperSnapshotManager) (m : StateMachine) : StateMachine :=
  mkStateMachine (sm_server m) (commit_queue m) (last_committed_idx m) (committed_log_manager m) mgr
    (in_snapshot m) (snap_task m).
Definition with_snap_state (b : bool) (task : option (SnapMeta * SnapTask)) (m : StateMachine) : StateMachine :=
  mkStateMachine (sm_server m) (commit_queue m) (last_committed_idx m) (committed_log_manager m) (snap_mgr m) b task.

Definition on_server {A} (f : SM Server A) : SM StateMachine A := fun m =>
  let r := f (sm_server m) in (r.1, with_server (fun _ => r.2) m).

Section machine.
Context `{IterOrder} (sha1_base64 : string -> string) (compat : bool) (hash : string -> Z).

(** [request_processor->commit], while it is not shut down. *)
Definition enqueue_commit (r : RequestForSession) (q : list RequestForSession) (m : StateMachine) : StateMachine :=
  mkStateMachine (sm_server m) (Some (q ++ [r])) (last_committed_idx m) (committed_log_manager m) (snap_mgr m)
    (in_snapshot m) (snap_task m).

Definition commit (now log_idx : Z) (data : bytes) (ignore_response : bool) : SM StateMachine unit := fun m =>
  match deserializeKeeperRequest data with
  | Fault f => (Fault f, m)
  | Ok r =>
      (match commit_queue m with
       | Some q => sm_modify (enqueue_commit r q)
       | None => on_server (processRequest sha1_base64 compat now r None true ignore_response)
       end ;;;
       sm_modify (with_committed log_idx) ;;;
       sm_modify (with_index_manager (index_push log_idx)))%sm m
  end.

(** Creating a snapshot waits until the commit queue is empty: [None] is a
    caller that still waits. *)
Definition queue_drained (m : StateMachine) : bool :=
  match commit_queue m with None | Some [] => true | Some _ => false end.

Definition create_and_remove (r : outcome (KeeperSnapshotManager * Z)) (m : StateMachine) : outcome StateMachine :=
  r' ← r; mgr ← removeSnapshots r'.1; Ok (with_snap_mgr mgr m).

Definition create_snapshot (async : bool) (time : string) (s : SnapMeta) (m : StateMachine)
    : option (outcome StateMachine) :=
  if queue_drained m then
    let store := (sm_server m).1 in
    Some (if async then Ok (with_snap_state true (Some (s, SnapTask_of hash store)) m)
          else m' ← create_and_remove (createSnapshot time s store (zxid store)
                      (session_id_counter (session_manager store)) CURRENT_SNAPSHOT_VERSION (snap_mgr m)) m;
               Ok (with_snap_state false (snap_task m') m'))
  else None.

(** A turn of [snapThread]. *)
Definition snap_thread_turn (time : string) (m : StateMachine) : outcome StateMachine :=
  match snap_task m with
  | None => Ok m
  | Some (s, task) =>
      m' ← create_and_remove (createSnapshotAsync time s task CURRENT_SNAPSHOT_VERSION (snap_mgr m)) m;
      Ok (with_snap_state false None m')
  end.

(** The content, null if the snapshot is not there, and whether it is the last.
    Object 0 is a dummy of four bytes. *)
Definition read_logical_snp_obj (s : SnapMeta) (obj_id : Z) (m : StateMachine) : outcome (option bytes * bool) :=
  if negb (existSnapshot s (snap_mgr m)) then Ok (None, true)
  else if decide (obj_id = 0) then Ok (Some (replicate 4 (byte_of 0)), false)
  else data ← loadSnapshotObject s obj_id (snap_mgr m);
       Ok (Some data, negb (existSnapshotObject s (u64 (obj_id + 1)) (snap_mgr m))).

(** The state after and the id of the next object. *)
Definition save_logical_snp_obj (time : string) (s : SnapMeta) (obj_id : Z) (data : bytes) (m : StateMachine)
    : StateMachine * Z :=
  (with_snap_mgr (if decide (obj_id = 0) then receiveSnapshotMeta time s (snap_mgr m)
                  else saveSnapshotObject time s obj_id data (snap_mgr m)) m,
   u64 (obj_id + 1)).

Definition applySnapshotImpl (now : Z) (order ids : list nat) (s : SnapMeta) (m : StateMachine) : outcome StateMachine :=
  store' ← parseSnapshot hash now order ids s (snap_mgr m) (sm_server m).1;
  Ok (with_committed (last_log_idx s) (with_server (fun srv => (store', srv.2)) m)).

Definition machine_reset : SM StateMachine unit :=
  (sm_modify (fun m => with_snap_state false (snap_task m) m) ;;;
   on_server (on_store store_reset) ;;;
   sm_modify (with_committed 0))%sm.

Definition apply_snapshot (now : Z) (order ids : list nat) (s : SnapMeta) (m : StateMachine) : outcome StateMachine :=
  match machine_reset m with
  | (Fault f, _) => Fault f
  | (Ok _, m') => applySnapshotImpl now order ids s m'
  end.

(** *** The constructor *)

(** The latest snapshot in the directory is applied to a new store. *)
Definition machine_load (now : Z) (order ids : list nat) (m : StateMachine) : outcome StateMachine :=
  mgr ← loadSnapshotMetas (snap_mgr m);
  let m' := with_snap_mgr mgr m in
  match lastSnapshot mgr with
  | Some s => applySnapshotImpl now order ids s m'
  | None => Ok m'
  end.

(** The range of the log to replay, if any. *)
Definition replay_range (m : StateMachine) : outcome (option (Z * Z)) :=
  previous_last_commit_id ← index_get (committed_log_manager m);
  Ok (if decide (previous_last_commit_id = 0) then None
      else if decide (previous_last_commit_id <= last_committed_idx m) then None
      else Some (u64 (last_committed_idx m + 1), previous_last_commit_id)).
End machine.

(** ** The persisted index *)

(** What a new process reads is the index at the last turn of the thread. *)
Lemma index_roundtrip m :
  in_u64 (last_committed_index m) -> previous_persist_index m <> last_committed_index m ->
  index_get (LastCommittedIndexManager_init (persist_file (index_persist m))) = Ok (last_committed_index m).
Proof.
  intros Hi Hne. unfold index_persist. rewrite decide_False by done. unfold index_get. cbn [persist_file LastCommittedIndexManager_init].
  set (i := last_committed_index m) in *. unfold pwrite_all.
  rewrite decide_False by (destruct (le_bytes 8 i) eqn:E; [by apply (f_equal length) in E; rewrite length_le_bytes in E|done]).
  unfold sm_bind, sm_ret, readStrict. rewrite decide_True by (rewrite length_app, length_le_bytes; lia). cbn [fst].
  rewrite take_app_length' by (symmetry; apply length_le_bytes). rewrite le_value_bytes. f_equal. by apply Z.mod_small.
Qed.

(** ** Sending a snapshot *)

(** The manager holds the objects [fs] of the snapshot. *)
Definition holds (m : KeeperSnapshotManager) (s : SnapMeta) (fs : list bytes) : Prop :=
  exists st, snapshots m !! meta_key s = Some st /\
    (forall id path, objects_path st !! id = Some path -> is_Some (snap_dir m !! path)) /\
    forall id, numbered_map fs !! id = objects_path st !! id ≫= (fun path => snap_dir m !! path).

Lemma holds_objects m s fs :
  holds m s fs -> exists st, snapshots m !! meta_key s = Some st /\ objects_of st (snap_dir m) = Ok (numbered_map fs).
Proof. intros (st & Hst & Hf & Ho). exists st. split; [done|]. by apply objects_of_spec. Qed.

Lemma holds_path m s fs st id :
  snapshots m !! meta_key s = Some st ->
  (forall id path, objects_path st !! id = Some path -> is_Some (snap_dir m !! path)) ->
  (forall id, numbered_map fs !! id = objects_path st !! id ≫= (fun path => snap_dir m !! path)) ->
  is_Some (objects_path st !! id) <-> 1 <= id <= Z.of_nat (length fs).
Proof.
  intros _ Hf Ho. rewrite <- numbered_range, Ho. destruct (objects_path st !! id) as [p|] eqn:E; cbn.
  - split; [intros _; by eapply Hf|by eexists].
  - by split; intros [? [=]].
Qed.

Section transfer.
Context `{IterOrder} (hash : string -> Z) (now : Z).
Context (s : SnapMeta) (times : Z -> string) (fs : list bytes).
Context (Hne : fs <> []) (Hlen : Z.of_nat (length fs) < 2 ^ 64 - 1).
Local Abbreviation n := (Z.of_nat (length fs)).

(** What the leader sends: the dummy, then the objects; only the last of them is
    marked. *)
Lemma read_objects_sent lm :
  holds (snap_mgr lm) s fs ->
  read_logical_snp_obj s 0 lm = Ok (Some (replicate 4 (byte_of 0)), false) /\
  forall id, 1 <= id <= n -> exists data, numbered_map fs !! id = Some data /\
    read_logical_snp_obj s id lm = Ok (Some data, bool_decide (id = n)).
Proof.
  intros (st & Hst & Hf & Ho). unfold read_logical_snp_obj, existSnapshot. rewrite Hst.
  rewrite bool_decide_true by (by eexists). cbn [negb]. split; [done|].
  intros id Hid. rewrite decide_False by lia. unfold loadSnapshotObject, existSnapshotObject. rewrite Hst.
  destruct (proj2 (holds_path _ _ _ _ id Hst Hf Ho) Hid) as [path Hp]. destruct (Hf _ _ Hp) as [data Hd].
  exists data. rewrite Ho, Hp. split; [done|]. unfold loadObject. rewrite Hp, Hd. cbn. do 2 f_equal.
  unfold existObject, u64, wrap_u. rewrite Z.mod_small by lia.
  destruct (decide (id = n)) as [->|Hne'].
  - rewrite (bool_decide_true (n = n)) by done. rewrite bool_decide_false; [done|].
    rewrite (holds_path _ _ _ _ (n + 1) Hst Hf Ho). lia.
  - rewrite (bool_decide_false (id = n)) by done. rewrite bool_decide_true; [done|].
    rewrite (holds_path _ _ _ _ (id + 1) Hst Hf Ho). lia.
Qed.

(** The calls on both sides for the object [id]. *)
Definition send_object (lm : StateMachine) (fm : StateMachine) (id : Z) : StateMachine :=
  match read_logical_snp_obj s id lm with
  | Ok (Some data, _) => (save_logical_snp_obj (times id) s id data fm).1
  | _ => fm
  end.

Definition send_objects (lm fm : StateMachine) (last : Z) : StateMachine :=
  fold_left (send_object lm) (seqZ 0 (last + 1)) fm.

Lemma send_objects_step lm fm k :
  0 <= k -> send_objects lm fm (k + 1) = send_object lm (send_objects lm fm k) (k + 1).
Proof.
  intros Hk. unfold send_objects. replace (k + 1 + 1) with ((k + 1) + 1) by lia.
  rewrite (seqZ_app 0 (k + 1) 1) by lia. rewrite fold_left_app. cbn [Z.add]. done.
Qed.

(** The follower after the objects up to [k]; its other files stay. *)
Definition received (fm fm' : StateMachine) (k : Z) : Prop :=
  sm_server fm' = sm_server fm /\
  exists st, snapshots (snap_mgr fm') !! meta_key s = Some st /\ snap_meta st = s /\ curr_time st = times 0 /\
    (forall id, objects_path st !! id = if decide (1 <= id <= k) then Some (getObjectPath st id) else None) /\
    (forall id, 1 <= id <= k -> snap_dir (snap_mgr fm') !! getObjectPath st id = numbered_map fs !! id) /\
    (forall id, k < id <= n -> snap_dir (snap_mgr fm') !! getObjectPath st id = None).

Context (lm fm : StateMachine) (Hlm : holds (snap_mgr lm) s fs) (Hfm : manager_wf (snap_mgr fm)).
Context (Hfit : object_fits (mkObject (times 0) (last_log_term s) (last_log_idx s) 0)).
Context (Hnew : snapshots (snap_mgr fm) !! meta_key s = None).

Local Abbreviation st0 := (new_store (snap_mgr fm) CURRENT_SNAPSHOT_VERSION (times 0) s).

(** A file under a name of the snapshot would make the snapshot known. *)
Lemma no_file_yet id : in_u64 id -> snap_dir (snap_mgr fm) !! getObjectPath st0 id = None.
Proof.
  intros Hid. destruct (snap_dir (snap_mgr fm) !! getObjectPath st0 id) eqn:E; [|done].
  pose proof Hfm as [Hw _ Ho]. destruct (Ho (getObjectPath st0 id)) as (key & st & id' & Hst & Hid');
    [by eexists|apply object_name_found|].
  destruct (store_path_parsed _ _ _ _ (Hw _ _ Hst) Hid') as (Hp & Hk & _).
  assert (object_fits (store_object st0 id)) as Hf0 by (apply store_object_fits; done).
  unfold getObjectPath in Hp. change (mkObject _ _ _ id) with (store_object st0 id) in Hp.
  rewrite (object_name_parsed _ _ Hf0) in Hp.
  assert (store_object st id' = store_object st0 id) as Eo by congruence. rewrite Eo in Hk.
  assert (key = meta_key s) as -> by (by rewrite <- Hk). congruence.
Qed.

Lemma received_start : received fm (send_objects lm fm 0) 0.
Proof.
  destruct (read_objects_sent lm Hlm) as [E0 _]. change (send_objects lm fm 0) with (send_object lm fm 0).
  unfold send_object. rewrite E0. cbn [fst save_logical_snp_obj]. rewrite decide_True by done. split; [done|].
  exists st0. unfold receiveSnapshotMeta. cbn [snap_mgr with_snap_mgr snapshots snap_dir with_snapshots].
  rewrite lookup_insert_eq.
  split_and!; [done|done|done| |intros; lia|].
  - intros id. rewrite decide_False by lia. apply lookup_empty.
  - intros id Hid. apply no_file_yet. unfold in_u64. lia.
Qed.

Lemma received_step k :
  0 <= k < n -> received fm (send_objects lm fm k) k -> received fm (send_objects lm fm (k + 1)) (k + 1).
Proof.
  intros Hk (Hsv & st & Hst & Hme & Ht & Hp & Hd & Hno).
  destruct (read_objects_sent lm Hlm) as [_ Er]. destruct (Er (k + 1)) as (data & Hdata & E); [lia|].
  rewrite send_objects_step by lia. unfold send_object. rewrite E. cbn [fst save_logical_snp_obj].
  rewrite decide_False by lia. set (fm' := send_objects lm fm k) in *. split; [done|].
  assert (object_fits (store_object st 0)) as Hf by (unfold store_object; by rewrite Hme, Ht).
  assert (forall id, getObjectPath (addObjectPath (k + 1) (getObjectPath st (k + 1)) st) id = getObjectPath st id)
    as Hpath by done.
  assert (forall id, 1 <= id <= n -> id <> k + 1 -> getObjectPath st (k + 1) <> getObjectPath st id) as Hdiff.
  { intros id Hid Hne'. intros Eq. apply path_inj in Eq; [lia|done|unfold in_u64; lia..]. }
  exists (addObjectPath (k + 1) (getObjectPath st (k + 1)) st). cbn [snap_mgr with_snap_mgr snapshots snap_dir
    saveSnapshotObject with_snapshots]. unfold saveSnapshotObject. rewrite Hst. cbn [default Datatypes.id saveObject fst snd
    snapshots snap_dir with_snapshots]. rewrite lookup_insert_eq. split_and!; [done|done|done| | |].
  - intros id. cbn [objects_path addObjectPath]. rewrite Hpath. destruct (decide (id = k + 1)) as [->|Hne'].
    + rewrite lookup_insert_eq, decide_True by lia. done.
    + rewrite lookup_insert_ne, Hp by done. apply decide_ext. lia.
  - intros id Hid. rewrite Hpath. destruct (decide (id = k + 1)) as [->|Hne'].
    + rewrite lookup_insert_eq, (Hno (k + 1)) by lia. cbn [default]. unfold pwrite_all. by rewrite drop_nil, app_nil_r, Hdata.
    + rewrite lookup_insert_ne by (apply Hdiff; lia). apply Hd. lia.
  - intros id Hid. rewrite Hpath, lookup_insert_ne by (apply Hdiff; lia). apply Hno. lia.
Qed.

Lemma received_all : received fm (send_objects lm fm n) n.
Proof.
  assert (forall k : nat, (k <= length fs)%nat -> received fm (send_objects lm fm (Z.of_nat k)) (Z.of_nat k)) as Hk;
    [|by apply (Hk (length fs))].
  induction k as [|k IH]; intros Hle; [apply received_start|].
  rewrite Nat2Z.inj_succ, <- Z.add_1_r. apply received_step; [lia|apply IH; lia].
Qed.

Lemma received_holds : holds (snap_mgr (send_objects lm fm n)) s fs.
Proof.
  destruct received_all as (_ & st & Hst & _ & _ & Hp & Hd & _). exists st. split_and!; [done| |].
  - intros id path. rewrite Hp. case_decide as Hid; [|done]. intros [= <-]. rewrite Hd by done. by apply numbered_range.
  - intros id. rewrite Hp. case_decide as Hid; cbn; [by rewrite Hd|].
    destruct (numbered_map fs !! id) eqn:E; [|done]. destruct Hid. apply numbered_range. by eexists.
Qed.
End transfer.

Lemma reset_fresh s : server_inv s -> exists s', store_reset s = (Ok tt, s') /\ fresh_store s'.
Proof.
  intros [_ Hs Hw]. assert (exists s', store_reset s = (Ok tt, s')) as [s' E].
  { unfold store_reset. cbn [sm_bind sm_modify]. unfold watch_op. cbn.
    rewrite (WatchManager_reset_spec _ Hw). by eexists. }
  exists s'. split; [done|]. by eapply fresh_reset.
Qed.

Section theorem.
Context `{IterOrder} (hash : string -> Z) (now : Z).

Lemma applied_restored order ids s fs store m :
  server_inv (sm_server m).1 -> holds (snap_mgr m) s fs -> restores hash now store (numbered_map fs) ->
  order ≡ₚ seq 0 (length fs) -> ids ≡ₚ seq 0 DATA_TREE_BUCKET_NUM ->
  exists m', apply_snapshot hash now order ids s m = Ok m' /\ restored store (sm_server m').1 /\
    last_committed_idx m' = last_log_idx s.
Proof.
  intros Hi Hh Hr Hord Hids. destruct (reset_fresh _ Hi) as (s0 & E & Hf).
  destruct (holds_objects _ _ _ Hh) as (st & Hst & Ho).
  assert (order ≡ₚ seq 0 (Z.to_nat (Z.of_nat (size (numbered_map fs))))) as Hord'
    by (by rewrite Nat2Z.id, numbered_size).
  destruct (offers_objects hash now _ _ _ _ _ Hst Ho Hr s0 order ids Hf Hord' Hids) as (s' & Ep & Hre).
  unfold apply_snapshot, machine_reset, on_server, on_store. cbn [sm_bind sm_modify sm_server with_snap_state].
  rewrite E. cbn. unfold applySnapshotImpl. cbn. rewrite Ep. cbn. by eexists.
Qed.

(** C21: a snapshot a leader has taken and sent object by object, and a follower
    has saved and applied, gives the follower the leader's store and log index;
    exactly the last object is marked as the last. The leader's tree is in order, no
    node of it states a negative number of children, its sizes fit the format, the
    log position is later than those of its other snapshots, and the follower does
    not have the snapshot. *)
Theorem snapshot_transfer_restores lm fm time times s store :
  manager_wf (snap_mgr lm) -> tree_wf (data_tree store) -> counted store -> can_snapshot (snap_mgr lm) time s store ->
  manager_wf (snap_mgr fm) -> snapshots (snap_mgr fm) !! meta_key s = None -> without underscore (times 0) ->
  server_inv (sm_server fm).1 ->
  exists m1 n, createSnapshotAsync time s (SnapTask_of hash store) V2 (snap_mgr lm) = Ok (m1, n) /\
    let lm' := with_snap_mgr m1 lm in
    (forall id, 1 <= id <= n -> exists data, read_logical_snp_obj s id lm' = Ok (Some data, bool_decide (id = n))) /\
    forall order ids, order ≡ₚ seq 0 (Z.to_nat n) -> ids ≡ₚ seq 0 DATA_TREE_BUCKET_NUM ->
      exists fm', apply_snapshot hash now order ids s (send_objects s times lm' fm n) = Ok fm' /\
        restored store (sm_server fm').1 /\ last_committed_idx fm' = last_log_idx s.
Proof.
  intros Hlm Hwt Hcount Hc Hfm Hnew Ht Hi. destruct (created hash now _ _ _ _ Hlm Hwt Hcount Hc) as (fs & E & Hne & Hlen & Hr & Hf & Hn).
  set (st := new_store _ _ _ _) in *. set (m1 := (install_objects st (numbered_map fs) (snap_mgr lm)).1) in *.
  exists m1, (Z.of_nat (length fs)). split; [done|]. intros lm'.
  assert (holds (snap_mgr lm') s fs) as Hh.
  { exists (add_object_paths (numbered_map fs) st). split_and!.
    - cbn. by rewrite lookup_insert_eq.
    - intros id path Hp. eapply (mw_files m1); [apply install_wf; done || lia| |done].
      cbn. by rewrite lookup_insert_eq.
    - intros id. destruct (installed_files (snap_mgr lm) st fs Hf ltac:(lia)) as [Hin _].
      rewrite (installed_paths st fs) by done. case_decide as Hd.
      + destruct (proj2 (numbered_range fs id) Hd) as [c Hc']. rewrite Hc'. symmetry. by apply Hin.
      + destruct (numbered_map fs !! id) eqn:Eq; [|done]. destruct Hd. apply numbered_range. by eexists. }
  assert (object_fits (mkObject (times 0) (last_log_term s) (last_log_idx s) 0)) as Hfit.
  { destruct Hc as [_ _ ? ? _]. by split_and!; [|..|unfold in_u64]. }
  split.
  - intros id Hid. destruct (read_objects_sent s fs Hlen lm' Hh) as [_ Hs].
    destruct (Hs id Hid) as (data & _ & Er). by exists data.
  - intros order ids Hord Hids. rewrite Nat2Z.id in Hord.
    destruct (received_all s times fs Hlen lm' fm Hh Hfm Hfit Hnew) as [Hsv _].
    eapply applied_restored; [by rewrite Hsv|by apply received_holds|done|done|done].
Qed.
End theorem.

(** ** Examples *)

Definition demo_machine : StateMachine :=
  mkStateMachine (KeeperStore_init 500 "", []) None 0 (LastCommittedIndexManager_init []) (mkManager 3 1 ∅ ∅) false None.

Lemma demo_can_snapshot : can_snapshot (snap_mgr demo_machine) demo_time (mkMeta 2 10 0) demo_store.
Proof.
  split; [by apply demo_sizes_with|done|by unfold in_u64..|].
  intros key [? Hk]. cbn in Hk. by rewrite lookup_empty in Hk.
Qed.

Lemma snapshot_transfer_restores_witness :
  exists m1 n, createSnapshotAsync demo_time (mkMeta 2 10 0) (SnapTask_of (fun _ => 3) demo_store) V2 (snap_mgr demo_machine)
      = Ok (m1, n) /\
    exists fm', apply_snapshot (fun _ => 3) 0 (seq 0 (Z.to_nat n)) (seq 0 DATA_TREE_BUCKET_NUM) (mkMeta 2 10 0)
      (send_objects (mkMeta 2 10 0) (fun _ => demo_time) (with_snap_mgr m1 demo_machine) demo_machine n) = Ok fm' /\
      restored demo_store (sm_server fm').1 /\ last_committed_idx fm' = 10.
Proof.
  destruct (snapshot_transfer_restores (fun _ => 3) 0 demo_machine demo_machine demo_time (fun _ => demo_time)
    (mkMeta 2 10 0) demo_store (manager_wf_init 3 1) demo_wf_tree demo_counted demo_can_snapshot (manager_wf_init 3 1) eq_refl eq_refl
    (server_inv_init 500 "" ltac:(lia))) as (m1 & n & E & _ & Ha).
  exists m1, n. split; [exact E|]. exact (Ha _ _ (Permutation_refl _) (Permutation_refl _)).
Defined.

(** The follower stops after [k] objects, and a new process starts on its files. *)
Definition demo_partial (k : Z) : outcome (option SnapMeta * outcome KeeperStore) :=
  r ← createSnapshotAsync demo_time (mkMeta 2 10 0) (SnapTask_of (fun _ => 3) demo_store) V2 (snap_mgr demo_machine);
  let fm := send_objects (mkMeta 2 10 0) (fun _ => demo_time) (with_snap_mgr r.1 demo_machine) demo_machine k in
  m2 ← loadSnapshotMetas (mkManager 3 1 ∅ (snap_dir (snap_mgr fm)));
  Ok (lastSnapshot m2,
      match lastSnapshot m2 with
      | Some meta => parseSnapshot (fun _ => 3) 0 (seq 0 (Z.to_nat k)) (seq 0 DATA_TREE_BUCKET_NUM) meta m2 (KeeperStore_init 500 "")
      | None => Ok (KeeperStore_init 500 "")
      end).

(** A transfer that stopped after two of four objects leaves a snapshot that
    a new process takes for the latest and cannot load: it throws while the
    state machine is constructed. *)
Theorem partial_transfer_breaks_restart :
  demo_partial 2 = Ok (Some (mkMeta 2 10 0), Fault (Throw SNAPSHOT_OBJECT_INCOMPLETE)).
Proof. vm_compute. reflexivity. Qed.
