(* ===== verification/Converter.v ===== *)
(** * The converter from ZooKeeper

    [src/src/Service/ZooKeeperDataReader.cpp]: a store is filled from the newest
    snapshot of a ZooKeeper server, and then from the transactions of its logs that
    the snapshot does not have. A directory is the list of its files, in the order
    in which the iterator finds them. *)

From S2P Require Import Prelude Coordination Paths Text AclMap Sessions DataTree Store Wire.

(** ** File names *)

Definition dot : ascii := ".".

(** The characters of [isspace] in the C locale. *)
Definition is_space (c : ascii) : bool :=
  let n := N_of_ascii c in ((n =? 32) || ((9 <=? n) && (n <=? 13)))%N.

Definition hex_digit (c : ascii) : option Z :=
  let n := Z.of_N (N_of_ascii c) in
  if decide (48 <= n <= 57) then Some (n - 48)
  else if decide (65 <= n <= 70) then Some (n - 55)
  else if decide (97 <= n <= 102) then Some (n - 87)
  else None.

Fixpoint skip_space (s : string) : string :=
  match s with
  | String c s' => if is_space c then skip_space s' else s
  | EmptyString => s
  end.

Fixpoint hex_value (s : string) (value : Z) : Z :=
  match s with
  | String c s' => match hex_digit c with Some d => hex_value s' (16 * value + d) | None => value end
  | EmptyString => value
  end.

(** [0x] counts when a digit follows. *)
Definition skip_0x (s : string) : string :=
  match s with
  | String z (String x (String d _ as s')) =>
      if bool_decide (z = "0"%char) && bool_decide (x = "x"%char \/ x = "X"%char) && bool_decide (is_Some (hex_digit d)) then s' else s
  | _ => s
  end.

(** [std::strtoul(s, &end, 16)]: [ULONG_MAX] when the value does not fit. *)
Definition strtoul_16 (s : string) : Z :=
  let s1 := skip_space s in
  let '(negative, s2) :=
    match s1 with
    | String c s' =>
        if bool_decide (c = "-"%char) then (true, s') else if bool_decide (c = "+"%char) then (false, s') else (false, s1)
    | EmptyString => (false, s1)
    end in
  let v := hex_value (skip_0x s2) 0 in
  if v <? 2 ^ 64 then (if negative : bool then u64 (- v) else v) else 2 ^ 64 - 1.

(** [extension.data() + 1] of a file name; without an extension it points past the
    string. *)
Definition getZxidFromName (filename : string) : outcome Z :=
  match rfind dot filename with
  | None | Some O => Fault UndefinedBehaviour
  | Some n => if bool_decide (filename = "..") then Fault UndefinedBehaviour else Ok (i64 (strtoul_16 (str_drop (S n) filename)))
  end.

Fixpoint startsWith (s prefix : string) : bool :=
  match prefix, s with
  | EmptyString, _ => true
  | String p prefix', String c s' => bool_decide (p = c) && startsWith s' prefix'
  | String _ _, EmptyString => false
  end.

(** [std::map<int64_t, String>] of the files with a prefix. *)
Fixpoint existing_files (prefix : string) (dir : list (string * bytes)) (m : gmap Z bytes) : outcome (gmap Z bytes) :=
  match dir with
  | [] => Ok m
  | (name, content) :: dir' =>
      if startsWith name prefix then z ← getZxidFromName name; existing_files prefix dir' (<[z := content]> m)
      else existing_files prefix dir' m
  end.

(** ** Reading into a store *)

(** What is left of the file, and the store. *)
Abbreviation ConvM := (SM (bytes * KeeperStore)).

Definition from_file {A} (m : Reader A) : ConvM A := fun st => let '(r, rest) := m st.1 in (r, (rest, st.2)).
Definition to_store {A} (m : SM KeeperStore A) : ConvM A := fun st => let '(r, s') := m st.2 in (r, (st.1, s')).
Definition left : Reader Z := sm_get (fun s => Z.of_nat (length s)).

(** [in.ignore(n)] *)
Definition ignore (n : Z) : Reader unit := fun s =>
  if n <=? Z.of_nat (length s) then (Ok tt, drop (Z.to_nat n) s) else (Fault (Throw ATTEMPT_TO_READ_AFTER_EOF), []).

Definition SNP_HEADER : Z := 1514885966.
Definition LOG_HEADER : Z := 1514884167.

Definition deserializeSnapshotMagic : Reader unit :=
  (magic_header <- read_i32 ;; version' <- read_i32 ;;
   if negb (version' =? 2) then sm_fault (Throw NOT_IMPLEMENTED)
   else
     dbid <- read_i64 ;;
     if negb (magic_header =? SNP_HEADER) then sm_fault (Throw CORRUPTED_DATA) else sm_ret tt)%sm.

Definition deserializeLogMagic : Reader unit :=
  (magic_header <- read_i32 ;; version' <- read_i32 ;; dbid <- read_i64 ;;
   if negb (magic_header =? LOG_HEADER) then sm_fault (Throw CORRUPTED_DATA)
   else if negb (version' =? 2) then sm_fault (Throw NOT_IMPLEMENTED) else sm_ret tt)%sm.

Section converter.
Context `{IterOrder} (sha1_base64 : string -> string) (compat : bool) (now : Z).

(** [deserializeSessionAndTimeout]: the largest session id *)
Fixpoint sessions_loop (count : nat) (max_session_id : Z) : ConvM Z :=
  match count with
  | O => sm_ret max_session_id
  | S count' =>
      (session_id' <- from_file read_i64 ;; timeout <- from_file read_i32 ;;
       to_store (session_op (fun m => no_result (addSessionID now session_id' timeout m))) ;;;
       sessions_loop count' (Z.max session_id' max_session_id))%sm
  end.

Definition deserializeSessionAndTimeout : ConvM Z :=
  (count <- from_file read_i32 ;; sessions_loop (Z.to_nat count) 0)%sm.

Definition read_acl_entry : Reader (Z * list ACL) :=
  (map_index <- read_i64 ;; acls_len <- read_i32 ;; acls <- read_elems read_ACL (Z.to_nat acls_len) ;;
   sm_ret (map_index, acls))%sm.

Fixpoint acls_loop (count : nat) : ConvM unit :=
  match count with
  | O => sm_ret tt
  | S count' =>
      (e <- from_file read_acl_entry ;; to_store (sm_modify (with_acl (addMapping (u64 e.1) e.2))) ;;; acls_loop count')%sm
  end.

Definition deserializeACLMap : ConvM unit := (count <- from_file read_i32 ;; acls_loop (Z.to_nat count))%sm.

(** A node without its path. The number of its permissions is read and not kept;
    [dataLength] and [is_ephemeral] are set when it has a path. *)
Definition read_zk_node : Reader KeeperNode :=
  (data' <- read_string ;; acl_id' <- read_u64 ;;
   czxid' <- read_i64 ;; mzxid' <- read_i64 ;; ctime' <- read_i64 ;; mtime' <- read_i64 ;;
   version' <- read_i32 ;; cversion' <- read_i32 ;; aversion' <- read_i32 ;; ephemeralOwner' <- read_i64 ;; pzxid' <- read_i64 ;;
   sm_ret (mkKeeperNode data' 0 (bool_decide (ephemeralOwner' <> 0)) false
     (mkStat czxid' mzxid' ctime' mtime' version' cversion' aversion' ephemeralOwner'
        (i32 (Z.of_nat (String.length data'))) 0 pzxid') ∅))%sm.

(** [addNode] stores a pointer, through which [is_ephemeral] is set after it. *)
Definition add_zk_node (path : string) (n : KeeperNode) : SM KeeperStore unit :=
  let owner := ephemeralOwner (stat n) in
  if bool_decide (path = "") then sm_ret tt
  else (addNode path n ;;; if bool_decide (owner <> 0) then addEphemeralNode owner path else sm_ret tt)%sm.

(** [while (path != "/")]; every turn reads something. *)
Fixpoint nodes_loop (fuel : nat) (path : string) (max_zxid : Z) : ConvM Z :=
  if bool_decide (path = "/") then sm_ret max_zxid
  else
    match fuel with
    | O => sm_fault UndefinedBehaviour
    | S fuel' =>
        (n <- from_file read_zk_node ;;
         to_store (add_zk_node path n) ;;;
         path' <- from_file read_string ;;
         nodes_loop fuel' path' (Z.max max_zxid (mzxid (stat n))))%sm
    end.

(** [buildChildrenSet(true)], on the tree the buckets stand for. *)
Fixpoint tree_children_loop (from_zk_snapshot : bool) (paths : list string) (t : Tree) : outcome Tree :=
  match paths with
  | [] => Ok t
  | path :: paths' =>
      if decide (path = "/") then tree_children_loop from_zk_snapshot paths' t
      else
        match t !! getParentPath path with
        | None => Fault (Throw LOGICAL_ERROR)
        | Some n =>
            let n' := with_stat (stat_numChildren (fun z => if from_zk_snapshot then i32 (z + 1) else z))
                        (with_children (fun X => {[getBaseName path]} ∪ X) n) in
            tree_children_loop from_zk_snapshot paths' (<[getParentPath path := n']> t)
        end
  end.

Definition build_children : SM KeeperStore unit := fun s =>
  match tree_children_loop true (iter_str (dom (data_tree s))) (data_tree s) with
  | Ok t => (Ok tt, with_tree (fun _ => t) s)
  | Fault f => (Fault f, s)
  end.

Definition deserializeStorageData : ConvM Z :=
  (path <- from_file read_string ;; fuel <- sm_get (fun st => length st.1) ;;
   max_zxid <- nodes_loop (S fuel) path 0 ;; to_store build_children ;;; sm_ret max_zxid)%sm.

(** Runs a reader of a file on the store. *)
Definition with_file {A} (content : bytes) (m : ConvM A) : SM KeeperStore A := fun s =>
  let '(r, (_, s')) := m (content, s) in (r, s').

Definition set_counter (counter : Z) (s : KeeperStore) : KeeperStore :=
  with_sessions (setSessionIDCounter counter (session_manager s)) s.

Definition deserializeKeeperStoreFromSnapshot (zxid' : Z) (content : bytes) : SM KeeperStore unit :=
  with_file content
    (from_file deserializeSnapshotMagic ;;;
     max_session_id <- deserializeSessionAndTimeout ;;
     to_store (sm_modify (set_counter (i64 (max_session_id + 1)))) ;;;
     deserializeACLMap ;;;
     zxid_from_nodes <- deserializeStorageData ;;
     to_store (sm_modify (with_zxid zxid')))%sm.

Definition deserializeKeeperStoreFromSnapshotsDir (dir : list (string * bytes)) : SM KeeperStore unit :=
  (existing_snapshots <- sm_lift (existing_files "snapshot." dir ∅) ;;
   match last (sorted_keys existing_snapshots) ≫= (fun z => pair z <$> existing_snapshots !! z) with
   | Some (z, content) => deserializeKeeperStoreFromSnapshot z content
   | None => sm_fault (Throw CORRUPTED_DATA)
   end)%sm.

(** ** Transactions *)

(** A [ZooKeeperRequestPtr]; the null pointer is [None], also among the parts of a
    transaction. *)
Inductive Txn :=
| TxnRequest (b : RequestBody)
| TxnMulti (requests : list (option Txn)).

Definition deserializeCreateTxn : Reader Txn :=
  (path <- read_string ;; data' <- read_string ;; acls <- read_vector read_ACL ;; is_ephemeral' <- read_bool ;;
   parent_cversion <- read_i32 ;; sm_ret (TxnRequest (CreateRequest path data' is_ephemeral' false acls false)))%sm.

Definition deserializeDeleteTxn : Reader Txn :=
  (path <- read_string ;; sm_ret (TxnRequest (RemoveRequest path (-1))))%sm.

Definition deserializeSetTxn : Reader Txn :=
  (path <- read_string ;; data' <- read_string ;; version' <- read_i32 ;;
   sm_ret (TxnRequest (SetRequest path data' (i32 (version' - 1)))))%sm.

Definition deserializeCheckVersionTxn : Reader Txn :=
  (path <- read_string ;; version' <- read_i32 ;; sm_ret (TxnRequest (CheckRequest path (i32 (version' - 1)) false)))%sm.

Definition deserializeCreateSession : Reader Txn :=
  (timeout <- read_i32 ;; sm_ret (TxnRequest (NewSessionRequest 1 timeout 1)))%sm.

Definition deserializeCloseSession (empty : bool) : Reader Txn :=
  ((if empty then sm_ret tt else (_data <- read_vector read_string ;; sm_ret tt)) ;;; sm_ret (TxnRequest CloseRequest))%sm.

Definition deserializeSetACLTxn : Reader Txn :=
  (path <- read_string ;; acls <- read_vector read_ACL ;; version' <- read_i32 ;;
   sm_ret (TxnRequest (SetACLRequest path acls (i32 (version' - 1)))))%sm.

Definition some_txn (m : Reader Txn) : Reader (option Txn) := (t <- m ;; sm_ret (Some t))%sm.

(** The rest of a part, of which [sub_txn_length] bytes are there. *)
Definition skip_rest (len before : Z) : Reader unit :=
  (after <- left ;; let bytes_read := before - after in
   if bytes_read <? len then ignore (len - bytes_read) else sm_ret tt)%sm.

(** The [switch] on the type; [multi] is [deserializeMultiTxn]. [log]: whether there
    is one; without one an unknown type is an exception. *)
Definition read_txn_body (log : bool) (multi : Reader (option Txn)) (type : Z) (empty_txn : bool) : Reader (option Txn) :=
  (if type =? 1 then some_txn deserializeCreateTxn
   else if type =? 2 then some_txn deserializeDeleteTxn
   else if type =? 5 then some_txn deserializeSetTxn
   else if type =? 7 then some_txn deserializeSetACLTxn
   else if type =? 13 then some_txn deserializeCheckVersionTxn
   else if type =? 14 then multi
   else if type =? -10 then some_txn deserializeCreateSession
   else if type =? -11 then some_txn (deserializeCloseSession empty_txn)
   else if type =? -1 then (_error <- read_i32 ;; sm_ret None)
   else if log then sm_ret None else sm_fault (Throw NOT_IMPLEMENTED))%sm.

Definition deserializeMultiTxn (part : Reader (option Txn)) : Reader (option Txn) :=
  (length' <- read_i32 ;; subs <- read_elems part (Z.to_nat length') ;; sm_ret (Some (TxnMulti subs)))%sm.

Fixpoint deserializeTxnImpl (log : bool) (fuel : nat) (subtxn : bool) (txn_length : Z) : Reader (option Txn) :=
  match fuel with
  | O => sm_fault UndefinedBehaviour
  | S fuel' =>
      (type <- read_i32 ;;
       sub_txn_length <- (if subtxn then read_i32 else sm_ret 0) ;;
       let empty_txn := negb subtxn && (txn_length =? 32) in
       if empty_txn && negb (type =? -11) then sm_fault (Throw NOT_IMPLEMENTED)
       else
         before <- left ;;
         result <- read_txn_body log (deserializeMultiTxn (deserializeTxnImpl log fuel' true 0)) type empty_txn ;;
         (if subtxn then skip_rest sub_txn_length before else sm_ret tt) ;;;
         sm_ret result)%sm
  end.

Definition hasErrorsInMultiRequest (requests : list (option Txn)) : bool := existsb (fun r => bool_decide (r = None)) requests.

(** The request of the store. The store refuses a transaction in a transaction
    before it looks at its parts, null pointers included. *)
Definition txn_body (t : Txn) : RequestBody :=
  let part o := match o with
                | Some (TxnRequest b) => Some (mkRequestHeader 0 false, b)
                | Some (TxnMulti _) => Some (mkRequestHeader 0 false, MultiRequest OperationType_Unspecified [])
                | None => None
                end in
  match t with
  | TxnRequest b => b
  | TxnMulti rs => MultiRequest OperationType_Unspecified (omap part rs)
  end.

(** [{request, session_id, time}]: the time becomes [create_time]. *)
Definition txn_for_session (session_id' xid' time : Z) (t : Txn) : RequestForSession :=
  mkRequestForSession session_id' (mkRequestHeader xid' false, txn_body t) time 0 (-1) (-1).

Definition process_txn (session_id' xid' zxid' time : Z) (t : Txn) : SM KeeperStore unit := fun s =>
  let '(r, (s', _)) := processRequest sha1_base64 compat now (txn_for_session session_id' xid' time t) (Some zxid') false true (s, []) in (r, s').

(** What becomes of a transaction that was read. *)
Definition apply_txn (session_id' xid' zxid' time : Z) (request : option Txn) : SM KeeperStore unit := fun s =>
  match request with
  | None => (Ok tt, s)
  | Some t =>
      if zxid s <? zxid' then
        match t with
        | TxnRequest (NewSessionRequest _ timeout _) =>
            session_op (fun m => '(_, m') ← getSessionID now timeout m; Ok (tt, m')) s
        | TxnMulti rs => if hasErrorsInMultiRequest rs then (Ok tt, s) else process_txn session_id' xid' zxid' time t s
        | _ => process_txn session_id' xid' zxid' time t s
        end
      else (Ok tt, s)
  end.

Definition read_txn (log : bool) : Reader (Z * Z * Z * Z * option Txn) :=
  (txn_len <- read_i32 ;; before <- left ;;
   session_id' <- read_i64 ;; xid' <- read_i32 ;; zxid' <- read_i64 ;; time <- read_i64 ;;
   fuel <- sm_get length ;;
   request <- deserializeTxnImpl log (S fuel) false txn_len ;;
   skip_rest txn_len before ;;;
   sm_ret (session_id', xid', zxid', time, request))%sm.

(** Zeros fill a log up to its end. *)
Definition deserializeTxn (log : bool) : ConvM bool :=
  (checksum <- from_file read_i64 ;;
   if checksum =? 0 then sm_ret false
   else
     r <- from_file (read_txn log) ;;
     let '(session_id', xid', zxid', time, request) := r in
     to_store (apply_txn session_id' xid' zxid' time request) ;;;
     sm_ret true)%sm.

Definition read_i8 : Reader Z := (bs <- readStrict 1 ;; sm_ret (wrap_s 8 (le_value bs)))%sm.

Fixpoint log_loop (log : bool) (fuel : nat) : ConvM unit :=
  match fuel with
  | O => sm_fault UndefinedBehaviour
  | S fuel' =>
      (at_end <- from_file eof ;;
       if at_end : bool then sm_ret tt
       else
         more <- deserializeTxn log ;;
         if more : bool then
           forty_two <- from_file read_i8 ;;
           if negb (forty_two =? 0x42) then sm_fault (Throw NOT_IMPLEMENTED) else log_loop log fuel'
         else sm_ret tt)%sm
  end.

Definition deserializeLogAndApplyToStore (log : bool) (content : bytes) : SM KeeperStore unit :=
  with_file content
    (from_file deserializeLogMagic ;;; fuel <- sm_get (fun st => length st.1) ;; log_loop log (S fuel))%sm.

(** The logs from the newest on, down to the first that starts below [z]. *)
Fixpoint take_logs (z : Z) (newest_first : list Z) : list Z :=
  match newest_first with
  | [] => []
  | n :: rest => if z <=? n then n :: take_logs z rest else [n]
  end.

Fixpoint apply_logs (log : bool) (logs : list bytes) : SM KeeperStore unit :=
  match logs with
  | [] => sm_ret tt
  | content :: logs' => (deserializeLogAndApplyToStore log content ;;; apply_logs log logs')%sm
  end.

Definition deserializeLogsAndApplyToStore (log : bool) (dir : list (string * bytes)) : SM KeeperStore unit :=
  (existing_logs <- sm_lift (existing_files "log." dir ∅) ;;
   z <- sm_get zxid ;;
   apply_logs log (omap (fun n => existing_logs !! n) (rev (take_logs z (rev (sorted_keys existing_logs))))))%sm.

(** [main] of the converter, up to the snapshot it writes of the store. *)
Definition convert (snapshots_dir logs_dir : list (string * bytes)) : SM KeeperStore unit :=
  (deserializeKeeperStoreFromSnapshotsDir snapshots_dir ;;; deserializeLogsAndApplyToStore true logs_dir)%sm.
End converter.
