(* ===== verification/ConverterTheorems.v ===== *)
(** * What the converter makes of ZooKeeper's files

    A snapshot of a ZooKeeper server, in the layout its [Snapshot] comments of the
    source describe, becomes a store whose invariant holds; a log is applied
    transaction by transaction, from the first one the snapshot does not have. *)

From S2P Require Import Prelude Coordination Paths Text AclMap Sessions Watches DataTree Store StoreTree StoreRequest.
From S2P Require Import Wire WireRequests Converter.

(** ** The nodes of a snapshot *)

Record ZkNode := mkZkNode {
  zk_path : string;
  zk_acl : Z;
  zk_data : string;
  zk_stat : Stat
}.

Definition zk_owner (x : ZkNode) : Z := ephemeralOwner (zk_stat x).

Definition write_zk_body (x : ZkNode) : bytes :=
  let s := zk_stat x in
  write_string (zk_data x) ++ write_u64 (zk_acl x) ++
  write_i64 (czxid s) ++ write_i64 (mzxid s) ++ write_i64 (ctime s) ++ write_i64 (mtime s) ++
  write_i32 (version s) ++ write_i32 (cversion s) ++ write_i32 (aversion s) ++ write_i64 (ephemeralOwner s) ++ write_i64 (pzxid s).

Definition write_zk (x : ZkNode) : bytes := write_string (zk_path x) ++ write_zk_body x.

Definition zk_fits (x : ZkNode) : Prop :=
  string_fits (zk_path x) /\ string_fits (zk_data x) /\ in_u64 (zk_acl x) /\ Stat_fits (zk_stat x).

(** The node the store gets, before it knows its children. *)
Definition zk_node (x : ZkNode) : KeeperNode :=
  let s := zk_stat x in
  mkKeeperNode (zk_data x) 0 (bool_decide (zk_owner x <> 0)) false
    (mkStat (czxid s) (mzxid s) (ctime s) (mtime s) (version s) (cversion s) (aversion s) (ephemeralOwner s)
       (i32 (Z.of_nat (String.length (zk_data x)))) 0 (pzxid s)) ∅.

Lemma read_zk_written x rest : zk_fits x -> read_zk_node (write_zk_body x ++ rest) = (Ok (zk_node x), rest).
Proof.
  intros (Hp & Hd & Ha & []). unfold read_zk_node, write_zk_body.
  rewrite <- !app_assoc. by wire.
Qed.

Definition zk_add (s : KeeperStore) (x : ZkNode) : KeeperStore :=
  if bool_decide (zk_path x = "") then s
  else
    let s1 := with_tree (<[zk_path x := zk_node x]>) s in
    if bool_decide (zk_owner x <> 0) then with_ephemerals (mset_add (zk_owner x) (zk_path x)) s1 else s1.

Lemma add_zk_node_add x s : add_zk_node (zk_path x) (zk_node x) s = (Ok tt, zk_add s x).
Proof. unfold add_zk_node, zk_add, zk_owner. case_bool_decide; [done|]. cbn. by case_bool_decide. Qed.

Lemma nodes_loop_written xs : forall fuel mz s rest,
  Forall (fun x => zk_fits x /\ zk_path x <> "/") xs -> (length xs <= fuel)%nat ->
  (path <- from_file read_string ;; nodes_loop fuel path mz)%sm ((xs ≫= write_zk) ++ write_string "/" ++ rest, s) =
    (Ok (fold_left (fun z x => Z.max z (mzxid (zk_stat x))) xs mz), (rest, fold_left zk_add xs s)).
Proof.
  induction xs as [|x xs IH]; intros fuel mz s rest Hall Hf.
  - cbn [mbind list_bind app sm_bind fold_left]. unfold from_file. cbn [fst snd].
    rewrite read_write by (unfold string_fits, MAX_STRING_OR_ARRAY_SIZE; simpl; lia). by destruct fuel.
  - apply Forall_cons in Hall as [[Hx Hne] Hall]. cbn [mbind list_bind]. unfold write_zk at 1. rewrite <- !app_assoc.
    cbn [sm_bind]. unfold from_file at 1. cbn [fst snd]. rewrite read_write by apply Hx.
    destruct fuel as [|fuel]; [cbn in Hf; lia|]. cbn [nodes_loop]. rewrite bool_decide_false by done. cbn [sm_bind].
    unfold from_file at 1. cbn [fst snd]. rewrite read_zk_written by done. unfold to_store at 1. cbn [fst snd].
    rewrite add_zk_node_add.
    exact (IH fuel (Z.max mz (mzxid (zk_stat x))) (zk_add s x) rest Hall ltac:(cbn in Hf; lia)).
Qed.

(** *** The tree before its children are known *)

Definition placed (xs : list ZkNode) : list ZkNode := filter (fun x => zk_path x <> "") xs.

Record added (xs : list ZkNode) (s s' : KeeperStore) : Prop := {
  ad_new : forall x, x ∈ placed xs -> data_tree s' !! zk_path x = Some (zk_node x);
  ad_old : forall p, p ∉ zk_path <$> placed xs -> data_tree s' !! p = data_tree s !! p;
  ad_eph : forall o p, p ∈ mset_get o (ephemerals s') <->
             p ∈ mset_get o (ephemerals s) \/ exists x, x ∈ placed xs /\ zk_path x = p /\ zk_owner x = o /\ o <> 0;
  ad_sessions : session_manager s' = session_manager s;
  ad_watches : watch_manager s' = watch_manager s;
  ad_acl : acl_map s' = acl_map s
}.

Lemma placed_new x xs : zk_path x <> "" -> placed (x :: xs) = x :: placed xs.
Proof. intros Hx. unfold placed. by rewrite filter_cons_True. Qed.
Lemma placed_root x xs : zk_path x = "" -> placed (x :: xs) = placed xs.
Proof. intros Hx. unfold placed. by rewrite filter_cons_False by tauto. Qed.
Arguments placed : simpl never.

Lemma zk_add_placed x s : zk_path x <> "" -> added [x] s (zk_add s x).
Proof.
  intros Hp. unfold zk_add. rewrite bool_decide_false by done.
  case_bool_decide as Ho; split; rewrite ?placed_new by done; cbn; try done; change (placed []) with (@nil ZkNode).
  - intros y ->%list_elem_of_singleton. by rewrite lookup_insert_eq.
  - intros p Hn. rewrite lookup_insert_ne; [done|]. set_solver.
  - intros o p. rewrite mset_get_add. setoid_rewrite list_elem_of_singleton. case_decide as Eo; [|naive_solver].
    subst o. rewrite elem_of_union, elem_of_singleton. naive_solver.
  - intros y ->%list_elem_of_singleton. by rewrite lookup_insert_eq.
  - intros p Hn. rewrite lookup_insert_ne; [done|]. set_solver.
  - intros o p. setoid_rewrite list_elem_of_singleton. naive_solver.
Qed.

Lemma zk_add_all xs : forall s, NoDup (zk_path <$> placed xs) -> added xs s (fold_left zk_add xs s).
Proof.
  induction xs as [|x xs IH]; intros s Hnd; cbn [fold_left].
  { split; change (placed []) with (@nil ZkNode); cbn; try done; set_solver. }
  destruct (decide (zk_path x = "")) as [Hx|Hx].
  - rewrite placed_root in Hnd by done. replace (zk_add s x) with s; [|unfold zk_add; by rewrite bool_decide_true].
    destruct (IH s Hnd). split; by rewrite ?placed_root.
  - rewrite placed_new in Hnd by done. cbn in Hnd. apply NoDup_cons in Hnd as [Hn Hnd].
    destruct (zk_add_placed x s Hx) as [B1 B2 B3 B4 B5 B6]. rewrite placed_new in B1, B2, B3 by done.
    change (placed []) with (@nil ZkNode) in *. destruct (IH (zk_add s x) Hnd) as [A1 A2 A3 A4 A5 A6].
    split; rewrite ?placed_new by done; [| | |congruence..].
    + intros y [->|Hy]%elem_of_cons; [|by apply A1]. rewrite A2 by done. apply B1. set_solver.
    + intros p Hp. rewrite A2, B2; set_solver.
    + intros o p. rewrite A3, B3. set_solver.
Qed.

(** *** The children *)

Lemma i32_add x y : i32 (i32 x + y) = i32 (x + y).
Proof.
  unfold i32, wrap_s. f_equal. replace (_ - _ + y + _) with ((x + 2 ^ (32 - 1)) mod 2 ^ 32 + y) by lia.
  rewrite Z.add_mod_idemp_l by done. f_equal. lia.
Qed.

Definition under (paths : list string) (p : string) : list string :=
  filter (fun q => q <> "/" /\ getParentPath q = p) paths.

Lemma under_cons q paths p :
  under (q :: paths) p = if decide (q <> "/" /\ getParentPath q = p) then q :: under paths p else under paths p.
Proof. unfold under. rewrite filter_cons. by case_decide. Qed.
Arguments under : simpl never.

(** The names under a path, and how many they are, join its node. *)
Definition with_names (paths : list string) (p : string) (n : KeeperNode) : KeeperNode :=
  with_stat (stat_numChildren (fun z => i32 (z + Z.of_nat (length (under paths p)))))
    (with_children (fun X => names_under paths p ∪ X) n).

Lemma with_names_none paths p n : node_typed n -> under paths p = [] -> names_under paths p = ∅ -> with_names paths p n = n.
Proof.
  intros [_ Hn] Hu Hx. unfold with_names. rewrite Hu, Hx. destruct n as [d a e q st X]. unfold with_stat, with_children, stat_numChildren.
  cbn in *. rewrite Z.add_0_r, i32_id by done. rewrite (left_id_L ∅ (∪)). by destruct st.
Qed.

Lemma with_names_cons q paths p n :
  with_names (q :: paths) p n =
  with_names paths p (if decide (q <> "/" /\ getParentPath q = p) then
    with_stat (stat_numChildren (fun z => i32 (z + 1))) (with_children (fun X => {[getBaseName q]} ∪ X) n) else n).
Proof.
  unfold with_names. rewrite under_cons, names_under_cons. case_decide as Hq.
  - destruct n as [d a e s st X]. unfold with_stat, with_children, stat_numChildren. cbn [stat children data acl_id is_ephemeral is_sequential].
    f_equal; [|set_solver]. destruct st. cbn. f_equal. rewrite i32_add. f_equal. lia.
  - by rewrite (left_id_L ∅ (∪)).
Qed.

Lemma node_typed_names paths p n : in_i32 (cversion (stat n)) -> node_typed (with_names paths p n).
Proof. intros Hc. split; [done|]. apply i32_range. Qed.

Lemma tree_children_loop_spec paths : forall t,
  (forall q, q ∈ paths -> q <> "/" -> is_Some (t !! getParentPath q)) -> map_Forall (fun _ n => node_typed n) t ->
  exists t', tree_children_loop true paths t = Ok t' /\ forall p, t' !! p = with_names paths p <$> t !! p.
Proof.
  induction paths as [|q paths IH]; intros t Hpar Hty.
  { exists t. split; [done|]. intros p. destruct (t !! p) as [n|] eqn:E; [|done]. cbn. f_equal. symmetry. apply with_names_none; [by eapply Hty|done|done]. }
  cbn [tree_children_loop]. case_decide as Hq.
  - destruct (IH t) as (t' & E & Ht'); [set_solver|done|]. exists t'. split; [done|]. intros p. rewrite Ht'.
    destruct (t !! p) as [n|]; [|done]. cbn. rewrite with_names_cons, decide_False by naive_solver. done.
  - destruct (Hpar q ltac:(set_solver) Hq) as [n Hn]. rewrite Hn.
    destruct (IH (<[getParentPath q := with_stat (stat_numChildren (fun z => i32 (z + 1))) (with_children (fun X => {[getBaseName q]} ∪ X) n)]> t))
      as (t' & E & Ht').
    + intros q' Hq' Hne. apply lookup_insert_is_Some'. right. apply Hpar; set_solver.
    + apply map_Forall_insert_2; [|done]. split; [by apply (Hty _ _ Hn)|apply i32_range].
    + exists t'. split; [exact E|]. intros p. rewrite Ht', lookup_insert. case_decide as Hp; cbn.
      * subst p. rewrite Hn. cbn. by rewrite with_names_cons, decide_True.
      * destruct (t !! p) as [n'|]; [|done]. cbn. by rewrite with_names_cons, decide_False by naive_solver.
Qed.

(** The nodes of a consistent ZooKeeper server; the root has the empty path. *)
Record zk_tree (xs : list ZkNode) : Prop := {
  zt_fits : Forall zk_fits xs;
  zt_nodup : NoDup (zk_path <$> placed xs);
  zt_valid : forall x, x ∈ placed xs -> valid_path (zk_path x) /\ zk_path x <> "/";
  zt_parent : forall x, x ∈ placed xs -> getParentPath (zk_path x) = "/" \/
                exists y, y ∈ placed xs /\ zk_path y = getParentPath (zk_path x);
  zt_leaf : forall x y, x ∈ placed xs -> y ∈ placed xs -> zk_owner x <> 0 -> getParentPath (zk_path y) <> zk_path x
}.

Section tree.
Context `{IterOrder} (xs : list ZkNode) (Hxs : zk_tree xs) (s s1 : KeeperStore) (Hadd : added xs s s1).
Context (Hroot : data_tree s = root_tree) (Heph : ephemerals s = ∅).

Abbreviation t1 := (data_tree s1).
Abbreviation paths := (iter_str (dom t1)).

Lemma t1_lookup p n : t1 !! p = Some n <-> (p = "/" /\ n = KeeperNode0) \/ exists x, x ∈ placed xs /\ p = zk_path x /\ n = zk_node x.
Proof.
  destruct (decide (p ∈ zk_path <$> placed xs)) as [(x & -> & Hx)%list_elem_of_fmap|Hp].
  - rewrite (ad_new _ _ _ Hadd x Hx). split; [intros [= <-]; eauto|]. intros [[E _]|(y & Hy & E & ->)].
    + by destruct (proj2 (zt_valid xs Hxs x Hx)).
    + rewrite <- (ad_new _ _ _ Hadd y Hy), <- E. symmetry. by apply (ad_new _ _ _ Hadd x).
  - rewrite (ad_old _ _ _ Hadd p Hp), Hroot. unfold root_tree. rewrite lookup_singleton_Some. split.
    + intros [<- <-]. by left.
    + intros [[-> ->]|(x & Hx & -> & _)]; [done|]. destruct Hp. by apply list_elem_of_fmap_2.
Qed.

Lemma t1_is_some p : is_Some (t1 !! p) <-> p = "/" \/ exists x, x ∈ placed xs /\ p = zk_path x.
Proof.
  split.
  - intros [n Hn%t1_lookup]. naive_solver.
  - intros [->|(x & Hx & ->)]; [exists KeeperNode0|exists (zk_node x)]; apply t1_lookup; [by left|right; eauto].
Qed.

Lemma t1_valid p : is_Some (t1 !! p) -> valid_path p.
Proof. intros [->|(x & Hx & ->)]%t1_is_some; [apply valid_path_root|by apply (zt_valid xs Hxs)]. Qed.

Lemma t1_parent p : is_Some (t1 !! p) -> p <> "/" -> is_Some (t1 !! getParentPath p).
Proof.
  intros [->|(x & Hx & ->)]%t1_is_some Hp; [done|]. apply t1_is_some.
  destruct (zt_parent xs Hxs x Hx) as [->|(y & Hy & <-)]; eauto.
Qed.

Lemma t1_typed : map_Forall (fun _ n => node_typed n) t1.
Proof.
  intros p n [[-> ->]|(x & Hx & -> & ->)]%t1_lookup; (split; [|by vm_compute]); [by vm_compute|].
  change (in_i32 (cversion (zk_stat x))). apply sf_cversion. assert (zk_fits x) as (_ & _ & _ & ?); [|done].
  apply (proj1 (Forall_forall _ _) (zt_fits xs Hxs)). by apply list_elem_of_filter in Hx as [_ ?].
Qed.

Lemma elem_of_paths p : p ∈ paths <-> is_Some (t1 !! p).
Proof. rewrite elem_of_iter_str. apply elem_of_dom. Qed.

Lemma elem_of_names c p : c ∈ names_under paths p <-> exists q, is_Some (t1 !! q) /\ q <> "/" /\ getParentPath q = p /\ getBaseName q = c.
Proof.
  unfold names_under. rewrite elem_of_list_to_set, list_elem_of_fmap. setoid_rewrite list_elem_of_filter. setoid_rewrite elem_of_paths. naive_solver.
Qed.

Lemma under_size p : length (under paths p) = size (names_under paths p).
Proof.
  unfold names_under. change (filter _ paths) with (under paths p). rewrite size_list_to_set; [by rewrite length_fmap|].
  apply NoDup_fmap_2_strong; [|apply NoDup_filter, NoDup_iter_str].
  assert (forall q, q ∈ under paths p -> join_path p (getBaseName q) = q) as Hj; [|intros q q' Hq Hq' E; by rewrite <- (Hj q), <- (Hj q'), E].
  intros q [[Hr <-] Hq%elem_of_paths]%list_elem_of_filter. by destruct (valid_path_inv q) as (_ & _ & ?); [apply t1_valid|..].
Qed.

Lemma built_wf t' : (forall p, t' !! p = with_names paths p <$> t1 !! p) -> tree_wf t'.
Proof.
  intros Ht'. assert (forall p, is_Some (t' !! p) <-> is_Some (t1 !! p)) as Hdom by (intros p; by rewrite Ht', fmap_is_Some).
  split.
  - apply Hdom, t1_is_some. by left.
  - intros p Hp%Hdom. by apply t1_valid.
  - intros p Hp%Hdom Hr. destruct (t1_parent p Hp Hr) as [n Hn]. exists (with_names paths (getParentPath p) n). rewrite Ht', Hn.
    split; [done|]. cbn. apply elem_of_union_l, elem_of_names. eauto.
  - intros p n c Hp Hc. rewrite Ht' in Hp. apply fmap_Some in Hp as (n0 & Hn0 & ->). cbn in Hc. apply elem_of_union in Hc as [Hc|Hc].
    + apply elem_of_names in Hc as (q & Hq & Hr & <- & <-). rewrite Hdom. by destruct (valid_path_inv q) as (_ & ? & ->); [apply t1_valid|..].
    + by apply t1_lookup in Hn0 as [[_ ->]|(x & _ & _ & ->)]; apply not_elem_of_empty in Hc.
  - intros p n Hp He. rewrite Ht' in Hp. apply fmap_Some in Hp as (n0 & Hn0 & ->).
    apply t1_lookup in Hn0 as [[_ ->]|(x & Hx & -> & ->)]; [done|]. cbn in *. apply bool_decide_eq_true in He.
    apply elem_of_equiv_empty_L. intros c [Hc|Hc]%elem_of_union; [|by apply not_elem_of_empty in Hc].
    apply elem_of_names in Hc as (q & [->|(y & Hy & ->)]%t1_is_some & Hr & Hq & _); [done|]. by destruct (zt_leaf xs Hxs x y).
Qed.

Lemma built_eph t' : (forall p, t' !! p = with_names paths p <$> t1 !! p) -> eph_ok t' (ephemerals s1).
Proof.
  intros Ht' o p. rewrite (ad_eph _ _ _ Hadd), Heph. unfold mset_get. rewrite lookup_empty. cbn. setoid_rewrite Ht'. split.
  - intros [?%not_elem_of_empty|(x & Hx & <- & Ho & Hne)]; [done|]. rewrite (ad_new _ _ _ Hadd x Hx). eexists. split; [done|]. cbn.
    by rewrite bool_decide_true by congruence.
  - intros (n & Hn & He & Ho). apply fmap_Some in Hn as (n0 & Hn0 & ->). right.
    apply t1_lookup in Hn0 as [[-> ->]|(x & Hx & -> & ->)]; [done|]. cbn in *. apply bool_decide_eq_true in He.
    exists x. split_and!; try done. by rewrite <- Ho.
Qed.

Lemma built_tree :
  exists t', tree_children_loop true paths t1 = Ok t' /\ tree_inv t' (ephemerals s1) /\
    forall p, t' !! p = with_names paths p <$> t1 !! p.
Proof.
  destruct (tree_children_loop_spec paths t1) as (t' & E & Ht'); [|exact t1_typed|].
  { intros q Hq%elem_of_paths. by apply t1_parent. }
  exists t'. split; [done|]. split; [|done]. split; [by apply built_wf| |by apply built_eph|].
  - intros p n Hp. rewrite Ht' in Hp. apply fmap_Some in Hp as (n0 & Hn0 & ->). apply node_typed_names. by apply (t1_typed _ _ Hn0).
  - intros n Hn. rewrite Ht' in Hn. apply fmap_Some in Hn as (n0 & Hn0 & ->). cbn.
    apply t1_lookup in Hn0 as [[_ ->]|(x & Hx & Er & _)]; [done|by destruct (proj2 (zt_valid xs Hxs x Hx))].
Qed.
End tree.

(** *** The file *)

Definition write_zk_session (p : Z * Z) : bytes := write_i64 p.1 ++ write_i32 p.2.
Definition write_zk_acl (e : Z * list ACL) : bytes := write_i64 e.1 ++ write_i32 (Z.of_nat (length e.2)) ++ (e.2 ≫= write_ACL).

(** After the tree ZooKeeper may write a digest and a checksum, [rest]. *)
Definition zk_snapshot (dbid : Z) (sessions : list (Z * Z)) (acls : list (Z * list ACL)) (xs : list ZkNode) (rest : bytes) : bytes :=
  write_i32 SNP_HEADER ++ write_i32 2 ++ write_i64 dbid ++
  write_i32 (Z.of_nat (length sessions)) ++ (sessions ≫= write_zk_session) ++
  write_i32 (Z.of_nat (length acls)) ++ (acls ≫= write_zk_acl) ++
  (xs ≫= write_zk) ++ write_string "/" ++ rest.

Section snapshot.
Context `{IterOrder} (now : Z).

Lemma from_file_written {A} {write : A -> bytes} {read fits} `{!WireFormat write read fits} {B} (k : A -> ConvM B) a rest s :
  fits a -> sm_bind (from_file read) k (write a ++ rest, s) = k a (rest, s).
Proof. intros Ha. cbn [sm_bind]. unfold from_file. cbn [fst snd]. by rewrite read_write. Qed.

Lemma sessions_loop_written l : forall mx s rest,
  sessions_wf (session_manager s) -> Forall (fun p => in_i64 p.1 /\ in_i32 p.2) l ->
  exists m, sessions_loop now (length l) mx ((l ≫= write_zk_session) ++ rest, s) =
      (Ok (fold_left (fun z p => Z.max p.1 z) l mx), (rest, with_sessions m s)) /\ sessions_wf m /\
    forall i, is_Some (session_and_timeout m !! i) <-> i ∈ l.*1 \/ is_Some (session_and_timeout (session_manager s) !! i).
Proof.
  induction l as [|[i t] l IH]; intros mx s rest Hwf Hall.
  { exists (session_manager s). split; [by destruct s|]. split; [done|]. set_solver. }
  apply Forall_cons in Hall as [[Hi Ht] Hall]. cbn [mbind list_bind length sessions_loop fst snd] in *. unfold write_zk_session at 1.
  rewrite <- !app_assoc. cbn [fst snd]. rewrite (from_file_written (write := write_i64)) by done.
  rewrite (from_file_written (write := write_i32)) by done. cbn [sm_bind]. unfold to_store, session_op. cbn [fst snd].
  destruct (touch_session_wf now i t _ Hwf) as (x & q' & E & Hq' & Eq). unfold addSessionID. rewrite E. cbn.
  set (m1 := mkSessionManager _ _ _).
  assert (sessions_wf m1) as Hwf1.
  { split; [done|]. intros j. cbn. rewrite Eq, lookup_emplace_is_Some, lookup_insert_is_Some'. pose proof (wf_tracked _ Hwf j). naive_solver. }
  destruct (IH (Z.max i mx) (with_sessions m1 s) rest Hwf1 Hall) as (m & Em & Hm & Hl). exists m. split; [exact Em|]. split; [done|].
  intros j. rewrite Hl. cbn. rewrite lookup_emplace_is_Some. set_solver.
Qed.

Lemma acls_loop_written l : forall s rest,
  Forall (fun e => in_i64 e.1 /\ in_i32 (Z.of_nat (length e.2)) /\ Forall ACL_fits e.2) l ->
  acls_loop (length l) ((l ≫= write_zk_acl) ++ rest, s) =
    (Ok tt, (rest, with_acl (fun m => fold_left (fun m e => addMapping (u64 e.1) e.2 m) l m) s)).
Proof.
  induction l as [|[i a] l IH]; intros s rest Hall; [by destruct s|].
  apply Forall_cons in Hall as [(Hi & Hn & Ha) Hall]. cbn [mbind list_bind length acls_loop fst snd] in *. unfold write_zk_acl at 1.
  rewrite <- !app_assoc. cbn [fst snd sm_bind]. unfold from_file at 1. cbn [fst snd]. unfold read_acl_entry.
  rewrite (wire_bind (write := write_i64)), (wire_bind (write := write_i32)) by done. rewrite Nat2Z.id. cbn [sm_bind].
  rewrite (read_elems_write (write := write_ACL)) by done. cbn. by rewrite IH.
Qed.

Lemma zk_bytes xs : (length xs <= length (xs ≫= write_zk))%nat.
Proof.
  induction xs as [|x xs IH]; [done|]. cbn [mbind list_bind]. rewrite length_app. unfold write_zk at 1, write_string.
  rewrite !length_app. unfold write_i32 at 1. rewrite length_write_int. cbn. lia.
Qed.

Lemma storage_written xs s rest :
  zk_tree xs -> data_tree s = root_tree -> ephemerals s = ∅ ->
  exists z s1 t', added xs s s1 /\ tree_inv t' (ephemerals s1) /\
    (forall p, t' !! p = with_names (iter_str (dom (data_tree s1))) p <$> data_tree s1 !! p) /\
    deserializeStorageData ((xs ≫= write_zk) ++ write_string "/" ++ rest, s) = (Ok z, (rest, with_tree (fun _ => t') s1)).
Proof.
  intros Hxs Hr He. pose proof (zk_add_all xs s (zt_nodup xs Hxs)) as Hadd.
  destruct (built_tree xs Hxs s _ Hadd Hr He) as (t' & Et & Hinv & Ht').
  do 3 eexists. split; [exact Hadd|]. split; [exact Hinv|]. split; [exact Ht'|].
  assert (Forall (fun x => zk_fits x /\ zk_path x <> "/") xs) as Hall.
  { apply Forall_forall. intros x Hx. split; [by apply (proj1 (Forall_forall _ _) (zt_fits xs Hxs))|].
    intros E. destruct (zt_valid xs Hxs x) as [_ ?]; [|done]. apply list_elem_of_filter. by rewrite E. }
  assert (exists path rest1, read_string ((xs ≫= write_zk) ++ write_string "/" ++ rest) = (Ok path, rest1) /\ (length xs <= length rest1)%nat)
    as (path & rest1 & E1 & Hlen).
  { destruct xs as [|x xs'].
    - exists "/", rest. split; [|cbn; lia]. apply (read_write (write := write_string)). unfold string_fits, MAX_STRING_OR_ARRAY_SIZE. simpl. lia.
    - apply Forall_cons in Hall as [[(Hp & _) _] _]. cbn [mbind list_bind]. unfold write_zk at 1. rewrite <- !app_assoc.
      do 2 eexists. split; [by apply (read_write (write := write_string))|]. rewrite !length_app. pose proof (zk_bytes xs'). unfold write_zk_body, write_string.
      rewrite !length_app. unfold write_i32 at 1. rewrite length_write_int. cbn. lia. }
  pose proof (nodes_loop_written xs (S (length rest1)) 0 s rest Hall ltac:(lia)) as E2. cbn [sm_bind] in E2. unfold from_file in E2. cbn [fst snd] in E2.
  rewrite E1 in E2. unfold deserializeStorageData. cbn [sm_bind]. unfold from_file. cbn [fst snd]. rewrite E1. cbn [sm_get fst snd].
  rewrite E2. unfold to_store, build_children. cbn [fst snd]. rewrite Et. done.
Qed.

(** C14: the converter turns a snapshot of a consistent ZooKeeper server into a
    store whose invariant holds: its nodes are those of the snapshot and the root,
    each with its data, its statistics and exactly its children, counted; its
    sessions are those of the snapshot. Its number is always that of the file name,
    also when the nodes have larger ones. All nodes get the permissions with
    number 0. What follows the tree in the file is not read. *)
Theorem snapshot_converted period digest z dbid sessions acls xs rest :
  0 < period < 2 ^ 63 -> in_i64 dbid ->
  in_i32 (Z.of_nat (length sessions)) -> Forall (fun p => in_i64 p.1 /\ in_i32 p.2) sessions ->
  in_i32 (Z.of_nat (length acls)) -> Forall (fun e => in_i64 e.1 /\ in_i32 (Z.of_nat (length e.2)) /\ Forall ACL_fits e.2) acls ->
  zk_tree xs ->
  exists s, deserializeKeeperStoreFromSnapshot now z (zk_snapshot dbid sessions acls xs rest) (KeeperStore_init period digest) = (Ok tt, s) /\
    server_inv s /\ zxid s = z /\
    (forall i, sessions_contains i (session_manager s) = true <-> i ∈ sessions.*1) /\
    (forall p, is_Some (data_tree s !! p) <-> p = "/" \/ p ∈ zk_path <$> placed xs) /\
    (forall x, x ∈ placed xs -> exists n, data_tree s !! zk_path x = Some n /\
       data n = zk_data x /\ acl_id n = 0 /\ is_ephemeral n = bool_decide (zk_owner x <> 0) /\
       stat n = stat_numChildren (fun _ => i32 (Z.of_nat (size (children n)))) (stat (zk_node x)) /\
       (forall c, c ∈ children n <-> exists y, y ∈ placed xs /\ getParentPath (zk_path y) = zk_path x /\ getBaseName (zk_path y) = c)).
Proof.
  intros Hper Hdb Hns Hs Hna Ha Hxs. unfold deserializeKeeperStoreFromSnapshot, with_file, zk_snapshot.
  set (s0 := KeeperStore_init period digest). cbn [sm_bind]. unfold from_file at 1. cbn [fst snd]. unfold deserializeSnapshotMagic.
  rewrite (wire_bind (write := write_i32)), (wire_bind (write := write_i32)) by done. cbn [negb Z.eqb Pos.eqb].
  rewrite (wire_bind (write := write_i64)) by done. rewrite Z.eqb_refl. cbn [negb sm_ret].
  unfold deserializeSessionAndTimeout. rewrite (from_file_written (write := write_i32)) by done. rewrite Nat2Z.id.
  destruct (sessions_loop_written sessions 0 s0 (write_i32 (Z.of_nat (length acls)) ++ (acls ≫= write_zk_acl) ++ (xs ≫= write_zk) ++ write_string "/" ++ rest))
    as (m & -> & Hm & Hk); [by apply sessions_wf_init|done|].
  unfold to_store at 1. cbn [sm_modify fst snd]. unfold deserializeACLMap. rewrite (from_file_written (write := write_i32)) by done. rewrite Nat2Z.id.
  rewrite acls_loop_written by done.
  set (s2 := with_acl _ _).
  destruct (storage_written xs s2 rest Hxs eq_refl eq_refl) as (mz & s3 & t' & Hadd & Hinv & Ht' & ->).
  eexists. split; [done|]. split_and!.
  - split; [exact Hinv| |].
    + cbn. rewrite (ad_sessions _ _ _ Hadd). split; apply Hm.
    + cbn. rewrite (ad_watches _ _ _ Hadd). apply watch_wf_init.
  - done.
  - intros i. unfold sessions_contains. rewrite bool_decide_eq_true. cbn. rewrite (ad_sessions _ _ _ Hadd). cbn. rewrite Hk. cbn. rewrite lookup_empty.
    split; [intros [?|[? ?]]; done|by left].
  - intros p. cbn. rewrite Ht', fmap_is_Some, (t1_is_some xs Hxs s2 s3 Hadd eq_refl p), list_elem_of_fmap. naive_solver.
  - intros x Hx. cbn. rewrite Ht', (ad_new _ _ _ Hadd x Hx). eexists. split; [done|]. split_and!; try done;
      [cbn; by rewrite (right_id_L ∅ (∪)), (under_size xs Hxs s2 s3 Hadd eq_refl)|]. intros c. cbn.
    rewrite (right_id_L ∅ (∪)). rewrite (elem_of_names s3). setoid_rewrite (t1_is_some xs Hxs s2 s3 Hadd eq_refl). split.
    + intros (q & [->|(y & Hy & ->)] & Hq & Hp & Hb); [done|]. eauto.
    + intros (y & Hy & Hp & Hb). exists (zk_path y). split_and!; try done; [eauto|]. by apply (zt_valid xs Hxs).
Qed.
End snapshot.

(** ** Logs *)

(** The transactions of a log by their kinds; [ZkOther] is one the converter does
    not know. *)
Inductive ZkBody :=
| ZkCreate (path data : string) (acls : list ACL) (ephemeral : bool) (parent_cversion : Z)
| ZkDelete (path : string)
| ZkSet (path data : string) (version : Z)
| ZkSetACL (path : string) (acls : list ACL) (version : Z)
| ZkCheck (path : string) (version : Z)
| ZkCreateSession (timeout : Z)
| ZkCloseSession (paths : option (list string))
| ZkError (code : Z)
| ZkOther (type : Z) (body : bytes).

Definition zk_type (b : ZkBody) : Z :=
  match b with
  | ZkCreate _ _ _ _ _ => 1 | ZkDelete _ => 2 | ZkSet _ _ _ => 5 | ZkSetACL _ _ _ => 7 | ZkCheck _ _ => 13
  | ZkCreateSession _ => -10 | ZkCloseSession _ => -11 | ZkError _ => -1 | ZkOther t _ => t
  end.

Definition write_zk_txn (b : ZkBody) : bytes :=
  match b with
  | ZkCreate path data acls e pcv => write_string path ++ write_string data ++ write_vector write_ACL acls ++ write_bool e ++ write_i32 pcv
  | ZkDelete path => write_string path
  | ZkSet path data v => write_string path ++ write_string data ++ write_i32 v
  | ZkSetACL path acls v => write_string path ++ write_vector write_ACL acls ++ write_i32 v
  | ZkCheck path v => write_string path ++ write_i32 v
  | ZkCreateSession timeout => write_i32 timeout
  | ZkCloseSession (Some paths) => write_vector write_string paths
  | ZkCloseSession None => []
  | ZkError code => write_i32 code
  | ZkOther _ body => body
  end.

Definition zk_txn_fits (b : ZkBody) : Prop :=
  match b with
  | ZkCreate path data acls _ pcv => string_fits path /\ string_fits data /\ vector_fits ACL_fits acls /\ in_i32 pcv
  | ZkDelete path => string_fits path
  | ZkSet path data v => string_fits path /\ string_fits data /\ in_i32 v
  | ZkSetACL path acls v => string_fits path /\ vector_fits ACL_fits acls /\ in_i32 v
  | ZkCheck path v => string_fits path /\ in_i32 v
  | ZkCreateSession timeout => in_i32 timeout
  | ZkCloseSession paths => forall l, paths = Some l -> vector_fits string_fits l
  | ZkError code => in_i32 code
  | ZkOther t _ => in_i32 t /\ t ∉ [1; 2; 5; 7; 13; 14; -10; -11; -1]
  end.

(** What the converter makes of it: the version is that before the change. *)
Definition zk_request (b : ZkBody) : option Txn :=
  match b with
  | ZkCreate path data acls e _ => Some (TxnRequest (CreateRequest path data e false acls false))
  | ZkDelete path => Some (TxnRequest (RemoveRequest path (-1)))
  | ZkSet path data v => Some (TxnRequest (SetRequest path data (i32 (v - 1))))
  | ZkSetACL path acls v => Some (TxnRequest (SetACLRequest path acls (i32 (v - 1))))
  | ZkCheck path v => Some (TxnRequest (CheckRequest path (i32 (v - 1)) false))
  | ZkCreateSession timeout => Some (TxnRequest (NewSessionRequest 1 timeout 1))
  | ZkCloseSession _ => Some (TxnRequest CloseRequest)
  | ZkError _ | ZkOther _ _ => None
  end.

(** The bytes of a transaction that are skipped. *)
Definition unread (b : ZkBody) : bytes := match b with ZkOther _ body => body | _ => [] end.

Lemma read_txn_body_written multi b empty rest :
  zk_txn_fits b -> (empty = true <-> b = ZkCloseSession None) ->
  read_txn_body true multi (zk_type b) empty (write_zk_txn b ++ rest) = (Ok (zk_request b), unread b ++ rest).
Proof.
  intros Hf He. assert (forall b', b = b' -> b' <> ZkCloseSession None -> empty = false) as Hne.
  { intros b' <- Hb. destruct empty; [|done]. by destruct Hb, He as [-> _]. }
  unfold read_txn_body, some_txn, deserializeCreateTxn, deserializeDeleteTxn, deserializeSetTxn, deserializeSetACLTxn, deserializeCheckVersionTxn,
    deserializeCreateSession, deserializeCloseSession.
  destruct b as [path data acls e pcv|path|path data v|path acls v|path v|timeout|[l|]|code|t body]; cbn [zk_type write_zk_txn zk_txn_fits] in *;
    cbn [Z.eqb Pos.eqb]; try (destruct_and?; wire_req; done).
  - rewrite (Hne _ eq_refl) by done. specialize (Hf l eq_refl). by wire_req.
  - rewrite (proj2 He) by done. done.
  - destruct Hf as [_ Hf]. repeat (rewrite (proj2 (Z.eqb_neq _ _)) by (intros ->; apply Hf; set_solver)). done.
Qed.

Lemma skip_rest_written u rest before len :
  Z.of_nat (length rest) + len = before -> 0 <= before - Z.of_nat (length (u ++ rest)) -> skip_rest len before (u ++ rest) = (Ok tt, rest).
Proof.
  intros Hb Hu. unfold skip_rest, left. cbn [sm_bind sm_get]. rewrite length_app in *.
  destruct (Z.ltb_spec (before - Z.of_nat (length u + length rest)) len) as [Hlt|Hge].
  - unfold ignore. rewrite length_app, (proj2 (Z.leb_le _ _)) by lia.
    replace (Z.to_nat _) with (length u) by lia. by rewrite drop_app_length.
  - destruct u as [|c u]; [done|]. cbn in *. lia.
Qed.

(** Parts are followed by bytes that are skipped. *)
Definition write_zk_part (p : ZkBody * bytes) : bytes :=
  write_i32 (zk_type p.1) ++ write_i32 (Z.of_nat (length (write_zk_txn p.1 ++ p.2))) ++ write_zk_txn p.1 ++ p.2.

Definition zk_part_fits (p : ZkBody * bytes) : Prop :=
  zk_txn_fits p.1 /\ p.1 <> ZkCloseSession None /\ in_i32 (Z.of_nat (length (write_zk_txn p.1 ++ p.2))).

Lemma zk_type_fits b : zk_txn_fits b -> in_i32 (zk_type b).
Proof. intros Hb. destruct b; cbn [zk_type]; try (unfold in_i32; lia). by destruct Hb. Qed.

Lemma unread_shorter b : (length (unread b) <= length (write_zk_txn b))%nat.
Proof. destruct b; cbn [unread length]; [apply Nat.le_0_l..|done]. Qed.

Lemma part_written fuel p rest :
  zk_part_fits p -> deserializeTxnImpl true (S fuel) true 0 (write_zk_part p ++ rest) = (Ok (zk_request p.1), rest).
Proof.
  intros (Hf & Hne & Hl). cbn [deserializeTxnImpl]. unfold write_zk_part. rewrite <- !app_assoc.
  rewrite (wire_bind (write := write_i32)) by (by apply zk_type_fits). rewrite (wire_bind (write := write_i32)) by done.
  cbn [negb andb]. unfold left at 1. cbn [sm_bind sm_get]. rewrite read_txn_body_written by (done || by split).
  rewrite (app_assoc (unread p.1)), skip_rest_written; [done|rewrite !length_app; lia|].
  rewrite !length_app. pose proof (unread_shorter p.1). lia.
Qed.

Lemma parts_written fuel ps rest : Forall zk_part_fits ps ->
  read_elems (deserializeTxnImpl true (S fuel) true 0) (length ps) ((ps ≫= write_zk_part) ++ rest) = (Ok ((fun p => zk_request p.1) <$> ps), rest).
Proof.
  induction 1 as [|p ps Hp _ IH]; [done|]. cbn [mbind list_bind length read_elems sm_bind]. rewrite <- app_assoc.
  rewrite part_written by done. cbn [fmap list_fmap]. by rewrite IH.
Qed.

Record ZkTxn := mkZkTxn {
  tx_checksum : Z;
  tx_session : Z;
  tx_xid : Z;
  tx_zxid : Z;
  tx_time : Z;
  tx_body : ZkBody + list (ZkBody * bytes);
  tx_tail : bytes
}.

Definition tx_type (x : ZkTxn) : Z := match tx_body x with inl b => zk_type b | inr _ => 14 end.
Definition write_tx_body (x : ZkTxn) : bytes :=
  match tx_body x with inl b => write_zk_txn b | inr ps => write_i32 (Z.of_nat (length ps)) ++ (ps ≫= write_zk_part) end.
Definition tx_request (x : ZkTxn) : option Txn :=
  match tx_body x with inl b => zk_request b | inr ps => Some (TxnMulti ((fun p => zk_request p.1) <$> ps)) end.

Definition write_tx_content (x : ZkTxn) : bytes :=
  write_i64 (tx_session x) ++ write_i32 (tx_xid x) ++ write_i64 (tx_zxid x) ++ write_i64 (tx_time x) ++
  write_i32 (tx_type x) ++ write_tx_body x ++ tx_tail x.

Definition write_tx (x : ZkTxn) : bytes :=
  write_i64 (tx_checksum x) ++ write_i32 (Z.of_nat (length (write_tx_content x))) ++ write_tx_content x ++ [byte_of 0x42].

(** Only an old transaction that closes a session has no bytes after its type. *)
Record tx_fits (x : ZkTxn) : Prop := {
  tf_checksum : in_i64 (tx_checksum x) /\ tx_checksum x <> 0;
  tf_session : in_i64 (tx_session x);
  tf_xid : in_i32 (tx_xid x);
  tf_zxid : in_i64 (tx_zxid x);
  tf_time : in_i64 (tx_time x);
  tf_body : match tx_body x with inl b => zk_txn_fits b | inr ps => in_i32 (Z.of_nat (length ps)) /\ Forall zk_part_fits ps end;
  tf_empty : write_tx_body x ++ tx_tail x = [] <-> tx_body x = inl (ZkCloseSession None);
  tf_length : in_i32 (Z.of_nat (length (write_tx_content x)))
}.

Lemma tx_length x : length (write_tx_content x) = (32 + length (write_tx_body x ++ tx_tail x))%nat.
Proof. unfold write_tx_content, write_i64, write_i32. rewrite !length_app, !length_write_int. lia. Qed.

Lemma txn_impl_written x fuel rest :
  tx_fits x ->
  exists u, deserializeTxnImpl true (S (S fuel)) false (Z.of_nat (length (write_tx_content x)))
      (write_i32 (tx_type x) ++ write_tx_body x ++ rest) = (Ok (tx_request x), u ++ rest) /\ (length u <= length (write_tx_body x))%nat.
Proof.
  intros Hx. remember (S fuel) as fuel1 eqn:Ef. cbn [deserializeTxnImpl].
  assert (in_i32 (tx_type x)) as Ht.
  { pose proof (tf_body x Hx) as Hb. unfold tx_type. destruct (tx_body x); [by apply zk_type_fits|by vm_compute]. }
  rewrite (wire_bind (write := write_i32)) by done. cbn [sm_bind sm_ret negb andb].
  assert ((Z.of_nat (length (write_tx_content x)) =? 32) = true <-> tx_body x = inl (ZkCloseSession None)) as He.
  { rewrite Z.eqb_eq, tx_length, <- (tf_empty x Hx). split; [|intros ->; done]. intros E. apply nil_length_inv. lia. }
  assert ((Z.of_nat (length (write_tx_content x)) =? 32) && negb (tx_type x =? -11) = false) as ->.
  { destruct (_ =? 32); [|done]. unfold tx_type. by rewrite (proj1 He). }
  unfold left at 1. cbn [sm_bind sm_get]. pose proof (tf_body x Hx) as Hb. unfold tx_type, write_tx_body, tx_request in *.
  destruct (tx_body x) as [b|ps].
  - rewrite read_txn_body_written; [|exact Hb|rewrite He; split; [by intros [= ->]|by intros ->]].
    exists (unread b). split; [reflexivity|apply unread_shorter].
  - unfold read_txn_body. cbn [Z.eqb Pos.eqb]. unfold deserializeMultiTxn. destruct Hb as [Hn Hps].
    rewrite <- app_assoc. rewrite (wire_bind (write := write_i32)) by done. rewrite Nat2Z.id. cbn [sm_bind]. subst fuel1.
    rewrite parts_written by exact Hps. exists []. split; [reflexivity|apply Nat.le_0_l].
Qed.

Section log.
Context `{IterOrder} (sha1_base64 : string -> string) (compat : bool) (now : Z).
Abbreviation apply_txn := (apply_txn sha1_base64 compat now).

Lemma read_txn_written x rest :
  tx_fits x ->
  read_txn true (write_i32 (Z.of_nat (length (write_tx_content x))) ++ write_tx_content x ++ rest) =
    (Ok (tx_session x, tx_xid x, tx_zxid x, tx_time x, tx_request x), rest).
Proof.
  intros Hx. pose proof Hx as [_ Hs Hxi Hz Ht _ _ Hl]. unfold read_txn. rewrite (wire_bind (write := write_i32)) by done.
  unfold left at 1. cbn [sm_bind sm_get]. remember (Z.of_nat (length (write_tx_content x ++ rest))) as before eqn:Eb.
  assert (write_tx_content x ++ rest = write_i64 (tx_session x) ++ write_i32 (tx_xid x) ++ write_i64 (tx_zxid x) ++ write_i64 (tx_time x) ++
    write_i32 (tx_type x) ++ write_tx_body x ++ tx_tail x ++ rest) as -> by (unfold write_tx_content; by rewrite <- !app_assoc).
  rewrite (read_write (write := write_i64)), (read_write (write := write_i32)), (read_write (write := write_i64)),
    (read_write (write := write_i64)) by done.
  assert (exists k, length (write_i32 (tx_type x) ++ write_tx_body x ++ tx_tail x ++ rest) = S k) as [k ->].
  { unfold write_i32. rewrite length_app, length_write_int. cbn. eauto. }
  destruct (txn_impl_written x k (tx_tail x ++ rest) Hx) as (u & -> & Hu). rewrite (app_assoc u), skip_rest_written; [done| |].
  - subst before. rewrite length_app. lia.
  - subst before. rewrite !length_app, tx_length, length_app. lia.
Qed.

(** What the log says, transaction by transaction. *)
Fixpoint replay (txs : list ZkTxn) : SM KeeperStore unit :=
  match txs with
  | [] => sm_ret tt
  | x :: txs' => (apply_txn (tx_session x) (tx_xid x) (tx_zxid x) (tx_time x) (tx_request x) ;;; replay txs')%sm
  end.

(** The end of a log: that of the file, or zeros. *)
Definition log_end (bs : bytes) : Prop := bs = [] \/ exists bs', bs = write_i64 0 ++ bs'.

Lemma deserializeTxn_written x rest s :
  tx_fits x ->
  deserializeTxn sha1_base64 compat now true (write_tx x ++ rest, s) =
    match apply_txn (tx_session x) (tx_xid x) (tx_zxid x) (tx_time x) (tx_request x) s with
    | (Ok _, s') => (Ok true, (byte_of 0x42 :: rest, s'))
    | (Fault f, s') => (Fault f, (byte_of 0x42 :: rest, s'))
    end.
Proof.
  intros Hx. pose proof (tf_checksum x Hx) as [Hc Hne]. unfold deserializeTxn, write_tx. rewrite <- !app_assoc.
  rewrite (from_file_written (write := write_i64)) by done. rewrite (proj2 (Z.eqb_neq _ _)) by done. cbn [sm_bind].
  unfold from_file at 1. cbn [fst snd]. rewrite read_txn_written by done. unfold to_store. cbn [fst snd app].
  cbn [sm_bind fst snd]. destruct (apply_txn _ _ _ _ _ s) as [[[]|f] s']; reflexivity.
Qed.

Lemma log_loop_written txs : forall fuel rest s,
  Forall tx_fits txs -> log_end rest -> (length txs < fuel)%nat ->
  exists rest', log_loop sha1_base64 compat now true fuel ((txs ≫= write_tx) ++ rest, s) =
    ((replay txs s).1, (rest', (replay txs s).2)).
Proof.
  induction txs as [|x txs IH]; intros fuel rest s Hall Hend Hf; (destruct fuel as [|fuel]; [cbn in Hf; lia|]).
  - cbn [mbind list_bind app log_loop sm_bind]. unfold from_file at 1. cbn. destruct Hend as [->|[bs' ->]]; [by eexists|].
    rewrite bool_decide_false by done. unfold deserializeTxn. cbn [sm_bind].
    unfold from_file. cbn [fst snd]. rewrite (read_write (write := write_i64)) by by vm_compute. cbn. by eexists.
  - apply Forall_cons in Hall as [Hx Hall]. cbn [mbind list_bind log_loop sm_bind]. rewrite <- app_assoc.
    unfold from_file at 1. cbn [eof fst snd]. rewrite bool_decide_false by done.
    cbn [sm_bind]. rewrite deserializeTxn_written by done. cbn [replay sm_bind].
    destruct (apply_txn _ _ _ _ _ s) as [[[]|f] s']; [|by eexists]. unfold from_file at 1. cbn -[log_loop].
    destruct (IH fuel rest s' Hall Hend) as [rest' E]; [cbn in Hf; lia|]. exists rest'. exact E.
Qed.

(** *** All logs *)

Definition zk_log (dbid : Z) (txs : list ZkTxn) (rest : bytes) : bytes :=
  write_i32 LOG_HEADER ++ write_i32 2 ++ write_i64 dbid ++ (txs ≫= write_tx) ++ rest.

Lemma log_file_applied dbid txs rest s :
  in_i64 dbid -> Forall tx_fits txs -> log_end rest ->
  deserializeLogAndApplyToStore sha1_base64 compat now true (zk_log dbid txs rest) s = replay txs s.
Proof.
  intros Hd Hall Hend. unfold deserializeLogAndApplyToStore, with_file, zk_log. cbn [sm_bind]. unfold from_file at 1. cbn [fst snd].
  unfold deserializeLogMagic. rewrite (wire_bind (write := write_i32)), (wire_bind (write := write_i32)), (wire_bind (write := write_i64)) by done.
  rewrite Z.eqb_refl. cbn [negb Z.eqb Pos.eqb sm_ret sm_get fst].
  assert (length txs <= length (txs ≫= write_tx))%nat as Hl.
  { clear. induction txs as [|x txs IH]; [done|]. cbn [mbind list_bind]. unfold write_tx at 1, write_i64 at 1. rewrite !length_app, length_write_int. cbn. lia. }
  destruct (log_loop_written txs (S (length ((txs ≫= write_tx) ++ rest))) rest s Hall Hend) as [rest' ->]; [rewrite length_app; lia|].
  by destruct (replay txs s).
Qed.

Lemma replay_app txs txs' s : replay (txs ++ txs') s = (replay txs ;;; replay txs')%sm s.
Proof.
  revert s. induction txs as [|x txs IH]; intros s; [done|]. cbn [app replay sm_bind].
  destruct (apply_txn _ _ _ _ _ s) as [[[]|f] s']; [|done]. rewrite IH. done.
Qed.

(** Transactions the store has are skipped. *)
Lemma replay_old txs s : Forall (fun x => tx_zxid x <= zxid s) txs -> replay txs s = (Ok tt, s).
Proof.
  induction 1 as [|x txs Hx _ IH]; [done|]. cbn [replay sm_bind]. unfold apply_txn. destruct (tx_request x); [|exact IH].
  rewrite (proj2 (Z.ltb_ge _ _)) by done. exact IH.
Qed.

Lemma elem_of_rev {A} (l : list A) x : x ∈ rev l <-> x ∈ l.
Proof. rewrite !list_elem_of_In. symmetry. apply in_rev. Qed.

(** The names from the newest on: those below the last one taken are left out,
    and there are some only when that one is below [z]. *)
Lemma take_logs_split z l : exists post, l = take_logs z l ++ post /\
  forall n, n ∈ post -> exists n' l', l' ++ [n'] = take_logs z l /\ n' < z.
Proof.
  induction l as [|n l (post & E & Hpost)]; [exists []; split; [done|]; by intros n ?%elem_of_nil|]. cbn [take_logs]. destruct (Z.leb_spec z n).
  - exists post. split; [cbn; f_equal; exact E|]. intros m Hm. destruct (Hpost m Hm) as (n' & l' & <- & Hn). by exists n', (n :: l').
  - exists l. split; [done|]. intros m Hm. by exists n, [].
Qed.

Section logs.
Context (m : gmap Z bytes) (txs : Z -> list ZkTxn).
Hypothesis Hlogs : forall n bs, m !! n = Some bs ->
  exists dbid rest, in_i64 dbid /\ log_end rest /\ Forall tx_fits (txs n) /\ bs = zk_log dbid (txs n) rest.

Lemma apply_logs_written ns : forall s, Forall (fun n => is_Some (m !! n)) ns ->
  apply_logs sha1_base64 compat now true (omap (fun n => m !! n) ns) s = replay (ns ≫= txs) s.
Proof.
  induction ns as [|n ns IH]; intros s Hall; [done|]. apply Forall_cons in Hall as [[bs Hb] Hall]. cbn. rewrite Hb. cbn [apply_logs sm_bind].
  destruct (Hlogs n bs Hb) as (dbid & rest & Hd & He & Hf & ->). rewrite log_file_applied, replay_app by done. cbn [sm_bind].
  destruct (replay (txs n) s) as [[[]|f] s']; [by apply IH|done].
Qed.

Hypothesis Hordered : forall n n' x, is_Some (m !! n) -> is_Some (m !! n') -> n < n' -> x ∈ txs n -> tx_zxid x < n'.

Lemma chosen_logs_suffice s : replay (rev (take_logs (zxid s) (rev (sorted_keys m))) ≫= txs) s = replay (sorted_keys m ≫= txs) s.
Proof.
  destruct (take_logs_split (zxid s) (rev (sorted_keys m))) as (post & E & Hpost).
  set (chosen := take_logs _ _) in *. assert (sorted_keys m = rev post ++ rev chosen) as Es by (by rewrite <- (rev_involutive (sorted_keys m)), E, rev_app_distr).
  rewrite Es, bind_app, replay_app. cbn [sm_bind]. rewrite (replay_old (rev post ≫= txs)); [done|]. apply Forall_forall. intros x Hx.
  apply list_elem_of_bind in Hx as (n & Hx & Hn). rewrite elem_of_rev in Hn. destruct (Hpost n Hn) as (n' & l' & El & Hz).
  assert (n < n') as Hlt.
  { pose proof (sorted_keys_sorted m) as Hs. pose proof (NoDup_sorted_keys m) as Hd. rewrite Es in Hs, Hd.
    apply NoDup_app in Hd as (_ & Hd & _).
    assert (n' ∈ rev chosen) by (rewrite elem_of_rev, <- El; set_solver).
    assert (n <= n') by (eapply (StronglySorted_app_1_elem_of Z.le); [exact Hs|by rewrite elem_of_rev|done]). assert (n <> n') by (intros ->; by apply (Hd n'); [rewrite elem_of_rev|]). lia. }
  assert (tx_zxid x < n'); [|lia]. apply (Hordered n n'); try done; apply elem_of_sorted_keys; rewrite Es; apply elem_of_app.
  - left. by rewrite elem_of_rev.
  - right. rewrite elem_of_rev, <- El. set_solver.
Qed.
End logs.

(** C15: applying the logs of a directory is replaying all of them from the first
    on, in the order of their names: the logs the converter leaves out hold only
    transactions the store has, provided that a log holds no transaction that
    belongs to a later one. *)
Theorem logs_replayed dir m txs s :
  existing_files "log." dir ∅ = Ok m ->
  (forall n bs, m !! n = Some bs -> exists dbid rest, in_i64 dbid /\ log_end rest /\ Forall tx_fits (txs n) /\ bs = zk_log dbid (txs n) rest) ->
  (forall n n' x, is_Some (m !! n) -> is_Some (m !! n') -> n < n' -> x ∈ txs n -> tx_zxid x < n') ->
  deserializeLogsAndApplyToStore sha1_base64 compat now true dir s = replay (sorted_keys m ≫= txs) s.
Proof.
  intros Hd Hl Ho. unfold deserializeLogsAndApplyToStore. cbn [sm_bind sm_lift]. rewrite Hd. cbn [sm_bind sm_get].
  rewrite (apply_logs_written m txs Hl); [by apply chosen_logs_suffice|]. apply Forall_forall. intros n Hn. rewrite elem_of_rev in Hn.
  destruct (take_logs_split (zxid s) (rev (sorted_keys m))) as (post & E & _). apply elem_of_sorted_keys. rewrite <- elem_of_rev, E.
  apply elem_of_app. by left.
Qed.
End log.

(** ** Every file is read to an end *)

#[export] Instance consumes_left : Consumes left.
Proof. by intros s. Qed.
#[export] Instance consumes_get {A} (f : bytes -> A) : Consumes (sm_get f).
Proof. by intros s. Qed.
#[export] Instance consumes_ignore n : Consumes (ignore n).
Proof. intros s. unfold ignore. destruct (_ <=? _); cbn; [rewrite length_drop|]; lia. Qed.
#[export] Instance consumes_skip len before : Consumes (skip_rest len before).
Proof. unfold skip_rest. apply _. Qed.
#[export] Instance consumes_txn_body log multi type empty : Consumes multi -> Consumes (read_txn_body log multi type empty).
Proof.
  intros Hm. unfold read_txn_body, some_txn, deserializeCreateTxn, deserializeDeleteTxn, deserializeSetTxn, deserializeSetACLTxn, deserializeCheckVersionTxn,
    deserializeCreateSession, deserializeCloseSession, read_string, read_vector, read_ACL, throw_error. apply _.
Qed.
#[export] Instance consumes_txn log fuel : forall sub len, Consumes (deserializeTxnImpl log fuel sub len).
Proof. induction fuel as [|fuel IH]; intros sub len; cbn [deserializeTxnImpl]; [apply _|]. unfold deserializeMultiTxn. destruct sub; apply _. Qed.

(** Readers that agree on short inputs. *)
Definition agree {A} (n : nat) (m m' : Reader A) : Prop := forall s, (length s <= n)%nat -> m s = m' s.

Lemma agree_bind {A B} n (m : Reader A) (k k' : A -> Reader B) :
  Consumes m -> (forall a, agree n (k a) (k' a)) -> agree n (sm_bind m k) (sm_bind m k').
Proof.
  intros Hm Hk s Hs. cbn [sm_bind]. specialize (Hm s). destruct (m s) as [[a|f] s1]; [|done]. apply Hk. cbn in Hm. lia.
Qed.

Lemma agree_bind_l {A B} n (m m' : Reader A) (k : A -> Reader B) : agree n m m' -> agree n (sm_bind m k) (sm_bind m' k).
Proof. intros Hm s Hs. cbn [sm_bind]. by rewrite Hm. Qed.

Lemma agree_elems {A} n (m m' : Reader A) k : Consumes m -> agree n m m' -> agree n (read_elems m k) (read_elems m' k).
Proof.
  intros Hc Hm. induction k as [|k IH]; [done|]. cbn [read_elems]. intros s Hs.
  rewrite (agree_bind_l n m m' _ Hm s Hs). cbn [sm_bind]. rewrite <- (Hm s Hs). specialize (Hc s). destruct (m s) as [[a|f] s1]; [|done].
  cbn in Hc. cbn. rewrite IH by lia. done.
Qed.

Lemma read_i32_shorter {A} (k k' : Z -> Reader A) n : (forall a, agree n (k a) (k' a)) -> agree (S n) (sm_bind read_i32 k) (sm_bind read_i32 k').
Proof.
  intros Hk s Hs. cbn [sm_bind]. unfold read_i32. cbn [sm_bind]. unfold readStrict. case_decide; [|done]. cbn. apply Hk. rewrite length_drop. lia.
Qed.

Lemma txn_fuel log : forall fuel fuel' n sub len, (n < fuel)%nat -> (n < fuel')%nat ->
  agree n (deserializeTxnImpl log fuel sub len) (deserializeTxnImpl log fuel' sub len).
Proof.
  induction fuel as [|fuel IH]; intros fuel' n sub len H1 H2; [lia|]. destruct fuel' as [|fuel']; [lia|]. cbn [deserializeTxnImpl].
  destruct n as [|n].
  { intros s Hs. destruct s; [done|cbn in Hs; lia]. }
  apply read_i32_shorter. intros type. apply agree_bind; [destruct sub; apply _|]. intros sub_len. destruct (_ && _); [done|].
  apply agree_bind; [apply _|]. intros before. apply agree_bind_l. unfold read_txn_body.
  repeat (match goal with |- agree _ (if ?b then _ else _) _ => destruct b; [try done|] end); try done.
  unfold deserializeMultiTxn. apply agree_bind; [apply _|]. intros k. apply agree_bind_l. apply agree_elems; [apply _|]. apply IH; lia.
Qed.

#[export] Instance consumes_read_txn log : Consumes (read_txn log).
Proof. unfold read_txn. apply _. Qed.
#[export] Instance consumes_zk_node : Consumes read_zk_node.
Proof. unfold read_zk_node, read_string, throw_error. apply _. Qed.
#[export] Instance consumes_string : Consumes read_string.
Proof. unfold read_string, throw_error. apply _. Qed.

(** Reading a number takes bytes. *)
Lemma from_file_i64_shrinks (m : Reader Z) n st x st' :
  m = (bs <- readStrict (S n) ;; sm_ret (i64 (le_value (rev bs))))%sm -> from_file m st = (Ok x, st') -> (length st'.1 < length st.1)%nat.
Proof.
  intros ->. unfold from_file. cbn [sm_bind]. unfold readStrict. case_decide; [|done]. cbn [sm_ret]. intros [= _ <-]. cbn [fst]. rewrite length_drop. lia.
Qed.

Section fuel.
Context `{IterOrder} (sha1_base64 : string -> string) (compat : bool) (now : Z).

Lemma to_store_input {A} (m : SM KeeperStore A) st : (to_store m st).2.1 = st.1.
Proof. unfold to_store. by destruct (m st.2). Qed.

Lemma from_file_input {A} (m : Reader A) `{!Consumes m} st : (length (from_file m st).2.1 <= length st.1)%nat.
Proof. unfold from_file. pose proof (consumes (read := m) st.1) as Hc. by destruct (m st.1). Qed.

Lemma deserializeTxn_shrinks log st b st' :
  deserializeTxn sha1_base64 compat now log st = (Ok b, st') -> (length st'.1 < length st.1)%nat.
Proof.
  unfold deserializeTxn. intros (c & st1 & E1 & E)%sm_bind_ok. apply (from_file_i64_shrinks read_i64 7) in E1; [|done].
  destruct (c =? 0); [by injection E as _ <-|]. apply sm_bind_ok in E as ([[[[i x] z] t] r] & st2 & E2 & E).
  apply sm_bind_ok in E as ([] & st3 & E3 & E4). injection E4 as _ <-.
  pose proof (from_file_input (read_txn log) st1) as H2. rewrite E2 in H2.
  match type of E3 with to_store ?m st2 = _ => pose proof (to_store_input m st2) as H3 end. rewrite E3 in H3. cbn in *. rewrite H3. lia.
Qed.

Lemma log_loop_fuel log : forall fuel fuel' st, (length st.1 < fuel)%nat -> (length st.1 < fuel')%nat ->
  log_loop sha1_base64 compat now log fuel st = log_loop sha1_base64 compat now log fuel' st.
Proof.
  induction fuel as [|fuel IH]; intros fuel' st H1 H2; [lia|]. destruct fuel' as [|fuel']; [lia|]. cbn [log_loop sm_bind].
  destruct (from_file eof st) as [[at_end|f] st0] eqn:E0; [|done]. unfold from_file in E0. cbn in E0. injection E0 as <- <-. case_bool_decide; [done|].
  cbn [sm_bind]. destruct st as [bs s]. cbn [fst snd] in *. destruct (deserializeTxn _ _ _ log (bs, s)) as [[[]|f] st1] eqn:E1; [|done|done].
  apply deserializeTxn_shrinks in E1. cbn [sm_bind]. assert (Consumes read_i8) as Hc by (unfold read_i8; apply _).
  pose proof (from_file_input read_i8 st1) as H3. destruct (from_file read_i8 st1) as [[x|f] st2]; [|done]. cbn in *. destruct (negb _); [done|]. apply IH; lia.
Qed.

Lemma nodes_loop_fuel : forall fuel fuel' path mz st, (length st.1 < fuel)%nat -> (length st.1 < fuel')%nat ->
  nodes_loop fuel path mz st = nodes_loop fuel' path mz st.
Proof.
  induction fuel as [|fuel IH]; intros fuel' path mz st H1 H2; [lia|]. destruct fuel' as [|fuel']; [lia|]. cbn [nodes_loop]. case_bool_decide; [done|].
  cbn [sm_bind]. destruct (from_file read_zk_node st) as [[n|f] st1] eqn:E1; [|done].
  assert (length st1.1 < length st.1)%nat as Hlt.
  { unfold read_zk_node in E1. unfold from_file in E1. destruct st as [bs s]. cbn [fst snd] in *.
    destruct (sm_bind _ _ bs) as [r rest] eqn:E. injection E1 as -> <-. cbn. apply sm_bind_ok in E as (d & s1 & Ed & E).
    unfold read_string in Ed. apply sm_bind_ok in Ed as (k & s2 & Ek & Ed). unfold read_i32 in Ek. cbn [sm_bind] in Ek. unfold readStrict in Ek.
    case_decide; [|done]. injection Ek as _ <-.
    match type of E with ?m s1 = _ => assert (Consumes m) as Hc by (unfold read_string, throw_error; apply _); specialize (Hc s1); rewrite E in Hc end.
    match type of Ed with ?m _ = _ => assert (Consumes m) as Hc2 by (unfold throw_error; apply _); specialize (Hc2 (drop 4 bs)); rewrite Ed in Hc2 end.
    cbn in *. rewrite length_drop in Hc2. lia. }
  pose proof (to_store_input (add_zk_node path n) st1) as H3. destruct (to_store _ st1) as [[[]|f] st2]; [|done].
  pose proof (from_file_input read_string st2) as H4. destruct (from_file read_string st2) as [[p|f] st3]; [|done]. cbn in *. rewrite H3 in H4. apply IH; lia.
Qed.

(** The loops of the converter end for every content of the files: with as many
    turns as there are bytes they do not run out of them, and more make no
    difference. *)
Theorem converter_ends log sub len path mz fuel bs st :
  ((length bs < fuel)%nat -> deserializeTxnImpl log fuel sub len bs = deserializeTxnImpl log (S (length bs)) sub len bs) /\
  ((length st.1 < fuel)%nat -> log_loop sha1_base64 compat now log fuel st = log_loop sha1_base64 compat now log (S (length st.1)) st) /\
  ((length st.1 < fuel)%nat -> nodes_loop fuel path mz st = nodes_loop (S (length st.1)) path mz st).
Proof.
  split; [intros Hf; apply (txn_fuel log fuel (S (length bs)) (length bs)); lia|].
  split; intros Hf; [apply log_loop_fuel; lia|apply nodes_loop_fuel; lia].
Qed.
End fuel.
