(* ===== verification/ConverterRuns.v ===== *)
(** * Conversions

    Concrete files of a ZooKeeper server and the stores the converter makes of
    them. *)

From S2P Require Import Prelude Coordination Paths Text AclMap Sessions DataTree Store StoreTree StoreRequest.
From S2P Require Import Wire WireRequests Converter ConverterTheorems.

Definition demo_stat (owner : Z) : Stat := mkStat 3 3 1000 1000 0 0 0 owner 0 0 3.
Definition demo_digest : list ACL := [mkACL 31 "digest" "u:h"].

(** The root, a node for one user only, and an ephemeral node of session 5. *)
Definition demo_nodes : list ZkNode :=
  [mkZkNode "" 0 "" (demo_stat 0); mkZkNode "/a" 1 "secret" (demo_stat 0); mkZkNode "/a/b" 1 "" (demo_stat 5)].

Definition demo_snapshot : bytes := zk_snapshot 0 [(5, 10000)] [(1, demo_digest)] demo_nodes (write_i64 3 ++ write_string "/").
Definition demo_store0 : KeeperStore := KeeperStore_init 500 "".

Lemma demo_nodes_tree : zk_tree demo_nodes.
Proof.
  assert (placed demo_nodes = [mkZkNode "/a" 1 "secret" (demo_stat 0); mkZkNode "/a/b" 1 "" (demo_stat 5)]) as E by reflexivity.
  assert (valid_path "/a") as Ha by (exists ["a"]; by repeat constructor).
  assert (valid_path "/a/b") as Hb by (exists ["a"; "b"]; by repeat constructor).
  split; rewrite ?E.
  - assert (forall o, in_i64 o -> Stat_fits (demo_stat o)) as Hs by (intros o Ho; split; cbn; try done; unfold in_i64, in_i32; lia).
    unfold zk_fits, string_fits, MAX_STRING_OR_ARRAY_SIZE, in_u64. repeat (apply Forall_cons; split; [|]); [..|done];
      (split_and!; [simpl; lia|simpl; lia|simpl; lia|simpl; lia|apply Hs; unfold in_i64; simpl; lia]).
  - cbn. repeat (apply NoDup_cons; split; [set_solver|]). apply NoDup_nil_2.
  - intros x. rewrite !elem_of_cons, elem_of_nil. by intros [->|[->|[]]].
  - intros x. rewrite !elem_of_cons, elem_of_nil. intros [->|[->|[]]]; [by left|right]. eexists. split; [by left|done].
  - intros x y. rewrite !elem_of_cons, !elem_of_nil. by intros [->|[->|[]]] [->|[->|[]]].
Qed.

Lemma snapshot_converted_witness :
  exists s, deserializeKeeperStoreFromSnapshot 0 9 demo_snapshot demo_store0 = (Ok tt, s) /\
    server_inv s /\ zxid s = 9 /\
    (forall i, sessions_contains i (session_manager s) = true <-> i ∈ [(5, 10000)].*1) /\
    (forall p, is_Some (data_tree s !! p) <-> p = "/" \/ p ∈ zk_path <$> placed demo_nodes) /\
    (forall x, x ∈ placed demo_nodes -> exists n, data_tree s !! zk_path x = Some n /\
       data n = zk_data x /\ acl_id n = 0 /\ is_ephemeral n = bool_decide (zk_owner x <> 0) /\
       stat n = stat_numChildren (fun _ => i32 (Z.of_nat (size (children n)))) (stat (zk_node x)) /\
       (forall c, c ∈ children n <-> exists y, y ∈ placed demo_nodes /\ getParentPath (zk_path y) = zk_path x /\ getBaseName (zk_path y) = c)).
Proof.
  apply (snapshot_converted 0 500 "" 9 0 [(5, 10000)] [(1, demo_digest)] demo_nodes (write_i64 3 ++ write_string "/")); [lia|by vm_compute|by vm_compute| |by vm_compute| |].
  - by repeat constructor.
  - unfold demo_digest, ACL_fits, string_fits, MAX_STRING_OR_ARRAY_SIZE. repeat constructor; try (by vm_compute); simpl; lia.
  - apply demo_nodes_tree.
Defined.

(** Transaction 9 is in the snapshot; 10 opens session 77, which creates an ephemeral
    node with 11; 12 is one of a kind the converter does not know. *)
Definition demo_tx (session zxid' : Z) (b : ZkBody) : ZkTxn := mkZkTxn 1 session 1 zxid' 123456 (inl b) ["x"%char].
Definition demo_txs (n : Z) : list ZkTxn :=
  if n =? 10 then
    [demo_tx 77 10 (ZkCreateSession 5000); demo_tx 77 11 (ZkCreate "/e" "" [mkACL 31 "world" "anyone"] true 1); demo_tx 77 12 (ZkOther 15 [])]
  else [demo_tx 5 9 (ZkSet "/a" "old" 1)].

Definition demo_logs : list (string * bytes) :=
  [("log.a", zk_log 0 (demo_txs 10) (write_i64 0)); ("log.3", zk_log 0 (demo_txs 3) []); ("snapshot.9", demo_snapshot)].

Lemma demo_tx_fits s z b :
  in_i64 s -> in_i64 z -> zk_txn_fits b -> b <> ZkCloseSession None ->
  in_i32 (Z.of_nat (length (write_tx_content (demo_tx s z b)))) -> tx_fits (demo_tx s z b).
Proof.
  intros Hs Hz Hb Hne Hl. split; cbn [demo_tx tx_checksum tx_session tx_xid tx_zxid tx_time tx_body]; try assumption; [by vm_compute..|].
  split; [|by intros [= ->]]. unfold write_tx_body. cbn. intros E. by destruct (write_zk_txn b).
Qed.

Lemma demo_txs_fit n : Forall tx_fits (demo_txs n).
Proof.
  unfold demo_txs. destruct (n =? 10).
  - apply Forall_cons; split; [|apply Forall_cons; split; [|apply Forall_cons; split; [|apply Forall_nil; exact I]]];
      (apply demo_tx_fits; [by vm_compute|by vm_compute| |discriminate|by vm_compute]).
    + by vm_compute.
    + cbn. unfold vector_fits, ACL_fits, string_fits, MAX_STRING_OR_ARRAY_SIZE. split_and!; try (simpl; lia); [|by vm_compute].
      repeat constructor; unfold in_i32; simpl; lia.
    + split; [by vm_compute|]. set_solver.
  - apply Forall_cons; split; [|apply Forall_nil; exact I]. apply demo_tx_fits; [by vm_compute|by vm_compute| |discriminate|by vm_compute].
    cbn. unfold string_fits, MAX_STRING_OR_ARRAY_SIZE. split_and!; try (simpl; lia). by vm_compute.
Qed.

Lemma logs_replayed_witness :
  deserializeLogsAndApplyToStore (fun _ => "h") false 0 true demo_logs demo_store0 =
  replay (fun _ => "h") false 0 (demo_txs 3 ++ demo_txs 10) demo_store0.
Proof.
  set (m := <[3 := zk_log 0 (demo_txs 3) []]> (<[10 := zk_log 0 (demo_txs 10) (write_i64 0)]> ∅) : gmap Z bytes).
  assert (sorted_keys m ≫= demo_txs = demo_txs 3 ++ demo_txs 10) as <- by (vm_compute; reflexivity).
  apply (logs_replayed (fun _ => "h") false 0 demo_logs m demo_txs demo_store0); unfold m.
  - vm_compute. reflexivity.
  - intros n bs Hn. pose proof (demo_txs_fit n) as Hf. apply lookup_insert_Some in Hn as [[<- <-]|[_ Hn]].
    + exists 0, []. split_and!; [done|by left|done|done].
    + apply lookup_insert_Some in Hn as [[<- <-]|[_ Hn]]; [|done]. exists 0, (write_i64 0). split_and!; [done|right; by exists []|done|done].
  - intros n n' x. rewrite !lookup_insert_is_Some', lookup_empty. intros [<-|[<-|[]%is_Some_None]] [<-|[<-|[]%is_Some_None]] Hlt Hx; try lia.
    cbn in Hx. apply list_elem_of_singleton in Hx as ->. cbn. lia.
Defined.

(** ** What is lost *)

Abbreviation demo_converted := (convert (fun _ => "h") false 0 demo_logs demo_logs demo_store0).

(** The permissions of a node, as the store finds them. *)
Definition permissions (path : string) (s : KeeperStore) : option (outcome (list ACL)) :=
  (fun n => convertNumber (acl_id n) (acl_map s)) <$> data_tree s !! path.

(** Conversion opens every node of the snapshot to everybody: the permissions
    are read into the store, but the number of a node's permissions is dropped and
    the node gets number 0. *)
Theorem conversion_drops_permissions :
  demo_converted.1 = Ok tt /\ num_to_acl (acl_map demo_converted.2) !! 1 = Some demo_digest /\
  permissions "/a" demo_converted.2 = Some (Ok [default_acl]).
Proof. vm_compute. by split_and!. Qed.

(** A session that a log opens gets the next free id instead of its own, so that
    the ephemeral nodes it creates belong to no session and never go. *)
Theorem conversion_renames_sessions :
  demo_converted.1 = Ok tt /\
  sessions_contains 77 (session_manager demo_converted.2) = false /\ sessions_contains 6 (session_manager demo_converted.2) = true /\
  mset_get 77 (ephemerals demo_converted.2) = {["/e"]}.
Proof. vm_compute. by split_and!. Qed.

(** The time of a transaction is passed as the time the request was created, not as
    that at which it is processed: nodes a log creates are dated 1970. *)
Theorem conversion_drops_times :
  (fun n => (ctime (stat n), mtime (stat n))) <$> data_tree demo_converted.2 !! "/e" = Some (0, 0) /\
  (tx_time <$> demo_txs 10) = [123456; 123456; 123456].
Proof. vm_compute. by split. Qed.

(** A transaction of an unknown kind is left out, with the number of the store as it
    was. *)
Theorem conversion_skips_unknown : zxid demo_converted.2 = 11 /\ (tx_zxid <$> demo_txs 10) = [10; 11; 12].
Proof. vm_compute. by split. Qed.
