(* ===== verification/Cluster.v ===== *)
(** * The configuration of the cluster

    [src/src/Service/NuRaftStateManager.cpp], [applyConfigurationUpdate] and
    [waitConfigurationUpdate] of [KeeperServer.cpp], the part of
    [KeeperDispatcher.cpp] that passes a new configuration to them, and the numbers
    of variable length of [Common/IO/VarInt.h]. The configuration of Raft and its
    serialization are NuRaft's. *)

From stdpp Require Import pretty.
From S2P Require Import Prelude Coordination Paths Wire Converter.

(** ** Numbers of variable length *)

(** [for (i = 0; i < 9; ++i)] *)
Fixpoint writeVarUInt_loop (n : nat) (x : Z) : bytes :=
  match n with
  | O => []
  | S n' =>
      let byte := Z.lor (Z.land x 0x7F) (if 0x7F <? x then 0x80 else 0) in
      let x' := Z.shiftr x 7 in
      byte_of byte :: (if x' =? 0 then [] else writeVarUInt_loop n' x')
  end.
Definition writeVarUInt (x : Z) : bytes := writeVarUInt_loop 9 x.

(** [i] is what is left of the nine turns, [shift] is [7 * i] of the source. *)
Fixpoint readVarUInt_loop (i : nat) (shift x : Z) : Reader Z :=
  match i with
  | O => sm_ret x
  | S i' => fun s =>
      match s with
      | [] => (Fault (Throw ATTEMPT_TO_READ_AFTER_EOF), [])
      | c :: s' =>
          let byte := of_byte c in
          let x' := Z.lor x (u64 (Z.shiftl (Z.land byte 0x7F) shift)) in
          if Z.land byte 0x80 =? 0 then (Ok x', s') else readVarUInt_loop i' (shift + 7) x' s'
      end
  end.
Definition readVarUInt : Reader Z := readVarUInt_loop 9 0 0.

(** The thresholds are powers of two: [2 ^ 7], [2 ^ 14] and so on up to [2 ^ 56]. *)
Fixpoint varuint_length (n : nat) (bound x : Z) : Z :=
  match n with
  | O => 1
  | S n' => if x <? bound then 1 else 1 + varuint_length n' (bound * 128) x
  end.
Definition getLengthOfVarUInt (x : Z) : Z := varuint_length 8 128 x.

(** ** Servers *)

(** [nuraft::srv_config(id, 0, endpoint, "", learner, priority)] *)
Record srv_config := mkServer {
  srv_id : Z;
  srv_endpoint : string;
  srv_learner : bool;
  srv_priority : Z
}.

#[export] Instance srv_config_eq_dec : EqDecision srv_config.
Proof. solve_decision. Defined.

(** What the settings file says under one key; [None] where it says nothing. *)
Record ServerKey := mkServerKey {
  sk_key : string;
  sk_id : option Z;
  sk_host : option string;
  sk_internal_port : option string;
  sk_learner : option bool;
  sk_priority : option Z;
  sk_start_as_follower : option bool
}.

Record StateManager := mkStateManager {
  my_id : Z;
  my_host : string;
  my_internal_port : Z;
  start_as_follower_servers : gset Z;
  cur_cluster_config : list srv_config;
  cluster_config_file : option bytes;
  srv_state_file : option bytes
}.

Definition set_follower_servers (x : gset Z) (m : StateManager) : StateManager :=
  mkStateManager (my_id m) (my_host m) (my_internal_port m) x (cur_cluster_config m) (cluster_config_file m) (srv_state_file m).
Definition setClusterConfig (x : list srv_config) (m : StateManager) : StateManager :=
  mkStateManager (my_id m) (my_host m) (my_internal_port m) (start_as_follower_servers m) x (cluster_config_file m) (srv_state_file m).
Definition set_config_file (x : bytes) (m : StateManager) : StateManager :=
  mkStateManager (my_id m) (my_host m) (my_internal_port m) (start_as_follower_servers m) (cur_cluster_config m) (Some x) (srv_state_file m).
Definition set_state_file (x : bytes) (m : StateManager) : StateManager :=
  mkStateManager (my_id m) (my_host m) (my_internal_port m) (start_as_follower_servers m) (cur_cluster_config m) (cluster_config_file m) (Some x).

(** [config.getInt] and [config.getString] without a default throw. *)
Definition required {A} (o : option A) : outcome A := match o with Some a => Ok a | None => Fault (Throw POCO_NOT_FOUND) end.

Fixpoint parse_servers (keys : list ServerKey) : SM (gset Z) (list srv_config) :=
  match keys with
  | [] => sm_ret []
  | k :: keys' =>
      if startsWith (sk_key k) "server" then
        (id <- sm_lift (required (sk_id k)) ;; host <- sm_lift (required (sk_host k)) ;;
         let endpoint := String.append host (String.append ":" (default "8103" (sk_internal_port k))) in
         (if default false (sk_start_as_follower k) then sm_modify (fun X => {[id]} ∪ X) else sm_ret tt) ;;;
         rest <- parse_servers keys' ;;
         sm_ret (mkServer id endpoint (default false (sk_learner k)) (default 1 (sk_priority k)) :: rest))%sm
      else parse_servers keys'
  end.

Definition parseClusterConfig (keys : list ServerKey) : SM StateManager (list srv_config) := fun m =>
  match parse_servers keys (start_as_follower_servers m) with
  | (Ok [], X) =>
      (Ok [mkServer (my_id m) (String.append (my_host m) (String.append ":" (pretty (my_internal_port m)))) false 1], set_follower_servers X m)
  | (r, X) => (r, set_follower_servers X m)
  end.

Definition shouldStartAsFollower (m : StateManager) : bool := bool_decide (my_id m ∈ start_as_follower_servers m).
Definition getClusterNodeCount (m : StateManager) : Z := Z.of_nat (length (cur_cluster_config m)).

(** ** What changed *)

Inductive ConfigUpdateActionType := RemoveServer | AddServer | UpdatePriority.

#[export] Instance action_type_eq_dec : EqDecision ConfigUpdateActionType.
Proof. solve_decision. Defined.

Record ConfigUpdateAction := mkAction {
  action_type : ConfigUpdateActionType;
  action_server : srv_config
}.

(** [ids\[server->get_id()\] = server] in a loop: the last one with an id stays. *)
Definition server_ids (servers : list srv_config) : gmap Z srv_config :=
  fold_left (fun m s => <[srv_id s := s]> m) servers ∅.

Section diff.
Context `{IterOrder}.

(** The servers of [a] whose id is not in [b], in the order of the table. *)
Definition only_in (a b : gmap Z srv_config) : list srv_config :=
  omap (fun i => match b !! i with Some _ => None | None => a !! i end) (iter_Z (dom a)).

(** The inner loop stops at the first server with the same id. *)
Definition priority_change (new_servers : list srv_config) (old_server : srv_config) : option ConfigUpdateAction :=
  match List.find (fun n => srv_id old_server =? srv_id n) new_servers with
  | Some n => if srv_priority old_server =? srv_priority n then None else Some (mkAction UpdatePriority n)
  | None => None
  end.

Definition config_diff (old_servers new_servers : list srv_config) : list ConfigUpdateAction :=
  let old_ids := server_ids old_servers in
  let new_ids := server_ids new_servers in
  (mkAction RemoveServer <$> only_in old_ids new_ids) ++
  (mkAction AddServer <$> only_in new_ids old_ids) ++
  omap (priority_change new_servers) old_servers.

Definition getConfigurationDiff (keys : list ServerKey) : SM StateManager (list ConfigUpdateAction) :=
  (new_cluster_config <- parseClusterConfig keys ;; old_cluster_config <- sm_get cur_cluster_config ;;
   sm_ret (config_diff old_cluster_config new_cluster_config))%sm.
End diff.

(** ** Making the change *)

(** What Raft shows at a turn of a loop: whether it has the server, and whether this
    server leads. *)
Record RaftView := mkView {
  view_present : bool;
  view_leader : bool
}.

Inductive RaftCall :=
| add_srv (server : srv_config)
| remove_srv (id : Z)
| set_priority (id priority : Z)
| yield_leadership.

(** The loops of [applyConfigurationUpdate] over the tries: [want] is whether the
    server is to be there. *)
Fixpoint change_loop (want : bool) (call : RaftCall) (views : list RaftView) : bool * list RaftCall :=
  match views with
  | [] => (false, [])
  | v :: views' =>
      if Bool.eqb (view_present v) want then (true, [])
      else if negb (view_leader v) then (false, [])
      else let '(r, calls) := change_loop want call views' in (r, call :: calls)
  end.

Definition applyConfigurationUpdate (my_id' : Z) (task : ConfigUpdateAction) (views : list RaftView) : outcome bool * list RaftCall :=
  let server := action_server task in
  let changed r := if (r.1 : bool) then (Ok true, r.2) else (Fault (Throw RAFT_ERROR), r.2) in
  match action_type task with
  | AddServer => changed (change_loop true (add_srv server) views)
  | RemoveServer =>
      if srv_id server =? my_id' then (Ok false, [yield_leadership])
      else changed (change_loop false (remove_srv (srv_id server)) views)
  | UpdatePriority => (Ok true, [set_priority (srv_id server) (srv_priority server)])
  end.

Fixpoint wait_loop (want : bool) (views : list RaftView) : bool :=
  match views with
  | [] => false
  | v :: views' => if Bool.eqb (view_present v) want then true else if view_leader v then false else wait_loop want views'
  end.

Definition waitConfigurationUpdate (task : ConfigUpdateAction) (views : list RaftView) : bool :=
  match action_type task with
  | AddServer => wait_loop true views
  | RemoveServer => wait_loop false views
  | UpdatePriority => true
  end.

(** A turn of the inner loop of [updateConfigurationThread]. *)
Record Turn := mkTurn {
  turn_shutdown : bool;
  turn_leader : bool;
  turn_views : list RaftView
}.

Inductive ActionEnd :=
| ActionDone
| ActionDropped      (* an exception: the action was popped and is not tried again *)
| ActionStopped      (* shutdown *)
| ActionGoesOn.

Fixpoint run_action (my_id' : Z) (task : ConfigUpdateAction) (turns : list Turn) : ActionEnd * list RaftCall :=
  match turns with
  | [] => (ActionGoesOn, [])
  | t :: turns' =>
      if turn_shutdown t then (ActionStopped, [])
      else
        let '(r, calls) := if turn_leader t then applyConfigurationUpdate my_id' task (turn_views t)
                           else (Ok (waitConfigurationUpdate task (turn_views t)), []) in
        match r with
        | Ok true => (ActionDone, calls)
        | Ok false => let '(e, calls') := run_action my_id' task turns' in (e, calls ++ calls')
        | Fault _ => (ActionDropped, calls)
        end
  end.

(** [updateConfiguration]: the queue the thread takes the changes from. *)
Definition updateConfiguration `{IterOrder} (keys : list ServerKey) (queue : list ConfigUpdateAction) : SM StateManager (list ConfigUpdateAction) :=
  (diff <- getConfigurationDiff keys ;; sm_ret (queue ++ diff))%sm.

(** ** Files *)

Section files.
(** NuRaft's serialization of its configuration and of its state. *)
Context (le_config : list srv_config -> bytes) (de_config : bytes -> outcome (list srv_config)).
Context (State : Type) (state0 : State) (le_state : State -> bytes) (de_state : bytes -> outcome State).

Definition load_config : SM StateManager (list srv_config) := fun m =>
  match cluster_config_file m with
  | None => (Ok (cur_cluster_config m), m)
  | Some file =>
      match (size <- readVarUInt ;; bs <- readStrict (Z.to_nat size) ;; sm_lift (de_config bs))%sm file with
      | (Ok c, _) => (Ok c, setClusterConfig c m)
      | (Fault f, _) => (Fault f, m)
      end
  end.

Definition save_config (config : list srv_config) : SM StateManager unit := fun m =>
  let data := le_config config in
  let m1 := set_config_file (writeVarUInt (Z.of_nat (length data)) ++ data) m in
  match de_config data with
  | Ok c => (Ok tt, setClusterConfig c m1)
  | Fault f => (Fault f, m1)
  end.

Definition save_state (state : State) (m : StateManager) : StateManager := set_state_file (le_state state) m.

Definition read_state (m : StateManager) : outcome State :=
  match srv_state_file m with None => Ok state0 | Some data => de_state data end.
End files.
