(* ===== verification/ClusterTheorems.v ===== *)
(** * The configuration of the cluster is the one asked for

    Numbers of variable length are read back, a configuration that was saved is
    loaded again, and the changes computed from a new settings file, made one
    after the other, lead to it. *)

From S2P Require Import Prelude Coordination Paths Wire Cluster.

(** ** Numbers of variable length *)

Lemma low_bits x : Z.land x 127 = x mod 128.
Proof. change 127 with (Z.ones 7). by rewrite Z.land_ones by lia. Qed.

Lemma varuint_split x : Z.lor (Z.land x 127) (Z.shiftl (Z.shiftr x 7) 7) = x.
Proof.
  change 127 with (Z.ones 7). apply Z.bits_inj'. intros k Hk. rewrite Z.lor_spec, Z.land_spec, Z.shiftl_spec by lia.
  destruct (Z.lt_ge_cases k 7) as [Hlt|Hge].
  - rewrite Z.ones_spec_low, (Z.testbit_neg_r _ (k - 7)) by lia. by rewrite andb_true_r, orb_false_r.
  - rewrite Z.ones_spec_high, Z.shiftr_spec by lia. rewrite andb_false_r. cbn. f_equal. lia.
Qed.

Lemma bit7_clear y : 0 <= y < 128 -> Z.land y 128 = 0.
Proof.
  intros Hy. apply Z.bits_inj'. intros k Hk. rewrite Z.land_spec, Z.bits_0. change 128 with (2 ^ 7). rewrite Z.pow2_bits_eqb by lia.
  destruct (Z.eqb_spec 7 k) as [<-|]; [|by rewrite andb_false_r]. rewrite andb_true_r. apply Z.bits_above_log2; [lia|].
  destruct (Z.eq_dec y 0) as [->|]; [cbn; lia|apply Z.log2_lt_pow2; lia].
Qed.

(** A byte of the number: its low bits, and whether more follow. *)
Lemma varuint_byte x : 0 <= x ->
  let byte := of_byte (byte_of (Z.lor (Z.land x 0x7F) (if 0x7F <? x then 0x80 else 0))) in
  Z.land byte 0x7F = Z.land x 0x7F /\ (Z.land byte 0x80 =? 0) = (x <=? 0x7F).
Proof.
  intros Hx. pose proof (Z.mod_pos_bound x 128 ltac:(lia)) as Hm. rewrite low_bits.
  assert (forall b, 0 <= b < 256 -> of_byte (byte_of b) = b) as Hb by (intros b Hb; rewrite of_byte_of; by apply Z.mod_small).
  destruct (Z.ltb_spec 0x7F x) as [Hlt|Hge].
  - assert (Z.lor (x mod 128) 128 = x mod 128 + 128) as Hlor by (rewrite <- Z.lxor_lor, <- Z.add_nocarry_lxor; auto using bit7_clear).
    rewrite Hlor, Hb by lia. rewrite (proj2 (Z.leb_gt _ _)) by lia. split.
    + rewrite low_bits. replace (x mod 128 + 128) with (x mod 128 + 1 * 128) by lia. by rewrite Z.mod_add, Z.mod_mod.
    + apply Z.eqb_neq. intros E. assert (Z.testbit (Z.land (x mod 128 + 128) 128) 7 = false) as Ht by (by rewrite E).
      rewrite Z.land_spec, <- Hlor, Z.lor_spec in Ht. by rewrite orb_true_r in Ht.
  - rewrite Z.lor_0_r, Hb by lia. rewrite (proj2 (Z.leb_le _ _)) by lia. split; [rewrite low_bits; by apply Z.mod_mod|].
    rewrite bit7_clear by lia. done.
Qed.

Lemma varuint_loop_roundtrip n : forall x acc shift rest,
  0 <= x < 2 ^ (7 * Z.of_nat (S n)) -> 0 <= shift -> shift + 7 * Z.of_nat (S n) <= 63 ->
  readVarUInt_loop (S n) shift acc (writeVarUInt_loop (S n) x ++ rest) = (Ok (Z.lor acc (Z.shiftl x shift)), rest).
Proof.
  induction n as [|n IH]; intros x acc shift rest Hx Hs Hn; [|remember (S n) as n1 eqn:Heqn1]; cbn [writeVarUInt_loop readVarUInt_loop app];
    destruct (varuint_byte x ltac:(lia)) as [E1 E2]; rewrite E1, E2.
  - assert (x < 128) by (change (2 ^ (7 * Z.of_nat 1)) with 128 in Hx; lia). rewrite (proj2 (Z.leb_le _ _)) by lia.
    replace (Z.shiftr x 7) with 0 by (rewrite Z.shiftr_div_pow2 by lia; symmetry; apply Z.div_small; lia). cbn [Z.eqb app].
    rewrite low_bits, Z.mod_small by lia. rewrite u64_id; [done|]. rewrite Z.shiftl_mul_pow2 by lia. unfold in_u64.
    pose proof (Z.pow_pos_nonneg 2 shift). assert (2 ^ shift <= 2 ^ 56) by (apply Z.pow_le_mono_r; lia). nia.
  - assert (u64 (Z.shiftl (Z.land x 127) shift) = Z.shiftl (Z.land x 127) shift) as Eu.
    { apply u64_id. rewrite Z.shiftl_mul_pow2, low_bits by lia. pose proof (Z.mod_pos_bound x 128 ltac:(lia)). unfold in_u64.
      pose proof (Z.pow_pos_nonneg 2 shift). assert (2 ^ shift <= 2 ^ 56) by (apply Z.pow_le_mono_r; lia). nia. }
    rewrite Eu. assert (Z.shiftr x 7 = x / 128) as Er by (by rewrite Z.shiftr_div_pow2).
    destruct (Z.leb_spec x 0x7F) as [Hle|Hgt].
    + rewrite Er, Z.div_small by lia. cbn [Z.eqb app]. by rewrite low_bits, Z.mod_small by lia.
    + rewrite (proj2 (Z.eqb_neq (Z.shiftr x 7) 0)) by (rewrite Er; intros E; apply Z.div_small_iff in E; lia).
      cbn [app]. rewrite IH; [|rewrite Er; split; [apply Z.div_pos; lia|]|lia|lia].
      * f_equal. f_equal. rewrite <- Z.lor_assoc. f_equal. rewrite Z.add_comm, <- Z.shiftl_shiftl by lia.
        rewrite <- Z.shiftl_lor. by rewrite varuint_split.
      * subst n1. apply Z.div_lt_upper_bound; [lia|]. replace (128 * 2 ^ (7 * Z.of_nat (S n))) with (2 ^ (7 * Z.of_nat (S (S n)))); [lia|].
        change 128 with (2 ^ 7). rewrite <- Z.pow_add_r by lia. f_equal. lia.
Qed.

Lemma varuint_roundtrip x rest : 0 <= x < 2 ^ 63 -> readVarUInt (writeVarUInt x ++ rest) = (Ok x, rest).
Proof.
  intros Hx. unfold readVarUInt, writeVarUInt. rewrite varuint_loop_roundtrip by (done || lia). by rewrite Z.shiftl_0_r.
Qed.

#[export] Instance wire_varuint : WireFormat writeVarUInt readVarUInt (fun x => 0 <= x < 2 ^ 63).
Proof. intros x rest Hx. by apply varuint_roundtrip. Qed.

Lemma varuint_length_scale n : forall b x, 0 < b -> 0 <= x -> varuint_length n (b * 128) x = varuint_length n b (Z.shiftr x 7).
Proof.
  induction n as [|n IH]; intros b x Hb Hx; cbn [varuint_length]; [done|]. rewrite IH by lia. rewrite Z.shiftr_div_pow2 by lia.
  change (2 ^ 7) with 128. pose proof (Z.div_mod x 128 ltac:(lia)). pose proof (Z.mod_pos_bound x 128 ltac:(lia)).
  destruct (Z.ltb_spec x (b * 128)), (Z.ltb_spec (x / 128) b); done || nia.
Qed.

Lemma varuint_loop_length n : forall x, 0 <= x -> Z.of_nat (length (writeVarUInt_loop (S n) x)) = varuint_length n 128 x.
Proof.
  induction n as [|n IH]; intros x Hx; [by cbn; destruct (_ =? 0)|]. remember (S n) as n1. cbn [writeVarUInt_loop length]. subst n1. cbn [varuint_length].
  assert (0 <= Z.shiftr x 7) by (by apply Z.shiftr_nonneg). rewrite varuint_length_scale by lia.
  assert ((Z.shiftr x 7 =? 0) = (x <? 128)) as ->.
  { rewrite Z.shiftr_div_pow2 by lia. change (2 ^ 7) with 128. pose proof (Z.div_mod x 128 ltac:(lia)). pose proof (Z.mod_pos_bound x 128 ltac:(lia)).
    destruct (Z.eqb_spec (x / 128) 0), (Z.ltb_spec x 128); done || lia. }
  destruct (x <? 128); [done|]. rewrite Nat2Z.inj_succ, IH by done. lia.
Qed.

(** The length announced for a number is that of what is written. *)
Lemma varuint_length_ok x : 0 <= x -> Z.of_nat (length (writeVarUInt x)) = getLengthOfVarUInt x.
Proof. apply varuint_loop_length. Qed.

(** Nine bytes hold 63 bits: the top bit of larger numbers is lost. *)
Lemma varuint_loses_top_bit : readVarUInt (writeVarUInt (2 ^ 63 + 5)) = (Ok 5, []).
Proof. vm_compute. reflexivity. Qed.

(** ** The changes lead to the new configuration *)

Definition with_priority (p : Z) (s : srv_config) : srv_config := mkServer (srv_id s) (srv_endpoint s) (srv_learner s) p.

(** NuRaft: the servers of the cluster when a change has been committed, and what
    it documents of it. [remove_srv] removes a server of the cluster, [add_srv] adds
    one whose id is not taken, and [set_priority] changes the priority of one; no
    other server is affected. *)
Class Membership := {
  committed_change : gmap Z srv_config -> ConfigUpdateAction -> gmap Z srv_config;
  remove_srv_ok m s i : is_Some (m !! srv_id s) ->
    committed_change m (mkAction RemoveServer s) !! i = if decide (i = srv_id s) then None else m !! i;
  add_srv_ok m s i : m !! srv_id s = None ->
    committed_change m (mkAction AddServer s) !! i = if decide (i = srv_id s) then Some s else m !! i;
  set_priority_ok m s t i : m !! srv_id s = Some t ->
    committed_change m (mkAction UpdatePriority s) !! i = if decide (i = srv_id s) then Some (with_priority (srv_priority s) t) else m !! i
}.

Lemma server_ids_snoc l s : server_ids (l ++ [s]) = <[srv_id s := s]> (server_ids l).
Proof. unfold server_ids. by rewrite fold_left_app. Qed.

Lemma server_ids_lookup l : NoDup (srv_id <$> l) -> forall i s, server_ids l !! i = Some s <-> s ∈ l /\ srv_id s = i.
Proof.
  induction l as [|s l IH] using rev_ind; intros Hnd i s'; [unfold server_ids; cbn; rewrite lookup_empty; set_solver|].
  rewrite fmap_app in Hnd. apply NoDup_app in Hnd as (Hnd & Hd & _). rewrite server_ids_snoc, lookup_insert. case_decide as Hi.
  - split; [intros [= <-]; set_solver|]. intros [[Hin|Hin%list_elem_of_singleton]%elem_of_app E]; [|by subst].
    destruct (Hd (srv_id s')); [by apply list_elem_of_fmap_2|]. cbn. rewrite E, <- Hi. set_solver.
  - rewrite IH by done. set_solver.
Qed.

Section changes.
Context `{Membership}.

Lemma fold_remove l : forall m, NoDup (srv_id <$> l) -> (forall s, s ∈ l -> is_Some (m !! srv_id s)) -> forall i,
  fold_left committed_change (mkAction RemoveServer <$> l) m !! i = if decide (i ∈ srv_id <$> l) then None else m !! i.
Proof.
  induction l as [|s l IH]; intros m Hnd Hm i; [done|]. cbn [fmap list_fmap fold_left]. cbn in Hnd. apply NoDup_cons in Hnd as [Hs Hnd].
  rewrite IH; [|done|].
  - rewrite remove_srv_ok by (apply Hm; by left). repeat case_decide; set_solver.
  - intros s' Hs'. rewrite remove_srv_ok by (apply Hm; by left). rewrite decide_False; [apply Hm; by right|].
    intros E. apply Hs. rewrite <- E. by apply list_elem_of_fmap_2.
Qed.

Lemma fold_add l m : NoDup (srv_id <$> l) -> (forall s, s ∈ l -> m !! srv_id s = None) -> forall i,
  fold_left committed_change (mkAction AddServer <$> l) m !! i = match server_ids l !! i with Some s => Some s | None => m !! i end.
Proof.
  induction l as [|s l IH] using rev_ind; intros Hnd Hm i; [done|]. rewrite !fmap_app in *. apply NoDup_app in Hnd as (Hnd & Hd & _).
  assert (server_ids l !! srv_id s = None) as Hs.
  { destruct (server_ids l !! srv_id s) as [s'|] eqn:E; [|done]. apply server_ids_lookup in E as [Hin E]; [|done].
    destruct (Hd (srv_id s')); [by apply list_elem_of_fmap_2|]. rewrite E. set_solver. }
  specialize (IH Hnd ltac:(set_solver)). rewrite fold_left_app, server_ids_snoc, lookup_insert. cbn.
  rewrite add_srv_ok by (rewrite IH, Hs; apply Hm; set_solver). rewrite IH. repeat case_decide; naive_solver.
Qed.
End changes.

Section diff.
Context `{IterOrder} `{Membership} (old new : list srv_config).
Hypothesis Hold : NoDup (srv_id <$> old).
Hypothesis Hnew : NoDup (srv_id <$> new).

Lemma elem_of_only_in (a b : gmap Z srv_config) s :
  (forall i s, a !! i = Some s -> srv_id s = i) -> s ∈ only_in a b <-> a !! srv_id s = Some s /\ b !! srv_id s = None.
Proof.
  intros Ha. unfold only_in. rewrite list_elem_of_omap. setoid_rewrite elem_of_iter_Z. setoid_rewrite elem_of_dom. split.
  - intros (i & Hi & E). destruct (b !! i) eqn:Eb; [done|]. by rewrite (Ha i s E).
  - intros [E1 E2]. exists (srv_id s). rewrite E1, E2. eauto.
Qed.

Lemma NoDup_only_in (a b : gmap Z srv_config) : (forall i s, a !! i = Some s -> srv_id s = i) -> NoDup (srv_id <$> only_in a b).
Proof.
  intros Ha. unfold only_in. pose proof (NoDup_iter_Z (dom a)) as Hnd. induction Hnd as [|i l Hi _ IH]; [constructor|]. cbn.
  destruct (b !! i); [done|]. destruct (a !! i) as [s|] eqn:E; [|done]. cbn. apply NoDup_cons. split; [|done].
  rewrite (Ha i s E). intros (s' & Es & (j & Hj & E')%list_elem_of_omap)%list_elem_of_fmap. destruct (b !! j); [done|]. apply Ha in E'. congruence.
Qed.

Lemma lookup_only_in (a b : gmap Z srv_config) i : (forall i s, a !! i = Some s -> srv_id s = i) ->
  server_ids (only_in a b) !! i = match b !! i with Some _ => None | None => a !! i end.
Proof.
  intros Ha. apply option_eq. intros s. rewrite server_ids_lookup, elem_of_only_in by (done || by apply NoDup_only_in). split.
  - intros [[E1 E2] <-]. by rewrite E2.
  - destruct (b !! i) eqn:Eb; [done|]. intros E. pose proof (Ha _ _ E) as <-. done.
Qed.

Lemma id_of_only_in (a b : gmap Z srv_config) i : (forall i s, a !! i = Some s -> srv_id s = i) ->
  i ∈ srv_id <$> only_in a b <-> is_Some (a !! i) /\ b !! i = None.
Proof.
  intros Ha. rewrite list_elem_of_fmap. setoid_rewrite elem_of_only_in; [|done..]. split.
  - intros (s & -> & E1 & E2). eauto.
  - intros [[s E] E2]. pose proof (Ha _ _ E) as <-. eauto.
Qed.

Lemma only_in_nil (a b : gmap Z srv_config) : (forall i s, a !! i = Some s -> srv_id s = i) -> dom a ⊆ dom b -> only_in a b = [].
Proof.
  intros Ha Hd. apply elem_of_nil_inv. intros s [E1 E2]%elem_of_only_in; [|done]. apply not_elem_of_dom in E2. apply E2, Hd. by eapply elem_of_dom_2.
Qed.

Lemma ids_ok l : NoDup (srv_id <$> l) -> forall i s, server_ids l !! i = Some s -> srv_id s = i.
Proof. intros Hl i s E. by apply server_ids_lookup in E as [_ ?]. Qed.

Lemma find_new s n : List.find (fun n => srv_id s =? srv_id n) new = Some n <-> server_ids new !! srv_id s = Some n.
Proof.
  rewrite server_ids_lookup by done. split.
  - intros [Hin E%Z.eqb_eq]%find_some. split; [by apply list_elem_of_In|done].
  - intros [Hin E]. revert Hnew Hin. clear -E. induction new as [|n0 l IH]; intros Hnd Hin; [set_solver|]. cbn [List.find].
    cbn in Hnd. apply NoDup_cons in Hnd as [Hn Hnd]. destruct (Z.eqb_spec (srv_id s) (srv_id n0)) as [E0|E0].
    + apply elem_of_cons in Hin as [->|Hin]; [done|]. destruct Hn. rewrite <- E0, <- E. by apply list_elem_of_fmap_2.
    + apply elem_of_cons in Hin as [->|Hin]; [done|by apply IH].
Qed.

(** The server [s] of the old configuration with the priority the new one gives. *)
Lemma priority_step s m : m !! srv_id s = Some s -> forall i,
  fold_left committed_change (omap (priority_change new) [s]) m !! i =
  match server_ids new !! i with
  | Some n => if decide (i = srv_id s) then Some (with_priority (srv_priority n) s) else m !! i
  | None => m !! i
  end.
Proof.
  intros Em i. cbn [omap list_omap]. unfold priority_change. destruct (List.find _ new) as [n|] eqn:Ef.
  - pose proof Ef as Hn%find_new. pose proof Hn as [_ En]%server_ids_lookup; [|done].
    destruct (decide (i = srv_id s)) as [->|Hne].
    + rewrite Hn. destruct (Z.eqb_spec (srv_priority s) (srv_priority n)) as [Ep|Ep]; cbn.
      * rewrite Em. unfold with_priority. rewrite <- Ep. by destruct s.
      * rewrite (set_priority_ok _ _ s) by (by rewrite En). by rewrite En, decide_True.
    + destruct (_ =? _); cbn; [by destruct (server_ids new !! i)|].
      rewrite (set_priority_ok _ _ s) by (by rewrite En). rewrite En, decide_False by done. by destruct (server_ids new !! i).
  - cbn. destruct (server_ids new !! i) as [n|] eqn:E; [|done]. case_decide as Hi; [|done]. subst i. apply find_new in E. congruence.
Qed.

Lemma fold_priority l m : NoDup (srv_id <$> l) ->
  (forall s, s ∈ l -> is_Some (server_ids new !! srv_id s) -> m !! srv_id s = Some s) -> forall i,
  fold_left committed_change (omap (priority_change new) l) m !! i =
  match server_ids l !! i, server_ids new !! i with
  | Some s, Some n => Some (with_priority (srv_priority n) s)
  | _, _ => m !! i
  end.
Proof.
  induction l as [|s l IH] using rev_ind; intros Hnd Hm i; [done|]. rewrite fmap_app in Hnd. apply NoDup_app in Hnd as (Hnd & Hd & _).
  rewrite omap_app, fold_left_app, server_ids_snoc, lookup_insert. specialize (IH Hnd ltac:(set_solver)).
  assert (server_ids l !! srv_id s = None) as Hs.
  { destruct (server_ids l !! srv_id s) as [s'|] eqn:E; [|done]. apply server_ids_lookup in E as [Hin E]; [|done].
    destruct (Hd (srv_id s')); [by apply list_elem_of_fmap_2|]. rewrite E. set_solver. }
  destruct (server_ids new !! srv_id s) as [n|] eqn:En.
  - rewrite priority_step by (rewrite IH, Hs; apply Hm; [set_solver|eauto]). rewrite IH. repeat case_decide; simplify_eq.
    + by rewrite En.
    + by destruct (server_ids l !! i), (server_ids new !! i).
  - cbn. unfold priority_change. destruct (List.find _ new) as [n|] eqn:Ef; [apply find_new in Ef; congruence|]. cbn.
    rewrite IH. case_decide; simplify_eq; [by rewrite Hs, En|done].
Qed.

(** After the removals and the additions. *)
Lemma changed_servers i :
  fold_left committed_change (mkAction AddServer <$> only_in (server_ids new) (server_ids old))
    (fold_left committed_change (mkAction RemoveServer <$> only_in (server_ids old) (server_ids new)) (server_ids old)) !! i =
  match server_ids old !! i, server_ids new !! i with
  | Some s, Some n => Some s
  | None, Some n => Some n
  | _, None => None
  end.
Proof.
  pose proof (ids_ok old Hold) as Ho. pose proof (ids_ok new Hnew) as Hn.
  assert (forall i, fold_left committed_change (mkAction RemoveServer <$> only_in (server_ids old) (server_ids new)) (server_ids old) !! i =
    if decide (i ∈ srv_id <$> only_in (server_ids old) (server_ids new)) then None else server_ids old !! i) as Hr.
  { intros j. apply fold_remove; [by apply NoDup_only_in|]. intros s [E _]%elem_of_only_in; [by eexists|done]. }
  rewrite fold_add; [|by apply NoDup_only_in|].
  - rewrite Hr, lookup_only_in by done. case_decide as Hi; rewrite id_of_only_in in Hi by done;
      destruct (server_ids old !! i), (server_ids new !! i); naive_solver.
  - intros s [_ E]%elem_of_only_in; [|done]. rewrite Hr. case_decide; done.
Qed.

(** C16: Making the changes of [getConfigurationDiff] one after the other, each
    committed before the next, leads to the new set of servers: a server that is
    only in the new configuration is as configured there, one that is only in the
    old one is gone, and a server of both gets the new priority and keeps its old
    endpoint and role, so that the cluster is the new configuration exactly when
    these did not change. *)
Theorem config_diff_leads_to_new :
  let cluster := fold_left committed_change (config_diff old new) (server_ids old) in
  (forall i, cluster !! i =
    match server_ids old !! i, server_ids new !! i with
    | Some s, Some n => Some (with_priority (srv_priority n) s)
    | None, Some n => Some n
    | _, None => None
    end) /\
  (cluster = server_ids new <-> forall i s n, server_ids old !! i = Some s -> server_ids new !! i = Some n ->
     srv_endpoint s = srv_endpoint n /\ srv_learner s = srv_learner n).
Proof.
  intros cluster. pose proof (ids_ok old Hold) as Ho. pose proof (ids_ok new Hnew) as Hn.
  assert (forall i, cluster !! i = match server_ids old !! i, server_ids new !! i with
    | Some s, Some n => Some (with_priority (srv_priority n) s) | None, Some n => Some n | _, None => None end) as Hall.
  { intros i. subst cluster. unfold config_diff. rewrite !fold_left_app. rewrite fold_priority; [|done|].
    - rewrite changed_servers. by destruct (server_ids old !! i), (server_ids new !! i).
    - intros s Hs [n En]. rewrite changed_servers, En.
      assert (server_ids old !! srv_id s = Some s) as -> by by apply server_ids_lookup. done. }
  split; [done|]. split.
  - intros E i s n Es En. specialize (Hall i). rewrite E, Es, En in Hall. injection Hall as ->. done.
  - intros Hsame. apply map_eq. intros i. rewrite Hall. destruct (server_ids old !! i) as [s|] eqn:Es, (server_ids new !! i) as [n|] eqn:En; try done.
    destruct (Hsame _ _ _ Es En) as [E1 E2]. f_equal. pose proof (Ho _ _ Es) as E3. rewrite <- (Hn _ _ En) in E3.
    destruct s, n. unfold with_priority. cbn in *. congruence.
Qed.

(** A configuration with the same ids and the same priorities gives no change at all,
    whatever it says of the addresses and the roles. *)
Lemma same_ids_no_change : dom (server_ids old) = dom (server_ids new) ->
  (forall s n, s ∈ old -> n ∈ new -> srv_id s = srv_id n -> srv_priority s = srv_priority n) -> config_diff old new = [].
Proof.
  intros Hdom Hp. unfold config_diff. rewrite !only_in_nil by (set_solver || by apply ids_ok). cbn.
  apply elem_of_nil_inv. intros a (s & Hs & E)%list_elem_of_omap. unfold priority_change in E.
  destruct (List.find _ new) as [n|] eqn:Ef; [|done]. apply find_some in Ef as [Hn Ei%Z.eqb_eq].
  rewrite (Hp s n) in E by (done || by apply list_elem_of_In). by rewrite Z.eqb_refl in E.
Qed.
End diff.

Definition cluster_of_two : list srv_config := [mkServer 1 "a:8103" false 1; mkServer 2 "b:8103" false 1].
Definition cluster_moved : list srv_config := [mkServer 2 "c:8103" true 5; mkServer 3 "d:8103" false 1].

Definition demo_change (m : gmap Z srv_config) (a : ConfigUpdateAction) : gmap Z srv_config :=
  let s := action_server a in
  match action_type a with
  | RemoveServer => delete (srv_id s) m
  | AddServer => <[srv_id s := s]> m
  | UpdatePriority => alter (with_priority (srv_priority s)) (srv_id s) m
  end.

#[local] Instance demo_membership : Membership.
Proof.
  refine {| committed_change := demo_change |}; intros m s; cbn.
  - intros i _. rewrite lookup_delete. repeat case_decide; congruence.
  - intros i _. rewrite lookup_insert. repeat case_decide; congruence.
  - intros t i E. case_decide as Hi; [by rewrite Hi, lookup_alter_eq, E|by rewrite lookup_alter_ne].
Defined.

Lemma config_diff_leads_to_new_witness :
  let cluster := fold_left committed_change (config_diff cluster_of_two cluster_moved) (server_ids cluster_of_two) in
  cluster !! 2 = Some (mkServer 2 "b:8103" false 5) /\ cluster <> server_ids cluster_moved.
Proof.
  assert (NoDup (srv_id <$> cluster_of_two) /\ NoDup (srv_id <$> cluster_moved)) as [H1 H2].
  { split; apply NoDup_ListNoDup; repeat constructor; cbn; intuition lia. }
  destruct (config_diff_leads_to_new cluster_of_two cluster_moved H1 H2) as [Hall Hsame]. intros cluster. split; [rewrite Hall; reflexivity|].
  intros E. pose proof (proj1 Hsame E 2 _ _ eq_refl eq_refl) as [E1 _]. discriminate E1.
Defined.

(** A server that moves to another address under its old id is not moved. *)
Lemma changed_endpoint_ignored s e learner : config_diff [s] [mkServer (srv_id s) e learner (srv_priority s)] = [].
Proof.
  apply same_ids_no_change; cbn; try (apply NoDup_singleton); [unfold server_ids; cbn; by rewrite !dom_insert_L|].
  intros ? ? ->%list_elem_of_singleton ->%list_elem_of_singleton. done.
Qed.

(** ** Making the changes *)

(** Whether the server of the action is to be in the cluster. *)
Definition wanted (task : ConfigUpdateAction) : bool := bool_decide (action_type task = AddServer).

Lemma change_loop_seen want call views r calls : change_loop want call views = (r, calls) ->
  calls = replicate (length calls) call /\ (length calls <= length views)%nat /\
  (r = true -> exists v, v ∈ views /\ view_present v = want).
Proof.
  revert r calls. induction views as [|v views IH]; intros r calls; cbn; [by intros [= <- <-]|].
  destruct (Bool.eqb_spec (view_present v) want); [intros [= <- <-]; repeat split; [cbn; lia|set_solver]|].
  destruct (view_leader v); cbn; [|by intros [= <- <-]; repeat split; cbn; [lia|]].
  destruct (change_loop want call views) as [r' calls'] eqn:E. intros [= <- <-]. destruct (IH _ _ eq_refl) as (Hc & Hl & Hv). cbn.
  split; [by f_equal|]. split; [lia|]. intros Hr. destruct (Hv Hr) as (v' & Hin & Ev). set_solver.
Qed.

Lemma wait_loop_seen want views : wait_loop want views = true -> exists v, v ∈ views /\ view_present v = want.
Proof.
  induction views as [|v views IH]; cbn; [done|]. destruct (Bool.eqb_spec (view_present v) want); [set_solver|].
  destruct (view_leader v); [done|]. intros (v' & Hin & E)%IH. set_solver.
Qed.

Lemma apply_seen me task views calls : applyConfigurationUpdate me task views = (Ok true, calls) ->
  action_type task = UpdatePriority \/ exists v, v ∈ views /\ view_present v = wanted task.
Proof.
  unfold applyConfigurationUpdate, wanted. destruct (action_type task); [destruct (_ =? _); [done|]| |by left];
    (destruct (change_loop _ _ _) as [[] c] eqn:E; [|done]; intros _; right; by eapply change_loop_seen).
Qed.

Lemma wait_seen task views : waitConfigurationUpdate task views = true ->
  action_type task = UpdatePriority \/ exists v, v ∈ views /\ view_present v = wanted task.
Proof. unfold waitConfigurationUpdate, wanted. destruct (action_type task); [..|by left]; intros H%wait_loop_seen; by right. Qed.

(** The thread counts the adding or the removal of a server as done only when Raft
    showed it that the server is there, or is gone. *)
Theorem done_action_was_seen me task turns calls : run_action me task turns = (ActionDone, calls) ->
  action_type task = UpdatePriority \/ exists t v, t ∈ turns /\ v ∈ turn_views t /\ view_present v = wanted task.
Proof.
  revert calls. induction turns as [|t turns IH]; intros calls; cbn; [done|]. destruct (turn_shutdown t); [done|].
  destruct (if turn_leader t then _ else _) as [[[]|] cs] eqn:E.
  - intros _. assert (action_type task = UpdatePriority \/ exists v, v ∈ turn_views t /\ view_present v = wanted task) as [?|(v & Hv & ?)].
    { destruct (turn_leader t); [by eapply apply_seen|]. injection E as E _. by apply wait_seen. }
    + by left.
    + right. exists t, v. set_solver.
  - destruct (run_action me task turns) as [e cs'] eqn:E'. intros [= -> _]. destruct (IH _ eq_refl) as [?|(t' & v & Ht & ?)]; [by left|].
    right. exists t', v. set_solver.
  - done.
Qed.

Lemma done_action_was_seen_witness :
  let task := mkAction AddServer (mkServer 3 "d:8103" false 1) in
  exists t v, t ∈ [mkTurn false true [mkView false true; mkView true true]] /\ v ∈ turn_views t /\ view_present v = wanted task.
Proof.
  intros task. destruct (done_action_was_seen 1 task [mkTurn false true [mkView false true; mkView true true]] [add_srv (action_server task)]) as [H|H];
    [reflexivity|discriminate H|exact H].
Defined.

(** A leader never asks Raft to remove itself: it gives up the lead and asks for nothing
    else, however many turns it leads. *)
Lemma leader_never_removes_itself me s turns calls e : srv_id s = me ->
  run_action me (mkAction RemoveServer s) turns = (e, calls) -> Forall (eq yield_leadership) calls.
Proof.
  intros Hs. revert calls e. induction turns as [|t turns IH]; intros calls e; cbn; [by intros [= _ <-]|].
  destruct (turn_shutdown t); [by intros [= _ <-]|]. rewrite (proj2 (Z.eqb_eq _ _) Hs).
  destruct (run_action me (mkAction RemoveServer s) turns) as [e' cs'] eqn:E'. specialize (IH _ _ eq_refl).
  destruct (turn_leader t); [intros [= _ <-]; by constructor|]. destruct (wait_loop false (turn_views t)); intros [= _ <-]; [constructor|done].
Qed.

(** A server that Raft does not take in: the leader asks once per try and then drops the
    change for good. *)
Lemma refused_change_is_dropped me s n turns :
  run_action me (mkAction AddServer s) (mkTurn false true (replicate n (mkView false true)) :: turns) = (ActionDropped, replicate n (add_srv s)).
Proof.
  cbn. assert (change_loop true (add_srv s) (replicate n (mkView false true)) = (false, replicate n (add_srv s))) as ->; [|done].
  induction n as [|n IH]; cbn; [done|]. by rewrite IH.
Qed.

(** ** Files *)

Section files.
Context (le_config : list srv_config -> bytes) (de_config : bytes -> outcome (list srv_config)).

(** What is saved is loaded: after [save_config] any manager over the same directory
    starts from the saved configuration. *)
Lemma config_survives_restart c m m' :
  de_config (le_config c) = Ok c -> Z.of_nat (length (le_config c)) < 2 ^ 63 ->
  cluster_config_file m' = cluster_config_file (save_config le_config de_config c m).2 ->
  save_config le_config de_config c m = (Ok tt, setClusterConfig c (save_config le_config de_config c m).2) /\
  load_config de_config m' = (Ok c, setClusterConfig c m').
Proof.
  intros Hc Hl. unfold save_config. rewrite Hc. cbn [snd]. intros Hf. split; [done|]. unfold load_config. rewrite Hf. cbn [cluster_config_file setClusterConfig set_config_file].
  unfold sm_bind at 1. rewrite varuint_roundtrip by lia. rewrite Nat2Z.id.
  rewrite <- (app_nil_r (le_config c)) at 2. unfold sm_bind. rewrite readStrict_app. unfold sm_lift. by rewrite Hc.
Qed.
End files.
